(* ===== verification/_CoqProject ===== *)
-Q . S2P
Prelude.v
CppString.v
RefCount.v
StdContainers.v
HttpUrl.v
HttpUrlProps.v
HttpRequest.v
Base64.v
HttpSession.v
Json.v
JsonModel.v
PktBuilder.v
PktProps.v
WebsocketSession.v
WebsocketProps.v
Scheduler.v
SchedulerProps.v
Worker.v
WorkerProps.v
ThreadPool.v
LicodeData.v
NuveApi.v
SafeNumerics.v
SeqNum.v
Units.v
Uint128.v
Buffer.v
Statistics.v
SwapQueue.v
Sigslot.v
CivilTime.v
CivilTimeProps.v
RtcData.v
Webrtc.v
Signaling.v
SignalingProps.v
Room.v
RoomLaws.v
RoomProps.v
RoomInv.v
Client.v
ClientProps.v
Scenarios.v
