(* ===== verification/Prelude.v ===== *)
(** * LicodeCppClient: a verification development

    The program is a C++ client for the Licode video conferencing server: it
    asks the server's REST service (Nuve) for a token, opens a websocket, speaks
    socket.io over it, keeps the room's streams on a worker thread, and drives
    one libwebrtc peer connection per remote stream. The development translates
    it, function by function, into executable definitions and proves what each
    part promises to the next.

    ** The parts and their files

    - This file: byte strings, outcomes ([Ret], [Throw], [Undef] for undefined
      behaviour), machine integers with their wrap-around, the state monad
      [ST S A := S → outcome A * S], and the lemmas, tactics and hints that the
      components share. CppString.v: std::string ([find], [substr], [atoi],
      [to_string]); StdContainers.v: std::map and std::set as sorted lists.
    - messenger/: HttpUrl.v (http_url.h and http_url.cc: modules [Builder] and
      [Url]), HttpUrlProps.v; HttpRequest.v (http_request.h over boost::beast,
      the class [Beast]); WebsocketSession.v (websocket_session.cc),
      WebsocketProps.v.
    - thread/: Scheduler.v (scheduler.cc, the service loop as a step relation),
      SchedulerProps.v; Worker.v (worker.cc), WorkerProps.v; ThreadPool.v.
    - core/: HttpSession.v (SimpleHttpSession of licode_nuve_api.cc), Base64.v,
      NuveApi.v (LicodeNuveApi); Json.v (the interface [JsonLib] to
      nlohmann::json and its laws), JsonModel.v (an executable instance),
      PktBuilder.v (licode_signaling_pkt_builder.cc and _parser.cc), PktProps.v;
      LicodeData.v (the small records); Signaling.v (licode_signaling.cc),
      SignalingProps.v; Room.v (licode_room.cc and the observer interface),
      RoomLaws.v, RoomProps.v, RoomInv.v; Webrtc.v (webrtc_wrapper.cc,
      webrtc_connection.cc).
    - third/webrtc: RtcData.v (the data of the headers the client names),
      RefCount.v (scoped_refptr.h, ref_counter.h, ref_counted_object.h), and the
      headers whose code is in the tree and on which that inline code rests:
      SafeNumerics.v (C++'s integer types, checks.h, safe_compare.h,
      safe_conversions.h, safe_minmax.h, divide_round.h: modules [Int],
      [SafeCmp], [Checks], [Conversions], [MinMax], [DivideRound]), SeqNum.v
      (mod_ops.h, sequence_number_util.h), Units.v (unit_base.h and the five
      units of api/units), Buffer.v (buffer.h), Statistics.v
      (moving_max_counter.h, percentile_filter.h, moving_median_filter.h),
      SwapQueue.v (swap_queue.h), Sigslot.v (sigslot.h), and of abseil Uint128.v
      (int128.h), CivilTime.v and CivilTimeProps.v (civil_time_detail.h).
    - main.cpp: Client.v (TestBasicExampleRoom as observer of the room and of
      its connections, and [main]), ClientProps.v. Scenarios.v runs the theorems
      of the signaling client, the room and the example on sample worlds.

    ** How a component is translated

    A class is a record with the members of the source, named as there; an
    operation is a definition with the name of the method. A component that
    calls others is written over an abstract world: [WsStore] and [WsHost] give
    a session its state and its callbacks, [WorkerStore] and [WorkerHost] do so
    for a worker, [SigStore] and [SigHost] for the signaling client, [Observer]
    for the room. Room.v ties the knot: its [World] holds the room, the
    signaling client, the sessions, the worker, the scheduler and the heap of
    stream objects, instantiates those classes, and Client.v adds the state of
    the example. Pointers to stream objects are locations of that heap, so that
    sharing between the maps, the queues and the posted tasks is kept, and a
    null entry of a map is [None].

    Concurrency is interleaving. A session and a worker are sequences of
    handlers, each atomic, in any order the posted queue and the outstanding
    operations allow ([ws_step], [worker_step], [room_op]). The scheduler's
    threads interleave wherever its mutex is released, with spurious wake-ups
    and timeouts ([sstep]). The http session and its blocked caller interleave
    by statement ([caller_step]), the producer and the consumer of a SwapQueue
    by access to shared memory ([insert_step], [remove_step], [clear_step]), and
    the slots a signal calls with the emission that calls them ([perform]). Data
    races on single variables and memory orders are not modelled.

    ** What the theorems show

    - Urls and requests: parsing what was printed gives the builder back, the
      mutators keep it well formed, the accessors and the request's target are
      the printed parts; and what goes wrong without a path, without segments
      and through the fluent setters.
    - Sessions: messages are written in order, at most one write is
      outstanding, a url is read into its parts with the port at its width, a
      failed write is the last one. The http call ends, within eleven steps,
      and returns the peer's message or a text that counts as failure.
    - Threads: the scheduler runs each function once, never early
      with one thread and possibly early with two; it drains before it exits
      and a stop lets all threads join. A worker starts tasks in order; periodic
      tasks do not drift; the timer reference is null.
    - Nuve: signatures are RFC 4648 base64 of the HMAC, the request on the wire
      is the one described by the call, and bad answers are contained.
    - Signaling: the dispatch is a table lookup, the state follows a small
      abstract machine, packets parse back to the fields that were set, the
      handshake and the sends post exactly the packets they should.
    - Room: its remote streams refine a plain map under every notification, no
      stream pointer dangles after any run, a join is all or nothing,
      acknowledgements match requests in order; and where nulls are inserted or
      a lost connection goes unnoticed.
    - Together: a frame that announces a stream leads, through session,
      signaling, room and worker, to a peer connection of the example client and
      one subscribe packet.
    - libwebrtc: reference counts are exact; signals and slots never reach a
      destroyed object and an emission calls every slot once; a SwapQueue is
      first-in first-out and its threads never hold the same slot; a buffer is
      a list, and with ZeroOnFree leaves no data behind; the moving maximum and
      the percentile are those of their definitions; comparisons, casts, clamps
      and rounded quotients are those of the integers; units are integers with
      two infinities; uint128 is the integers modulo 2^128; sequence numbers
      unwrap to what was wrapped; civil time is exact, with no intermediate
      overflow, in normalisation, differences, steps and weekdays.

    ** Fuel and bounds

    The model's JSON reader uses the length of the text as fuel, which is at
    least what reading any printed value takes; printing a number uses its
    binary size, at least the number of its digits. The loops of the url code
    are structural on the text. The head of the
    scheduler's loop has fuel two ([loop_fuel]): it blocks, leaves or takes a
    function after at most one repetition. Lengths are bounded by [npos], the
    largest size_t; int, int16_t, uint64_t and int64_t conversions wrap or are
    undefined as in C++. Reference counts are exact below 2^31 - 1 references.
    The loops of [n_day] over centuries, four years, years and months make at
    most 4, 25, 4 and 13 turns and have one more as fuel, which
    CivilTimeProps.v proves to be enough; the loop that duplicates connections
    passes each of at most twice as many as there were, and the one that empties
    the senders of an object ends in its second turn.

    ** Assumptions and what is not modelled

    Code outside the tree is a parameter, with what the source relies on as the
    laws of a class: [JsonLaws] (parsing what was dumped; instantiated by
    [model_json]), [BeastKnows], [CryptoLaws] (the base64 iterators regroup
    bits), [WorkerLaws] and [SigLaws] (a world's parts are separate),
    [MapOrder] (an unordered_map lists its entries in some order), [RtcLib]
    (libwebrtc's calls, whose callbacks come later, never inside the call) with
    [RtcReady] (its factory and its connections can be made), [ObserverKeeps]
    and [ObserverRemote] (an observer leaves the room's maps alone, proved for
    the example client), [Build] (whether libwebrtc was compiled with its debug
    checks), [fills_with_zeros] (ExplicitZeroMemory, for Buffer.v), the
    allocator's limit, and the float expression that picks a percentile's
    index. Not modelled: logging, sockets and TLS, the operating system's
    threads, the inside of libwebrtc, overloads that compute in floating point,
    the other headers of libwebrtc and its bundled dependencies, which the
    client does not name and which for the most part declare what is compiled
    elsewhere, licode_user.h, which is empty, and the build files. *)

From stdpp Require Import base list strings gmap relations.
From Stdlib Require Import Ascii ZArith Lia.

(** ** Byte strings

    [std::string] is a sequence of bytes; the model keeps it as [list ascii]
    so that the list library applies to [substr], [find] and [erase]. *)
Abbreviation str := (list ascii).

Declare Scope cpp_scope.
Delimit Scope cpp_scope with cpp.

Notation "$ s" := (String.list_ascii_of_string s%string)
  (at level 1, format "$ s") : cpp_scope.
Notation "'chr' n" := (ascii_of_nat n) (at level 10) : cpp_scope.

#[global] Open Scope cpp_scope.

(** ** Outcomes

    A C++ call returns, throws, or has undefined behaviour. The three are kept
    apart: a [catch] clause sees the second and never the third. *)
Inductive exn :=
  | OutOfRange
  | JsonParseError
  | JsonTypeError
  | BadFunctionCall
  | SystemError
  | BadAlloc
  | UserException.

Inductive ub :=
  | NullDeref
  | OutOfBounds
  | AtoiOverflow
  | EmptyFront
  | JsonAssert
  | UninitRead
  | UseAfterFree
  | SignedOverflow
  | DivByZero
  | BadShift           (* by a negative amount, or by the width or more *)
  | CheckFailed.       (* a failed RTC_CHECK or RTC_DCHECK aborts *)

Inductive outcome (A : Type) :=
  | Ret (a : A)
  | Throw (e : exn)
  | Undef (u : ub).
Arguments Ret {A} a.
Arguments Throw {A} e.
Arguments Undef {A} u.

#[global] Instance exn_eq_dec : EqDecision exn.
Proof. solve_decision. Defined.

#[global] Instance ub_eq_dec : EqDecision ub.
Proof. solve_decision. Defined.

#[global] Instance outcome_ret : MRet outcome := @Ret.

#[global] Instance outcome_bind : MBind outcome := λ A B f m,
  match m with
  | Ret a => f a
  | Throw e => Throw e
  | Undef u => Undef u
  end.

#[global] Instance outcome_fmap : FMap outcome := λ A B f m,
  match m with
  | Ret a => Ret (f a)
  | Throw e => Throw e
  | Undef u => Undef u
  end.

(** No undefined behaviour was reached. *)
Definition defined {A} (o : outcome A) : bool :=
  match o with Undef _ => false | _ => true end.

(** The call came back normally. *)
Definition returned {A} (o : outcome A) : bool :=
  match o with Ret _ => true | _ => false end.

(** ** State and exceptions

    Methods mutate their object and may throw half way: the state reached so
    far is kept beside the outcome, as in C++. *)
Definition ST (S A : Type) : Type := S → outcome A * S.

#[global] Instance ST_ret {S} : MRet (ST S) := λ A a s, (Ret a, s).

#[global] Instance ST_bind {S} : MBind (ST S) := λ A B f m s,
  match m s with
  | (Ret a, s') => f a s'
  | (Throw e, s') => (Throw e, s')
  | (Undef u, s') => (Undef u, s')
  end.

Definition get {S} : ST S S := λ s, (Ret s, s).
Definition gets {S A} (f : S → A) : ST S A := λ s, (Ret (f s), s).
Definition modify {S} (f : S → S) : ST S unit := λ s, (Ret tt, f s).
Definition lift {S A} (o : outcome A) : ST S A := λ s, (o, s).

(** [try { m } catch (const std::exception& e) { h e }]: undefined behaviour
    is not an exception and passes through. *)
Definition try_catch {S A} (m : ST S A) (h : exn → ST S A) : ST S A := λ s,
  match m s with
  | (Throw e, s') => h e s'
  | r => r
  end.

(** A loop over a container whose body is a call. *)
Fixpoint for_each {S A} (f : A → ST S unit) (l : list A) : ST S unit :=
  match l with
  | [] => mret tt
  | x :: l' => f x ;; for_each f l'
  end.

(** Building a vector from a loop that may throw. *)
Fixpoint map_outcome {A B} (f : A → outcome B) (l : list A) : outcome (list B) :=
  match l with
  | [] => Ret []
  | x :: l' => y ← f x; ys ← map_outcome f l'; Ret (y :: ys)
  end.

(** ** Machine integers *)
Definition npos : Z := 2 ^ 64 - 1.

(** Unsigned arithmetic wraps. *)
Definition u64 (z : Z) : Z := z mod 2 ^ 64.

(** Conversion to a narrower signed type keeps the low bits (two's
    complement). *)
Definition wrap_signed (w : Z) (z : Z) : Z :=
  (z + 2 ^ (w - 1)) mod 2 ^ w - 2 ^ (w - 1).

Definition i16 (z : Z) : Z := wrap_signed 16 z.
Definition i32 (z : Z) : Z := wrap_signed 32 z.

Definition i8 (z : Z) : Z := wrap_signed 8 z.

Definition in_i16 (z : Z) : bool := ((- 32768 <=? z) && (z <=? 32767))%Z.
Definition in_i32 (z : Z) : bool := ((- 2147483648 <=? z) && (z <=? 2147483647))%Z.
Definition in_u64 (z : Z) : bool := ((0 <=? z) && (z <=? npos))%Z.

(** Signed 64-bit arithmetic: overflow is undefined. *)
Definition in_i64 (z : Z) : bool := ((- 2 ^ 63 <=? z) && (z <? 2 ^ 63))%Z.
Definition chk64 (z : Z) : outcome Z := if in_i64 z then Ret z else Undef SignedOverflow.

Infix "%%" := Z.rem (at level 40, left associativity) : cpp_scope.
Notation "a +! b" := (chk64 (a + b)%Z) (at level 50, left associativity) : cpp_scope.
Notation "a -! b" := (chk64 (a - b)%Z) (at level 50, left associativity) : cpp_scope.
Notation "a *! b" := (chk64 (a * b)%Z) (at level 40, left associativity) : cpp_scope.

Lemma in_i64_spec z : in_i64 z = true ↔ (- 9223372036854775808 ≤ z ≤ 9223372036854775807)%Z.
Proof. unfold in_i64. rewrite andb_true_iff, Z.leb_le, Z.ltb_lt. lia. Qed.

Lemma chk64_ok z : (- 9223372036854775808 ≤ z ≤ 9223372036854775807)%Z → chk64 z = Ret z.
Proof. intros H. unfold chk64. by rewrite (proj2 (in_i64_spec z) H). Qed.

Lemma i8_id z : (- 128 ≤ z ≤ 127)%Z → i8 z = z.
Proof.
  unfold i8, wrap_signed. intros. change (2 ^ (8 - 1))%Z with 128%Z. change (2 ^ 8)%Z with 256%Z.
  rewrite Z.mod_small; lia.
Qed.

(** Division towards zero, as an equation. *)
Lemma quot_rem_facts z k :
  (0 < k → z = k * Z.quot z k + z %% k ∧ (0 ≤ z → 0 ≤ z %% k < k) ∧ (z ≤ 0 → - k < z %% k ≤ 0))%Z.
Proof. intros Hk. Z.to_euclidean_division_equations. lia. Qed.

(** Name the quotient [z / k] and the remainder, and keep what is known of
    them. *)
Ltac quot_rem z k :=
  let q := fresh "q" in let r := fresh "r" in
  destruct (quot_rem_facts z k ltac:(lia)) as (? & ? & ?);
  set (q := Z.quot z k) in *; set (r := Z.rem z k) in *; clearbody q r.

Lemma u64_small z : (0 ≤ z ≤ npos)%Z → u64 z = z.
Proof. unfold u64, npos. intros. apply Z.mod_small. lia. Qed.

Lemma u64_neg z : (- 2 ^ 64 ≤ z < 0)%Z → u64 z = (z + 2 ^ 64)%Z.
Proof.
  unfold u64. intros.
  rewrite <- (Z_mod_plus_full z 1). apply Z.mod_small. lia.
Qed.

Lemma u64_npos_succ : u64 (npos + 1) = 0%Z.
Proof. reflexivity. Qed.

Lemma i16_id z : in_i16 z = true → i16 z = z.
Proof.
  unfold in_i16, i16, wrap_signed. rewrite andb_true_iff, !Z.leb_le. intros.
  change (2 ^ (16 - 1))%Z with 32768%Z. change (2 ^ 16)%Z with 65536%Z.
  rewrite Z.mod_small; lia.
Qed.

Lemma i32_id z : in_i32 z = true → i32 z = z.
Proof.
  unfold in_i32, i32, wrap_signed. rewrite andb_true_iff, !Z.leb_le. intros.
  change (2 ^ (32 - 1))%Z with 2147483648%Z. change (2 ^ 32)%Z with 4294967296%Z.
  rewrite Z.mod_small; lia.
Qed.

Lemma i16_range z : in_i16 (i16 z) = true.
Proof.
  unfold in_i16, i16, wrap_signed.
  change (2 ^ (16 - 1))%Z with 32768%Z. change (2 ^ 16)%Z with 65536%Z.
  pose proof (Z.mod_pos_bound (z + 32768) 65536).
  rewrite andb_true_iff, !Z.leb_le. lia.
Qed.

(** ** Proof automation *)
Create HintDb cpp discriminated.

(** Unfold one monadic layer. *)
Ltac unfold_st :=
  unfold mbind, ST_bind, mret, ST_ret, outcome_bind, outcome_ret, get, gets,
    modify, lift in *.

(** Invert equalities between outcome/state pairs. *)
Ltac inv_out :=
  simpl in *; unfold mret, ST_ret, outcome_ret in *;
  repeat match goal with
  | H : (_, _) = (_, _) |- _ => injection H; clear H; intros
  | H : Ret _ = Ret _ |- _ => injection H; clear H; intros
  | H : Throw _ = Throw _ |- _ => injection H; clear H; intros
  | H : Undef _ = Undef _ |- _ => injection H; clear H; intros
  | H : Ret _ = Throw _ |- _ => discriminate H
  | H : Ret _ = Undef _ |- _ => discriminate H
  | H : Throw _ = Ret _ |- _ => discriminate H
  | H : Throw _ = Undef _ |- _ => discriminate H
  | H : Undef _ = Ret _ |- _ => discriminate H
  | H : Undef _ = Throw _ |- _ => discriminate H
  end; subst.

Lemma ST_bind_Ret {S A B} (m : ST S A) (f : A → ST S B) s a s' :
  m s = (Ret a, s') → (m ≫= f) s = f a s'.
Proof. intros E. unfold mbind, ST_bind. by rewrite E. Qed.

Lemma gets_bind {S A B} (f : S → A) (k : A → ST S B) s : (gets f ≫= k) s = k (f s) s.
Proof. done. Qed.

Lemma modify_bind {S B} (f : S → S) (k : unit → ST S B) s : (modify f ≫= k) s = k tt (f s).
Proof. done. Qed.

Lemma lift_bind {S A B} (o : outcome A) (k : A → ST S B) s a :
  o = Ret a → (lift o ≫= k) s = k a s.
Proof. by intros ->. Qed.

Lemma ret_bind {S A B} (a : A) (k : A → ST S B) s : ((mret a : ST S A) ≫= k) s = k a s.
Proof. done. Qed.

Lemma bind_assoc {S A B C} (m : ST S A) (f : A → ST S B) (g : B → ST S C) s :
  ((m ≫= f) ≫= g) s = (m ≫= (λ a, f a ≫= g)) s.
Proof. unfold mbind, ST_bind. by destruct (m s) as [[]]. Qed.

Lemma ST_bind_inv {S A B} (m : ST S A) (f : A → ST S B) s b s'' :
  (m ≫= f) s = (Ret b, s'') →
  ∃ a s', m s = (Ret a, s') ∧ f a s' = (Ret b, s'').
Proof.
  unfold mbind, ST_bind. destruct (m s) as [[a|e|u] s'] eqn:E; naive_solver.
Qed.

Lemma outcome_bind_inv {A B} (m : outcome A) (f : A → outcome B) b :
  m ≫= f = Ret b → ∃ a, m = Ret a ∧ f a = Ret b.
Proof. destruct m; naive_solver. Qed.

(** A caught block never throws unless its handler does. *)
Lemma try_catch_no_throw {S A} (m : ST S A) (h : exn → ST S A) s e s' :
  (∀ e s1, returned (fst (h e s1)) = true) →
  try_catch m h s ≠ (Throw e, s').
Proof.
  unfold try_catch. intros Hh Heq. destruct (m s) as [[a|e1|u] s1]; try done.
  specialize (Hh e1 s1). by rewrite Heq in Hh.
Qed.

Lemma map_outcome_length {A B} (f : A → outcome B) l l' :
  map_outcome f l = Ret l' → length l' = length l.
Proof.
  revert l'. induction l as [|x l IH]; intros l' H; simpl in H.
  { by inv_out. }
  apply outcome_bind_inv in H as (y & _ & H).
  apply outcome_bind_inv in H as (ys & Hys & H).
  inv_out. simpl. f_equal. by apply IH.
Qed.

Lemma Forall_filter {A} (P Q : A → Prop) `{!∀ x, Decision (Q x)} l :
  Forall P l → Forall P (filter Q l).
Proof.
  rewrite !Forall_forall. intros HP x Hx. apply HP.
  by apply list_elem_of_filter in Hx as [_ ?].
Qed.

Lemma filter_none {A} (P : A → Prop) `{!∀ x, Decision (P x)} l :
  Forall (λ x, ¬ P x) l → filter P l = [].
Proof. induction 1; [done|]. by rewrite filter_cons_False. Qed.

Lemma filter_all {A} (P : A → Prop) `{!∀ x, Decision (P x)} l :
  Forall P l → filter P l = l.
Proof. induction 1 as [|x l Hx Hl IH]; [done|]. by rewrite filter_cons_True, IH. Qed.

(** ** Object invariants

    [preserves P m]: the method [m] keeps [P], also on the paths on which it
    throws. *)
Definition preserves {S A} (P : S → Prop) (m : ST S A) : Prop :=
  ∀ s, P s → P (snd (m s)).

Section preserves.
Context {S : Type} (P : S → Prop).

Lemma preserves_ret {A} (a : A) : preserves P (mret a).
Proof. intros s Hs. done. Qed.

Lemma preserves_lift {A} (o : outcome A) : preserves P (lift o).
Proof. intros s Hs. done. Qed.

Lemma preserves_get : preserves P get.
Proof. intros s Hs. done. Qed.

Lemma preserves_gets {A} (f : S → A) : preserves P (gets f).
Proof. intros s Hs. done. Qed.

Lemma preserves_modify (f : S → S) : (∀ s, P s → P (f s)) → preserves P (modify f).
Proof. intros Hf s Hs. by apply Hf. Qed.

Lemma preserves_bind {A B} (m : ST S A) (f : A → ST S B) :
  preserves P m → (∀ a, preserves P (f a)) → preserves P (m ≫= f).
Proof.
  intros Hm Hf s Hs. specialize (Hm s Hs). unfold mbind, ST_bind.
  destruct (m s) as [[a|e|u] s']; simpl in *; [by apply Hf|done..].
Qed.

(** The continuation may use that the value read is the current state. *)
Lemma preserves_get_bind {B} (f : S → ST S B) :
  (∀ s, P s → P (snd (f s s))) → preserves P (get ≫= f).
Proof. intros Hf s Hs. by apply Hf. Qed.

Lemma preserves_for_each {A} (f : A → ST S unit) l :
  (∀ a, preserves P (f a)) → preserves P (for_each f l).
Proof.
  intros Hf. induction l as [|x l IH]; simpl; [apply preserves_ret|].
  apply preserves_bind; auto.
Qed.

Lemma preserves_for_each_elem {A} (f : A → ST S unit) l :
  (∀ a, a ∈ l → preserves P (f a)) → preserves P (for_each f l).
Proof.
  intros Hf. induction l as [|x l IH]; simpl; [apply preserves_ret|].
  apply preserves_bind; [apply Hf; by left|]. intros _. apply IH.
  intros a Ha. apply Hf. by right.
Qed.

Lemma preserves_try {A} (m : ST S A) (h : exn → ST S A) :
  preserves P m → (∀ e, preserves P (h e)) → preserves P (try_catch m h).
Proof.
  intros Hm Hh s Hs. specialize (Hm s Hs). unfold try_catch.
  destruct (m s) as [[a|e|u] s']; simpl in *; [done|by apply Hh|done].
Qed.

End preserves.

#[export] Hint Resolve preserves_ret preserves_lift preserves_get preserves_gets
  preserves_bind preserves_for_each preserves_try : cpp.

(** ** Step relations *)
Section reachability.
Context {S : Type} (step : S → S → Prop).

(** An invariant of every step holds in every reachable state. *)
Lemma rtc_invariant (P : S → Prop) :
  (∀ s s', P s → step s s' → P s') →
  ∀ s s', rtc step s s' → P s → P s'.
Proof. intros Hstep s s'. induction 1; eauto. Qed.

End reachability.
