(* ===== verification/CppString.v ===== *)
(** * The parts of <string>, <regex> and <cstdlib> the client uses

    [std::string] searching, slicing and conversion, with [size_t] positions
    (a [Z] below [2^64], [npos] for "not found") and the exceptions the
    standard specifies; the two regular expressions of the client
    ([sregex_token_iterator] over a one-character expression and the anchored
    digit run of LicodeSignaling); [atoi] and [std::to_string]. *)

From stdpp Require Import base list strings gmap.
From Stdlib Require Import Ascii ZArith Lia.
From S2P Require Import Prelude.

Local Open Scope Z_scope.

(** ** Searching *)
Fixpoint index_of (c : ascii) (s : str) : option nat :=
  match s with
  | [] => None
  | x :: s' => if decide (x = c) then Some O else S <$> index_of c s'
  end.

Fixpoint index_not_of (c : ascii) (s : str) : option nat :=
  match s with
  | [] => None
  | x :: s' => if decide (x = c) then S <$> index_not_of c s' else Some O
  end.

Definition size (s : str) : Z := Z.of_nat (length s).

Definition pos_of (o : option nat) : Z :=
  match o with Some i => Z.of_nat i | None => npos end.

(** [s.find(c)] and [s.find_first_of(c)] agree on a single character. *)
Definition find_first_of (s : str) (c : ascii) : Z := pos_of (index_of c s).

(** [s.find_first_of(c, from)] *)
Definition find_first_of_from (s : str) (c : ascii) (from : Z) : Z :=
  if size s <? from then npos
  else pos_of ((λ i, (Z.to_nat from + i)%nat) <$> index_of c (drop (Z.to_nat from) s)).

Definition find_first_not_of (s : str) (c : ascii) : Z := pos_of (index_not_of c s).

Definition find_last_not_of (s : str) (c : ascii) : Z :=
  pos_of ((λ i, (length s - 1 - i)%nat) <$> index_not_of c (reverse s)).

(** ** Slicing *)
(** [s.substr(pos, n)]: throws [std::out_of_range] when [pos > size()]. *)
Definition substr (s : str) (pos n : Z) : outcome str :=
  if size s <? pos then Throw OutOfRange
  else Ret (take (Z.to_nat (Z.min n (size s - pos))) (drop (Z.to_nat pos) s)).

(** [s.substr(pos)] *)
Definition substr_from (s : str) (pos : Z) : outcome str := substr s pos npos.

(** [s.erase(pos, n)] *)
Definition erase (s : str) (pos n : Z) : outcome str :=
  if size s <? pos then Throw OutOfRange
  else Ret (take (Z.to_nat pos) s
            ++ drop (Z.to_nat (pos + Z.min n (size s - pos))) s).

(** ** Characters (the "C" locale) *)
Definition code (c : ascii) : Z := Z.of_N (N_of_ascii c).

Definition is_digit (c : ascii) : bool := (48 <=? code c) && (code c <=? 57).
Definition is_space (c : ascii) : bool :=
  (code c =? 32) || ((9 <=? code c) && (code c <=? 13)).

Definition tolower (c : ascii) : ascii :=
  if (65 <=? code c) && (code c <=? 90)
  then ascii_of_N (Z.to_N (code c + 32)) else c.

(** [std::transform(s.begin(), s.end(), s.begin(), ::tolower)] *)
Definition to_lower (s : str) : str := tolower <$> s.

(** ** Regular expressions *)
Fixpoint split_on (c : ascii) (s : str) : list str :=
  match s with
  | [] => [[]]
  | x :: s' =>
      if decide (x = c) then [] :: split_on c s'
      else match split_on c s' with
           | t :: ts => (x :: t) :: ts
           | [] => [[x]]
           end
  end.

(** [sregex_token_iterator(s.begin(), s.end(), re, -1)] for a regular
    expression that is the single character [c]: the stretches between
    matches; an empty stretch after the last match is not produced. *)
Definition regex_tokens (c : ascii) (s : str) : list str :=
  match split_on c s with
  | [] => []
  | [t] => [t]
  | ts => match last ts with
          | Some [] => removelast ts
          | _ => ts
          end
  end.

(** [std::regex_search(s, m, std::regex("^\\d+")); m.str()] *)
Fixpoint leading_digits (s : str) : str :=
  match s with
  | x :: s' => if is_digit x then x :: leading_digits s' else []
  | [] => []
  end.

(** ** Numbers *)
Fixpoint skip_space (s : str) : str :=
  match s with
  | x :: s' => if is_space x then skip_space s' else s
  | [] => []
  end.

Fixpoint digits_val (acc : Z) (s : str) : Z :=
  match s with
  | x :: s' => if is_digit x then digits_val (acc * 10 + (code x - 48)) s' else acc
  | [] => acc
  end.

(** [std::atoi(s.c_str())]: undefined when the value does not fit [int]. *)
Definition atoi (s : str) : outcome Z :=
  let v := match skip_space s with
           | x :: s' => if code x =? 45 then - digits_val 0 s'
                        else if code x =? 43 then digits_val 0 s'
                        else digits_val 0 (x :: s')
           | [] => 0
           end in
  if in_i32 v then Ret v else Undef AtoiOverflow.

Definition digit (d : Z) : ascii := ascii_of_N (Z.to_N (48 + d)).

Fixpoint dec_fuel (fuel : nat) (n : Z) : str :=
  match fuel with
  | O => []
  | S f => if n <? 10 then [digit n]
           else dec_fuel f (n / 10) ++ [digit (n mod 10)]
  end.

(** A positive [n] has at most [log2 n + 1] decimal digits. *)
Definition dec (n : Z) : str := dec_fuel (S (Z.to_nat (Z.log2 n))) n.

(** [std::to_string] *)
Definition to_string (z : Z) : str := if z <? 0 then "-"%char :: dec (- z) else dec z.

(** ** Lemmas: searching *)
Lemma index_of_None c s : index_of c s = None ↔ c ∉ s.
Proof.
  induction s as [|x s IH]; simpl; [set_solver|].
  case_decide; subst; [set_solver|].
  rewrite fmap_None, IH. set_solver.
Qed.

Lemma index_of_app c a b :
  c ∉ a → index_of c (a ++ b) = (λ i, (length a + i)%nat) <$> index_of c b.
Proof.
  induction a as [|x a IH]; intros Hc; simpl.
  { by destruct (index_of c b). }
  rewrite not_elem_of_cons in Hc. destruct Hc as [Hx Ha].
  rewrite decide_False by congruence. rewrite IH by done.
  by destruct (index_of c b).
Qed.

Lemma index_of_here c a b : c ∉ a → index_of c (a ++ c :: b) = Some (length a).
Proof.
  intros. rewrite index_of_app by done. simpl.
  rewrite decide_True by done. simpl. f_equal. lia.
Qed.

Lemma index_of_lt c s i : index_of c s = Some i → (i < length s)%nat.
Proof.
  revert i. induction s as [|x s IH]; simpl; intros i H; [done|].
  case_decide; [injection H as <-; lia|].
  destruct (index_of c s); simplify_eq/=. specialize (IH _ eq_refl). lia.
Qed.

Lemma index_of_take c s i : index_of c s = Some i → c ∉ take i s.
Proof.
  revert i. induction s as [|x s IH]; simpl; intros i H; [done|].
  case_decide; [injection H as <-; simpl; set_solver|].
  destruct (index_of c s) as [j|] eqn:E; simplify_eq/=.
  specialize (IH _ eq_refl). set_solver.
Qed.

Lemma index_of_split c s i :
  index_of c s = Some i → s = take i s ++ c :: drop (S i) s.
Proof.
  revert i. induction s as [|x s IH]; simpl; intros i H; [done|].
  case_decide; [by injection H as <-; subst|].
  destruct (index_of c s) as [j|] eqn:E; simplify_eq/=.
  f_equal. by apply IH.
Qed.

Lemma index_not_of_head c x s : x ≠ c → index_not_of c (x :: s) = Some O.
Proof. intros. simpl. by rewrite decide_False. Qed.

Lemma find_None s c : c ∉ s → find_first_of s c = npos.
Proof. intros H. unfold find_first_of. by rewrite (proj2 (index_of_None c s) H). Qed.

Lemma find_here a c b : c ∉ a → find_first_of (a ++ c :: b) c = size a.
Proof. intros H. unfold find_first_of. by rewrite index_of_here. Qed.

(** ** Lemmas: slicing *)
Lemma size_nonneg s : 0 ≤ size s.
Proof. unfold size. lia. Qed.

Lemma size_app a b : size (a ++ b) = size a + size b.
Proof. unfold size. rewrite length_app. lia. Qed.

Lemma size_cons x s : size (x :: s) = 1 + size s.
Proof. unfold size. simpl. lia. Qed.

Lemma size_nil : size [] = 0.
Proof. done. Qed.

Lemma substr_mid a b d n :
  n = size b → substr (a ++ b ++ d) (size a) n = Ret b.
Proof.
  intros ->. unfold substr. rewrite !size_app.
  pose proof (size_nonneg b). pose proof (size_nonneg d).
  rewrite (proj2 (Z.ltb_ge _ _)) by lia. f_equal.
  rewrite Z.min_l by lia. unfold size.
  rewrite !Nat2Z.id, drop_app_length, take_app_length. done.
Qed.

Lemma substr_prefix b d n : n = size b → substr (b ++ d) 0 n = Ret b.
Proof. apply (substr_mid [] b d). Qed.

Lemma substr_tail a b n : size b ≤ n → substr (a ++ b) (size a) n = Ret b.
Proof.
  intros Hn. unfold substr. rewrite size_app. pose proof (size_nonneg b).
  rewrite (proj2 (Z.ltb_ge _ _)) by lia. f_equal.
  replace (size a + size b - size a) with (size b) by lia.
  rewrite Z.min_r by lia. unfold size.
  by rewrite !Nat2Z.id, drop_app_length, take_ge.
Qed.

Lemma substr_all s n : size s ≤ n → substr s 0 n = Ret s.
Proof. intros. by apply (substr_tail [] s). Qed.

Lemma substr_throws s pos n : size s < pos → substr s pos n = Throw OutOfRange.
Proof. intros. unfold substr. by rewrite (proj2 (Z.ltb_lt _ _)). Qed.

Lemma substr_Ret s pos n : 0 ≤ pos ≤ size s → ∃ t, substr s pos n = Ret t.
Proof. intros. unfold substr. rewrite (proj2 (Z.ltb_ge _ _)) by lia. eauto. Qed.

(** [s.erase(0, s.find_first_not_of(c))] leaves a string that does not start
    with [c] alone. *)
Lemma trim_front_id c x s :
  x ≠ c → erase (x :: s) 0 (find_first_not_of (x :: s) c) = Ret (x :: s).
Proof.
  intros Hx. unfold find_first_not_of. rewrite index_not_of_head by done.
  unfold erase. pose proof (size_nonneg (x :: s)).
  rewrite (proj2 (Z.ltb_ge _ _)) by lia. simpl pos_of.
  rewrite Z.min_l by lia. done.
Qed.

(** [s.erase(s.find_last_not_of(c) + 1)] leaves a string that does not end
    with [c] alone. *)
Lemma trim_back_id c x s :
  x ≠ c → size (s ++ [x]) ≤ npos →
  erase (s ++ [x]) (u64 (find_last_not_of (s ++ [x]) c + 1)) npos = Ret (s ++ [x]).
Proof.
  intros Hx Hs. assert (0 ≤ npos) by done.
  unfold find_last_not_of. rewrite reverse_snoc, index_not_of_head by done.
  simpl pos_of. rewrite length_app. simpl length.
  rewrite size_app, size_cons, size_nil in Hs.
  rewrite u64_small by (unfold size in Hs; lia).
  unfold erase. rewrite size_app, size_cons, size_nil.
  rewrite (proj2 (Z.ltb_ge _ _)) by (unfold size; lia). f_equal.
  rewrite take_ge by (rewrite length_app; simpl; lia).
  rewrite drop_ge, app_nil_r; [done|]. rewrite length_app. simpl. unfold size. lia.
Qed.

(** ** Lemmas: characters *)
Lemma code_digit d : 0 ≤ d ≤ 9 → code (digit d) = 48 + d.
Proof.
  intros. unfold code, digit. rewrite N_ascii_embedding by lia. lia.
Qed.

Lemma is_digit_digit d : 0 ≤ d ≤ 9 → is_digit (digit d) = true.
Proof. intros. unfold is_digit. rewrite code_digit by done. lia. Qed.

Lemma is_digit_not_space c : is_digit c = true → is_space c = false.
Proof. unfold is_digit, is_space. lia. Qed.

(** ** Lemmas: splitting *)
Lemma split_on_notin c s : c ∉ s → split_on c s = [s].
Proof.
  induction s as [|x s IH]; intros H; simpl; [done|].
  rewrite not_elem_of_cons in H. destruct H as [Hx Hs].
  rewrite decide_False by congruence. by rewrite IH.
Qed.

Lemma split_on_app c a s : c ∉ a → split_on c (a ++ c :: s) = a :: split_on c s.
Proof.
  induction a as [|x a IH]; intros H; simpl.
  { by rewrite decide_True. }
  rewrite not_elem_of_cons in H. destruct H as [Hx Ha].
  rewrite decide_False by congruence. by rewrite IH.
Qed.

Lemma split_on_ne c s : split_on c s ≠ [].
Proof. destruct s; simpl; [done|]. case_decide; [done|]. by destruct split_on. Qed.

Lemma split_on_notin_elem c s t : t ∈ split_on c s → c ∉ t.
Proof.
  revert t. apply Forall_forall. induction s as [|x s IH]; simpl; [by repeat constructor; set_solver|].
  case_decide; [constructor; [set_solver|done]|].
  destruct IH as [|t' ts]; constructor; try done; set_solver.
Qed.

(** Joining fields with a separator, the inverse of splitting. *)
Fixpoint join (c : ascii) (l : list str) : str :=
  match l with
  | [] => []
  | [t] => t
  | t :: l' => t ++ c :: join c l'
  end.

Lemma split_on_join c l :
  l ≠ [] → Forall (λ t, c ∉ t) l → split_on c (join c l) = l.
Proof.
  induction l as [|t l IH]; intros Hne Hl; [done|].
  inversion Hl as [|? ? Ht Hl']; subst. destruct l as [|t' l].
  - simpl. by apply split_on_notin.
  - change (join c (t :: t' :: l)) with (t ++ c :: join c (t' :: l)).
    rewrite split_on_app by done. f_equal. by apply IH.
Qed.

(** The token iterator only differs from [split_on] by a trailing empty
    stretch, which the callers skip. *)
Lemma regex_tokens_filter c s :
  filter (λ t, t ≠ []) (regex_tokens c s) = filter (λ t, t ≠ []) (split_on c s).
Proof.
  unfold regex_tokens. destruct (split_on c s) as [|t [|t' ts]]; [done..|].
  destruct (last (t :: t' :: ts)) as [[|x r]|] eqn:E; [|done..].
  apply last_Some in E as [l' ->].
  rewrite removelast_last, filter_app.
  rewrite (filter_cons_False _ []) by tauto. by rewrite filter_nil, app_nil_r.
Qed.

Lemma regex_tokens_elem c s t : t ∈ regex_tokens c s → c ∉ t.
Proof.
  intros Ht. apply (split_on_notin_elem c s). revert Ht. unfold regex_tokens.
  destruct (split_on c s) as [|t0 [|t1 ts]]; [done..|].
  destruct (last (t0 :: t1 :: ts)) as [[|x r]|] eqn:E; [|done..].
  apply last_Some in E as [l' ->]. rewrite removelast_last.
  intros Ht. apply elem_of_app. by left.
Qed.

(** ** Lemmas: numbers *)
Lemma digits_val_app acc a b :
  Forall (λ c, is_digit c = true) a →
  digits_val acc (a ++ b) = digits_val (digits_val acc a) b.
Proof.
  intros Ha. revert acc. induction Ha as [|x a Hx Ha IH]; intros acc; simpl; [done|].
  rewrite Hx. apply IH.
Qed.

Lemma dec_fuel_digits fuel n :
  0 ≤ n → Forall (λ c, is_digit c = true) (dec_fuel fuel n).
Proof.
  revert n. induction fuel as [|f IH]; intros n Hn; simpl; [constructor|].
  destruct (Z.ltb_spec n 10).
  - repeat constructor. apply is_digit_digit. lia.
  - apply Forall_app. split.
    + apply IH. apply Z.div_pos; lia.
    + repeat constructor. apply is_digit_digit.
      pose proof (Z.mod_pos_bound n 10). lia.
Qed.

Lemma dec_fuel_val fuel n :
  0 ≤ n < 2 ^ Z.of_nat fuel → fuel ≠ O → digits_val 0 (dec_fuel fuel n) = n.
Proof.
  revert n. induction fuel as [|f IH]; intros n Hn Hf; [done|]. simpl.
  destruct (Z.ltb_spec n 10).
  - simpl. rewrite is_digit_digit, code_digit by lia. lia.
  - pose proof (Z.mod_pos_bound n 10). pose proof (Z.div_mod n 10).
    rewrite Nat2Z.inj_succ, Z.pow_succ_r in Hn by lia.
    rewrite digits_val_app by (apply dec_fuel_digits, Z.div_pos; lia).
    rewrite IH.
    + simpl. rewrite is_digit_digit, code_digit by lia. lia.
    + split; [apply Z.div_pos; lia|]. apply Z.div_lt_upper_bound; lia.
    + intros ->. simpl in Hn. lia.
Qed.

Lemma dec_val n : 0 ≤ n → digits_val 0 (dec n) = n.
Proof.
  intros Hn. unfold dec. apply dec_fuel_val; [|done]. split; [done|].
  rewrite Nat2Z.inj_succ, Z2Nat.id by apply Z.log2_nonneg.
  destruct (decide (n = 0)) as [->|]; [done|]. apply Z.log2_spec. lia.
Qed.

Lemma dec_digits n : 0 ≤ n → Forall (λ c, is_digit c = true) (dec n).
Proof. apply dec_fuel_digits. Qed.

Lemma dec_nonempty n : dec n ≠ [].
Proof.
  unfold dec. simpl. destruct (n <? 10); [done|]. by destruct (dec_fuel _ _).
Qed.

Lemma atoi_dec n : 0 ≤ n → in_i32 n = true → atoi (dec n) = Ret n.
Proof.
  intros Hn Hi. unfold atoi. pose proof (dec_val n Hn) as Hv.
  pose proof (dec_digits n Hn) as Hd. pose proof (dec_nonempty n).
  destruct (dec n) as [|x s]; [done|].
  apply Forall_cons in Hd as [Hx Hs].
  simpl skip_space. rewrite is_digit_not_space by done.
  assert (code x =? 45 = false) as -> by (unfold is_digit in Hx; lia).
  assert (code x =? 43 = false) as -> by (unfold is_digit in Hx; lia).
  by rewrite Hv, Hi.
Qed.

Lemma dec_notin c n : is_digit c = false → 0 ≤ n → c ∉ dec n.
Proof.
  intros Hc Hn Hin. pose proof (dec_digits n Hn) as Hd.
  rewrite Forall_forall in Hd. specialize (Hd _ Hin). congruence.
Qed.

Lemma to_string_nonneg z : 0 ≤ z → to_string z = dec z.
Proof. intros. unfold to_string. by rewrite (proj2 (Z.ltb_ge _ _)). Qed.

Lemma to_lower_app a b : to_lower (a ++ b) = to_lower a ++ to_lower b.
Proof. apply fmap_app. Qed.

(** ** Lemmas: the leading digit run *)
Lemma leading_digits_app a b :
  Forall (λ c, is_digit c = true) a →
  match b with x :: _ => is_digit x = false | [] => True end →
  leading_digits (a ++ b) = a.
Proof.
  intros Ha Hb. induction Ha as [|x a Hx Ha IH]; simpl.
  - destruct b as [|y b]; [done|]. simpl. by rewrite Hb.
  - by rewrite Hx, IH.
Qed.

Lemma leading_digits_prefix s : ∃ r, s = leading_digits s ++ r ∧
  match r with x :: _ => is_digit x = false | [] => True end.
Proof.
  induction s as [|x s IH]; simpl; [by exists []|].
  destruct (is_digit x) eqn:E.
  - destruct IH as (r & Hr & Hx). exists r. split; [|done]. simpl. by f_equal.
  - by exists (x :: s).
Qed.

#[export] Hint Resolve size_nonneg : cpp.
#[export] Hint Rewrite size_app size_cons size_nil : cpp.
