(* ===== verification/RefCount.v ===== *)
(** * Reference counting of the WebRTC objects the client holds

    [rtc::scoped_refptr] (api/scoped_refptr.h), [rtc::RefCountedObject]
    (rtc_base/ref_counted_object.h) and [RefCounter] (rtc_base/ref_counter.h):
    the client keeps its peer connections and factories in [scoped_refptr]s and
    hands [RefCountedObject] observers to the library. The model has the
    counters of the live objects, the [scoped_refptr] variables and the raw
    references that [release()] gave away. *)

From stdpp Require Import base list strings gmap.
From Stdlib Require Import ZArith Lia.
From S2P Require Import Prelude.

Local Open Scope Z_scope.

(** ** RefCounter: an [std::atomic<int>] *)
Inductive RefCountReleaseStatus := kDroppedLastRef | kOtherRefsRemained.

Module RefCounter.

Record RefCounter := mkCounter { ref_count_ : Z }.

Definition new_counter (ref_count : Z) : RefCounter := mkCounter ref_count.

(** [fetch_add] on an atomic int wraps. *)
Definition IncRef (c : RefCounter) : RefCounter := mkCounter (i32 (c.(ref_count_) + 1)).

Definition DecRef (c : RefCounter) : RefCountReleaseStatus * RefCounter :=
  let ref_count_after_subtract := i32 (c.(ref_count_) - 1) in
  (if decide (ref_count_after_subtract = 0) then kDroppedLastRef else kOtherRefsRemained,
   mkCounter ref_count_after_subtract).

Definition HasOneRef (c : RefCounter) : bool := bool_decide (c.(ref_count_) = 1).

End RefCounter.

Import RefCounter.

(** ** Objects and pointers *)
Module RefPtr.

(** A [T*], null or the address of an object. *)
Abbreviation ptr := (option nat).

Record mem := mkMem {
  (** the live [RefCountedObject]s and their [ref_count_] *)
  objs : gmap nat RefCounter;
  next : nat;
  (** the [scoped_refptr] variables: [None] is one that is not alive *)
  vars : list (option ptr);
  (** references handed out by [release()] *)
  raws : list nat
}.

Definition on_objs f m := mkMem (f m.(objs)) m.(next) m.(vars) m.(raws).
Definition set_var v x m := mkMem m.(objs) m.(next) (<[v := x]> m.(vars)) m.(raws).
Definition on_raws f m := mkMem m.(objs) m.(next) m.(vars) (f m.(raws)).

(** [new RefCountedObject<T>(...)]: its count is zero. *)
Definition new_object : ST mem nat := λ m,
  (Ret m.(next), mkMem (<[m.(next) := new_counter 0]> m.(objs)) (S m.(next)) m.(vars) m.(raws)).

(** RefCountedObject::AddRef, Release and HasOneRef *)
Definition AddRef (p : nat) : ST mem unit := λ m,
  match m.(objs) !! p with
  | Some c => (Ret tt, on_objs (insert p (IncRef c)) m)
  | None => (Undef UseAfterFree, m)
  end.

Definition Release (p : nat) : ST mem RefCountReleaseStatus := λ m,
  match m.(objs) !! p with
  | Some c =>
      let '(status, c') := DecRef c in
      match status with
      | kDroppedLastRef => (Ret status, on_objs (delete p) m)
      | kOtherRefsRemained => (Ret status, on_objs (insert p c') m)
      end
  | None => (Undef UseAfterFree, m)
  end.

Definition HasOneRef (p : nat) : ST mem bool := λ m,
  match m.(objs) !! p with
  | Some c => (Ret (RefCounter.HasOneRef c), m)
  | None => (Undef UseAfterFree, m)
  end.

Definition add_ref (p : ptr) : ST mem unit :=
  match p with Some a => AddRef a | None => mret tt end.
Definition drop_ref (p : ptr) : ST mem unit :=
  match p with Some a => Release a ;; mret tt | None => mret tt end.

(** The pointer a variable holds. *)
Definition held (v : nat) : ST mem ptr :=
  gets (λ m, match m.(vars) !! v with Some (Some p) => p | _ => None end).

(** scoped_refptr: constructors, destructor, release, assignments, swap. *)
Definition ctor_null (v : nat) : ST mem unit := modify (set_var v (Some None)).

Definition ctor_ptr (v : nat) (p : ptr) : ST mem unit :=
  modify (set_var v (Some p)) ;; add_ref p.

Definition ctor_copy (v r : nat) : ST mem unit :=
  p ← held r;
  modify (set_var v (Some p)) ;; add_ref p.

Definition release (v : nat) : ST mem ptr :=
  retVal ← held v;
  modify (set_var v (Some None)) ;;
  mret retVal.

Definition ctor_move (v r : nat) : ST mem unit :=
  p ← release r;
  modify (set_var v (Some p)).

Definition dtor (v : nat) : ST mem unit :=
  p ← held v;
  drop_ref p ;;
  modify (set_var v None).

Definition assign_ptr (v : nat) (p : ptr) : ST mem unit :=
  add_ref p ;;
  q ← held v;
  drop_ref q ;;
  modify (set_var v (Some p)).

Definition assign_copy (v r : nat) : ST mem unit :=
  p ← held r;
  assign_ptr v p.

Definition swap (v r : nat) : ST mem unit :=
  p ← held v;
  q ← held r;
  modify (set_var v (Some q)) ;;
  modify (set_var r (Some p)).

(** [scoped_refptr<T>(std::move(r)).swap( *this)]: the temporary takes what
    [r] held, then what [v] held, and is destroyed with it. *)
Definition assign_move (v r : nat) : ST mem unit :=
  p ← release r;
  q ← held v;
  modify (set_var v (Some p)) ;;
  drop_ref q.

(** ** What a client can do *)
Inductive op :=
  | New (v : nat)              (* scoped_refptr v(new RefCountedObject) *)
  | Null (v : nat)
  | FromRaw (v r : nat)        (* scoped_refptr v(r.get()) *)
  | Copy (v r : nat)
  | Move (v r : nat)
  | Destroy (v : nat)
  | Assign (v r : nat)
  | AssignMove (v r : nat)
  | Swap (v r : nat)
  | GiveAway (v : nat)         (* v.release() *)
  | ReleaseRaw (p : nat).      (* p->Release() by the owner of a raw reference *)

Definition alive (m : mem) (v : nat) : bool :=
  match m.(vars) !! v with Some (Some _) => true | _ => false end.
Definition dead (m : mem) (v : nat) : bool :=
  match m.(vars) !! v with Some None => true | _ => false end.

(** The operations a C++ program can write: constructors on storage that holds
    no variable, the rest on live ones, Release only by an owner. *)
Definition allowed (o : op) (m : mem) : bool :=
  match o with
  | New v | Null v => dead m v
  | FromRaw v r | Copy v r | Move v r => dead m v && alive m r
  | Destroy v | GiveAway v => alive m v
  | Assign v r | AssignMove v r | Swap v r => alive m v && alive m r
  | ReleaseRaw p => bool_decide (p ∈ m.(raws))
  end.

Fixpoint remove_one (p : nat) (l : list nat) : list nat :=
  match l with
  | [] => []
  | x :: l' => if decide (x = p) then l' else x :: remove_one p l'
  end.

Definition exec (o : op) : ST mem unit :=
  match o with
  | New v => p ← new_object; ctor_ptr v (Some p)
  | Null v => ctor_null v
  | FromRaw v r => p ← held r; ctor_ptr v p
  | Copy v r => ctor_copy v r
  | Move v r => ctor_move v r
  | Destroy v => dtor v
  | Assign v r => assign_copy v r
  | AssignMove v r => assign_move v r
  | Swap v r => swap v r
  | GiveAway v =>
      p ← release v;
      match p with Some a => modify (on_raws (cons a)) | None => mret tt end
  | ReleaseRaw p => modify (on_raws (remove_one p)) ;; Release p ;; mret tt
  end.

(** A program: [None] when it does something no program can write. *)
Fixpoint run (ops : list op) (m : mem) : option (outcome unit * mem) :=
  match ops with
  | [] => Some (Ret tt, m)
  | o :: ops' =>
      if allowed o m then
        match exec o m with
        | (Ret _, m') => run ops' m'
        | r => Some r
        end
      else None
  end.

(** Storage for [n] variables, nothing allocated. *)
Definition init (n : nat) : mem := mkMem ∅ 0 (replicate n None) [].

(** ** Counting references *)
Definition occ (p : nat) (x : option ptr) : Z := if decide (x = Some (Some p)) then 1 else 0.
Definition count_vars (p : nat) (l : list (option ptr)) : Z := foldr (λ x n, occ p x + n) 0 l.
Definition count_raws (p : nat) (l : list nat) : Z :=
  foldr (λ x n, (if decide (x = p) then 1 else 0) + n) 0 l.
Definition refs (m : mem) (p : nat) : Z := count_vars p m.(vars) + count_raws p m.(raws).

(** The objects are counted by [R]: every live one exactly, and none that is
    not alive. *)
Definition counted_by (R : nat → Z) (os : gmap nat RefCounter) : Prop :=
  ∀ p, match os !! p with
       | Some c => c.(ref_count_) = R p ∧ 0 < R p
       | None => R p = 0
       end.

(** The count of every live object is the number of references to it, and
    nothing refers to one that is not alive. *)
Definition counted (m : mem) : Prop :=
  counted_by (refs m) m.(objs) ∧ ∀ p, (m.(next) ≤ p)%nat → m.(objs) !! p = None.

Lemma occ_range p x : 0 ≤ occ p x ≤ 1.
Proof. unfold occ. destruct (decide _); lia. Qed.

Lemma count_vars_insert p l v x y :
  l !! v = Some y → count_vars p (<[v := x]> l) = count_vars p l - occ p y + occ p x.
Proof.
  revert v. induction l as [|z l IH]; intros [|v] E; simplify_eq/=; [lia|].
  rewrite (IH v) by done. lia.
Qed.

Lemma count_vars_range p l : 0 ≤ count_vars p l ≤ Z.of_nat (length l).
Proof. induction l as [|x l IH]; simpl; [lia|]. pose proof (occ_range p x). lia. Qed.

Lemma count_raws_range p l : 0 ≤ count_raws p l ≤ Z.of_nat (length l).
Proof. induction l as [|x l IH]; simpl; [lia|]. destruct (decide _); lia. Qed.

Lemma count_raws_remove p q l :
  p ∈ l → count_raws q (remove_one p l) = count_raws q l - (if decide (p = q) then 1 else 0).
Proof.
  induction l as [|x l IH]; intros Hp; [by apply not_elem_of_nil in Hp|]. simpl.
  destruct (decide (x = p)) as [->|Hx]; [lia|]. simpl. rewrite IH; [lia|].
  apply elem_of_cons in Hp as [->|]; done.
Qed.

(** ** AddRef and Release keep the count *)
Definition one (p q : nat) : Z := if decide (p = q) then 1 else 0.

Lemma counted_by_ext R R' os : (∀ p, R p = R' p) → counted_by R os → counted_by R' os.
Proof. intros E H p. specialize (H p). rewrite E in H. done. Qed.

(** What a call that only touches the counters leaves alone. *)
Definition frame (m m' : mem) : Prop :=
  m'.(vars) = m.(vars) ∧ m'.(raws) = m.(raws) ∧ m'.(next) = m.(next) ∧
  ∀ p, m.(objs) !! p = None → m'.(objs) !! p = None.

Lemma frame_on_objs f m :
  (∀ p, m.(objs) !! p = None → f m.(objs) !! p = None) → frame m (on_objs f m).
Proof. done. Qed.

Lemma AddRef_ok R m p :
  counted_by R m.(objs) → 0 < R p → R p < 2147483647 →
  ∃ m', AddRef p m = (Ret tt, m') ∧ frame m m' ∧ counted_by (λ q, R q + one p q) m'.(objs).
Proof.
  intros H Hp Hb. unfold AddRef. pose proof (H p) as Hc.
  destruct (objs m !! p) as [c|] eqn:E; [|lia]. destruct Hc as [Hc _].
  eexists. split; [done|]. split.
  { apply frame_on_objs. intros q Hq. by rewrite lookup_insert_ne by congruence. }
  intros q. simpl. unfold one. destruct (decide (p = q)) as [<-|Hq].
  - rewrite lookup_insert_eq. simpl. rewrite i32_id; [lia|]. unfold in_i32. lia.
  - rewrite lookup_insert_ne, Z.add_0_r by done. apply H.
Qed.

Lemma Release_ok R m p :
  counted_by R m.(objs) → 0 < R p → R p ≤ 2147483647 →
  ∃ st m', Release p m = (Ret st, m') ∧ frame m m' ∧
    counted_by (λ q, R q - one p q) m'.(objs) ∧ (st = kDroppedLastRef ↔ R p = 1).
Proof.
  intros H Hp Hb. unfold Release, DecRef. pose proof (H p) as Hc.
  destruct (objs m !! p) as [c|] eqn:E; [|lia]. destruct Hc as [Hc _]. rewrite Hc.
  rewrite i32_id by (unfold in_i32; lia).
  assert (∀ q, p ≠ q → R q - one p q = R q) as Ho by (intros; unfold one; rewrite decide_False by done; lia).
  assert (R p - one p p = R p - 1) as Hs by (unfold one; rewrite decide_True by done; lia).
  destruct (decide (R p - 1 = 0)) as [H0|H0]; do 2 eexists; (split; [done|]).
  - split; [apply frame_on_objs; intros q Hq; apply lookup_delete_None; by right|].
    split; [|split; [lia|done]]. intros q. simpl. destruct (decide (p = q)) as [<-|Hq].
    + rewrite lookup_delete_eq. lia.
    + rewrite lookup_delete_ne, Ho by done. apply H.
  - split; [apply frame_on_objs; intros q Hq; by rewrite lookup_insert_ne by congruence|].
    split; [|split; [done|lia]]. intros q. simpl. destruct (decide (p = q)) as [<-|Hq].
    + rewrite lookup_insert_eq, Hs. simpl. lia.
    + rewrite lookup_insert_ne, Ho by done. apply H.
Qed.

Definition one_of (p : ptr) (q : nat) : Z := match p with Some a => one a q | None => 0 end.

Lemma occ_one x q : occ q (Some x) = one_of x q.
Proof. unfold occ, one_of, one. destruct x; repeat destruct (decide _); naive_solver. Qed.

Lemma add_ref_ok R m p :
  counted_by R m.(objs) → (∀ a, p = Some a → 0 < R a < 2147483647) →
  ∃ m', add_ref p m = (Ret tt, m') ∧ frame m m' ∧ counted_by (λ q, R q + one_of p q) m'.(objs).
Proof.
  intros H Hp. destruct p as [a|]; simpl.
  - destruct (Hp a eq_refl). by apply AddRef_ok.
  - exists m. split_and!; [done..|]. eapply counted_by_ext, H. intros; simpl; lia.
Qed.

Lemma drop_ref_ok R m p :
  counted_by R m.(objs) → (∀ a, p = Some a → 0 < R a ≤ 2147483647) →
  ∃ m', drop_ref p m = (Ret tt, m') ∧ frame m m' ∧ counted_by (λ q, R q - one_of p q) m'.(objs).
Proof.
  intros H Hp. destruct p as [a|]; simpl.
  - destruct (Hp a eq_refl). destruct (Release_ok R m a) as (st & m' & E & Hf & Hc & _); [done..|].
    exists m'. by rewrite (ST_bind_Ret _ _ _ _ _ E).
  - exists m. split_and!; [done..|]. eapply counted_by_ext, H. intros; simpl; lia.
Qed.

(** ** Every operation keeps the objects counted *)
Lemma refs_bound m p : 0 ≤ refs m p ≤ Z.of_nat (length m.(vars) + length m.(raws)).
Proof.
  unfold refs. pose proof (count_vars_range p m.(vars)).
  pose proof (count_raws_range p m.(raws)). lia.
Qed.

Lemma refs_set_var m v x y q :
  m.(vars) !! v = Some y → refs (set_var v x m) q = refs m q - occ q y + occ q x.
Proof. intros E. unfold refs, set_var. simpl. rewrite (count_vars_insert _ _ _ _ y) by done. lia. Qed.

Lemma held_refs m v p a : m.(vars) !! v = Some (Some p) → p = Some a → 0 < refs m a.
Proof.
  intros E ->. unfold refs. pose proof (count_raws_range a m.(raws)).
  assert (0 < count_vars a m.(vars)); [|lia]. clear -E.
  revert v E. induction (vars m) as [|x l IH]; intros [|v] E; simplify_eq/=.
  - unfold occ. rewrite decide_True by done. pose proof (count_vars_range a l). lia.
  - pose proof (occ_range a x). specialize (IH v E). lia.
Qed.

Lemma held_eq m v p : m.(vars) !! v = Some (Some p) → held v m = (Ret p, m).
Proof. intros E. unfold held, gets. by rewrite E. Qed.

Lemma alive_inv m v : alive m v = true → ∃ p, m.(vars) !! v = Some (Some p).
Proof. unfold alive. destruct (vars m !! v) as [[p|]|]; naive_solver. Qed.

Lemma dead_inv m v : dead m v = true → m.(vars) !! v = Some None.
Proof. unfold dead. destruct (vars m !! v) as [[p|]|]; naive_solver. Qed.

(** The promise of one operation. *)
Definition keeps (m : mem) (r : outcome unit * mem) : Prop :=
  ∃ m', r = (Ret tt, m') ∧ counted m' ∧ length m'.(vars) = length m.(vars) ∧
    (length m'.(raws) ≤ S (length m.(raws)))%nat.

Lemma keeps_intro R m m' :
  counted m → counted_by R m'.(objs) → m'.(next) = m.(next) →
  (∀ p, m.(objs) !! p = None → m'.(objs) !! p = None) →
  (∀ q, R q = count_vars q m'.(vars) + count_raws q m'.(raws)) →
  length m'.(vars) = length m.(vars) → (length m'.(raws) ≤ S (length m.(raws)))%nat →
  keeps m (Ret tt, m').
Proof.
  intros [_ Hn] Hc Hnx Hf HR Hl Hr. exists m'. split_and!; [done| |done..].
  split; [by eapply counted_by_ext|]. intros p Hp. apply Hf, Hn. by rewrite <- Hnx.
Qed.

(** Close the bookkeeping goals of [keeps_intro]. *)
Ltac tally :=
  simpl in *; intros;
  repeat match goal with
  | H : vars ?m = _ |- context [vars ?m] => rewrite H
  | H : raws ?m = _ |- context [raws ?m] => rewrite H
  end; simpl in *;
  rewrite ?length_insert; try lia; try done;
  repeat (erewrite count_vars_insert; [|simplify_list_eq; eassumption]);
  rewrite ?occ_one; unfold refs, occ; simpl; try lia; try congruence; eauto.

Section ops.
Context (m : mem) (Hm : counted m).
Hypothesis small : Z.of_nat (length m.(vars) + length m.(raws)) < 2147483647.

Lemma refs_small p : 0 ≤ refs m p < 2147483647.
Proof. pose proof (refs_bound m p). lia. Qed.

(** Constructing from a pointer some variable holds. *)
Lemma ctor_ptr_keeps v r p :
  m.(vars) !! v = Some None → m.(vars) !! r = Some (Some p) → keeps m (ctor_ptr v p m).
Proof.
  intros Ev Er. unfold ctor_ptr. rewrite modify_bind.
  destruct (add_ref_ok (refs m) (set_var v (Some p) m) p) as (m' & E & (Hv & Hr & Hn & Ho) & Hc).
  - apply Hm.
  - intros a Ha. pose proof (refs_small a). pose proof (held_refs m r p a Er Ha). lia.
  - rewrite E. apply (keeps_intro (λ q, refs m q + one_of p q)); tally.
Qed.

Lemma dtor_keeps v : alive m v = true → keeps m (dtor v m).
Proof.
  intros [p Ev]%alive_inv. unfold dtor. erewrite ST_bind_Ret by by apply held_eq.
  destruct (drop_ref_ok (refs m) m p) as (m1 & E & (Hv & Hr & Hn & Ho) & Hc).
  - apply Hm.
  - intros a Ha. pose proof (refs_small a). pose proof (held_refs m v p a Ev Ha). lia.
  - rewrite (ST_bind_Ret _ _ _ _ _ E). apply (keeps_intro (λ q, refs m q - one_of p q)); tally.
Qed.

Lemma assign_keeps v r : alive m v = true → alive m r = true → keeps m (assign_copy v r m).
Proof.
  intros [q Ev]%alive_inv [p Er]%alive_inv. unfold assign_copy, assign_ptr.
  erewrite ST_bind_Ret by by apply held_eq.
  destruct (add_ref_ok (refs m) m p) as (m1 & E & (Hv & Hr & Hn & Ho) & Hc).
  { apply Hm. }
  { intros a Ha. pose proof (refs_small a). pose proof (held_refs m r p a Er Ha). lia. }
  rewrite (ST_bind_Ret _ _ _ _ _ E). erewrite ST_bind_Ret; [|apply held_eq; by rewrite Hv].
  destruct (drop_ref_ok (λ a, refs m a + one_of p a) m1 q) as (m2 & E2 & (Hv2 & Hr2 & Hn2 & Ho2) & Hc2).
  { done. }
  { intros a Ha. pose proof (refs_small a). pose proof (held_refs m v q a Ev Ha).
    unfold one_of, one. destruct p; [destruct (decide _)|]; lia. }
  rewrite (ST_bind_Ret _ _ _ _ _ E2).
  apply (keeps_intro (λ a, refs m a + one_of p a - one_of q a)); tally.
Qed.

Lemma release_move_facts v p :
  m.(vars) !! v = Some (Some p) → release v m = (Ret p, set_var v (Some None) m).
Proof. intros E. unfold release. by erewrite ST_bind_Ret by by apply held_eq. Qed.

Lemma ctor_move_keeps v r : dead m v = true → alive m r = true → keeps m (ctor_move v r m).
Proof.
  intros Ev%dead_inv [p Er]%alive_inv. unfold ctor_move.
  erewrite ST_bind_Ret by by apply release_move_facts.
  assert (v ≠ r) by (intros ->; congruence).
  apply (keeps_intro (refs m)); [done|apply Hm|done|done|..]; simpl; [|by rewrite !length_insert|lia].
  intros q. erewrite count_vars_insert; [|by rewrite list_lookup_insert_ne].
  erewrite count_vars_insert by done. rewrite !occ_one. unfold refs, occ. simpl. lia.
Qed.

Lemma null_keeps v : dead m v = true → keeps m (ctor_null v m).
Proof. intros Ev%dead_inv. apply (keeps_intro (refs m)); [done|apply Hm|done|done|..]; tally. Qed.

Lemma assign_move_keeps v r : alive m v = true → alive m r = true → keeps m (assign_move v r m).
Proof.
  intros [q Ev]%alive_inv [p Er]%alive_inv. unfold assign_move.
  erewrite ST_bind_Ret by by apply release_move_facts.
  set (m1 := set_var r (Some None) m).
  assert (∃ q', held v m1 = (Ret q', m1) ∧ vars m1 !! v = Some (Some q') ∧
    ∀ a, q' = Some a → 0 < refs m a) as (q' & Eh & Ev' & Hq').
  { destruct (decide (r = v)) as [->|Hne].
    - exists None. assert (vars m1 !! v = Some (Some None)) as E
        by (apply list_lookup_insert_eq; by eapply lookup_lt_Some).
      split_and!; [by apply held_eq|done|done].
    - exists q. assert (vars m1 !! v = Some (Some q)) as E by (simpl; by rewrite list_lookup_insert_ne).
      split_and!; [by apply held_eq|done|]. intros a Ha. exact (held_refs m v q a Ev Ha). }
  rewrite (ST_bind_Ret _ _ _ _ _ Eh), modify_bind.
  destruct (drop_ref_ok (refs m) (set_var v (Some p) m1) q') as (m2 & E2 & (Hv2 & Hr2 & Hn2 & Ho2) & Hc2).
  { apply Hm. }
  { intros a Ha. pose proof (refs_small a). pose proof (Hq' a Ha). lia. }
  rewrite E2. apply (keeps_intro (λ a, refs m a - one_of q' a)); [done|done| | | | |].
  - by rewrite Hn2.
  - intros x Hx. by apply Ho2.
  - intros a. rewrite Hv2, Hr2. cbn [vars raws set_var].
    rewrite (count_vars_insert _ _ _ _ _ Ev').
    unfold m1. cbn [vars raws set_var]. rewrite (count_vars_insert _ _ _ _ _ Er), !occ_one.
    unfold refs. simpl. lia.
  - rewrite Hv2. simpl. by rewrite !length_insert.
  - rewrite Hr2. simpl. lia.
Qed.

Lemma swap_keeps v r : alive m v = true → alive m r = true → keeps m (swap v r m).
Proof.
  intros [p Ev]%alive_inv [q Er]%alive_inv. unfold swap.
  erewrite ST_bind_Ret by by apply held_eq. erewrite ST_bind_Ret by by apply held_eq.
  rewrite modify_bind. apply (keeps_intro (refs m)); [done|apply Hm|done|done|..]; simpl;
    [|by rewrite !length_insert|lia].
  intros a. destruct (decide (v = r)) as [->|Hne].
  - simplify_eq. rewrite list_insert_insert_eq. erewrite count_vars_insert by done. unfold refs. lia.
  - erewrite count_vars_insert; [|by rewrite list_lookup_insert_ne].
    erewrite count_vars_insert by done. unfold refs. lia.
Qed.

Lemma give_away_keeps v : alive m v = true → keeps m (exec (GiveAway v) m).
Proof.
  intros [p Ev]%alive_inv. simpl. erewrite ST_bind_Ret by by apply release_move_facts.
  destruct p as [a|]; (apply (keeps_intro (refs m)); [done|apply Hm|done|done|..]; tally).
  unfold one. lia.
Qed.

Lemma release_raw_keeps p : p ∈ m.(raws) → keeps m (exec (ReleaseRaw p) m).
Proof.
  intros Hp. cbn [exec]. rewrite modify_bind.
  assert (0 < refs m p) as H0.
  { unfold refs. pose proof (count_vars_range p m.(vars)).
    pose proof (count_raws_remove p p (raws m) Hp) as Hr. rewrite decide_True in Hr by done.
    pose proof (count_raws_range p (remove_one p (raws m))). lia. }
  destruct (Release_ok (refs m) (on_raws (remove_one p) m) p)
    as (st & m1 & E & (Hv & Hr & Hn & Ho) & Hc & _); [apply Hm|done|pose proof (refs_small p); lia|].
  rewrite (ST_bind_Ret _ _ _ _ _ E).
  apply (keeps_intro (λ q, refs m q - one p q)); [done|done|done|done|..]; simpl in *.
  - intros q. rewrite Hv, Hr, count_raws_remove by done. unfold refs, one. lia.
  - by rewrite Hv.
  - rewrite Hr. clear. induction (raws m) as [|x l IH]; simpl; [lia|]. destruct (decide _); simpl; lia.
Qed.

Lemma new_keeps v : dead m v = true → keeps m (exec (New v) m).
Proof.
  intros Ev%dead_inv. destruct Hm as [Hc Hn]. set (p := m.(next)).
  assert (objs m !! p = None) as Ep by (apply Hn; done).
  pose proof (Hc p) as Hz. rewrite Ep in Hz.
  cbn [exec]. unfold ctor_ptr, add_ref, new_object, AddRef. unfold_st. simpl.
  fold p. rewrite lookup_insert_eq. simpl.
  eexists. split; [done|]. simpl. split_and!; [split|by rewrite length_insert|lia].
  - intros q. unfold refs. simpl. rewrite (count_vars_insert _ _ _ _ _ Ev), occ_one.
    unfold occ. simpl. rewrite insert_insert_eq. unfold one. specialize (Hc q).
    destruct (decide (p = q)) as [<-|Hq].
    + rewrite lookup_insert_eq. unfold refs in Hz. simpl. change (i32 (0 + 1)) with 1. lia.
    + rewrite lookup_insert_ne by done. unfold refs in Hc.
      destruct (objs m !! q); lia.
  - intros q Hq. simpl in *. rewrite !lookup_insert_ne by (unfold p; lia). apply Hn. lia.
Qed.

Lemma exec_keeps o : allowed o m = true → keeps m (exec o m).
Proof.
  destruct o; simpl; rewrite ?andb_true_iff.
  - apply new_keeps.
  - apply null_keeps.
  - intros [Hd%dead_inv [p Er]%alive_inv]. erewrite ST_bind_Ret by by apply held_eq.
    by eapply ctor_ptr_keeps.
  - intros [Hd%dead_inv [p Er]%alive_inv]. unfold ctor_copy. erewrite ST_bind_Ret by by apply held_eq.
    by eapply (ctor_ptr_keeps v r p).
  - intros []. by apply ctor_move_keeps.
  - apply dtor_keeps.
  - intros []. by apply assign_keeps.
  - intros []. by apply assign_move_keeps.
  - intros []. by apply swap_keeps.
  - apply give_away_keeps.
  - rewrite bool_decide_eq_true. apply release_raw_keeps.
Qed.

End ops.

Lemma run_counted ops m r m' :
  counted m → Z.of_nat (length m.(vars) + length m.(raws) + length ops) < 2147483647 →
  run ops m = Some (r, m') → r = Ret tt ∧ counted m'.
Proof.
  revert m. induction ops as [|o ops IH]; intros m Hm Hb E; simpl in *; [by simplify_eq|].
  destruct (allowed o m) eqn:Ea; [|done].
  destruct (exec_keeps m Hm ltac:(lia) o Ea) as (m1 & E1 & Hc & Hv & Hr). rewrite E1 in E.
  apply (IH m1); [done|lia|done].
Qed.

Lemma counted_init n : counted (init n).
Proof.
  split; [|intros; simpl; by rewrite lookup_empty]. intros p. simpl. rewrite lookup_empty.
  unfold refs. simpl. induction n as [|n IH]; simpl; [done|]. unfold occ. simpl. lia.
Qed.

End RefPtr.

Import RefPtr.

(** C9: Reference counting is exact: however a program constructs, copies,
    moves, assigns, swaps, releases and destroys its scoped_refptr variables,
    it never touches a freed object, and at every point the counter of each
    live object is the number of references to it while an object without
    references has been deleted (for fewer than 2^31 - 1 variables and
    operations). *)
Theorem refptr_counts_are_exact n ops r m :
  Z.of_nat (n + length ops) < 2147483647 → run ops (init n) = Some (r, m) →
  r = Ret tt ∧
  ∀ p, match m.(objs) !! p with
       | Some c => c.(ref_count_) = refs m p ∧ 0 < refs m p
       | None => refs m p = 0
       end.
Proof.
  intros Hb E. destruct (run_counted ops (init n) r m) as [Hr [Hc _]].
  - apply counted_init.
  - simpl. rewrite length_replicate. lia.
  - done.
  - done.
Qed.

Lemma refptr_counts_are_exact_witness :
  ∃ m, run [New 0; Copy 1 0; AssignMove 0 1; New 2; Assign 2 0; Destroy 0; GiveAway 2; ReleaseRaw 0]%nat
         (init 3) = Some (Ret tt, m) ∧ refs m 0 = 0 ∧ m.(objs) = ∅.
Proof.
  eexists. split; [reflexivity|].
  match goal with |- refs ?m 0 = 0 ∧ _ =>
    destruct (refptr_counts_are_exact 3
      [New 0; Copy 1 0; AssignMove 0 1; New 2; Assign 2 0; Destroy 0; GiveAway 2; ReleaseRaw 0]%nat
      (Ret tt) m ltac:(simpl; lia) eq_refl) as [_ H]
  end.
  split; [exact (H 0%nat)|]. apply (bool_decide_unpack _). by vm_compute.
Defined.
