(* ===== verification/StdContainers.v ===== *)
(** * Ordered containers of the standard library

    [std::set<std::string>] and [std::map<std::string, T>] iterate in the
    order of [std::string::operator<], which HttpUrl::Builder::ToString makes
    visible, so both are kept as strictly sorted lists. *)

From stdpp Require Import base list strings gmap sorting.
From Stdlib Require Import Ascii ZArith Lia.
From S2P Require Import Prelude CppString.

Local Open Scope Z_scope.

(** ** [std::string::operator<] (bytes compared as unsigned) *)
Fixpoint str_ltb (a b : str) : bool :=
  match a, b with
  | _, [] => false
  | [], _ :: _ => true
  | x :: a', y :: b' =>
      if code x <? code y then true
      else if code y <? code x then false
      else str_ltb a' b'
  end.

Definition str_lt (a b : str) : Prop := str_ltb a b = true.

#[global] Instance str_lt_dec a b : Decision (str_lt a b).
Proof. unfold str_lt. apply _. Defined.

Lemma code_inj x y : code x = code y → x = y.
Proof.
  unfold code. intros H. apply N2Z.inj in H.
  by rewrite <- (ascii_N_embedding x), <- (ascii_N_embedding y), H.
Qed.

#[global] Instance str_lt_irrefl : Irreflexive str_lt.
Proof.
  intros a. unfold complement, str_lt. induction a as [|x a IH]; simpl; [done|].
  by rewrite !Z.ltb_irrefl.
Qed.

#[global] Instance str_lt_trans : Transitive str_lt.
Proof.
  intros a. unfold str_lt. induction a as [|x a IH]; intros [|y b] [|z d]; simpl; try done.
  intros H1 H2.
  destruct (Z.ltb_spec (code x) (code y)), (Z.ltb_spec (code y) (code z)),
    (Z.ltb_spec (code x) (code z)), (Z.ltb_spec (code y) (code x)),
    (Z.ltb_spec (code z) (code y)), (Z.ltb_spec (code z) (code x));
    try done; try lia; eauto.
Qed.

Lemma str_lt_total a b : str_lt a b ∨ a = b ∨ str_lt b a.
Proof.
  unfold str_lt. revert b. induction a as [|x a IH]; intros [|y b]; simpl; auto.
  destruct (Z.ltb_spec (code x) (code y)), (Z.ltb_spec (code y) (code x)); auto.
  destruct (IH b) as [?|[->|?]]; auto.
  right; left. f_equal. apply code_inj. lia.
Qed.

(** ** [std::set<std::string>] *)
Section ordered_set.

Fixpoint set_emplace (x : str) (l : list str) : list str :=
  match l with
  | [] => [x]
  | y :: l' => if decide (x = y) then l
               else if decide (str_lt x y) then x :: l
               else y :: set_emplace x l'
  end.

Definition set_erase (x : str) (l : list str) : list str :=
  filter (λ y, y ≠ x) l.

Definition sorted_set (l : list str) : Prop := StronglySorted str_lt l.

Lemma set_emplace_elem x y l : y ∈ set_emplace x l ↔ y = x ∨ y ∈ l.
Proof.
  induction l as [|z l IH]; simpl; [set_solver|].
  repeat case_decide; set_solver.
Qed.

Lemma set_emplace_sorted x l : sorted_set l → sorted_set (set_emplace x l).
Proof.
  unfold sorted_set. induction 1 as [|y l Hs IH Hy]; simpl.
  { by repeat constructor. }
  repeat case_decide; subst.
  - by constructor.
  - constructor; [by constructor|]. constructor; [done|].
    eapply Forall_impl; [exact Hy|]. intros z. by apply transitivity.
  - constructor; [done|]. apply Forall_forall. intros z.
    rewrite set_emplace_elem. intros [->|Hz].
    + destruct (str_lt_total x y) as [?|[?|?]]; done.
    + rewrite Forall_forall in Hy. auto.
Qed.

Lemma set_emplace_nonempty x l : set_emplace x l ≠ [].
Proof. destruct l; simpl; [done|]. by repeat case_decide. Qed.

Lemma set_emplace_last x l :
  Forall (λ y, str_lt y x) l → set_emplace x l = l ++ [x].
Proof.
  induction 1 as [|y l Hy Hl IH]; simpl; [done|].
  rewrite decide_False by (intros ->; by apply (irreflexivity str_lt y)).
  rewrite decide_False by (intros Hx; by apply (irreflexivity str_lt x); trans y).
  by rewrite IH.
Qed.

Lemma set_erase_sorted x l : sorted_set l → sorted_set (set_erase x l).
Proof.
  unfold sorted_set, set_erase. induction 1 as [|y l Hs IH Hy]; [constructor|].
  rewrite filter_cons. case_decide; [|done]. constructor; [done|].
  by apply Forall_filter.
Qed.

Lemma sorted_set_app_lt l x r : sorted_set (l ++ x :: r) → Forall (λ y, str_lt y x) l.
Proof.
  unfold sorted_set. induction l as [|y l IH]; simpl; intros H; constructor.
  - inversion H as [|? ? ? Hy]; subst. rewrite Forall_forall in Hy.
    apply Hy. set_solver.
  - apply IH. by inversion H.
Qed.

End ordered_set.

(** ** [std::map<std::string, T>] *)
Section ordered_map.
Context {T : Type}.
Implicit Type m : list (str * T).

Fixpoint map_find (k : str) (m : list (str * T)) : option T :=
  match m with
  | [] => None
  | (k', v) :: m' => if decide (k = k') then Some v else map_find k m'
  end.

(** [m.emplace(std::make_pair(k, v))]: keeps an existing entry. *)
Fixpoint map_emplace (k : str) (v : T) (m : list (str * T)) : list (str * T) :=
  match m with
  | [] => [(k, v)]
  | (k', v') :: m' => if decide (k = k') then m
                      else if decide (str_lt k k') then (k, v) :: m
                      else (k', v') :: map_emplace k v m'
  end.

(** Assigning through an iterator to the entry of [k]. *)
Definition map_update (k : str) (f : T → T) (m : list (str * T)) : list (str * T) :=
  (λ e, if decide (e.1 = k) then (e.1, f e.2) else e) <$> m.

(** [m.erase(k)] *)
Definition map_erase (k : str) (m : list (str * T)) : list (str * T) :=
  filter (λ e, e.1 ≠ k) m.

Definition sorted_map (m : list (str * T)) : Prop := sorted_set m.*1.

Lemma map_find_None k m : map_find k m = None ↔ k ∉ m.*1.
Proof.
  induction m as [|[k' v] m IH]; simpl; [set_solver|].
  case_decide; subst; set_solver.
Qed.

Lemma map_find_Some_elem k v m : map_find k m = Some v → (k, v) ∈ m.
Proof.
  induction m as [|[k' v'] m IH]; simpl; [done|].
  case_decide; intros; simplify_eq; set_solver.
Qed.

Lemma map_emplace_keys k v m : k ∉ m.*1 → (map_emplace k v m).*1 = set_emplace k m.*1.
Proof.
  induction m as [|[k' v'] m IH]; simpl; [done|]. intros H.
  rewrite not_elem_of_cons in H. destruct H as [Hk Hm].
  rewrite !(decide_False (P := k = k')) by done.
  case_decide; [done|]. csimpl. by rewrite IH.
Qed.

Lemma map_emplace_elem k v m e : e ∈ map_emplace k v m → e = (k, v) ∨ e ∈ m.
Proof.
  induction m as [|[k' v'] m IH]; simpl; [set_solver|].
  repeat case_decide; set_solver.
Qed.

Lemma map_update_keys k f m : (map_update k f m).*1 = m.*1.
Proof.
  unfold map_update. rewrite <- list_fmap_compose. apply list_fmap_ext.
  intros i [k' v] _. simpl. by case_decide.
Qed.

Lemma map_erase_keys k m : (map_erase k m).*1 = set_erase k m.*1.
Proof.
  unfold map_erase, set_erase. induction m as [|[k' v] m IH]; [done|].
  rewrite filter_cons. csimpl. rewrite filter_cons.
  destruct (decide (k' ≠ k)); csimpl; by rewrite ?IH.
Qed.

Lemma map_emplace_find_ne k k' v m :
  k ≠ k' → map_find k (map_emplace k' v m) = map_find k m.
Proof.
  intros Hne. induction m as [|[k2 v2] m IH]; simpl.
  { by rewrite decide_False. }
  repeat case_decide; simplify_eq/=; repeat case_decide; simplify_eq/=; done.
Qed.

Lemma map_emplace_find k v m :
  k ∉ m.*1 → map_find k (map_emplace k v m) = Some v.
Proof.
  induction m as [|[k' v'] m IH]; simpl; intros H.
  { by rewrite decide_True. }
  rewrite not_elem_of_cons in H. destruct H as [Hk Hm].
  rewrite (decide_False (P := k = k')) by done.
  case_decide; simpl; [by rewrite decide_True|].
  rewrite decide_False by done. auto.
Qed.

Lemma map_update_find k k' f m :
  map_find k (map_update k' f m) =
  (if decide (k = k') then f <$> map_find k m else map_find k m).
Proof.
  unfold map_update. induction m as [|[k2 v2] m IH]; simpl; [by case_decide|].
  destruct (decide (k2 = k')), (decide (k = k2)), (decide (k = k'));
    simplify_eq/=; repeat case_decide; simplify_eq/=; try done; rewrite IH;
    by repeat case_decide.
Qed.

Lemma map_erase_find k k' m :
  map_find k (map_erase k' m) = (if decide (k = k') then None else map_find k m).
Proof.
  unfold map_erase. induction m as [|[k2 v2] m IH]; [by case_decide|].
  rewrite filter_cons. simpl.
  repeat case_decide; simplify_eq/=; repeat case_decide; simplify_eq/=; try done.
Qed.

Lemma map_emplace_last k v m :
  Forall (λ y, str_lt y k) m.*1 → map_emplace k v m = m ++ [(k, v)].
Proof.
  induction m as [|[k' v'] m IH]; simpl; [done|]. intros H.
  apply Forall_cons in H as [Hk Hm].
  rewrite decide_False by (intros ->; by apply (irreflexivity str_lt k')).
  rewrite decide_False by (intros Hx; by apply (irreflexivity str_lt k); trans k').
  by rewrite IH.
Qed.

Lemma sorted_map_find k v m : sorted_map m → (k, v) ∈ m → map_find k m = Some v.
Proof.
  unfold sorted_map, sorted_set. induction m as [|[k' v'] m IH]; csimpl.
  { intros _ H. by apply not_elem_of_nil in H. }
  intros Hs Hin. inversion Hs as [|? ? Hs' Hk]; subst.
  apply elem_of_cons in Hin as [?|Hin]; [simplify_eq; by rewrite decide_True|].
  rewrite decide_False; [auto|]. intros ->.
  rewrite Forall_forall in Hk. apply (irreflexivity str_lt k'), Hk.
  apply list_elem_of_fmap. by exists (k', v).
Qed.

Lemma map_find_snoc k v m : k ∉ m.*1 → map_find k (m ++ [(k, v)]) = Some v.
Proof.
  induction m as [|[k' v'] m IH]; csimpl; intros H; [by rewrite decide_True|].
  rewrite not_elem_of_cons in H. destruct H. rewrite decide_False by done. auto.
Qed.

Lemma map_update_snoc k f v m :
  k ∉ m.*1 → map_update k f (m ++ [(k, v)]) = m ++ [(k, f v)].
Proof.
  unfold map_update. induction m as [|[k' v'] m IH]; csimpl; intros H.
  { by rewrite decide_True. }
  rewrite not_elem_of_cons in H. destruct H.
  rewrite decide_False by done. by rewrite IH.
Qed.

End ordered_map.
