(* ===== verification/HttpUrl.v ===== *)
(** * messenger/http_url: HttpUrl and HttpUrl::Builder

    [Module Builder] holds the builder's fields and methods, [Parse] and
    [ToString] among them; [Module Url] the immutable HttpUrl built from it.
    Logging is left out; every state change, early return, exception and
    out-of-bounds write of the code is in the definitions. *)

From stdpp Require Import base list strings gmap.
From Stdlib Require Import Ascii ZArith Lia.
From S2P Require Import Prelude CppString StdContainers.

Local Open Scope Z_scope.

(** ** HttpUrl::DefaultPort *)
Definition DefaultPort (scheme : str) : Z :=
  if decide (scheme = $"http") then 80
  else if decide (scheme = $"https") then 443
  else -1.

Module Builder.

Record Builder := mkBuilder {
  scheme_ : str;
  host_ : str;
  port_ : Z;
  encoded_path_segments_ : list str;
  encoded_query_names_and_values_ : list (str * list str);
  encoded_fragment_ : str
}.

(** [Builder() = default] with the member initialisers. *)
Definition new : Builder := mkBuilder [] [] (-1) [] [] [].

Definition set_scheme s b := mkBuilder s b.(host_) b.(port_)
  b.(encoded_path_segments_) b.(encoded_query_names_and_values_) b.(encoded_fragment_).
Definition set_host h b := mkBuilder b.(scheme_) h b.(port_)
  b.(encoded_path_segments_) b.(encoded_query_names_and_values_) b.(encoded_fragment_).
Definition set_port p b := mkBuilder b.(scheme_) b.(host_) p
  b.(encoded_path_segments_) b.(encoded_query_names_and_values_) b.(encoded_fragment_).
Definition set_path l b := mkBuilder b.(scheme_) b.(host_) b.(port_)
  l b.(encoded_query_names_and_values_) b.(encoded_fragment_).
Definition set_query q b := mkBuilder b.(scheme_) b.(host_) b.(port_)
  b.(encoded_path_segments_) q b.(encoded_fragment_).
Definition set_fragment f b := mkBuilder b.(scheme_) b.(host_) b.(port_)
  b.(encoded_path_segments_) b.(encoded_query_names_and_values_) f.

Definition Clear : ST Builder unit := modify (λ _, new).

Definition Scheme (scheme : str) : ST Builder unit :=
  (if decide (scheme = []) then modify (set_scheme $"http") else mret tt) ;;
  if decide (scheme = $"http") then modify (set_scheme $"http")
  else if decide (scheme = $"https") then modify (set_scheme $"https")
  else modify (set_scheme $"http").

(** [host_] is cleared and [std::transform] then writes [host.size()]
    characters through [host_.begin()] of the empty string. *)
Definition Host (host : str) : ST Builder unit :=
  if decide (host = []) then mret tt
  else modify (set_host []) ;; lift (Undef OutOfBounds).

Definition Port (port : Z) : ST Builder unit :=
  if (port <=? 0) || (65535 <? port) then modify (set_port (-1))
  else modify (set_port port).

Definition Pop : ST Builder unit :=
  modify (λ b, set_path (removelast b.(encoded_path_segments_)) b).

Definition Push (segment : str) : ST Builder unit :=
  if decide (segment = []) then mret tt
  else if decide (segment = $".") then mret tt
  else if decide (segment = $"..") then Pop
  else modify (λ b, set_path (b.(encoded_path_segments_) ++ [segment]) b).

Definition AddEncodedPathSegment (pathSegment : str) : ST Builder unit :=
  if decide (pathSegment = []) then mret tt else Push pathSegment.

Definition AddEncodedPathSegments (pathSegment : str) : ST Builder unit :=
  if decide (pathSegment = []) then mret tt
  else for_each (λ it, if decide (it = []) then mret tt else Push it)
         (regex_tokens "/"%char pathSegment).

Definition SetEncodedPathSegment (index : Z) (pathSegment : str) : ST Builder unit :=
  if decide (pathSegment = []) then mret tt
  else if decide (pathSegment = $"." ∨ pathSegment = $"..") then mret tt
  else b ← get;
    if (index <? 0) || (Z.of_nat (length b.(encoded_path_segments_)) <=? index)
    then mret tt
    else modify (set_path (<[Z.to_nat index := pathSegment]> b.(encoded_path_segments_))).

Definition RemovePathSegment (index : Z) : ST Builder unit :=
  b ← get;
  if (index <? 0) || (Z.of_nat (length b.(encoded_path_segments_)) <=? index)
  then mret tt
  else modify (set_path (delete (Z.to_nat index) b.(encoded_path_segments_))).

Definition AddEncodedQueryParameter (name value : str) : ST Builder unit :=
  if decide (name = []) then mret tt
  else b ← get;
    let m := b.(encoded_query_names_and_values_) in
    match map_find name m with
    | None => modify (set_query (map_emplace name (set_emplace value []) m))
    | Some _ => modify (set_query (map_update name (set_emplace value) m))
    end.

Definition RemoveEncodedQueryParameter (name value : str) : ST Builder unit :=
  if decide (name = []) then mret tt
  else b ← get;
    let m := b.(encoded_query_names_and_values_) in
    match map_find name m with
    | None => mret tt
    | Some values =>
        modify (set_query (map_update name (set_erase value) m)) ;;
        if decide (set_erase value values = [])
        then modify (λ b, set_query (map_erase name b.(encoded_query_names_and_values_)) b)
        else mret tt
    end.

Definition RemoveEncodedQueryParameterAll (name : str) : ST Builder unit :=
  if decide (name = []) then mret tt
  else modify (λ b, set_query (map_erase name b.(encoded_query_names_and_values_)) b).

Definition AddEncodedFragment (fragment : str) : ST Builder unit :=
  if decide (fragment = []) then mret tt
  else modify (set_fragment fragment).

(** *** Parse *)
Definition trim_front (c : ascii) (url : str) : outcome str :=
  erase url 0 (find_first_not_of url c).

Definition trim_back (c : ascii) (url : str) : outcome str :=
  erase url (u64 (find_last_not_of url c + 1)) npos.

(** Blanks are removed one kind after the other, each once. *)
Definition trim (url : str) : outcome str :=
  url ← trim_front " "%char url;
  url ← trim_front (chr 9) url;
  url ← trim_front (chr 10) url;
  url ← trim_front (chr 12) url;
  url ← trim_front (chr 13) url;
  url ← trim_back " "%char url;
  url ← trim_back (chr 9) url;
  url ← trim_back (chr 10) url;
  url ← trim_back (chr 12) url;
  trim_back (chr 13) url.

(** The end of the authority-and-path part of a url. *)
Definition path_end (url : str) : Z :=
  let pathEnd := find_first_of url "?"%char in
  let pathEnd := if pathEnd =? npos then find_first_of url "#"%char else pathEnd in
  if pathEnd =? npos then size url else pathEnd.

(** [portS] of the branch that found a colon. *)
Definition port_text (hostPath : str) (portStart : Z) : outcome str :=
  let portEnd := find_first_of hostPath "/"%char in
  if portEnd =? npos then substr_from hostPath (u64 (portStart + 1))
  else substr hostPath (u64 (portStart + 1)) (u64 (portEnd - (portStart + 1))).

Definition parse_authority (hostPath : str) : ST Builder unit :=
  let portStart := find_first_of hostPath ":"%char in
  let pathStart := find_first_of hostPath "/"%char in
  if portStart =? npos then
    modify (λ b, set_port (DefaultPort b.(scheme_)) b) ;;
    if pathStart =? npos then modify (set_host hostPath)
    else h ← lift (substr hostPath 0 pathStart); modify (set_host h)
  else
    h ← lift (substr hostPath 0 portStart);
    modify (set_host h) ;;
    portS ← lift (port_text hostPath portStart);
    if decide (portS = []) then modify (λ b, set_port (DefaultPort b.(scheme_)) b)
    else p ← lift (atoi portS); modify (set_port p).

Definition parse_path (hostPath : str) : ST Builder unit :=
  path ← lift (substr_from hostPath (u64 (find_first_of hostPath "/"%char + 1)));
  if decide (path = []) then mret tt else AddEncodedPathSegments path.

Definition query_text (url : str) : outcome str :=
  let queryStart := find_first_of url "?"%char in
  let fragmentStart := find_first_of url "#"%char in
  if queryStart =? npos then Ret []
  else if fragmentStart =? npos then substr_from url (u64 (queryStart + 1))
  else substr url (u64 (queryStart + 1)) (u64 (fragmentStart - (queryStart + 1))).

Definition parse_param (s : str) : ST Builder unit :=
  if decide (s = []) then mret tt
  else
    let p := find_first_of s "="%char in
    if p =? npos then AddEncodedQueryParameter s []
    else
      param ← lift (substr s 0 p);
      value ← lift (substr_from s (u64 (p + 1)));
      AddEncodedQueryParameter param value.

Definition parse_query (url : str) : ST Builder unit :=
  query ← lift (query_text url);
  if decide (query = []) then mret tt
  else for_each parse_param (regex_tokens "&"%char query).

Definition parse_fragment (url : str) : ST Builder unit :=
  let fragmentStart := find_first_of url "#"%char in
  if fragmentStart =? npos then mret tt
  else f ← lift (substr_from url (u64 (fragmentStart + 1))); AddEncodedFragment f.

Definition Parse (url : str) : ST Builder bool :=
  if size url <=? 7 then mret false
  else
    Clear ;;
    url ← lift (trim url);
    scheme ← lift (substr url 0 (find_first_of url ":"%char));
    let scheme := to_lower scheme in
    if decide (scheme = []) then mret false
    else if decide (scheme ≠ $"http" ∧ scheme ≠ $"https") then mret false
    else
      modify (set_scheme scheme) ;;
      let pathStart := size scheme + 3 in
      hostPath ← lift (substr url pathStart (u64 (path_end url - pathStart)));
      if decide (hostPath = []) then mret false
      else
        parse_authority hostPath ;;
        parse_path hostPath ;;
        parse_query url ;;
        parse_fragment url ;;
        mret true.

(** *** ToString *)
Fixpoint print_values (param : str) (valuesIndex n : nat) (values : list str) : str :=
  match values with
  | [] => []
  | value :: values' =>
      param ++ ["="%char] ++ value
      ++ (if decide (S valuesIndex < n)%nat then ["&"%char] else [])
      ++ print_values param (S valuesIndex) n values'
  end.

Fixpoint print_query (paramIndex n : nat) (m : list (str * list str)) : str :=
  match m with
  | [] => []
  | (param, []) :: m' => param ++ print_query paramIndex n m'
  | (param, values) :: m' =>
      print_values param 0 (length values) values
      ++ (if decide (S paramIndex < n)%nat then ["&"%char] else [])
      ++ print_query (S paramIndex) n m'
  end.

Definition print_host (host : str) : str :=
  if decide (find_first_of host ":"%char = npos) then host
  else ["["%char] ++ host ++ ["]"%char].

Definition ToString (b : Builder) : str :=
  let port := if b.(port_) =? -1 then DefaultPort b.(scheme_) else b.(port_) in
  b.(scheme_) ++ $"://" ++ print_host b.(host_) ++ [":"%char] ++ to_string port
  ++ concat ((λ i, "/"%char :: i) <$> b.(encoded_path_segments_))
  ++ (if decide (b.(encoded_query_names_and_values_) = []) then []
      else "?"%char :: print_query 0 (length b.(encoded_query_names_and_values_))
                       b.(encoded_query_names_and_values_))
  ++ (if decide (b.(encoded_fragment_) = []) then []
      else "#"%char :: b.(encoded_fragment_)).

End Builder.

Module Url.
Import Builder.

Record HttpUrl := mkUrl {
  url_ : str;
  u_scheme_ : str;
  u_port_ : Z;
  u_host_ : str;
  fragment_ : str;
  path_segments_ : list str;
  query_names_and_values_ : list (str * list str)
}.

(** HttpUrl::Init *)
Definition Init (b : Builder) : HttpUrl :=
  mkUrl (ToString b) b.(scheme_) b.(port_) b.(host_) b.(encoded_fragment_)
    b.(encoded_path_segments_) b.(encoded_query_names_and_values_).

(** HttpUrl(const Builder&), also what Builder::Build returns. *)
Definition of_builder (b : Builder) : HttpUrl := Init b.
Definition Build (b : Builder) : HttpUrl := of_builder b.

(** HttpUrl(std::string): the members stay empty when Parse says no. *)
Definition of_string (url : str) : outcome HttpUrl :=
  match Parse url new with
  | (Ret true, b) => Ret (Init b)
  | (Ret false, _) => Ret (mkUrl [] [] (-1) [] [] [] [])
  | (Throw e, _) => Throw e
  | (Undef u, _) => Undef u
  end.

(** HttpUrl(const HttpUrl&) copies member by member. *)
Definition copy (u : HttpUrl) : HttpUrl :=
  mkUrl u.(url_) u.(u_scheme_) u.(u_port_) u.(u_host_) u.(fragment_)
    u.(path_segments_) u.(query_names_and_values_).

Definition Scheme (u : HttpUrl) : str := u.(u_scheme_).
Definition Port (u : HttpUrl) : Z := u.(u_port_).
Definition IsHttps (u : HttpUrl) : bool := bool_decide (u.(u_scheme_) = $"https").
Definition Host (u : HttpUrl) : str := u.(u_host_).
Definition PathSize (u : HttpUrl) : Z := Z.of_nat (length u.(path_segments_)) - 1.
Definition QuerySize (u : HttpUrl) : Z := Z.of_nat (length u.(query_names_and_values_)).
Definition QueryParameter (u : HttpUrl) : list str := [].
Definition EncodedFragment (u : HttpUrl) : str := u.(fragment_).
Definition Url (u : HttpUrl) : str := u.(url_).

Definition EncodedPath (u : HttpUrl) : outcome str :=
  let pathStart := find_first_of_from u.(url_) "/"%char (size u.(u_scheme_) + 3) in
  substr u.(url_) pathStart (u64 (path_end u.(url_) - pathStart)).

Definition EncodedQuery (u : HttpUrl) : outcome str :=
  let queryStart := find_first_of u.(url_) "?"%char in
  let queryEnd := find_first_of u.(url_) "#"%char in
  if queryStart =? npos then Ret []
  else if queryEnd =? npos then substr_from u.(url_) (u64 (queryStart + 1))
  else substr u.(url_) (u64 (queryStart + 1)) (u64 (queryEnd - (queryStart + 1))).

End Url.

Import Builder.

(** The url of the header comment. *)
Example Parse_doc :
  Parse $"http://example.com:8888/over/there?name=ferret#nose" new =
  (Ret true, mkBuilder $"http" $"example.com" 8888 [$"over"; $"there"]
               [($"name", [$"ferret"])] $"nose").
Proof. vm_compute. reflexivity. Qed.

Example ToString_doc :
  ToString (mkBuilder $"http" $"example.com" (-1) [$"over"; $"there"]
              [($"a", [$"1"; $"2"]); ($"b", [$""])] $"nose")
  = $"http://example.com:80/over/there?a=1&a=2&b=#nose".
Proof. vm_compute. reflexivity. Qed.

Example Parse_no_path :
  (Parse $"http://example.com" new).2.(encoded_path_segments_) = [$"example.com"].
Proof. vm_compute. reflexivity. Qed.
