(* ===== verification/HttpUrlProps.v ===== *)
(** * Correctness of HttpUrl

    The builder's type invariant under every operation, the parse/print round
    trip on canonical urls, what the accessors of a built url return, and the
    urls on which the code departs from its own comments. *)

From stdpp Require Import base list strings gmap sorting.
From Stdlib Require Import Ascii ZArith Lia.
From S2P Require Import Prelude CppString StdContainers HttpUrl.
Import HttpUrl.Builder.

Local Open Scope Z_scope.

(** ** The type invariant *)
Section invariant.

Definition good_segment (s : str) : Prop := s ≠ [] ∧ s ≠ $"." ∧ s ≠ $"..".

Definition good_param (e : str * list str) : Prop :=
  e.1 ≠ [] ∧ e.2 ≠ [] ∧ sorted_set e.2.

Record wf_builder (b : Builder) : Prop := {
  wf_scheme : b.(scheme_) ∈ [ []; $"http"; $"https" ];
  wf_port : in_i32 b.(port_) = true;
  wf_path : Forall good_segment b.(encoded_path_segments_);
  wf_query : sorted_map b.(encoded_query_names_and_values_);
  wf_params : Forall good_param b.(encoded_query_names_and_values_)
}.

(** The public mutators. *)
Inductive builder_op :=
  | OScheme (s : str) | OHost (h : str) | OPort (p : Z)
  | OAddPathSegment (s : str) | OAddPathSegments (s : str)
  | OSetPathSegment (i : Z) (s : str) | ORemovePathSegment (i : Z)
  | OAddQuery (n v : str) | ORemoveQuery (n v : str) | ORemoveQueryAll (n : str)
  | OFragment (f : str) | OParse (url : str).

Definition run_op (o : builder_op) : ST Builder unit :=
  match o with
  | OScheme s => Scheme s
  | OHost h => Host h
  | OPort p => Port p
  | OAddPathSegment s => AddEncodedPathSegment s
  | OAddPathSegments s => AddEncodedPathSegments s
  | OSetPathSegment i s => SetEncodedPathSegment i s
  | ORemovePathSegment i => RemovePathSegment i
  | OAddQuery n v => AddEncodedQueryParameter n v
  | ORemoveQuery n v => RemoveEncodedQueryParameter n v
  | ORemoveQueryAll n => RemoveEncodedQueryParameterAll n
  | OFragment f => AddEncodedFragment f
  | OParse u => Parse u ;; mret tt
  end.

Lemma wf_new : wf_builder new.
Proof. split; simpl; [set_solver|done|constructor..]. Qed.

Lemma wf_set_scheme s b :
  s ∈ [ []; $"http"; $"https" ] → wf_builder b → wf_builder (set_scheme s b).
Proof. intros ? []. by split. Qed.

Lemma wf_set_host h b : wf_builder b → wf_builder (set_host h b).
Proof. intros []. by split. Qed.

Lemma wf_set_port p b : in_i32 p = true → wf_builder b → wf_builder (set_port p b).
Proof. intros ? []. by split. Qed.

Lemma wf_set_path l b : Forall good_segment l → wf_builder b → wf_builder (set_path l b).
Proof. intros ? []. by split. Qed.

Lemma wf_set_fragment f b : wf_builder b → wf_builder (set_fragment f b).
Proof. intros []. by split. Qed.

Lemma wf_set_query q b :
  sorted_map q → Forall good_param q → wf_builder b → wf_builder (set_query q b).
Proof. intros ?? []. by split. Qed.

Lemma set_query_twice q q' b : set_query q (set_query q' b) = set_query q b.
Proof. done. Qed.

Lemma DefaultPort_i32 s : in_i32 (DefaultPort s) = true.
Proof. unfold DefaultPort. by repeat case_decide. Qed.

Lemma atoi_i32 s p : atoi s = Ret p → in_i32 p = true.
Proof. unfold atoi. case_match; [|done]. intros [= <-]. done. Qed.

Lemma Forall_removelast {A} (Q : A → Prop) l : Forall Q l → Forall Q (removelast l).
Proof.
  induction 1 as [|x l Hx Hl IH]; [constructor|].
  destruct l; [constructor|]. by constructor.
Qed.

Lemma push_preserves s : preserves wf_builder (Push s).
Proof.
  unfold Push. case_decide; [auto with cpp|]. case_decide; [auto with cpp|].
  case_decide; apply preserves_modify; intros b Hb; apply wf_set_path; try done;
    destruct Hb.
  - by apply Forall_removelast.
  - apply Forall_app. split; [done|]. by repeat constructor.
Qed.

Lemma add_segments_preserves s : preserves wf_builder (AddEncodedPathSegments s).
Proof.
  unfold AddEncodedPathSegments. case_decide; [auto with cpp|].
  apply preserves_for_each. intros t. case_decide; [auto with cpp|].
  apply push_preserves.
Qed.

Lemma map_update_good k f m :
  (∀ v, f v ≠ []) → (∀ v, sorted_set v → sorted_set (f v)) →
  Forall good_param m → Forall good_param (map_update k f m).
Proof.
  intros Hne Hf Hm. unfold map_update. apply Forall_fmap.
  eapply Forall_impl; [exact Hm|]. intros [k' v] (?&?&?). simpl.
  case_decide; repeat split; simpl; auto.
Qed.

Lemma map_erase_wf {T} k (m : list (str * T)) : sorted_map m → sorted_map (map_erase k m).
Proof. unfold sorted_map. rewrite map_erase_keys. apply set_erase_sorted. Qed.

Lemma add_query_preserves n v : preserves wf_builder (AddEncodedQueryParameter n v).
Proof.
  unfold AddEncodedQueryParameter. case_decide; [auto with cpp|].
  apply preserves_get_bind. intros b Hb. pose proof Hb as [? ? ? Hs Hp].
  destruct (map_find n _) eqn:E; simpl; apply wf_set_query; try done.
  - unfold sorted_map. by rewrite map_update_keys.
  - apply map_update_good; auto using set_emplace_nonempty, set_emplace_sorted.
  - apply map_find_None in E. unfold sorted_map.
    rewrite map_emplace_keys by done. by apply set_emplace_sorted.
  - apply Forall_forall. intros e He. apply map_emplace_elem in He as [->|He].
    + split_and!; [done..|]. by repeat constructor.
    + rewrite Forall_forall in Hp. auto.
Qed.

Lemma remove_query_preserves n v : preserves wf_builder (RemoveEncodedQueryParameter n v).
Proof.
  unfold RemoveEncodedQueryParameter. case_decide; [auto with cpp|].
  apply preserves_get_bind. intros b Hb. pose proof Hb as [? ? ? Hs Hp].
  destruct (map_find n _) as [vs|] eqn:E; [|done]. unfold mbind, ST_bind, modify.
  assert (sorted_map (map_update n (set_erase v) (encoded_query_names_and_values_ b)))
    by (unfold sorted_map; by rewrite map_update_keys).
  case_decide as Hvs; simpl; rewrite ?set_query_twice; apply wf_set_query; try done.
  - by apply map_erase_wf.
  - rewrite Forall_forall in Hp |- *. intros [k w]. unfold map_erase, map_update.
    rewrite list_elem_of_filter, list_elem_of_fmap. simpl.
    intros [Hk [[k' w'] [Heq Hin]]]. case_decide; simplify_eq/=. auto.
  - unfold map_update. apply Forall_fmap. apply Forall_forall. intros [k w] Hin.
    rewrite Forall_forall in Hp. pose proof (Hp _ Hin) as (Hk & Hw & Hsw). simpl.
    case_decide as Hkn; [|done]. simpl in Hkn. subst k.
    pose proof (sorted_map_find _ _ _ Hs Hin). simplify_eq.
    split_and!; simpl; auto using set_erase_sorted.
Qed.

Lemma parse_authority_preserves hp : preserves wf_builder (parse_authority hp).
Proof.
  assert (∀ h, preserves wf_builder (modify (set_host h)))
    by (intros; apply preserves_modify; auto using wf_set_host).
  assert (preserves wf_builder (modify (λ b, set_port (DefaultPort b.(scheme_)) b)))
    by (apply preserves_modify; auto using wf_set_port, DefaultPort_i32).
  unfold parse_authority. destruct (_ =? npos).
  - apply preserves_bind; [done|]. intros _. destruct (_ =? npos); auto with cpp.
  - apply preserves_bind; [auto with cpp|]. intros h.
    apply preserves_bind; [done|]. intros _.
    apply preserves_bind; [auto with cpp|]. intros portS. case_decide; [done|].
    intros b Hb. unfold mbind, ST_bind, lift, modify.
    destruct (atoi portS) eqn:E; [|done..]. apply wf_set_port; eauto using atoi_i32.
Qed.

Lemma parse_param_preserves s : preserves wf_builder (parse_param s).
Proof.
  unfold parse_param. case_decide; [auto with cpp|].
  destruct (_ =? npos); auto using add_query_preserves with cpp.
Qed.

Lemma fragment_preserves f : preserves wf_builder (AddEncodedFragment f).
Proof.
  unfold AddEncodedFragment. case_decide; [auto with cpp|].
  apply preserves_modify. auto using wf_set_fragment.
Qed.

Lemma parse_preserves url : preserves wf_builder (Parse url).
Proof.
  unfold Parse. destruct (_ <=? _); [auto with cpp|].
  apply preserves_bind; [apply preserves_modify; auto using wf_new|]. intros _.
  apply preserves_bind; [auto with cpp|]. intros u.
  apply preserves_bind; [auto with cpp|]. intros sch.
  case_decide; [auto with cpp|]. case_decide as Hs; [auto with cpp|].
  apply preserves_bind.
  { apply preserves_modify. intros b. apply wf_set_scheme.
    rewrite !elem_of_cons. destruct (decide (to_lower sch = $"http")),
      (decide (to_lower sch = $"https")); tauto. }
  intros _. apply preserves_bind; [auto with cpp|]. intros hp.
  case_decide; [auto with cpp|].
  unfold parse_path, parse_query, parse_fragment.
  repeat (apply preserves_bind; [|intros ?]); auto using parse_authority_preserves with cpp;
    repeat case_decide; try destruct (_ =? npos);
    auto using add_segments_preserves, parse_param_preserves, fragment_preserves with cpp.
Qed.

Lemma run_op_preserves o : preserves wf_builder (run_op o).
Proof.
  destruct o; simpl.
  - unfold Scheme. repeat case_decide; repeat apply preserves_bind; intros;
      auto with cpp; apply preserves_modify; intros; apply wf_set_scheme; set_solver.
  - unfold Host. case_decide; [auto with cpp|].
    apply preserves_bind; [|auto with cpp]. apply preserves_modify, wf_set_host.
  - unfold Port. destruct (_ || _) eqn:E; apply preserves_modify; intros;
      apply wf_set_port; try done. unfold in_i32. lia.
  - unfold AddEncodedPathSegment. case_decide; auto using push_preserves with cpp.
  - apply add_segments_preserves.
  - unfold SetEncodedPathSegment. repeat case_decide; auto with cpp.
    apply preserves_get_bind. intros b Hb. destruct (_ || _); [done|].
    apply wf_set_path; [|done]. destruct Hb. apply Forall_insert; [done|].
    unfold good_segment. tauto.
  - unfold RemovePathSegment. apply preserves_get_bind. intros b Hb.
    destruct (_ || _); [done|]. apply wf_set_path; [|done]. destruct Hb.
    by apply Forall_delete.
  - apply add_query_preserves.
  - apply remove_query_preserves.
  - unfold RemoveEncodedQueryParameterAll. case_decide; [auto with cpp|].
    apply preserves_modify. intros b Hb. destruct Hb. apply wf_set_query; [..|done].
    + by apply map_erase_wf.
    + by apply Forall_filter.
  - apply fragment_preserves.
  - apply preserves_bind; [apply parse_preserves|auto with cpp].
Qed.

End invariant.

(** C24: Whatever sequence of public mutators is applied to a fresh builder,
    also when calls throw, no path segment is empty, '.' or '..', parameter
    names and value sets are non-empty and strictly sorted, the scheme is
    empty, http or https and the port fits an int. *)
Theorem builder_invariant ops :
  wf_builder (snd (for_each run_op ops new)).
Proof. apply preserves_for_each; [apply run_op_preserves|apply wf_new]. Qed.

(** ** Canonical urls

    The builders whose printed form the parser reads back: reserved characters
    only where the printer puts them, a port, at least one path segment. *)
Section round_trip.

Definition free_of (cs : list ascii) (s : str) : Prop := Forall (λ c, c ∉ s) cs.

Definition blanks : list ascii := [" "%char; chr 9; chr 10; chr 12; chr 13].

Definition canonical_segment (s : str) : Prop :=
  good_segment s ∧ free_of ["/"%char; "?"%char; "#"%char] s.

Definition canonical_param (e : str * list str) : Prop :=
  good_param e ∧ free_of ["="%char; "&"%char; "#"%char] e.1 ∧
  Forall (free_of ["&"%char; "#"%char]) e.2.

Definition canonical (b : Builder) : Prop :=
  b.(scheme_) ∈ [ $"http"; $"https" ] ∧
  b.(host_) ≠ [] ∧ free_of [":"%char; "/"%char; "?"%char; "#"%char] b.(host_) ∧
  0 ≤ b.(port_) ≤ 2147483647 ∧
  b.(encoded_path_segments_) ≠ [] ∧
  Forall canonical_segment b.(encoded_path_segments_) ∧
  sorted_map b.(encoded_query_names_and_values_) ∧
  Forall canonical_param b.(encoded_query_names_and_values_) ∧
  (b.(encoded_query_names_and_values_) = [] → "?"%char ∉ b.(encoded_fragment_)) ∧
  (∀ x, last (ToString b) = Some x → x ∉ blanks) ∧
  size (ToString b) < npos.

#[global] Instance free_of_dec cs s : Decision (free_of cs s).
Proof. unfold free_of. apply _. Defined.

#[global] Instance good_segment_dec s : Decision (good_segment s).
Proof. unfold good_segment. apply _. Defined.

#[global] Instance good_param_dec e : Decision (good_param e).
Proof. unfold good_param, sorted_set. apply _. Defined.

#[global] Instance canonical_dec b : Decision (canonical b).
Proof.
  assert (Decision (∀ x, last (ToString b) = Some x → x ∉ blanks)).
  { destruct (last (ToString b)) as [x|] eqn:E.
    - destruct (decide (x ∈ blanks)); [right|left]; naive_solver.
    - left. naive_solver. }
  unfold canonical, canonical_segment, canonical_param, sorted_map, sorted_set.
  apply _.
Defined.

Lemma free_of_cons c cs s : free_of (c :: cs) s ↔ c ∉ s ∧ free_of cs s.
Proof. unfold free_of. by rewrite Forall_cons. Qed.

(** *** Blanks *)
Lemma trim_id u : (∃ x v, u = x :: v ∧ x ∉ blanks) →
  (∀ x, last u = Some x → x ∉ blanks) → size u ≤ npos → trim u = Ret u.
Proof.
  intros (x & v & -> & Hx) Hlast Hsz.
  assert (∃ y w, x :: v = w ++ [y]) as (y & w & E).
  { destruct (exists_last (l := x :: v)) as (w & y & E); [done|]. eauto. }
  specialize (Hlast y). rewrite E, last_snoc in Hlast. specialize (Hlast eq_refl).
  assert (∀ c, c ∈ blanks → trim_front c (x :: v) = Ret (x :: v)) as Hf.
  { intros c Hc. apply trim_front_id. by intros ->. }
  assert (∀ c, c ∈ blanks → trim_back c (x :: v) = Ret (x :: v)) as Hb.
  { intros c Hc. unfold trim_back. rewrite E in Hsz |- *.
    apply trim_back_id; [by intros ->|done]. }
  unfold trim. unfold mbind, outcome_bind.
  rewrite !Hf, !Hb by (unfold blanks; rewrite !elem_of_cons; auto 10). done.
Qed.

(** *** Delimiters *)
(** What follows the authority and path of a printed url. *)
Definition tail_ok (t : str) : Prop :=
  t = [] ∨ (∃ r, t = "?"%char :: r) ∨ (∃ r, t = "#"%char :: r ∧ "?"%char ∉ r).

Lemma path_end_app a t :
  "?"%char ∉ a → "#"%char ∉ a → tail_ok t → size (a ++ t) < npos →
  path_end (a ++ t) = size a.
Proof.
  intros Hq Hh Ht Hsz. rewrite size_app in Hsz. unfold path_end.
  pose proof (size_nonneg t).
  assert (size a =? npos = false) as Ha by (apply Z.eqb_neq; lia).
  destruct Ht as [->|[[r ->]|[r [-> Hr]]]].
  - rewrite app_nil_r, !find_None by done. by rewrite !Z.eqb_refl.
  - rewrite find_here by done. by rewrite !Ha.
  - rewrite find_None, Z.eqb_refl by set_solver. rewrite find_here by done.
    by rewrite Ha.
Qed.

(** *** Path *)
Lemma concat_slash segs :
  segs ≠ [] → concat ((λ i, "/"%char :: i) <$> segs) = "/"%char :: join "/"%char segs.
Proof.
  induction segs as [|s segs IH]; [done|]. intros _. csimpl.
  destruct segs as [|s' segs]; [by rewrite app_nil_r|].
  rewrite IH by done. done.
Qed.

Lemma regex_tokens_join c l :
  l ≠ [] → Forall (λ t, c ∉ t) l → Forall (λ t, t ≠ []) l →
  regex_tokens c (join c l) = l.
Proof.
  intros Hne Hc Hl. unfold regex_tokens. rewrite split_on_join by done.
  destruct l as [|t [|t' ts]]; [done..|].
  destruct (last (t :: t' :: ts)) as [[|x r]|] eqn:E; [|done..].
  apply last_Some in E as [l' E]. rewrite E in Hl.
  apply Forall_app in Hl as [_ Hl]. inversion Hl; simplify_eq.
Qed.

Lemma push_segments l b :
  Forall good_segment l →
  for_each (λ it, if decide (it = []) then mret tt else Push it) l b
  = (Ret tt, set_path (b.(encoded_path_segments_) ++ l) b).
Proof.
  intros Hl. revert b. induction Hl as [|s l (Hs1 & Hs2 & Hs3) Hl IH]; intros b; simpl.
  { rewrite app_nil_r. by destruct b. }
  unfold Push. rewrite !decide_False by done.
  unfold mbind, ST_bind, modify. rewrite IH. simpl. by rewrite <- app_assoc.
Qed.

(** *** Query *)
Definition add_query (n v : str) (m : list (str * list str)) : list (str * list str) :=
  match map_find n m with
  | None => map_emplace n [v] m
  | Some _ => map_update n (set_emplace v) m
  end.

Lemma AddEncodedQueryParameter_eq n v b :
  n ≠ [] → AddEncodedQueryParameter n v b =
  (Ret tt, set_query (add_query n v b.(encoded_query_names_and_values_)) b).
Proof.
  intros Hn. unfold AddEncodedQueryParameter, add_query.
  rewrite decide_False by done. unfold mbind, ST_bind, get.
  by destruct (map_find n _).
Qed.

(** The [name=value] fields of a query, in print order. *)
Definition fields_of (e : str * list str) : list (str * str) := (λ v, (e.1, v)) <$> e.2.
Definition fields (m : list (str * list str)) : list (str * str) := mbind fields_of m.
Definition print_field (f : str * str) : str := f.1 ++ "="%char :: f.2.

Lemma print_values_join param idx n vs :
  (idx + length vs)%nat = n →
  print_values param idx n vs = join "&"%char (print_field <$> ((λ v, (param, v)) <$> vs)).
Proof.
  revert idx. induction vs as [|v vs IH]; intros idx Hn; [done|]. simpl in Hn.
  simpl print_values. rewrite (IH (S idx)) by lia. csimpl.
  destruct vs as [|v' vs].
  - rewrite decide_False by (simpl in Hn; lia). simpl. unfold print_field. simpl.
    by rewrite !app_nil_r.
  - rewrite decide_True by (simpl in Hn; lia). csimpl.
    change (print_field (param, v)) with (param ++ "="%char :: v).
    by rewrite <- app_assoc.
Qed.

Lemma join_app c l1 l2 :
  l1 ≠ [] → l2 ≠ [] → join c (l1 ++ l2) = join c l1 ++ c :: join c l2.
Proof.
  induction l1 as [|t l1 IH]; intros H1 H2; [done|].
  destruct l1 as [|t' l1].
  - simpl. by destruct l2.
  - change ((t :: t' :: l1) ++ l2) with (t :: (t' :: l1) ++ l2).
    change (join c (t :: (t' :: l1) ++ l2)) with (t ++ c :: join c ((t' :: l1) ++ l2)).
    rewrite IH by done. change (join c (t :: t' :: l1)) with (t ++ c :: join c (t' :: l1)).
    by rewrite <- app_assoc.
Qed.

Lemma print_query_join idx n m :
  Forall good_param m → (idx + length m)%nat = n →
  print_query idx n m = join "&"%char (print_field <$> fields m).
Proof.
  intros Hm. revert idx. induction Hm as [|[k vs] m (Hk & Hv & Hs) Hm IH]; intros idx Hn.
  { done. }
  simpl in Hv, Hn. destruct vs as [|v vs]; [done|].
  change (print_query idx n ((k, v :: vs) :: m)) with
    (print_values k 0 (length (v :: vs)) (v :: vs)
     ++ (if decide (S idx < n)%nat then ["&"%char] else []) ++ print_query (S idx) n m).
  rewrite print_values_join by done. rewrite (IH (S idx)) by lia.
  change (fields ((k, v :: vs) :: m)) with (fields_of (k, v :: vs) ++ fields m).
  rewrite fmap_app. destruct m as [|e m].
  - rewrite decide_False by (simpl in Hn; lia). simpl. by rewrite !app_nil_r.
  - rewrite decide_True by (simpl in Hn; lia). rewrite join_app; [done..|].
    inversion Hm as [|? ? (?&He&?) ?]; subst. unfold fields. simpl.
    unfold fields_of at 1. by destruct e as [ke [|ve vse]].
Qed.

(** Adding the values of one name, in order, after smaller names. *)
Lemma add_query_values k vs m0 ws :
  Forall (λ y, str_lt y k) m0.*1 → sorted_set (ws ++ vs) → ws ≠ [] →
  foldl (λ m f, add_query f.1 f.2 m) (m0 ++ [(k, ws)]) (fields_of (k, vs))
  = m0 ++ [(k, ws ++ vs)].
Proof.
  intros Hm0. revert ws. induction vs as [|v vs IH]; intros ws Hs Hws.
  { simpl. by rewrite app_nil_r. }
  assert (k ∉ m0.*1) as Hk.
  { intros Hk. rewrite Forall_forall in Hm0. by apply (irreflexivity str_lt k), Hm0. }
  assert (add_query k v (m0 ++ [(k, ws)]) = m0 ++ [(k, ws ++ [v])]) as Hadd.
  { unfold add_query. rewrite map_find_snoc by done.
    rewrite map_update_snoc by done. repeat f_equal. apply set_emplace_last.
    by apply sorted_set_app_lt with vs. }
  unfold fields_of. csimpl. rewrite Hadd. unfold fields_of in IH. simpl in IH.
  rewrite IH; [by rewrite <- app_assoc|by rewrite <- app_assoc|by destruct ws].
Qed.

Lemma add_query_fields m m0 :
  sorted_map (m0 ++ m) → Forall good_param m →
  foldl (λ m f, add_query f.1 f.2 m) m0 (fields m) = m0 ++ m.
Proof.
  revert m0. induction m as [|[k vs] m IH]; intros m0 Hs Hm.
  { simpl. by rewrite app_nil_r. }
  apply Forall_cons in Hm as [(Hk & Hv & Hsv) Hm].
  change (fields ((k, vs) :: m)) with (fields_of (k, vs) ++ fields m).
  rewrite foldl_app. simpl in Hv, Hsv. destruct vs as [|v vs]; [done|].
  assert (Forall (λ y, str_lt y k) m0.*1) as Hm0.
  { unfold sorted_map in Hs. rewrite fmap_app in Hs. csimpl in Hs.
    by eapply sorted_set_app_lt. }
  change (fields_of (k, v :: vs)) with ((k, v) :: fields_of (k, vs)).
  assert (add_query k v m0 = m0 ++ [(k, [v])]) as Hadd.
  { unfold add_query. rewrite (proj2 (map_find_None k m0)), map_emplace_last; [done..|].
    intros Hin. rewrite Forall_forall in Hm0. by apply (irreflexivity str_lt k), Hm0. }
  simpl foldl. rewrite Hadd, add_query_values by done.
  rewrite IH; [by rewrite <- app_assoc| |done]. by rewrite <- app_assoc.
Qed.

(** *** The stages of Parse on a printed url *)
Lemma size_join_elem c l t : t ∈ l → size t ≤ size (join c l).
Proof.
  induction l as [|t' l IH]; intros Ht; [by apply not_elem_of_nil in Ht|].
  destruct l as [|t2 l].
  { apply list_elem_of_singleton in Ht as ->. done. }
  change (join c (t' :: t2 :: l)) with (t' ++ c :: join c (t2 :: l)).
  rewrite size_app, size_cons. pose proof (size_nonneg t').
  pose proof (size_nonneg (join c (t2 :: l))).
  apply elem_of_cons in Ht as [->|Ht]; [|specialize (IH Ht)]; lia.
Qed.

Lemma parse_param_field n v b :
  n ≠ [] → "="%char ∉ n → size (print_field (n, v)) < npos →
  parse_param (print_field (n, v)) b =
  (Ret tt, set_query (add_query n v b.(encoded_query_names_and_values_)) b).
Proof.
  unfold print_field. simpl. intros Hn He Hsz. rewrite size_app, size_cons in Hsz.
  pose proof (size_nonneg n). pose proof (size_nonneg v).
  unfold parse_param. rewrite decide_False by (by destruct n).
  rewrite find_here by done. rewrite (proj2 (Z.eqb_neq _ _)) by lia.
  rewrite substr_prefix by done. rewrite u64_small by lia.
  unfold substr_from. change (n ++ "="%char :: v) with (n ++ ["="%char] ++ v).
  rewrite app_assoc. replace (size n + 1) with (size (n ++ ["="%char]))
    by (rewrite size_app; done).
  rewrite substr_tail by lia.
  unfold mbind, ST_bind, lift. by apply AddEncodedQueryParameter_eq.
Qed.

Lemma parse_fields fs b :
  Forall (λ f, f.1 ≠ [] ∧ "="%char ∉ f.1 ∧ size (print_field f) < npos) fs →
  for_each parse_param (print_field <$> fs) b =
  (Ret tt, set_query (foldl (λ m f, add_query f.1 f.2 m)
             b.(encoded_query_names_and_values_) fs) b).
Proof.
  intros Hfs. revert b.
  induction Hfs as [|[n v] fs (Hn & He & Hsz) Hfs IH]; intros b; csimpl; [by destruct b|].
  erewrite ST_bind_Ret; [|by apply parse_param_field]. rewrite IH. done.
Qed.

Lemma parse_authority_ok host port rest b :
  ":"%char ∉ host → "/"%char ∉ host → 0 ≤ port ≤ 2147483647 →
  size (host ++ ":"%char :: dec port ++ "/"%char :: rest) < npos →
  parse_authority (host ++ ":"%char :: dec port ++ "/"%char :: rest) b
  = (Ret tt, set_port port (set_host host b)).
Proof.
  intros Hc Hs Hp Hsz. rewrite size_app, size_cons, size_app, size_cons in Hsz.
  pose proof (size_nonneg host). pose proof (size_nonneg (dec port)).
  pose proof (size_nonneg rest).
  unfold parse_authority. rewrite find_here by done.
  rewrite (proj2 (Z.eqb_neq _ _)) by lia. rewrite substr_prefix by done.
  unfold mbind, ST_bind, lift, modify. unfold port_text.
  set (a := host ++ ":"%char :: dec port).
  assert ("/"%char ∉ a) as Ha.
  { unfold a. rewrite elem_of_app, elem_of_cons.
    pose proof (dec_notin "/"%char port). naive_solver. }
  assert (size a = size host + 1 + size (dec port)) as Hsa
    by (unfold a; rewrite size_app, size_cons; lia).
  replace (host ++ ":"%char :: dec port ++ "/"%char :: rest)
    with (a ++ "/"%char :: rest) by (unfold a; by rewrite <- app_assoc).
  rewrite find_here by done. rewrite (proj2 (Z.eqb_neq _ _)) by lia.
  rewrite !u64_small by lia.
  replace (a ++ "/"%char :: rest)
    with ((host ++ [":"%char]) ++ dec port ++ "/"%char :: rest)
    by (unfold a; by rewrite <- !app_assoc).
  replace (size host + 1) with (size (host ++ [":"%char])) at 1
    by (rewrite size_app; done).
  rewrite substr_mid by lia. rewrite decide_False by apply dec_nonempty.
  rewrite atoi_dec; [done|lia|]. unfold in_i32. lia.
Qed.

Lemma parse_path_ok a segs b :
  "/"%char ∉ a → segs ≠ [] → Forall canonical_segment segs →
  size (a ++ "/"%char :: join "/"%char segs) < npos →
  parse_path (a ++ "/"%char :: join "/"%char segs) b
  = (Ret tt, set_path (b.(encoded_path_segments_) ++ segs) b).
Proof.
  intros Ha Hne Hsegs Hsz. rewrite size_app, size_cons in Hsz.
  pose proof (size_nonneg a). pose proof (size_nonneg (join "/"%char segs)).
  assert (Forall good_segment segs) as Hg
    by (eapply Forall_impl; [exact Hsegs|]; by intros s []).
  unfold parse_path. rewrite find_here by done. rewrite u64_small by lia.
  unfold substr_from.
  change (a ++ "/"%char :: join "/"%char segs)
    with (a ++ ["/"%char] ++ join "/"%char segs). rewrite app_assoc.
  replace (size a + 1) with (size (a ++ ["/"%char])) by (rewrite size_app; done).
  rewrite substr_tail by lia. unfold mbind, ST_bind, lift.
  assert (join "/"%char segs ≠ []) as Hj.
  { destruct segs as [|[|x s] [|]]; simpl; try done. inversion Hg as [|? ? [] ?]; done. }
  rewrite decide_False by done. unfold AddEncodedPathSegments.
  rewrite decide_False by done. rewrite regex_tokens_join; [by apply push_segments|done|..].
  - eapply Forall_impl; [exact Hsegs|]. intros s [_ Hs]. by inversion Hs.
  - eapply Forall_impl; [exact Hg|]. by intros s [].
Qed.

Definition query_part (m : list (str * list str)) : str :=
  if decide (m = []) then [] else "?"%char :: join "&"%char (print_field <$> fields m).

Definition fragment_part (f : str) : str :=
  if decide (f = []) then [] else "#"%char :: f.

Lemma fields_canonical m :
  Forall canonical_param m →
  Forall (λ f, f.1 ≠ [] ∧ "="%char ∉ f.1 ∧
    free_of ["&"%char; "#"%char] (print_field f)) (fields m).
Proof.
  intros Hm. unfold fields. apply Forall_bind.
  eapply Forall_impl; [exact Hm|]. intros [k vs] ((Hk&_&_) & Hf & Hv).
  unfold fields_of. apply Forall_fmap. eapply Forall_impl; [exact Hv|].
  intros v Hfv. simpl in *. rewrite !free_of_cons in Hf. rewrite !free_of_cons in Hfv.
  rewrite !free_of_cons. destruct_and!.
  unfold print_field. simpl. rewrite !not_elem_of_app, !not_elem_of_cons.
  split_and!; done || constructor.
Qed.

Lemma not_in_join (x c : ascii) l :
  x ≠ c → Forall (λ t, x ∉ t) l → x ∉ join c l.
Proof.
  intros Hx. induction 1 as [|t l Ht Hl IH]; [apply not_elem_of_nil|].
  destruct l as [|t' l]; [done|].
  change (join c (t :: t' :: l)) with (t ++ c :: join c (t' :: l)).
  rewrite elem_of_app, elem_of_cons. naive_solver.
Qed.

Lemma query_part_no_hash m : Forall canonical_param m → "#"%char ∉ query_part m.
Proof.
  intros Hm. unfold query_part. case_decide; [apply not_elem_of_nil|].
  apply not_elem_of_cons. split; [done|]. apply not_in_join; [done|].
  apply Forall_fmap. eapply Forall_impl; [by apply fields_canonical|].
  intros f (_ & _ & Hf). rewrite !free_of_cons in Hf. simpl. tauto.
Qed.

Lemma fields_nonempty m : Forall good_param m → m ≠ [] → fields m ≠ [].
Proof.
  intros Hm Hne. destruct m as [|[k [|v vs]] m]; [done| |done].
  inversion Hm as [|? ? (_ & Hv & _) ?]; done.
Qed.

Lemma query_text_ok a m f :
  "?"%char ∉ a → "#"%char ∉ a → Forall canonical_param m →
  (m = [] → "?"%char ∉ f) →
  size (a ++ query_part m ++ fragment_part f) < npos →
  query_text (a ++ query_part m ++ fragment_part f)
  = Ret (join "&"%char (print_field <$> fields m)).
Proof.
  intros Hq Hh Hm Hf Hsz. unfold query_text.
  pose proof (query_part_no_hash m Hm) as Hqh. unfold query_part in *.
  case_decide as Hm0.
  - rewrite find_None; [by subst|]. simpl. rewrite elem_of_app. unfold fragment_part.
    case_decide; rewrite ?elem_of_cons; set_solver.
  - set (j := join _ _) in *. rewrite !size_app, size_cons in Hsz.
    pose proof (size_nonneg a). pose proof (size_nonneg j).
    pose proof (size_nonneg (fragment_part f)).
    simpl. rewrite find_here by done. rewrite (proj2 (Z.eqb_neq _ _)) by lia.
    change (a ++ "?"%char :: j ++ fragment_part f)
      with (a ++ ["?"%char] ++ j ++ fragment_part f). rewrite (app_assoc a).
    rewrite u64_small by lia.
    replace (size a + 1) with (size (a ++ ["?"%char])) by (rewrite size_app; done).
    assert ("#"%char ∉ (a ++ ["?"%char]) ++ j) as Haj by set_solver.
    assert (size ((a ++ ["?"%char]) ++ j) = size a + 1 + size j) as Hsaj
      by (rewrite !size_app; done).
    unfold fragment_part in *. case_decide as Hf0.
    + rewrite app_nil_r. rewrite find_None by done. rewrite Z.eqb_refl.
      unfold substr_from. rewrite substr_tail by lia. done.
    + rewrite (app_assoc (a ++ _)). rewrite find_here by done.
      rewrite size_cons in Hsz. pose proof (size_nonneg f).
      rewrite (proj2 (Z.eqb_neq _ _)) by lia. rewrite <- app_assoc.
      rewrite u64_small by (rewrite size_app in *; change (size ["?"%char]) with 1 in *; lia).
      apply substr_mid. rewrite Hsaj, size_app. change (size ["?"%char]) with 1. lia.
Qed.

Lemma parse_query_ok a m f b :
  "?"%char ∉ a → "#"%char ∉ a → sorted_map m → Forall canonical_param m →
  (m = [] → "?"%char ∉ f) →
  size (a ++ query_part m ++ fragment_part f) < npos →
  b.(encoded_query_names_and_values_) = [] →
  parse_query (a ++ query_part m ++ fragment_part f) b = (Ret tt, set_query m b).
Proof.
  intros Hq Hh Hs Hm Hf Hsz Hb. unfold parse_query.
  rewrite query_text_ok by done. unfold mbind, ST_bind, lift.
  assert (Forall good_param m) as Hg
    by (eapply Forall_impl; [exact Hm|]; by intros e []).
  destruct (decide (m = [])) as [->|Hm0].
  { rewrite decide_True by done. destruct b; simpl in *. by subst. }
  pose proof (fields_nonempty m Hg Hm0) as Hfne.
  pose proof (fields_canonical m Hm) as Hfc.
  rewrite decide_False.
  2:{ destruct (fields m) as [|f1 [|]]; [done|..]; simpl; unfold print_field;
      by destruct f1.1. }
  rewrite regex_tokens_join; [|by destruct (fields m)|..].
  - rewrite parse_fields.
    + rewrite Hb, add_query_fields by done. done.
    + unfold query_part in Hsz. rewrite decide_False in Hsz by done.
      rewrite !size_app, size_cons in Hsz.
      pose proof (size_nonneg a). pose proof (size_nonneg (fragment_part f)).
      apply Forall_forall. intros fl Hfl. rewrite Forall_forall in Hfc.
      destruct (Hfc _ Hfl) as (?&?&_). split_and!; [done..|].
      pose proof (size_join_elem "&"%char (print_field <$> fields m) (print_field fl)
        (list_elem_of_fmap_2 _ _ _ Hfl)). lia.
  - apply Forall_fmap. eapply Forall_impl; [exact Hfc|]. intros fl (_&_&Hfl).
    by inversion Hfl.
  - apply Forall_fmap. eapply Forall_impl; [exact Hfc|]. intros fl _. simpl.
    unfold print_field. by destruct fl.1.
Qed.

Lemma parse_fragment_ok a f b :
  "#"%char ∉ a → size (a ++ fragment_part f) < npos →
  b.(encoded_fragment_) = [] →
  parse_fragment (a ++ fragment_part f) b = (Ret tt, set_fragment f b).
Proof.
  intros Ha Hsz Hb. unfold parse_fragment, fragment_part in *. case_decide as Hf.
  - rewrite app_nil_r, find_None, Z.eqb_refl by done. subst. destruct b; simpl in *. by subst.
  - rewrite size_app, size_cons in Hsz. pose proof (size_nonneg a). pose proof (size_nonneg f).
    rewrite find_here by done. rewrite (proj2 (Z.eqb_neq _ _)), u64_small by lia.
    change (a ++ "#"%char :: f) with (a ++ ["#"%char] ++ f). rewrite app_assoc.
    replace (size a + 1) with (size (a ++ ["#"%char])) by (rewrite size_app; done).
    unfold substr_from. rewrite substr_tail by lia. unfold mbind, ST_bind, lift.
    unfold AddEncodedFragment. by rewrite decide_False.
Qed.

(** The printed form of a canonical builder, cut where Parse cuts it. *)
Definition authority (b : Builder) : str := b.(host_) ++ ":"%char :: dec b.(port_).
Definition host_path (b : Builder) : str :=
  authority b ++ "/"%char :: join "/"%char b.(encoded_path_segments_).
Definition url_head (b : Builder) : str := b.(scheme_) ++ $"://" ++ host_path b.
Definition url_tail (b : Builder) : str :=
  query_part b.(encoded_query_names_and_values_) ++ fragment_part b.(encoded_fragment_).

Lemma ToString_canonical b : canonical b → ToString b = url_head b ++ url_tail b.
Proof.
  intros (_ & _ & Hh & Hp & Hne & _ & _ & Hq & _). rewrite !free_of_cons in Hh.
  unfold ToString, url_head, url_tail, host_path, authority, query_part, fragment_part, print_host.
  rewrite (proj2 (Z.eqb_neq (port_ b) _)) by lia.
  rewrite find_None, decide_True, to_string_nonneg, concat_slash by (done || tauto || lia).
  rewrite print_query_join; [|eapply Forall_impl; [exact Hq|]; by intros e []|done].
  rewrite <- !app_assoc. done.
Qed.

Lemma host_path_chars b c :
  canonical b → c ∈ ["?"%char; "#"%char] → c ∉ host_path b ∧ c ∉ url_head b.
Proof.
  intros (Hs & _ & Hh & Hp & Hne & Hseg & _) Hc. rewrite !free_of_cons in Hh.
  assert (c ∉ host_path b).
  { unfold host_path, authority. rewrite not_elem_of_app, not_elem_of_cons,
      not_elem_of_app, not_elem_of_cons.
    split_and!; try (intros ->; set_solver).
    - rewrite !elem_of_cons in Hc. destruct_and!.
      destruct Hc as [->|[->|[]%not_elem_of_nil]]; done.
    - apply dec_notin; [|lia]. rewrite !elem_of_cons in Hc.
      by destruct Hc as [->|[->|[]%not_elem_of_nil]].
    - apply not_in_join; [intros ->; set_solver|].
      eapply Forall_impl; [exact Hseg|]. intros s [_ Hf]. rewrite !free_of_cons in Hf.
      rewrite !elem_of_cons in Hc. destruct_and!.
      by destruct Hc as [->|[->|[]%not_elem_of_nil]]. }
  split; [done|]. unfold url_head. rewrite !not_elem_of_app.
  rewrite !elem_of_cons in Hs. rewrite !elem_of_cons in Hc.
  split_and!; [destruct Hs as [->|[->|[]%not_elem_of_nil]]| |done];
    destruct Hc as [->|[->|[]%not_elem_of_nil]]; by apply (bool_decide_unpack _).
Qed.

Lemma url_tail_ok b : canonical b → tail_ok (url_tail b).
Proof.
  intros (_ & _ & _ & _ & _ & _ & _ & _ & Hf & _).
  unfold url_tail, query_part, fragment_part, tail_ok. case_decide as Hq; simpl; eauto.
  case_decide; eauto 6.
Qed.

(** Up to the path, Parse reads back what the printer wrote. *)
Lemma parse_head_ok b :
  canonical b →
  trim (ToString b) = Ret (ToString b) ∧
  substr (ToString b) 0 (find_first_of (ToString b) ":"%char) = Ret b.(scheme_) ∧
  to_lower b.(scheme_) = b.(scheme_) ∧
  path_end (ToString b) = size b.(scheme_) + 3 + size (host_path b) ∧
  substr (ToString b) (size b.(scheme_) + 3) (size (host_path b)) = Ret (host_path b).
Proof.
  intros Hb. pose proof (host_path_chars b "?"%char Hb ltac:(set_solver)) as [_ Hq].
  pose proof (host_path_chars b "#"%char Hb ltac:(set_solver)) as [_ Hh].
  pose proof (url_tail_ok b Hb) as Ht. pose proof (ToString_canonical b Hb) as E.
  pose proof Hb as (Hs & _ & _ & _ & _ & _ & _ & _ & _ & Hl & Hsz).
  assert (size (url_head b) = size (scheme_ b) + 3 + size (host_path b)) as Hsh
    by (unfold url_head; rewrite !size_app; change (size $"://") with 3; lia).
  rewrite !elem_of_cons in Hs.
  split_and!.
  - apply trim_id; [|done|lia]. rewrite E. unfold url_head.
    destruct Hs as [->|[->|[]%not_elem_of_nil]]; simpl; eexists _, _; (split; [done|]);
      by apply (bool_decide_unpack _).
  - assert (":"%char ∉ scheme_ b)
      by (destruct Hs as [->|[->|[]%not_elem_of_nil]]; by apply (bool_decide_unpack _)).
    assert (ToString b = scheme_ b ++ ":"%char :: $"//" ++ host_path b ++ url_tail b) as ->
      by (rewrite E; unfold url_head; by rewrite <- !app_assoc).
    rewrite find_here by done. by apply substr_prefix.
  - by destruct Hs as [->|[->|[]%not_elem_of_nil]].
  - rewrite E in Hsz |- *. by rewrite path_end_app.
  - assert (ToString b = (scheme_ b ++ $"://") ++ host_path b ++ url_tail b) as ->
      by (rewrite E; unfold url_head; by rewrite <- !app_assoc).
    replace (size (scheme_ b) + 3) with (size (scheme_ b ++ $"://"))
      by (rewrite size_app; done).
    by apply substr_mid.
Qed.

(** Sizes of the parts, all below [npos]. *)
Lemma canonical_sizes b :
  canonical b →
  size (ToString b) = size b.(scheme_) + 3 + size (host_path b) + size (url_tail b) ∧
  4 ≤ size b.(scheme_) ∧ 0 < size (host_path b) ∧ 0 ≤ size (url_tail b) ∧
  size (ToString b) < npos.
Proof.
  intros Hb. rewrite ToString_canonical by done.
  pose proof Hb as (Hs & _ & _ & _ & _ & _ & _ & _ & _ & _ & Hsz).
  rewrite ToString_canonical in Hsz by done. split_and!; [| | |apply size_nonneg|done].
  - unfold url_head. rewrite !size_app. change (size $"://") with 3. lia.
  - rewrite !elem_of_cons in Hs. by destruct Hs as [->|[->|[]%not_elem_of_nil]].
  - unfold host_path. rewrite size_app, size_cons.
    pose proof (size_nonneg (authority b)).
    pose proof (size_nonneg (join "/"%char b.(encoded_path_segments_))). lia.
Qed.

(** From the authority on, Parse rebuilds the fields one after the other. *)
Lemma parse_body_ok b :
  canonical b →
  (parse_authority (host_path b) ;; parse_path (host_path b) ;;
   parse_query (ToString b) ;; parse_fragment (ToString b) ;; mret true)
    (set_scheme b.(scheme_) new) = (Ret true, b).
Proof.
  intros Hb. pose proof (canonical_sizes b Hb) as (Hsize & Hs4 & Hhp & Htl & Hsz).
  pose proof (host_path_chars b "?"%char Hb ltac:(set_solver)) as [_ Hq].
  pose proof (host_path_chars b "#"%char Hb ltac:(set_solver)) as [_ Hh].
  pose proof (ToString_canonical b Hb) as E.
  pose proof Hb as (_ & _ & Hf & Hp & Hpne & Hseg & Hqs & Hqc & Hqf & _ & _).
  rewrite !free_of_cons in Hf. destruct_and!.
  assert ("/"%char ∉ authority b).
  { unfold authority. rewrite not_elem_of_app, not_elem_of_cons. split_and!; [done..|].
    apply dec_notin; [done|lia]. }
  assert (host_path b = host_ b ++ ":"%char :: dec (port_ b) ++
            "/"%char :: join "/"%char (encoded_path_segments_ b)) as Ehp
    by (unfold host_path, authority; by rewrite <- app_assoc).
  erewrite ST_bind_Ret; [|rewrite Ehp; apply parse_authority_ok; [done..|rewrite <- Ehp; lia]].
  erewrite ST_bind_Ret; [|apply parse_path_ok; [done..|fold (host_path b); lia]].
  assert (ToString b = (url_head b ++ query_part (encoded_query_names_and_values_ b))
            ++ fragment_part (encoded_fragment_ b)) as E2
    by (rewrite E; unfold url_tail; by rewrite app_assoc).
  erewrite ST_bind_Ret.
  2:{ rewrite E in Hsz |- *. apply parse_query_ok; try done. }
  erewrite ST_bind_Ret.
  2:{ rewrite E2 in Hsz |- *. apply parse_fragment_ok; [|done..].
      rewrite not_elem_of_app. split; [done|]. by apply query_part_no_hash. }
  by destruct b.
Qed.

Lemma parse_print b b0 : canonical b → Parse (ToString b) b0 = (Ret true, b).
Proof.
  intros Hb. destruct (parse_head_ok b Hb) as (Htrim & Hsch & Hlow & Hend & Hhp).
  pose proof (canonical_sizes b Hb) as (Hsize & Hs4 & Hpos & Htl & Hsz).
  pose proof Hb as (Hs & _). rewrite !elem_of_cons in Hs.
  unfold Parse. rewrite (proj2 (Z.leb_gt _ _)) by lia.
  unfold Clear. erewrite ST_bind_Ret by done.
  erewrite ST_bind_Ret by (unfold lift; by rewrite Htrim).
  erewrite ST_bind_Ret by (unfold lift; by rewrite Hsch).
  rewrite Hlow. rewrite decide_False by (intros He; rewrite He in Hs4; by simpl in Hs4).
  rewrite decide_False by (destruct Hs as [->|[->|[]%not_elem_of_nil]]; tauto).
  erewrite ST_bind_Ret by done.
  erewrite ST_bind_Ret.
  2:{ unfold lift. rewrite Hend.
      replace (size (scheme_ b) + 3 + size (host_path b) - (size (scheme_ b) + 3))
        with (size (host_path b)) by lia.
      rewrite u64_small by lia. by rewrite Hhp. }
  rewrite decide_False by (intros He; rewrite He in Hpos; by simpl in Hpos).
  by apply parse_body_ok.
Qed.

End round_trip.

(** C3: For every canonical builder (http or https, a host, port and path free
    of the delimiters, sorted query parameters, any port up to 2^31-1), Parse
    reads the text ToString prints back to exactly that builder, whatever the
    builder held before. *)
Theorem parse_print_roundtrip b b0 :
  canonical b → Parse (ToString b) b0 = (Ret true, b).
Proof. apply parse_print. Qed.

Definition sample : Builder :=
  mkBuilder $"https" $"example.com" 8443 [$"over"; $"there"]
    [($"a", [$"1"; $"2"]); ($"b", [$""])] $"nose".

Lemma parse_print_roundtrip_witness :
  canonical sample ∧ Parse (ToString sample) new = (Ret true, sample).
Proof.
  assert (canonical sample) as H by (apply (bool_decide_unpack _); by vm_compute).
  split; [exact H|]. apply (parse_print_roundtrip sample new H).
Defined.

(** ** Accessors of a built url *)
Section accessors.

Lemma canonical_url_path b :
  canonical b →
  ToString b = (b.(scheme_) ++ $"://" ++ authority b)
    ++ ("/"%char :: join "/"%char b.(encoded_path_segments_)) ++ url_tail b.
Proof.
  intros Hb. rewrite ToString_canonical by done. unfold url_head, host_path.
  by rewrite <- !app_assoc.
Qed.

Lemma authority_no_slash b : canonical b → "/"%char ∉ authority b.
Proof.
  intros (_ & _ & Hf & Hp & _). rewrite !free_of_cons in Hf. destruct_and!.
  unfold authority. rewrite not_elem_of_app, not_elem_of_cons. split_and!; [done..|].
  apply dec_notin; [done|lia].
Qed.

Lemma find_from_app a b c d :
  c ∉ b → find_first_of_from (a ++ b ++ c :: d) c (size a) = size (a ++ b).
Proof.
  intros Hc. unfold find_first_of_from. rewrite !size_app.
  pose proof (size_nonneg b). pose proof (size_nonneg (c :: d)).
  rewrite (proj2 (Z.ltb_ge _ _)) by lia. unfold size.
  rewrite Nat2Z.id, drop_app_length, index_of_here by done. simpl. lia.
Qed.

Lemma find_from_none a b c :
  c ∉ b → find_first_of_from (a ++ b) c (size a) = npos.
Proof.
  intros Hc. unfold find_first_of_from. rewrite size_app. pose proof (size_nonneg b).
  rewrite (proj2 (Z.ltb_ge _ _)) by lia. unfold size.
  by rewrite Nat2Z.id, drop_app_length, (proj2 (index_of_None c b)).
Qed.

End accessors.

(** C39: On the url built from a canonical builder EncodedPath, EncodedQuery
    and EncodedFragment return exactly the path, the query and the fragment
    that were printed. *)
Theorem accessors_of_canonical b :
  canonical b →
  Url.EncodedPath (Url.Build b)
    = Ret ("/"%char :: join "/"%char b.(encoded_path_segments_)) ∧
  Url.EncodedQuery (Url.Build b)
    = Ret (join "&"%char (print_field <$> fields b.(encoded_query_names_and_values_))) ∧
  Url.EncodedFragment (Url.Build b) = b.(encoded_fragment_).
Proof.
  intros Hb. pose proof (canonical_sizes b Hb) as (Hsize & Hs4 & Hpos & Htl & Hsz).
  destruct (parse_head_ok b Hb) as (_ & _ & _ & Hend & _).
  pose proof (host_path_chars b "?"%char Hb ltac:(set_solver)) as [_ Hq].
  pose proof (host_path_chars b "#"%char Hb ltac:(set_solver)) as [_ Hh].
  pose proof Hb as (_ & _ & _ & _ & _ & _ & _ & Hqc & Hqf & _).
  split_and!; [| |done].
  - unfold Url.EncodedPath, Url.Build, Url.of_builder, Url.Init. simpl. rewrite Hend.
    replace (size (scheme_ b) + 3) with (size (scheme_ b ++ $"://"))
      by (rewrite size_app; done).
    assert (ToString b = (scheme_ b ++ $"://") ++ authority b ++
              "/"%char :: join "/"%char (encoded_path_segments_ b) ++ url_tail b) as E
      by (rewrite canonical_url_path by done; by rewrite <- !app_assoc).
    rewrite E. rewrite find_from_app by (by apply authority_no_slash).
    assert (size (host_path b) = size (authority b)
              + size ("/"%char :: join "/"%char (encoded_path_segments_ b))) as Hhp
      by (unfold host_path; by rewrite size_app).
    rewrite app_assoc.
    change ("/"%char :: join "/"%char (encoded_path_segments_ b) ++ url_tail b)
      with (("/"%char :: join "/"%char (encoded_path_segments_ b)) ++ url_tail b).
    apply substr_mid. pose proof (size_nonneg (authority b)).
    pose proof (size_nonneg ("/"%char :: join "/"%char (encoded_path_segments_ b))).
    rewrite (size_app (scheme_ b ++ _)), size_app. change (size $"://") with 3.
    rewrite u64_small; lia.
  - change (query_text (ToString b) =
      Ret (join "&"%char (print_field <$> fields (encoded_query_names_and_values_ b)))).
    rewrite ToString_canonical in Hsz |- * by done. by apply query_text_ok.
Qed.

Lemma accessors_of_canonical_witness :
  canonical sample ∧ Url.EncodedPath (Url.Build sample) = Ret $"/over/there".
Proof.
  assert (canonical sample) as H by (apply (bool_decide_unpack _); by vm_compute).
  split; [exact H|]. apply (accessors_of_canonical sample H).
Defined.

(** ** Where the code departs from its comments *)
Section departures.

Lemma to_string_notin c z : is_digit c = false → c ≠ "-"%char → c ∉ to_string z.
Proof.
  intros Hd Hm. unfold to_string. destruct (Z.ltb_spec z 0).
  - apply not_elem_of_cons. split; [done|]. apply dec_notin; [done|lia].
  - by apply dec_notin.
Qed.

Lemma print_host_notin c h :
  c ∉ h → c ≠ "["%char → c ≠ "]"%char → c ∉ print_host h.
Proof.
  intros. unfold print_host. case_decide; [done|].
  rewrite !not_elem_of_app, !not_elem_of_cons. split_and!; (done || apply not_elem_of_nil).
Qed.

End departures.

(** On a url without path segments, query and fragment EncodedPath throws
    std::out_of_range and PathSize is -1. *)
Lemma encoded_path_without_segments b :
  "/"%char ∉ b.(host_) → b.(encoded_path_segments_) = [] →
  b.(encoded_query_names_and_values_) = [] → b.(encoded_fragment_) = [] →
  size (ToString b) < npos →
  Url.EncodedPath (Url.Build b) = Throw OutOfRange ∧ Url.PathSize (Url.Build b) = -1.
Proof.
  intros Hh Hp Hq Hf Hsz. unfold Url.EncodedPath, Url.PathSize, Url.Build, Url.of_builder,
    Url.Init in *. simpl. rewrite Hp. split; [|done].
  assert (ToString b = (scheme_ b ++ $"://") ++ print_host (host_ b) ++ ":"%char ::
    to_string (if port_ b =? -1 then DefaultPort (scheme_ b) else port_ b)) as E.
  { unfold ToString. rewrite Hp, Hq, Hf. rewrite !decide_True by done. simpl.
    by rewrite !app_nil_r, <- app_assoc. }
  replace (size (scheme_ b) + 3) with (size (scheme_ b ++ $"://")) by (rewrite size_app; done).
  rewrite E in Hsz |- *. rewrite find_from_none; [by apply substr_throws|].
  rewrite not_elem_of_app, not_elem_of_cons. split_and!; [|done|].
  - by apply print_host_notin.
  - by apply to_string_notin.
Qed.

Lemma encoded_path_without_segments_witness :
  Url.EncodedPath (Url.Build (mkBuilder $"http" $"h" 80 [] [] [])) = Throw OutOfRange.
Proof.
  apply (encoded_path_without_segments (mkBuilder $"http" $"h" 80 [] [] []));
    first [reflexivity | apply (bool_decide_unpack _); by vm_compute].
Defined.

(** Parsing http://h where h has no slash stores h both as the host and
    as the only path segment. *)
Lemma parse_without_path h b0 :
  good_segment h → free_of [":"%char; "/"%char; "?"%char; "#"%char] h →
  (∀ x, last h = Some x → x ∉ blanks) → size h < npos - 7 →
  Parse ($"http://" ++ h) b0 = (Ret true, mkBuilder $"http" h 80 [h] [] []).
Proof.
  intros Hg Hf Hl Hsz. pose proof Hg as (Hne & _ & _). rewrite !free_of_cons in Hf.
  destruct_and!. set (u := $"http://" ++ h).
  assert (size u = 7 + size h) as Hu by (unfold u; by rewrite size_app).
  assert (1 ≤ size h) by (destruct h; [done|]; rewrite size_cons; pose proof (size_nonneg h); lia).
  assert ("?"%char ∉ u ∧ "#"%char ∉ u) as [Hq Hh].
  { unfold u. rewrite !not_elem_of_app. split_and!; try done; by apply (bool_decide_unpack _). }
  unfold Parse. rewrite (proj2 (Z.leb_gt _ _)) by lia.
  unfold Clear. erewrite ST_bind_Ret by done.
  erewrite ST_bind_Ret.
  2:{ unfold lift. rewrite trim_id; [done| | |lia].
      - eexists _, _. split; [done|]. by apply (bool_decide_unpack _).
      - intros x Hx. apply Hl. revert Hx. unfold u. rewrite last_app.
        destruct (last h) eqn:El; [done|]. by apply last_None in El. }
  erewrite ST_bind_Ret.
  2:{ unfold lift. change u with ($"http" ++ ":"%char :: $"//" ++ h).
      rewrite find_here by (by apply (bool_decide_unpack _)). by rewrite substr_prefix. }
  change (to_lower $"http") with $"http". rewrite !decide_False by (done || tauto).
  erewrite ST_bind_Ret by done.
  erewrite ST_bind_Ret.
  2:{ unfold lift. rewrite <- (app_nil_r u), path_end_app; [|done..|by left|rewrite app_nil_r; lia].
      rewrite app_nil_r. change (size $"http" + 3) with (size $"http://").
      rewrite Hu. unfold u. rewrite substr_tail; [done|]. change (size $"http://") with 7.
      rewrite u64_small; lia. }
  rewrite decide_False by done. unfold parse_authority.
  rewrite !find_None, !Z.eqb_refl by done. erewrite ST_bind_Ret by done.
  unfold parse_path. rewrite find_None, u64_npos_succ by done. unfold substr_from.
  rewrite substr_all by lia. erewrite ST_bind_Ret.
  2:{ unfold mbind, ST_bind, lift. rewrite decide_False by done.
      unfold AddEncodedPathSegments. rewrite decide_False by done.
      replace (regex_tokens "/"%char h) with [h]
        by (unfold regex_tokens; by rewrite split_on_notin).
      apply push_segments. by constructor. }
  unfold parse_query, query_text, parse_fragment. by rewrite !find_None.
Qed.

Lemma parse_without_path_witness :
  Parse $"http://example.com" new =
  (Ret true, mkBuilder $"http" $"example.com" 80 [$"example.com"] [] []).
Proof.
  apply (parse_without_path $"example.com" new).
  - apply (bool_decide_unpack _). by vm_compute.
  - apply (bool_decide_unpack _). by vm_compute.
  - change (last $"example.com") with (Some "m"%char). intros x [= <-].
    by apply (bool_decide_unpack _).
  - by vm_compute.
Defined.

Definition is_parse (o : builder_op) : bool :=
  match o with OParse _ => true | _ => false end.

Lemma run_op_host o b u b' :
  is_parse o = false → run_op o b = (Ret u, b') → b'.(host_) = b.(host_).
Proof.
  destruct o; simpl; intros Hp H; try discriminate Hp; revert H;
    unfold Scheme, Host, Port, AddEncodedPathSegment, SetEncodedPathSegment,
      RemovePathSegment, AddEncodedQueryParameter, RemoveEncodedQueryParameter,
      RemoveEncodedQueryParameterAll, AddEncodedFragment, Push, Pop;
    unfold_st; try (repeat (case_match || case_decide); intros; inv_out; done).
  assert (∀ c, preserves (λ b', host_ b' = host_ b) (Push c)) as Hpush.
  { intros c. unfold Push, Pop. repeat case_decide; auto with cpp;
      by apply preserves_modify. }
  assert (preserves (λ b', host_ b' = host_ b) (AddEncodedPathSegments s)) as Hadd.
  { unfold AddEncodedPathSegments. case_decide; [auto with cpp|].
    apply preserves_for_each. intros c. case_decide; auto with cpp. }
  intros Hrun. specialize (Hadd b eq_refl). by rewrite Hrun in Hadd.
Qed.

(** A run of the fluent setters (no Parse) that has defined behaviour
    leaves the host empty, so a url built through them has no host. *)
Lemma fluent_builder_has_no_host ops b :
  Forall (λ o, is_parse o = false) ops →
  for_each run_op ops new = (Ret tt, b) →
  b.(host_) = [] ∧ Url.Host (Url.Build b) = [].
Proof.
  intros Hops H. assert (b.(host_) = []) as Hb; [|done].
  change [] with (host_ new). revert H. generalize new as b0.
  induction Hops as [|o ops Ho Hops IH]; intros b0 H; [by inv_out|].
  apply ST_bind_inv in H as (u & b1 & H1 & H2).
  rewrite (IH b1 H2). by eapply run_op_host.
Qed.

Lemma fluent_builder_has_no_host_witness :
  Url.Host (Url.Build (mkBuilder $"https" [] 8080 [$"a"; $"c"] [] [])) = [].
Proof.
  apply (fluent_builder_has_no_host
    [OScheme $"https"; OPort 8080; OAddPathSegments $"a/./b/../c"]);
    [by repeat constructor|by vm_compute].
Defined.
