(* ===== verification/HttpRequest.v ===== *)
(** * messenger/http_request.h: HttpRequest<HttpBody>

    The wrapper over [boost::beast::http::request]. Beast is not part of the
    repository: its request type and the calls the wrapper makes are the
    operations of the class [Beast]; the wrapper's own checks and the request
    target it computes are the definitions. *)

From stdpp Require Import base list strings gmap.
From Stdlib Require Import Ascii ZArith Lia.
From S2P Require Import Prelude CppString StdContainers HttpUrl HttpUrlProps.

Local Open Scope Z_scope.

(** ** What the wrapper calls of Boost.Beast *)
Class Beast := {
  field : Type;
  field_eq_dec :: EqDecision field;
  field_host : field;
  field_unknown : field;
  string_to_field : str → field;
  verb : Type;
  verb_eq_dec :: EqDecision verb;
  verb_unknown : verb;
  string_to_verb : str → verb;
  request : Type;
  request_init : request;
  req_set : field → str → request → request;
  req_erase : field → request → request;
  req_target : str → request → request;
  req_method : verb → request → request;
  req_method_string : request → str;
  req_version : Z → request → request;
  req_body : str → request → request;
  req_clear : request → request;
  req_prepare_payload : request → request
}.

(** http_defines.h *)
Inductive HttpProtocol := kHTTP_1_0 | kHTTP_1_1 | kHTTP_2_0.

Module Request.
Section request.
Context {B : Beast}.

Record HttpRequest := mkRequest {
  url_ : Url.HttpUrl;
  request_ : request
}.

(** [HttpUrl url_{""}] *)
Definition new : HttpRequest :=
  mkRequest (Url.mkUrl [] [] (-1) [] [] [] []) request_init.

Definition set_url u r := mkRequest u r.(request_).
Definition on_request f r := mkRequest r.(url_) (f r.(request_)).

Definition SetUrl (url : Url.HttpUrl) : ST HttpRequest unit :=
  modify (set_url url) ;;
  r ← get;
  let u := r.(url_) in
  let host := Url.Host u ++ $":" ++ to_string (Url.Port u) in
  modify (on_request (req_set field_host (Url.Host u))) ;;
  target ← lift (substr_from (Url.Url u) (size (Url.Scheme u) + 3 + size host));
  modify (on_request (req_target target)).

Definition SetUrl_string (url : str) : ST HttpRequest unit :=
  u ← lift (Url.of_string url);
  SetUrl u.

Definition AddHeader (name value : str) : ST HttpRequest unit :=
  if decide (name = [] ∨ value = []) then mret tt
  else
    let f := string_to_field name in
    if decide (f = field_unknown) then mret tt
    else modify (on_request (req_set f value)).

Definition RemoveHeader (name : str) : ST HttpRequest unit :=
  if decide (name = []) then mret tt
  else
    let f := string_to_field name in
    if decide (f = field_unknown) then mret tt
    else modify (on_request (req_erase f)).

Definition SetMethod (method : str) : ST HttpRequest unit :=
  if decide (method = []) then mret tt
  else
    let m := string_to_verb method in
    if decide (m = verb_unknown) then mret tt
    else modify (on_request (req_method m)).

(** Assigning through the reference [Body()] returns. *)
Definition SetBody (body : str) : ST HttpRequest unit :=
  modify (on_request (req_body body)).

Definition Method (r : HttpRequest) : str := req_method_string r.(request_).

Definition SetVersion (protocol : HttpProtocol) : ST HttpRequest unit :=
  match protocol with
  | kHTTP_1_0 => modify (on_request (req_version 10))
  | kHTTP_1_1 => modify (on_request (req_version 11))
  | kHTTP_2_0 => modify (on_request (req_version 20))
  end.

Definition GetUrl (r : HttpRequest) : Url.HttpUrl := Url.copy r.(url_).

Definition ClearHeaders : ST HttpRequest unit := modify (on_request req_clear).

Definition PreparePayload : ST HttpRequest unit :=
  modify (on_request req_prepare_payload).

End request.
End Request.

Import Request.

(** ** The request target *)
Section target.
Context {B : Beast}.

(** What follows the authority in the url. *)
Definition path_and_tail (b : Builder.Builder) : str :=
  "/"%char :: join "/"%char b.(Builder.encoded_path_segments_) ++ url_tail b.

Lemma of_string_canonical b :
  canonical b → Url.of_string (Builder.ToString b) = Ret (Url.Build b).
Proof. intros Hb. unfold Url.of_string. by rewrite (parse_print b). Qed.

Lemma SetUrl_canonical b r :
  canonical b →
  SetUrl (Url.Build b) r =
  (Ret tt, mkRequest (Url.Build b)
    (req_target (path_and_tail b) (req_set field_host b.(Builder.host_) r.(request_)))).
Proof.
  intros Hb. pose proof (canonical_url_path b Hb) as E.
  pose proof (canonical_sizes b Hb) as (_ & _ & _ & _ & Hsz).
  unfold SetUrl, mbind, ST_bind, modify, get, lift, set_url, on_request. simpl.
  destruct Hb as (_ & _ & _ & Hp & _). unfold Url.Scheme, Url.Host, Url.Url, Url.Port. simpl.
  rewrite to_string_nonneg by lia.
  change (":"%char :: dec b.(Builder.port_)) with ($":" ++ dec b.(Builder.port_)).
  replace (size b.(Builder.scheme_) + 3 + size (b.(Builder.host_) ++ $":" ++ dec b.(Builder.port_)))
    with (size (b.(Builder.scheme_) ++ $"://" ++ authority b))
    by (unfold authority; rewrite !size_app, size_cons;
        change (size $"://") with 3; change (size $":") with 1; lia).
  rewrite E in Hsz |- *. unfold substr_from.
  rewrite size_app in Hsz. pose proof (size_nonneg (b.(Builder.scheme_) ++ $"://" ++ authority b)).
  by rewrite substr_tail by lia.
Qed.

Lemma SetUrl_string_canonical b r :
  canonical b → SetUrl_string (Builder.ToString b) r = SetUrl (Url.Build b) r.
Proof.
  intros Hb. unfold SetUrl_string, mbind, ST_bind at 1, lift. by rewrite of_string_canonical.
Qed.

End target.

(** For a canonical url both SetUrl overloads set the Host field to the
    host and the request target to the path, query and fragment that follow
    the authority. *)
Lemma set_url_target {B : Beast} b r :
  canonical b →
  let r' := mkRequest (Url.Build b)
    (req_target (path_and_tail b) (req_set field_host b.(Builder.host_) r.(request_))) in
  SetUrl (Url.Build b) r = (Ret tt, r') ∧
  SetUrl_string (Builder.ToString b) r = (Ret tt, r').
Proof.
  intros Hb r'. split; [by apply SetUrl_canonical|].
  rewrite SetUrl_string_canonical by done. by apply SetUrl_canonical.
Qed.

(** A minimal Beast: a request records its target and its fields. *)
Definition log_beast : Beast := {|
  field := str; field_host := $"Host"; field_unknown := [];
  string_to_field := λ s, s;
  verb := str; verb_unknown := []; string_to_verb := λ s, s;
  request := str * list (str * str); request_init := ([], []);
  req_set f v r := (r.1, (f, v) :: r.2); req_erase f r := (r.1, map_erase f r.2);
  req_target t r := (t, r.2); req_method _ r := r; req_method_string _ := [];
  req_version _ r := r; req_body _ r := r; req_clear r := (r.1, []);
  req_prepare_payload r := r
|}.

Lemma set_url_target_witness :
  (snd (SetUrl_string (B := log_beast) (Builder.ToString sample) new)).(request_)
  = ($"/over/there?a=1&a=2&b=#nose", [($"Host", $"example.com")]).
Proof.
  assert (canonical sample) as H by (apply (bool_decide_unpack _); by vm_compute).
  destruct (set_url_target (B := log_beast) sample new H) as [_ E].
  rewrite E. vm_compute. reflexivity.
Defined.
