(* ===== verification/Base64.v ===== *)
(** * The base64 text of a signature

    [CalculateSignature] (core/licode_nuve_api.cc) builds base64 from two boost
    iterator adaptors and appends the padding itself. The adaptors regroup the
    bits of the input six at a time; the reference is the encoding of RFC 4648,
    three bytes at a time. This file holds both and their equality. *)

From stdpp Require Import base list strings gmap.
From Stdlib Require Import Ascii ZArith Lia.
From S2P Require Import Prelude CppString.

Local Open Scope Z_scope.

(** ** The adaptors: bits regrouped *)

(** The bits of a byte, most significant first. *)
Definition byte_bits (c : ascii) : list bool :=
  let '(Ascii b0 b1 b2 b3 b4 b5 b6 b7) := c in [b7; b6; b5; b4; b3; b2; b1; b0].

(** [transform_width<..., 6, 8>]: sextets, the last one filled with zeros. *)
Fixpoint sextets (l : list bool) : list (list bool) :=
  match l with
  | [] => []
  | [a] => [[a; false; false; false; false; false]]
  | [a; b] => [[a; b; false; false; false; false]]
  | [a; b; c] => [[a; b; c; false; false; false]]
  | [a; b; c; d] => [[a; b; c; d; false; false]]
  | [a; b; c; d; e] => [[a; b; c; d; e; false]]
  | a :: b :: c :: d :: e :: f :: l' => [a; b; c; d; e; f] :: sextets l'
  end.

Definition bits_value (l : list bool) : Z := foldl (λ acc b, 2 * acc + Z.b2z b) 0 l.

(** The alphabet of RFC 4648, section 4. *)
Definition b64_digit (n : Z) : ascii :=
  if n <? 26 then ascii_of_nat (Z.to_nat (65 + n))
  else if n <? 52 then ascii_of_nat (Z.to_nat (97 + (n - 26)))
  else if n <? 62 then ascii_of_nat (Z.to_nat (48 + (n - 52)))
  else if n =? 62 then "+"%char else "/"%char.

(** [base64_from_binary<transform_width<..., 6, 8>>] over a string. *)
Definition b64_digits (s : str) : str :=
  (λ l, b64_digit (bits_value l)) <$> sextets (s ≫= byte_bits).

(** ** The reference: blocks of three bytes *)
Definition sextet1 (x : Z) : Z := Z.shiftr x 2.
Definition sextet2 (x y : Z) : Z := Z.lor (Z.shiftl (Z.land x 3) 4) (Z.shiftr y 4).
Definition sextet3 (y z : Z) : Z := Z.lor (Z.shiftl (Z.land y 15) 2) (Z.shiftr z 6).
Definition sextet4 (z : Z) : Z := Z.land z 63.

Fixpoint rfc4648 (s : str) : str :=
  match s with
  | [] => []
  | [x] =>
      [b64_digit (sextet1 (code x)); b64_digit (sextet2 (code x) 0); "="%char; "="%char]
  | [x; y] =>
      [b64_digit (sextet1 (code x)); b64_digit (sextet2 (code x) (code y));
       b64_digit (sextet3 (code y) 0); "="%char]
  | x :: y :: z :: s' =>
      b64_digit (sextet1 (code x)) :: b64_digit (sextet2 (code x) (code y)) ::
      b64_digit (sextet3 (code y) (code z)) :: b64_digit (sextet4 (code z)) :: rfc4648 s'
  end.

(** ** Their equality *)
Definition all_ascii : list ascii := ascii_of_nat <$> seq 0 256.

Lemma all_ascii_spec c : c ∈ all_ascii.
Proof.
  apply list_elem_of_fmap. exists (nat_of_ascii c).
  rewrite ascii_nat_embedding, elem_of_seq. pose proof (nat_ascii_bounded c).
  split; [done|lia].
Qed.

(** Statements about one or two bytes that evaluation decides. *)
Lemma by_byte (P : ascii → bool) : forallb P all_ascii = true → ∀ x, P x = true.
Proof. rewrite forallb_forall. intros H x. apply H, list_elem_of_In, all_ascii_spec. Qed.

Lemma by_bytes (P : ascii → ascii → bool) :
  forallb (λ x, forallb (P x) all_ascii) all_ascii = true → ∀ x y, P x y = true.
Proof.
  intros H x y. apply by_byte. revert x. by apply by_byte.
Qed.

Definition high6 (x : ascii) : list bool := take 6 (byte_bits x).
Definition mid6 (x y : ascii) : list bool := drop 6 (byte_bits x) ++ take 4 (byte_bits y).
Definition mid6' (y z : ascii) : list bool := drop 4 (byte_bits y) ++ take 2 (byte_bits z).
Definition low6 (z : ascii) : list bool := drop 2 (byte_bits z).

Lemma sextets_block x y z l :
  sextets (byte_bits x ++ byte_bits y ++ byte_bits z ++ l) =
  high6 x :: mid6 x y :: mid6' y z :: low6 z :: sextets l.
Proof. destruct x, y, z. reflexivity. Qed.

Lemma high6_value x : bits_value (high6 x) = sextet1 (code x).
Proof. apply Z.eqb_eq. revert x. apply by_byte. by vm_compute. Qed.
Lemma mid6_value x y : bits_value (mid6 x y) = sextet2 (code x) (code y).
Proof. apply Z.eqb_eq. revert x y. apply by_bytes. by vm_compute. Qed.
Lemma mid6'_value y z : bits_value (mid6' y z) = sextet3 (code y) (code z).
Proof. apply Z.eqb_eq. revert y z. apply by_bytes. by vm_compute. Qed.
Lemma low6_value z : bits_value (low6 z) = sextet4 (code z).
Proof. apply Z.eqb_eq. revert z. apply by_byte. by vm_compute. Qed.

(** The padding [CalculateSignature] appends. *)
Definition equal_count (n : Z) : Z := (3 - n mod 3) mod 3.

Lemma equal_count_add3 n : equal_count (n + 3) = equal_count n.
Proof. unfold equal_count. by rewrite <- Zplus_mod_idemp_r, Z.add_0_r. Qed.

Lemma b64_padded s :
  b64_digits s ++ replicate (Z.to_nat (equal_count (size s))) "="%char = rfc4648 s.
Proof.
  revert s. fix IH 1. intros [|x [|y [|z s]]]; [done|..].
  - destruct x as [[][][][][][][][]]; reflexivity.
  - unfold b64_digits. simpl rfc4648. rewrite <- high6_value, <- mid6_value.
    change (sextet3 (code y) 0) with (sextet3 (code y) (code (chr 0))). rewrite <- mid6'_value.
    destruct x, y. reflexivity.
  - simpl rfc4648. rewrite <- IH, <- high6_value, <- mid6_value, <- mid6'_value, <- low6_value.
    unfold b64_digits. cbn [mbind list_bind]. rewrite sextets_block.
    rewrite !size_cons. replace (1 + (1 + (1 + size s))) with (size s + 3) by lia.
    by rewrite equal_count_add3.
Qed.
