(* ===== verification/HttpSession.v ===== *)
(** * core/licode_nuve_api.cc: SimpleHttpSession

    One HTTP exchange. [SyncRequest] runs on the caller's thread and blocks on
    a future; the handlers run on the session's own thread, statement by
    statement, and the caller may resume between any two of them. The model
    keeps the two program counters, the response both threads touch and who
    still owns the session. The sockets are the environment: it decides how
    each asynchronous operation completes. *)

From stdpp Require Import base list strings gmap relations.
From Stdlib Require Import Ascii ZArith Lia.
From S2P Require Import Prelude CppString.

Local Open Scope Z_scope.

Module Http.

(** [boost::beast::http::response<StringHttpBody>]: what the code reads. A
    fresh response has status ok; status unknown is 0. *)
Record response := mkRes { result : Z; reason : str; body : str }.

Definition status_ok : Z := 200.
Definition status_unknown : Z := 0.
Definition new_response : response := mkRes status_ok [] [].

(** The statements of the handlers that another thread can observe. *)
Inductive stmt :=
  | SetValue (success : bool)      (* promise_->set_value(success) *)
  | SetResult (status : Z)         (* response_.result(status) *)
  | SetReason (text : str)         (* response_.reason(text) *)
  | Shutdown.                      (* stream_.socket().shutdown(...) *)

(** The asynchronous operation the session's thread waits for. *)
Inductive op := Resolve | Connect | Write | Read.

(** How it completed: with an error, or not. A read also leaves its message
    in [response_]; a failed one leaves whatever the library had parsed. *)
Inductive completion :=
  | Done (op : op)
  | DoneRead (message : response)
  | Failed (op : op)
  | FailedRead (partial : response).

(** The session's thread: idle, waiting, or inside a handler. *)
Inductive io_pc :=
  | IoIdle
  | IoWait (op : op)
  | IoHandler (rest : list stmt)
  | IoReturned.

(** The thread that called [SyncRequest]. *)
Inductive caller_pc :=
  | Calling
  | Waiting
  | Copied (r : response)
  | Released (r : response).

Inductive thread := CallerThread | IoThread.

#[global] Instance thread_eq_dec : EqDecision thread.
Proof. solve_decision. Defined.

Record SimpleHttpSession := mkSession {
  promise_ : option bool;
  timeoutMS_ : Z;
  response_ : response;
  io : io_pc;
  caller : caller_pc;
  (** the thread that ran the destructor, when it has run *)
  destroyed_by : option thread
}.

Definition new_session : SimpleHttpSession :=
  mkSession None 3000 new_response IoIdle Calling None.

Definition set_io p s := mkSession s.(promise_) s.(timeoutMS_) s.(response_) p s.(caller) s.(destroyed_by).
Definition set_caller c s := mkSession s.(promise_) s.(timeoutMS_) s.(response_) s.(io) c s.(destroyed_by).
Definition set_response r s := mkSession s.(promise_) s.(timeoutMS_) r s.(io) s.(caller) s.(destroyed_by).
Definition destroy t s :=
  mkSession s.(promise_) s.(timeoutMS_) s.(response_) s.(io) s.(caller) (Some t).

(** The four handlers: the statements to run, or the operation to start. *)
Definition fail_with (why : str) : list stmt :=
  [SetValue false; SetResult status_unknown; SetReason why].

Definition OnResolve (ec : bool) : io_pc :=
  if ec then IoHandler (fail_with $"resolve failed") else IoWait Connect.
Definition OnConnect (ec : bool) : io_pc :=
  if ec then IoHandler (fail_with $"connect failed") else IoWait Write.
Definition OnWrite (ec : bool) : io_pc :=
  if ec then IoHandler (fail_with $"write failed") else IoWait Read.
Definition OnRead (ec : bool) : io_pc :=
  if ec then IoHandler (fail_with $"read failed") else IoHandler [Shutdown; SetValue true].

(** The operation the thread waits for completes and its handler is entered. *)
Definition complete (s : SimpleHttpSession) (c : completion) : option SimpleHttpSession :=
  match s.(io), c with
  | IoWait Resolve, Done Resolve => Some (set_io (OnResolve false) s)
  | IoWait Connect, Done Connect => Some (set_io (OnConnect false) s)
  | IoWait Write, Done Write => Some (set_io (OnWrite false) s)
  | IoWait Read, DoneRead m => Some (set_io (OnRead false) (set_response m s))
  | IoWait Resolve, Failed Resolve => Some (set_io (OnResolve true) s)
  | IoWait Connect, Failed Connect => Some (set_io (OnConnect true) s)
  | IoWait Write, Failed Write => Some (set_io (OnWrite true) s)
  | IoWait Read, FailedRead m => Some (set_io (OnRead true) (set_response m s))
  | _, _ => None
  end.

(** One statement of a handler. *)
Definition exec (st : stmt) (s : SimpleHttpSession) : SimpleHttpSession :=
  match st with
  | SetValue b =>
      mkSession (Some b) s.(timeoutMS_) s.(response_) s.(io) s.(caller) s.(destroyed_by)
  | SetResult z => set_response (mkRes z s.(response_).(reason) s.(response_).(body)) s
  | SetReason t => set_response (mkRes s.(response_).(result) t s.(response_).(body)) s
  | Shutdown => s
  end.

(** The next statement of the handler; when none is left the handler returns
    and gives up its [shared_ptr], and the session dies on this thread if the
    caller has let go of it. *)
Definition io_step (s : SimpleHttpSession) : option SimpleHttpSession :=
  match s.(io) with
  | IoHandler (st :: rest) => Some (set_io (IoHandler rest) (exec st s))
  | IoHandler [] =>
      let s' := set_io IoReturned s in
      Some (match s.(caller) with Released _ => destroy IoThread s' | _ => s' end)
  | _ => None
  end.

(** [SyncRequest] up to the blocking get. *)
Definition SyncRequest (timeoutMS : Z) (s : SimpleHttpSession) : SimpleHttpSession :=
  mkSession s.(promise_) timeoutMS s.(response_) (IoWait Resolve) Waiting s.(destroyed_by).

(** The caller's thread: start, resume from [get_future().get()] with a copy
    of the response, and release the session. *)
Definition caller_step (timeoutMS : Z) (s : SimpleHttpSession) : option SimpleHttpSession :=
  match s.(caller) with
  | Calling => Some (SyncRequest timeoutMS s)
  | Waiting =>
      match s.(promise_) with
      | Some _ => Some (set_caller (Copied s.(response_)) s)
      | None => None
      end
  | Copied r =>
      let s' := set_caller (Released r) s in
      Some (match s.(io) with IoReturned => destroy CallerThread s' | _ => s' end)
  | Released _ => None
  end.

Inductive event := Complete (c : completion) | IoStep | CallerStep.

Definition step (timeoutMS : Z) (e : event) (s : SimpleHttpSession) : option SimpleHttpSession :=
  match e with
  | Complete c => complete s c
  | IoStep => io_step s
  | CallerStep => caller_step timeoutMS s
  end.

Fixpoint run (timeoutMS : Z) (es : list event) (s : SimpleHttpSession) : option SimpleHttpSession :=
  match es with
  | [] => Some s
  | e :: es' => step timeoutMS e s ≫= run timeoutMS es'
  end.

(** The response the call returned, once it has returned. *)
Definition returned_response (s : SimpleHttpSession) : option response :=
  match s.(caller) with Copied r | Released r => Some r | _ => None end.

(** The text [LicodeNuveApi::SyncRequest] makes of a response. *)
Definition text_of (r : response) : str :=
  if decide (r.(result) = status_ok) then r.(body) else [].

(** ** What the caller can observe

    The message the peer sent, if a read completed in the run. *)
Definition next_message (acc : option response) (e : event) : option response :=
  match e with Complete (DoneRead m) => Some m | _ => acc end.
Definition message_of (es : list event) : option response := foldl next_message None es.

(** What a failed read leaves behind has no body. *)
Definition clean_failure (e : event) : Prop :=
  match e with Complete (FailedRead m) => m.(body) = [] | _ => True end.

(** The response, as long as [msg] is what was received. *)
Definition agrees (msg : option response) (r : response) : Prop :=
  match msg with Some m => r = m | None => r.(body) = [] end.

(** What the rest of a handler may still do. *)
Definition rest_ok (msg : option response) (promise : option bool) (l : list stmt) : Prop :=
  (promise = None → ∃ b, SetValue b ∈ l) ∧
  (length l ≤ 3)%nat ∧
  match msg with Some _ => Forall (λ st, st = Shutdown ∨ st = SetValue true) l | None => True end.

(** The states of a session in which [msg] was received so far. *)
Definition http_inv (msg : option response) (s : SimpleHttpSession) : Prop :=
  agrees msg s.(response_) ∧
  match s.(io) with
  | IoIdle => s.(promise_) = None ∧ s.(caller) = Calling ∧ msg = None ∧ s.(destroyed_by) = None
  | IoWait _ => s.(promise_) = None ∧ s.(caller) = Waiting ∧ msg = None ∧ s.(destroyed_by) = None
  | IoHandler l => rest_ok msg s.(promise_) l ∧ s.(caller) ≠ Calling ∧ s.(destroyed_by) = None
  | IoReturned => is_Some s.(promise_) ∧ s.(caller) ≠ Calling ∧
      (is_Some s.(destroyed_by) ↔ ∃ r, s.(caller) = Released r)
  end ∧
  match s.(caller) with
  | Copied r | Released r => agrees msg r ∧ is_Some s.(promise_)
  | _ => True
  end.

Lemma http_inv_new : http_inv None new_session.
Proof. done. Qed.

Lemma rest_ok_fail why : rest_ok None None (fail_with why).
Proof. repeat split; [|simpl; lia]. intros _. exists false. left. Qed.

Lemma complete_inv msg s c s' :
  http_inv msg s → clean_failure (Complete c) → complete s c = Some s' →
  http_inv (next_message msg (Complete c)) s'.
Proof.
  destruct s as [p t r i k d]. unfold http_inv, complete, clean_failure. simpl.
  intros (Hr & Hi & Hk) Hc E.
  destruct i as [|[]| |], c as [[]| |[]|]; simplify_eq; simpl in *; try done;
    destruct Hi as (-> & -> & -> & ->); simpl in *; split_and!; try done;
    try apply rest_ok_fail.
  split; [intros _; exists true; right; left|]. split; [simpl; lia|].
  apply Forall_cons; split; [by left|]. apply Forall_cons; split; [by right|done].
Qed.

Lemma rest_ok_next msg p st l :
  rest_ok msg p (st :: l) →
  rest_ok msg (match st with SetValue b => Some b | _ => p end) l.
Proof.
  intros (Hp & Hl & Hm). simpl in Hl. split_and!; [|lia|].
  - intros Hn. destruct st; simplify_eq; destruct (Hp eq_refl) as [b Hb];
      apply elem_of_cons in Hb as [?|?]; eauto; done.
  - destruct msg; [|done]. by apply Forall_cons in Hm as [_ ?].
Qed.

Lemma exec_agrees msg p st l s :
  rest_ok msg p (st :: l) → agrees msg s.(response_) → agrees msg (exec st s).(response_).
Proof.
  intros (_ & _ & Hm) Ha. destruct msg; simpl in *.
  - by apply Forall_cons in Hm as [[-> | ->] _].
  - by destruct st.
Qed.

Lemma io_step_inv msg s s' : http_inv msg s → io_step s = Some s' → http_inv msg s'.
Proof.
  destruct s as [p t r i k d]. unfold io_step. simpl.
  intros (Hr & Hi & Hk) E. simpl in *. destruct i as [| |[|st l]|]; try done; simplify_eq.
  - destruct Hi as ((Hp & _) & Hc & ->). assert (is_Some p) as Hs.
    { destruct p; [eauto|]. destruct (Hp eq_refl) as [? []%not_elem_of_nil]. }
    unfold http_inv. destruct k; simpl; split_and!; try done; try (by destruct Hk);
      split; try (intros [? ?]; done); eauto.
  - destruct Hi as (Hl & Hc & ->). pose proof (exec_agrees _ _ _ _ (mkSession p t r IoIdle k None) Hl Hr).
    apply rest_ok_next in Hl. unfold http_inv.
    destruct st; simpl in *; split_and!; try done; destruct k; naive_solver.
Qed.

Lemma caller_step_inv msg n s s' : http_inv msg s → caller_step n s = Some s' → http_inv msg s'.
Proof.
  destruct s as [p t r i k d]. unfold caller_step, http_inv. simpl. intros (Hr & Hi & Hk) E.
  destruct k; simplify_eq; simpl.
  - destruct i; naive_solver.
  - destruct p as [b|]; simplify_eq; simpl.
    destruct i; naive_solver.
  - destruct i; simpl; naive_solver.
Qed.

Lemma run_inv n es msg s s' :
  http_inv msg s → Forall clean_failure es → run n es s = Some s' →
  http_inv (foldl next_message msg es) s'.
Proof.
  revert msg s. induction es as [|e es IH]; intros msg s Hi Hc E; simpl in *; [by simplify_eq|].
  apply Forall_cons in Hc as [He Hes]. apply bind_Some in E as (s1 & E1 & E).
  apply (IH _ s1); [|done..]. destruct e; simpl in E1 |- *.
  - by eapply complete_inv.
  - by eapply io_step_inv.
  - by eapply caller_step_inv.
Qed.

(** The statements left on the two threads. *)
Definition work (s : SimpleHttpSession) : nat :=
  match s.(io) with
  | IoIdle | IoWait Resolve => 8
  | IoWait Connect => 7
  | IoWait Write => 6
  | IoWait Read => 5
  | IoHandler l => 1 + length l
  | IoReturned => 0
  end +
  match s.(caller) with Calling => 3 | Waiting => 2 | Copied _ => 1 | Released _ => 0 end.

Lemma step_work n e msg s s' : http_inv msg s → step n e s = Some s' → (work s' < work s)%nat.
Proof.
  destruct s as [p t r i k d]. unfold http_inv, work. intros (_ & Hi & _) E. simpl in *.
  destruct e as [c| |]; simpl in E.
  - unfold complete in E. simpl in E.
    destruct i as [|[]| |], c as [[]| |[]|]; simplify_eq; simpl; lia.
  - unfold io_step in E. simpl in E. destruct i as [| |[|[] l]|]; simplify_eq; simpl; try lia.
    destruct k; simpl; lia.
  - unfold caller_step in E. simpl in E. destruct k; simplify_eq; simpl.
    + destruct i as [|[]| |]; simpl; try lia; naive_solver.
    + destruct p; simplify_eq; simpl. lia.
    + destruct i; simpl; lia.
Qed.

Lemma run_work n es msg s s' :
  http_inv msg s → Forall clean_failure es → run n es s = Some s' →
  (length es + work s' ≤ work s)%nat.
Proof.
  revert msg s. induction es as [|e es IH]; intros msg s Hi Hc E; simpl in *; [by simplify_eq|].
  apply bind_Some in E as (s1 & E1 & E). apply Forall_cons in Hc as [He Hes].
  pose proof (step_work _ _ _ _ _ Hi E1).
  assert (http_inv (next_message msg e) s1) as Hi1.
  { apply (run_inv n [e] msg s s1 Hi); [by constructor|]. simpl. by rewrite E1. }
  pose proof (IH _ _ Hi1 Hes E). lia.
Qed.

(** The environment owes the completion of the pending operation; nothing
    else can hold the session up. *)
Definition stuck (n : Z) (s : SimpleHttpSession) : Prop := ∀ e, step n e s = None.

Lemma stuck_finished n msg s :
  http_inv msg s → stuck n s →
  s.(io) = IoReturned ∧ is_Some (returned_response s) ∧ is_Some s.(destroyed_by).
Proof.
  destruct s as [p t r i k d]. intros (_ & Hi & Hk) Hs. simpl in *.
  destruct i as [|o|[|st l]|]; simpl in *.
  - pose proof (Hs CallerStep) as H. destruct Hi as (_ & -> & _). done.
  - destruct o; [pose proof (Hs (Complete (Done Resolve)))|pose proof (Hs (Complete (Done Connect)))
      |pose proof (Hs (Complete (Done Write)))|pose proof (Hs (Complete (DoneRead r)))]; done.
  - by pose proof (Hs IoStep).
  - by pose proof (Hs IoStep).
  - pose proof (Hs CallerStep) as H. unfold returned_response. simpl in *.
    destruct Hi as ([b ->] & Hc & Hd). destruct k as [| | |v]; simpl in *; try done.
    split_and!; eauto. apply Hd. eauto.
Qed.

End Http.

Import Http.



(** An exchange in which the caller lets go of the session before the last
    handler has returned. *)
Definition overtaken (m : response) : list event :=
  [CallerStep; Complete (Done Resolve); Complete (Done Connect); Complete (Done Write);
   Complete (DoneRead m); IoStep; IoStep; CallerStep; CallerStep; IoStep].

(** A successful exchange can end with the destructor on the session's
    own thread, where its join waits for itself; and a failed one can return a
    response whose status is still ok. *)
Lemma http_session_races_its_caller n m :
  (∃ s, run n (overtaken m) new_session = Some s ∧
    s.(destroyed_by) = Some IoThread ∧ returned_response s = Some m) ∧
  (∃ s r, run n [CallerStep; Complete (Failed Resolve); IoStep; CallerStep] new_session = Some s ∧
    s.(promise_) = Some false ∧ returned_response s = Some r ∧ r.(result) = status_ok).
Proof. split; repeat eexists. Qed.

Definition hello : response := mkRes 200 $"OK" $"hello".


