(* ===== verification/Json.v ===== *)
(** * The JSON library as the client sees it

    nlohmann::json is a submodule that is not part of the sources, so the
    client's code is parametrised by the class [JsonLib] of the operations it
    calls. [JsonLaws] names what the library documents and the theorems rely
    on: reading back what was stored, and that [parse] inverts [dump] up to
    the signed or unsigned storage of an integer. *)

From stdpp Require Import base list strings gmap.
From Stdlib Require Import Ascii ZArith Lia.
From S2P Require Import Prelude CppString.

(** ** Operations *)
Class JsonLib := {
  json : Type;
  json_null : json;                               (* json(), value_t::null *)
  json_object : json;                             (* json::object() *)
  json_array_of : list json → json;               (* json::array({...}) *)
  of_bool : bool → json;
  of_string : str → json;
  of_int : Z → json;
  of_uint64 : Z → json;
  j_parse : str → outcome json;                   (* json::parse, throws *)
  j_dump : json → outcome str;                    (* j.dump(), throws on bad UTF-8 *)
  j_set_at : json → nat → json → outcome json;    (* j[i] = v *)
  j_set_key : json → str → json → outcome json;   (* j[k] = v *)
  j_at : json → nat → outcome (json * json);      (* j[i], j not const: value, j after *)
  j_key : json → str → outcome (json * json);     (* j[k], j not const: value, j after *)
  j_at_const : json → nat → outcome json;         (* j[i], j const *)
  j_key_const : json → str → outcome json;        (* j[k], j const *)
  j_contains : json → str → bool;
  j_size : json → nat;
  j_elems : json → list json;                     (* range for *)
  get_string : json → outcome str;                (* conversions, throw type_error *)
  get_bool : json → outcome bool;
  get_int : json → outcome Z;
  get_uint64 : json → outcome Z;
  j_value_string : json → str → str → outcome str;   (* j.value<T>(key, default) *)
  j_value_int32 : json → str → Z → outcome Z;
  j_value_bool : json → str → bool → outcome bool;
  j_is_string : json → bool;
  j_is_null : json → bool;
  j_is_object : json → bool;
  j_eq_string : json → str → bool                 (* j == "text" *)
}.

(** [nlohmann::json::array()] *)
Definition json_array {J : JsonLib} : json := json_array_of [].

(** ** Documented behaviour *)
Class JsonLaws (J : JsonLib) := {
  json_equiv : relation json;
  (** a string [dump] accepts *)
  valid_utf8 : str → Prop;
  (** no floating-point number, only valid strings *)
  json_plain : json → Prop;
  json_equivalence :: Equivalence json_equiv;
  ascii_utf8 s : Forall (λ c, (code c < 128)%Z) s → valid_utf8 s;
  (* storing *)
  set_at_append l v : j_set_at (json_array_of l) (length l) v = Ret (json_array_of (l ++ [v]));
  set_key_null k v : j_set_key json_null k v = j_set_key json_object k v;
  object_is_object : j_is_object json_object = true;
  set_key_object j k v : j_is_object j = true →
    ∃ j', j_set_key j k v = Ret j' ∧ j_is_object j' = true ∧
      j_key_const j' k = Ret v ∧
      ∀ k', k' ≠ k → j_key_const j' k' = j_key_const j k';
  (* reading *)
  at_const_array l i v : l !! i = Some v → j_at_const (json_array_of l) i = Ret v;
  get_string_of s : get_string (of_string s) = Ret s;
  get_bool_of b : get_bool (of_bool b) = Ret b;
  get_int_of z : in_i32 z = true → get_int (of_int z) = Ret z;
  get_uint64_of z : in_u64 z = true → get_uint64 (of_uint64 z) = Ret z;
  is_null_null : j_is_null json_null = true;
  (* accessors do not see how an integer is stored *)
  at_const_equiv j j' i v : json_equiv j j' → j_at_const j i = Ret v →
    ∃ v', j_at_const j' i = Ret v' ∧ json_equiv v v';
  key_const_equiv j j' k v : json_equiv j j' → j_key_const j k = Ret v →
    ∃ v', j_key_const j' k = Ret v' ∧ json_equiv v v';
  get_string_equiv :: Proper (json_equiv ==> eq) get_string;
  get_bool_equiv :: Proper (json_equiv ==> eq) get_bool;
  get_int_equiv :: Proper (json_equiv ==> eq) get_int;
  get_uint64_equiv :: Proper (json_equiv ==> eq) get_uint64;
  is_null_equiv :: Proper (json_equiv ==> eq) j_is_null;
  (* text *)
  plain_null : json_plain json_null;
  plain_object : json_plain json_object;
  plain_bool b : json_plain (of_bool b);
  plain_int z : json_plain (of_int z);
  plain_uint64 z : json_plain (of_uint64 z);
  plain_string s : valid_utf8 s → json_plain (of_string s);
  plain_array l : Forall json_plain l → json_plain (json_array_of l);
  plain_set_key j k v j' : j_is_object j = true → json_plain j → json_plain v →
    valid_utf8 k → j_set_key j k v = Ret j' → json_plain j';
  parse_dump j : json_plain j →
    ∃ s j', j_dump j = Ret s ∧ j_parse s = Ret j' ∧ json_equiv j j'
}.

(** ** Paths into a value *)
Inductive jstep := JIdx (i : nat) | JKey (k : str).

Section paths.
Context {J : JsonLib}.

Definition jstep_get (j : json) (s : jstep) : outcome json :=
  match s with
  | JIdx i => j_at_const j i
  | JKey k => j_key_const j k
  end.

(** [j[s1][s2]...] *)
Fixpoint jpath (j : json) (p : list jstep) : outcome json :=
  match p with
  | [] => Ret j
  | s :: p' => v ← jstep_get j s; jpath v p'
  end.

(** [nlohmann::json j; j[k1] = v1; j[k2] = v2; ...] *)
Definition set_keys (j : json) (kvs : list (str * json)) : outcome json :=
  foldl (λ o e, j ← o; j_set_key j e.1 e.2) (Ret j) kvs.

(** [j[0] = v0; j[1] = v1; ...] *)
Fixpoint set_ats (j : json) (i : nat) (vs : list json) : outcome json :=
  match vs with
  | [] => Ret j
  | v :: vs' => j' ← j_set_at j i v; set_ats j' (S i) vs'
  end.

Context {JL : JsonLaws J}.

Lemma jpath_app j p q : jpath j (p ++ q) = v ← jpath j p; jpath v q.
Proof.
  revert j. induction p as [|s p IH]; intros j; simpl; [done|].
  destruct (jstep_get j s); simpl; [apply IH|done..].
Qed.

Lemma jpath_equiv j j' p v :
  json_equiv j j' → jpath j p = Ret v → ∃ v', jpath j' p = Ret v' ∧ json_equiv v v'.
Proof.
  revert j j'. induction p as [|s p IH]; intros j j' He Hv; simpl in *.
  { inv_out. eauto. }
  apply outcome_bind_inv in Hv as (w & Hw & Hv).
  assert (∃ w', jstep_get j' s = Ret w' ∧ json_equiv w w') as (w' & Hw' & Hww').
  { destruct s; simpl in *; [by eapply at_const_equiv|by eapply key_const_equiv]. }
  rewrite Hw'. simpl. by eapply IH.
Qed.

Lemma set_keys_snoc j kvs k v :
  set_keys j (kvs ++ [(k, v)]) = j' ← set_keys j kvs; j_set_key j' k v.
Proof. unfold set_keys. by rewrite foldl_app. Qed.

(** Storing under distinct keys: every value is read back. *)
Lemma set_keys_object kvs :
  NoDup kvs.*1 →
  ∃ j, set_keys json_object kvs = Ret j ∧ j_is_object j = true ∧
    ∀ k v, (k, v) ∈ kvs → j_key_const j k = Ret v.
Proof.
  induction kvs as [|[k v] kvs IH] using rev_ind; intros Hnd.
  { exists json_object. split_and!; [done|apply object_is_object|].
    intros k v Hin. by apply not_elem_of_nil in Hin. }
  rewrite fmap_app in Hnd. apply NoDup_app in Hnd as (Hnd & Hk & _).
  destruct (IH Hnd) as (j & Hj & Ho & Hget).
  destruct (set_key_object j k v Ho) as (j' & Hj' & Ho' & Hsame & Hother).
  exists j'. rewrite set_keys_snoc, Hj. split_and!; [done..|].
  intros k' v' Hin. apply elem_of_app in Hin as [Hin|Hin].
  - rewrite Hother; [by apply Hget|]. intros ->.
    apply (Hk k); [|csimpl; left]. apply list_elem_of_fmap. by exists (k, v').
  - apply list_elem_of_singleton in Hin. by simplify_eq.
Qed.

Lemma set_keys_plain kvs j j' :
  j_is_object j = true → json_plain j →
  Forall (λ e, valid_utf8 e.1 ∧ json_plain e.2) kvs →
  set_keys j kvs = Ret j' → json_plain j'.
Proof.
  intros Ho Hp Hk. revert j Ho Hp.
  induction Hk as [|[k v] kvs [Hk Hv] Hkvs IH]; intros j Ho Hp Hs;
    unfold set_keys in Hs; simpl in Hs.
  { by inv_out. }
  destruct (set_key_object j k v Ho) as (j1 & Hj1 & Ho1 & _).
  rewrite Hj1 in Hs. simpl in Hk, Hv.
  eapply IH; [exact Ho1|exact (plain_set_key j k v j1 Ho Hp Hv Hk Hj1)|exact Hs].
Qed.

Lemma set_keys_null kvs :
  kvs ≠ [] → set_keys json_null kvs = set_keys json_object kvs.
Proof.
  destruct kvs as [|[k v] kvs]; intros H; [done|].
  unfold set_keys. simpl. by rewrite set_key_null.
Qed.

Lemma set_ats_array l vs :
  set_ats (json_array_of l) (length l) vs = Ret (json_array_of (l ++ vs)).
Proof.
  revert l. induction vs as [|v vs IH]; intros l; simpl; [by rewrite app_nil_r|].
  rewrite set_at_append. simpl.
  replace (S (length l)) with (length (l ++ [v])) by (rewrite length_app; simpl; lia).
  by rewrite IH, <- app_assoc.
Qed.

End paths.

