(* ===== verification/JsonModel.v ===== *)
(** * A concrete JSON library

    An executable model of the operations of [JsonLib] on JSON values with
    integer numbers: compact printing with escapes, a recursive-descent parser,
    objects kept in key order. It satisfies [JsonLaws], so the theorems that
    assume the laws apply to it, and it lets the witnesses run the client's code
    on real packets. *)

From stdpp Require Import base list strings gmap.
From Stdlib Require Import Ascii ZArith Lia.
From S2P Require Import Prelude CppString StdContainers Json.

Local Open Scope Z_scope.

Inductive jv :=
  | JNull
  | JBool (b : bool)
  | JNum (z : Z)
  | JStr (s : str)
  | JArr (l : list jv)
  | JObj (kvs : list (str * jv)).

(** ** Printing *)
Definition dquote : ascii := chr 34.
Definition backslash : ascii := chr 92.

Definition hex_digit (n : Z) : ascii :=
  if n <? 10 then digit n else ascii_of_N (Z.to_N (87 + n)).

Definition escape (c : ascii) : str :=
  if decide (c = dquote) then [backslash; dquote]
  else if decide (c = backslash) then [backslash; backslash]
  else if decide (c = chr 10) then [backslash; "n"%char]
  else if decide (c = chr 13) then [backslash; "r"%char]
  else if decide (c = chr 9) then [backslash; "t"%char]
  else if code c <? 32 then
    backslash :: $"u00" ++ [hex_digit (code c / 16); hex_digit (code c mod 16)]
  else [c].

Definition print_string (s : str) : str := dquote :: mbind escape s ++ [dquote].

Fixpoint print (j : jv) : str :=
  match j with
  | JNull => $"null"
  | JBool true => $"true"
  | JBool false => $"false"
  | JNum z => to_string z
  | JStr s => print_string s
  | JArr l =>
      "["%char ::
      match l with
      | [] => $"]"
      | x :: l => print x ++ (fix go (l : list jv) : str :=
          match l with [] => $"]" | y :: l' => ","%char :: print y ++ go l' end) l
      end
  | JObj l =>
      "{"%char ::
      match l with
      | [] => $"}"
      | (k, x) :: l => print_string k ++ ":"%char :: print x ++
          (fix go (l : list (str * jv)) : str :=
             match l with
             | [] => $"}"
             | (k, y) :: l' => ","%char :: print_string k ++ ":"%char :: print y ++ go l'
             end) l
      end
  end.

(** The elements and members after the first, with the closing bracket. *)
Fixpoint print_elems (l : list jv) : str :=
  match l with [] => $"]" | y :: l' => ","%char :: print y ++ print_elems l' end.

Fixpoint print_members (l : list (str * jv)) : str :=
  match l with
  | [] => $"}"
  | (k, y) :: l' => ","%char :: print_string k ++ ":"%char :: print y ++ print_members l'
  end.

Lemma print_arr x l : print (JArr (x :: l)) = "["%char :: print x ++ print_elems l.
Proof. reflexivity. Qed.

Lemma print_obj k x l :
  print (JObj ((k, x) :: l))
  = "{"%char :: print_string k ++ ":"%char :: print x ++ print_members l.
Proof. reflexivity. Qed.

(** ** Parsing *)
Definition hex_val (c : ascii) : option Z :=
  if is_digit c then Some (code c - 48)
  else if (97 <=? code c) && (code c <=? 102) then Some (code c - 87)
  else None.

Definition unescape (c : ascii) : option ascii :=
  if decide (c = dquote) then Some dquote
  else if decide (c = backslash) then Some backslash
  else if decide (c = "n"%char) then Some (chr 10)
  else if decide (c = "r"%char) then Some (chr 13)
  else if decide (c = "t"%char) then Some (chr 9)
  else None.

(** [strip p s]: the rest of [s] after the prefix [p]. *)
Fixpoint strip (p s : str) : option str :=
  match p, s with
  | [], _ => Some s
  | x :: p', y :: s' => if decide (x = y) then strip p' s' else None
  | _ :: _, [] => None
  end.

Fixpoint scan_string (s : str) : option (str * str) :=
  match s with
  | [] => None
  | c :: s1 =>
      if decide (c = dquote) then Some ([], s1)
      else if decide (c = backslash) then
        match s1 with
        | "u"%char :: "0"%char :: "0"%char :: h :: l :: s2 =>
            h ← hex_val h; l ← hex_val l;
            '(t, r) ← scan_string s2;
            Some (ascii_of_N (Z.to_N (16 * h + l)) :: t, r)
        | e :: s2 => x ← unescape e; '(t, r) ← scan_string s2; Some (x :: t, r)
        | [] => None
        end
      else '(t, r) ← scan_string s1; Some (c :: t, r)
  end.

Definition scan_digits (s : str) : option (Z * str) :=
  let d := leading_digits s in
  if decide (d = []) then None else Some (digits_val 0 d, drop (length d) s).

Definition scan_number (s : str) : option (Z * str) :=
  match strip ["-"%char] s with
  | Some s1 => '(v, r) ← scan_digits s1; Some (- v, r)
  | None => scan_digits s
  end.

Fixpoint skip_ws (s : str) : str :=
  match s with
  | c :: s' => if is_space c then skip_ws s' else s
  | [] => []
  end.

Fixpoint scan (fuel : nat) (s0 : str) : option (jv * str) :=
  match fuel with
  | O => None
  | S f =>
      let s := skip_ws s0 in
      match strip $"null" s with Some r => Some (JNull, r) | None =>
      match strip $"true" s with Some r => Some (JBool true, r) | None =>
      match strip $"false" s with Some r => Some (JBool false, r) | None =>
      match strip [dquote] s with
      | Some r => '(t, r') ← scan_string r; Some (JStr t, r')
      | None =>
      match strip ["["%char] s with
      | Some r =>
          match strip ["]"%char] (skip_ws r) with
          | Some r' => Some (JArr [], r')
          | None => '(l, t) ← scan_elems f r; Some (JArr l, t)
          end
      | None =>
      match strip ["{"%char] s with
      | Some r =>
          match strip ["}"%char] (skip_ws r) with
          | Some r' => Some (JObj [], r')
          | None => '(l, t) ← scan_members f r; Some (JObj l, t)
          end
      | None => '(z, r) ← scan_number s; Some (JNum z, r)
      end end end end end end
  end
with scan_elems (fuel : nat) (s : str) : option (list jv * str) :=
  match fuel with
  | O => None
  | S f =>
      '(x, r) ← scan f s;
      match strip [","%char] (skip_ws r) with
      | Some r' => '(l, t) ← scan_elems f r'; Some (x :: l, t)
      | None => r' ← strip ["]"%char] (skip_ws r); Some ([x], r')
      end
  end
with scan_members (fuel : nat) (s : str) : option (list (str * jv) * str) :=
  match fuel with
  | O => None
  | S f =>
      s1 ← strip [dquote] (skip_ws s);
      '(k, r) ← scan_string s1;
      r1 ← strip [":"%char] (skip_ws r);
      '(x, r2) ← scan f r1;
      match strip [","%char] (skip_ws r2) with
      | Some r' => '(l, t) ← scan_members f r'; Some ((k, x) :: l, t)
      | None => r' ← strip ["}"%char] (skip_ws r2); Some ([(k, x)], r')
      end
  end.

Definition parse_json (s : str) : outcome jv :=
  match scan (S (length s)) s with
  | Some (j, r) => if decide (skip_ws r = []) then Ret j else Throw JsonParseError
  | None => Throw JsonParseError
  end.

Example parse_json_1 :
  parse_json $"[1, -20,true , [ ] ]" = Ret (JArr [JNum 1; JNum (-20); JBool true; JArr []]).
Proof. vm_compute. reflexivity. Qed.

Example parse_json_2 :
  parse_json (print (JObj [($"a", JStr [chr 10; chr 1; dquote; "x"%char]); ($"b", JObj [])]))
  = Ret (JObj [($"a", JStr [chr 10; chr 1; dquote; "x"%char]); ($"b", JObj [])]).
Proof. vm_compute. reflexivity. Qed.

(** ** The parser reads back what the printer wrote *)
Section nested_induction.
Context (P : jv → Prop).
Hypothesis (Hnull : P JNull) (Hbool : ∀ b, P (JBool b)) (Hnum : ∀ z, P (JNum z))
  (Hstr : ∀ s, P (JStr s)) (Harr : ∀ l, Forall P l → P (JArr l))
  (Hobj : ∀ l, Forall (λ e, P e.2) l → P (JObj l)).

Fixpoint jv_nested_ind (j : jv) : P j :=
  match j with
  | JNull => Hnull
  | JBool b => Hbool b
  | JNum z => Hnum z
  | JStr s => Hstr s
  | JArr l => Harr l ((fix go (l : list jv) : Forall P l :=
      match l with
      | [] => List.Forall_nil _
      | x :: l' => List.Forall_cons _ x l' (jv_nested_ind x) (go l')
      end) l)
  | JObj l => Hobj l ((fix go (l : list (str * jv)) : Forall (λ e, P e.2) l :=
      match l with
      | [] => List.Forall_nil _
      | e :: l' => List.Forall_cons _ e l' (jv_nested_ind e.2) (go l')
      end) l)
  end.
End nested_induction.

Section scan_print.

Lemma strip_app p r : strip p (p ++ r) = Some r.
Proof. induction p as [|x p IH]; simpl; [done|]. by rewrite decide_True. Qed.

Lemma strip_ne x p y s : x ≠ y → strip (x :: p) (y :: s) = None.
Proof. intros. simpl. by rewrite decide_False. Qed.

Lemma scan_string_char c s :
  scan_string (escape c ++ s) = '(t, r) ← scan_string s; Some (c :: t, r).
Proof. by destruct c as [[] [] [] [] [] [] [] []]. Qed.

Lemma scan_string_print s r :
  scan_string (mbind escape s ++ dquote :: r) = Some (s, r).
Proof.
  induction s as [|c s IH]; [done|].
  change (mbind escape (c :: s)) with (escape c ++ mbind escape s).
  rewrite <- app_assoc, scan_string_char, IH. done.
Qed.

Definition no_digit_head (r : str) : Prop :=
  match r with x :: _ => is_digit x = false | [] => True end.

Lemma scan_digits_dec n r :
  0 ≤ n → no_digit_head r → scan_digits (dec n ++ r) = Some (n, r).
Proof.
  intros Hn Hr. unfold scan_digits.
  rewrite leading_digits_app by (done || by apply dec_digits).
  rewrite decide_False by apply dec_nonempty.
  by rewrite dec_val, drop_app_length.
Qed.

Lemma dec_head n : 0 ≤ n → ∃ c t, dec n = c :: t ∧ is_digit c = true.
Proof.
  intros Hn. pose proof (dec_digits n Hn) as Hd. pose proof (dec_nonempty n).
  destruct (dec n) as [|c t]; [done|]. apply Forall_cons in Hd as [? _]. eauto.
Qed.

Lemma scan_number_print z r :
  no_digit_head r → scan_number (to_string z ++ r) = Some (z, r).
Proof.
  intros Hr. unfold scan_number, to_string. destruct (Z.ltb_spec z 0).
  - change (("-"%char :: dec (- z)) ++ r) with ($"-" ++ dec (- z) ++ r).
    rewrite (strip_app ["-"%char]), scan_digits_dec by (done || lia). simpl. do 2 f_equal. lia.
  - destruct (dec_head z) as (c & t & E & Hc); [done|].
    rewrite E. simpl app. rewrite strip_ne by (intros <-; done).
    change (c :: t ++ r) with ((c :: t) ++ r). rewrite <- E. by apply scan_digits_dec.
Qed.

(** The first character of a printed value decides how it is read. *)
Definition head_of (j : jv) (c : ascii) : Prop :=
  match j with
  | JNull => c = "n"%char
  | JBool b => c = if b then "t"%char else "f"%char
  | JNum _ => c = "-"%char ∨ is_digit c = true
  | JStr _ => c = dquote
  | JArr _ => c = "["%char
  | JObj _ => c = "{"%char
  end.

Lemma print_head j : ∃ c t, print j = c :: t ∧ head_of j c.
Proof.
  destruct j as [|[]|z|s|l|l]; simpl; eauto.
  unfold to_string. destruct (Z.ltb_spec z 0); [eauto|].
  destruct (dec_head z) as (c & t & -> & Hc); eauto.
Qed.

Lemma head_not_space j c : head_of j c → is_space c = false.
Proof.
  destruct j as [|[]|z|s|l|l]; simpl; try (by intros ->).
  intros [->|Hc]; [done|]. by apply is_digit_not_space.
Qed.

Lemma head_ne j c d :
  head_of j c → d ∈ ["]"%char; "}"%char; ","%char; ":"%char] → d ≠ c.
Proof.
  rewrite !elem_of_cons. intros Hc Hd ->.
  destruct j as [|[]|z|s|l|l]; simpl in Hc;
    destruct Hd as [->|[->|[->|[->|[]%not_elem_of_nil]]]]; try done; by destruct Hc.
Qed.

Lemma skip_ws_print j r : skip_ws (print j ++ r) = print j ++ r.
Proof.
  destruct (print_head j) as (c & t & -> & Hc). simpl.
  by rewrite (head_not_space j c Hc).
Qed.

Lemma strip_print j r d :
  d ∈ ["]"%char; "}"%char; ","%char; ":"%char] → strip [d] (print j ++ r) = None.
Proof.
  intros Hd. destruct (print_head j) as (c & t & -> & Hc).
  apply strip_ne. by eapply head_ne.
Qed.

(** How much fuel reading a value takes. *)
Fixpoint weight (j : jv) : nat :=
  match j with
  | JArr l => S (sum_list_with (λ x, S (weight x)) l)
  | JObj l => S (sum_list_with (λ e, S (weight e.2)) l)
  | _ => 1%nat
  end.

Lemma weight_print j : (weight j ≤ length (print j))%nat.
Proof.
  induction j as [| [] |z|s|l IH|l IH] using jv_nested_ind; try (simpl; lia).
  - destruct (print_head (JNum z)) as (c & t & -> & _). simpl. lia.
  - destruct l as [|x l]; [simpl; lia|]. rewrite print_arr.
    apply Forall_cons in IH as [Hx IH]. simpl. rewrite length_app.
    assert (sum_list_with (λ x, S (weight x)) l ≤ length (print_elems l) - 1)%nat.
    { clear Hx. induction IH as [|y l Hy IH IHl]; simpl; [lia|].
      rewrite length_app. destruct l; simpl in *; lia. }
    assert (1 ≤ length (print_elems l))%nat by (destruct l; simpl; lia). lia.
  - destruct l as [|[k x] l]; [simpl; lia|]. rewrite print_obj.
    apply Forall_cons in IH as [Hx IH]. simpl in *. rewrite !length_app. simpl.
    rewrite length_app.
    assert (sum_list_with (λ e, S (weight e.2)) l ≤ length (print_members l) - 1)%nat.
    { clear Hx. induction IH as [|[k' y] l Hy IH IHl]; simpl; [lia|].
      rewrite !length_app. simpl. rewrite length_app. destruct l as [|[]]; simpl in *; lia. }
    assert (1 ≤ length (print_members l))%nat by (destruct l as [|[]]; simpl; lia). lia.
Qed.

Definition reads_back (j : jv) : Prop :=
  ∀ fuel r, (weight j ≤ fuel)%nat → no_digit_head r → scan fuel (print j ++ r) = Some (j, r).

Lemma strip_hd p y s :
  match p with x :: _ => x ≠ y | [] => False end → strip p (y :: s) = None.
Proof. destruct p; [done|]. apply strip_ne. Qed.

Lemma scan_elems_print x l fuel r :
  Forall reads_back (x :: l) →
  (sum_list_with (λ x, S (weight x)) (x :: l) ≤ fuel)%nat →
  scan_elems fuel (print x ++ print_elems l ++ r) = Some (x :: l, r).
Proof.
  revert x fuel. induction l as [|y l IH]; intros x fuel Hl Hf;
    apply Forall_cons in Hl as [Hx Hl]; simpl in Hf; destruct fuel as [|f]; try lia; simpl.
  - rewrite Hx by (done || lia). simpl. done.
  - rewrite Hx by (done || lia). simpl. rewrite <- app_assoc.
    rewrite IH; [done|done|simpl; lia].
Qed.

Lemma strip_one d s : strip [d] (d :: s) = Some s.
Proof. apply (strip_app [d]). Qed.

Lemma strip_here d s : is_space d = false → strip [d] (skip_ws (d :: s)) = Some s.
Proof. intros Hd. cbn [skip_ws]. rewrite Hd. by apply (strip_app [d]). Qed.

Lemma strip_print_string k r :
  strip [dquote] (skip_ws (print_string k ++ r)) = Some (mbind escape k ++ dquote :: r).
Proof. unfold print_string. simpl. by rewrite <- app_assoc. Qed.

Lemma strip_close_string k r : strip ["}"%char] (skip_ws (print_string k ++ r)) = None.
Proof. done. Qed.

Lemma scan_members_print k x l fuel r :
  Forall (λ e, reads_back e.2) ((k, x) :: l) →
  (sum_list_with (λ e, S (weight e.2)) ((k, x) :: l) ≤ fuel)%nat →
  scan_members fuel (print_string k ++ ":"%char :: print x ++ print_members l ++ r)
  = Some ((k, x) :: l, r).
Proof.
  revert k x fuel. induction l as [|[k' y] l IH]; intros k x fuel Hl Hf;
    apply Forall_cons in Hl as [Hx Hl]; simpl in Hf, Hx; destruct fuel as [|f]; try lia;
    cbn [scan_members]; rewrite strip_print_string; cbn [mbind option_bind];
    rewrite scan_string_print; cbn [mbind option_bind];
    rewrite strip_here by done; cbn [mbind option_bind].
  - rewrite Hx by (done || lia). done.
  - cbn [print_members]. rewrite <- app_comm_cons, <- app_assoc, <- app_comm_cons, <- app_assoc.
    rewrite Hx by (done || lia). cbn [mbind option_bind].
    rewrite strip_here by done. rewrite IH; [done|done|simpl; lia].
Qed.

Lemma scan_print j : reads_back j.
Proof.
  induction j as [| b |z|s|l IH|l IH] using jv_nested_ind; intros fuel r Hf Hr;
    (destruct fuel as [|f]; [simpl in Hf; lia|]); cbn [scan]; rewrite skip_ws_print.
  - done.
  - by destruct b.
  - destruct (print_head (JNum z)) as (c & t & E & Hc). simpl in Hc.
    assert (∀ p, match p with x :: _ => is_digit x = false ∧ x ≠ "-"%char | [] => False end →
      strip p (print (JNum z) ++ r) = None) as Hs.
    { intros p Hp. rewrite E. apply strip_hd. destruct p; [done|]. destruct Hp, Hc; congruence. }
    rewrite !Hs by (cbn; done). cbn [print]. by rewrite scan_number_print.
  - cbn [print]. change (print_string s ++ r) with (dquote :: (mbind escape s ++ [dquote]) ++ r).
    rewrite !strip_hd by (cbn; done).
    rewrite strip_one. cbn [mbind option_bind].
    rewrite <- app_assoc; cbn [app]; by rewrite scan_string_print.
  - destruct l as [|x l]; [done|]. rewrite print_arr, <- app_comm_cons.
    rewrite !strip_hd by (cbn; done). rewrite strip_one.
    rewrite <- app_assoc, skip_ws_print, strip_print by set_solver.
    rewrite scan_elems_print; [done|done|]. simpl in Hf |- *. lia.
  - destruct l as [|[k x] l]; [done|]. rewrite print_obj, <- app_comm_cons.
    rewrite !strip_hd by (cbn; done). rewrite strip_one.
    rewrite <- app_assoc, <- app_comm_cons, <- app_assoc.
    rewrite strip_close_string.
    rewrite scan_members_print; [done|done|]. simpl in Hf |- *. lia.
Qed.

Lemma parse_print_json j : parse_json (print j) = Ret j.
Proof.
  unfold parse_json. rewrite <- (app_nil_r (print j)) at 2.
  rewrite scan_print; [done| |done]. pose proof (weight_print j). lia.
Qed.

End scan_print.

(** ** Access *)
Definition obj_set (k : str) (v : jv) (m : list (str * jv)) : list (str * jv) :=
  match map_find k m with
  | Some _ => map_update k (λ _, v) m
  | None => map_emplace k v m
  end.

(** [j[i]] on an array that is too short fills it with nulls. *)
Definition arr_grow (i : nat) (l : list jv) : list jv :=
  l ++ replicate (S i - length l) JNull.

Definition as_array (j : jv) : outcome (list jv) :=
  match j with JNull => Ret [] | JArr l => Ret l | _ => Throw JsonTypeError end.

Definition as_object (j : jv) : outcome (list (str * jv)) :=
  match j with JNull => Ret [] | JObj m => Ret m | _ => Throw JsonTypeError end.

Definition jv_string (j : jv) : outcome str :=
  match j with JStr s => Ret s | _ => Throw JsonTypeError end.
Definition jv_bool (j : jv) : outcome bool :=
  match j with JBool b => Ret b | _ => Throw JsonTypeError end.
Definition jv_int (j : jv) : outcome Z :=
  match j with
  | JNum z => Ret (i32 z)
  | JBool b => Ret (Z.b2z b)
  | _ => Throw JsonTypeError
  end.
Definition jv_uint64 (j : jv) : outcome Z :=
  match j with JNum z => Ret (u64 z) | _ => Throw JsonTypeError end.

Definition jv_value {T} (conv : jv → outcome T) (j : jv) (k : str) (dflt : T) : outcome T :=
  match j with
  | JObj m => match map_find k m with Some v => conv v | None => Ret dflt end
  | _ => Throw JsonTypeError
  end.

#[global] Instance model_json : JsonLib := {|
  json := jv;
  json_null := JNull;
  json_object := JObj [];
  json_array_of := JArr;
  of_bool := JBool;
  of_string := JStr;
  of_int := JNum;
  of_uint64 := JNum;
  j_parse := parse_json;
  j_dump j := Ret (print j);
  j_set_at j i v := l ← as_array j; Ret (JArr (<[i := v]> (arr_grow i l)));
  j_set_key j k v := m ← as_object j; Ret (JObj (obj_set k v m));
  j_at j i := l ← as_array j;
    let l' := arr_grow i l in Ret (default JNull (l' !! i), JArr l');
  j_key j k := m ← as_object j;
    match map_find k m with
    | Some v => Ret (v, JObj m)
    | None => Ret (JNull, JObj (map_emplace k JNull m))
    end;
  j_at_const j i :=
    match j with
    | JArr l => match l !! i with Some v => Ret v | None => Undef OutOfBounds end
    | _ => Throw JsonTypeError
    end;
  j_key_const j k :=
    match j with
    | JObj m => match map_find k m with Some v => Ret v | None => Undef JsonAssert end
    | _ => Throw JsonTypeError
    end;
  j_contains j k :=
    match j with JObj m => bool_decide (is_Some (map_find k m)) | _ => false end;
  j_size j :=
    match j with JNull => 0%nat | JArr l => length l | JObj m => length m | _ => 1%nat end;
  j_elems j :=
    match j with JNull => [] | JArr l => l | JObj m => m.*2 | _ => [j] end;
  get_string := jv_string;
  get_bool := jv_bool;
  get_int := jv_int;
  get_uint64 := jv_uint64;
  j_value_string := jv_value jv_string;
  j_value_int32 := jv_value jv_int;
  j_value_bool := jv_value jv_bool;
  j_is_string j := match j with JStr _ => true | _ => false end;
  j_is_null j := match j with JNull => true | _ => false end;
  j_is_object j := match j with JObj _ => true | _ => false end;
  j_eq_string j s := match j with JStr t => bool_decide (t = s) | _ => false end
|}.

(** ** The model satisfies the documented laws *)
Lemma obj_set_find k v m : map_find k (obj_set k v m) = Some v.
Proof.
  unfold obj_set. destruct (map_find k m) eqn:E.
  - by rewrite map_update_find, decide_True, E.
  - apply map_emplace_find. by apply map_find_None.
Qed.

Lemma obj_set_find_ne k k' v m : k' ≠ k → map_find k' (obj_set k v m) = map_find k' m.
Proof.
  intros Hk. unfold obj_set. destruct (map_find k m) eqn:E.
  - by rewrite map_update_find, decide_False.
  - by apply map_emplace_find_ne.
Qed.

Lemma arr_grow_append l v : <[length l := v]> (arr_grow (length l) l) = l ++ [v].
Proof.
  unfold arr_grow. replace (S (length l) - length l)%nat with 1%nat by lia.
  replace (length l) with (length l + 0)%nat at 1 by lia. by rewrite insert_app_r.
Qed.

#[global] Instance model_laws : JsonLaws model_json.
Proof.
  refine {| json_equiv := eq : relation (@json model_json); valid_utf8 := λ _, True;
            json_plain := λ _ : @json model_json, True |}; try done.
  - intros l v. simpl. by rewrite arr_grow_append.
  - intros [| | | | |m] k v; try done. intros _. exists (JObj (obj_set k v m)).
    cbn -[obj_set]. rewrite obj_set_find. split_and!; [done..|].
    intros k' Hk. by rewrite obj_set_find_ne.
  - intros l i v E. simpl in *. by rewrite E.
  - intros z Hz. simpl. f_equal. by apply i32_id.
  - intros z Hz. simpl. f_equal. apply u64_small. unfold in_u64 in Hz. lia.
  - intros j j' i v -> ?. eauto.
  - intros j j' k v -> ?. eauto.
  - intros j _. exists (print j), j. simpl. by rewrite parse_print_json.
Qed.
