(* ===== verification/PktBuilder.v ===== *)
(** * core/licode_signaling_pkt_builder and core/licode_signaling_pkt_parser

    One module per packet builder: its members as a record, its setters and
    [Build], which assembles the JSON value key by key as the code does and
    dumps it. A member without an initialiser is an [option]: reading it before
    its setter ran is undefined. *)

From stdpp Require Import base list strings gmap.
From Stdlib Require Import Ascii ZArith Lia.
From S2P Require Import Prelude CppString Json.

Local Open Scope Z_scope.

(** Reading a member that may be uninitialised. *)
Definition read_init {A} (o : option A) : outcome A :=
  match o with Some a => Ret a | None => Undef UninitRead end.

Section builders.
Context {J : JsonLib}.

(** ** PublicStreamPktBuilder *)
Record PublicStreamPktBuilder := mkPublic {
  pub_state_ : str;
  pub_label_ : str;
  pub_video_ : bool;
  pub_audio_ : bool;
  pub_data_ : bool;
  pub_screen_ : bool;
  pub_mute_video_ : bool;
  pub_mute_audio_ : bool;
  pub_min_video_bw_ : Z;
  pub_max_video_bw_ : Z
}.

Definition public_new : PublicStreamPktBuilder :=
  mkPublic [] [] true true true false false false 0 300.

Definition public_SetLabel (label : str) (b : PublicStreamPktBuilder) : PublicStreamPktBuilder :=
  mkPublic b.(pub_state_) label b.(pub_video_) b.(pub_audio_) b.(pub_data_) b.(pub_screen_)
    b.(pub_mute_video_) b.(pub_mute_audio_) b.(pub_min_video_bw_) b.(pub_max_video_bw_).

Definition public_SetState (state : str) (b : PublicStreamPktBuilder) : PublicStreamPktBuilder :=
  mkPublic state b.(pub_label_) b.(pub_video_) b.(pub_audio_) b.(pub_data_) b.(pub_screen_)
    b.(pub_mute_video_) b.(pub_mute_audio_) b.(pub_min_video_bw_) b.(pub_max_video_bw_).

Definition public_Build (b : PublicStreamPktBuilder) : outcome str :=
  publishJson ← j_set_at json_array 0 (of_string $"publish");
  config ← set_keys json_null
    [($"audio", of_bool b.(pub_audio_));
     ($"video", of_bool b.(pub_video_));
     ($"data", of_bool b.(pub_data_));
     ($"label", of_string b.(pub_label_));
     ($"screen", of_bool b.(pub_screen_));
     ($"minVideoBW", of_int b.(pub_min_video_bw_));
     ($"maxVideoBW", of_int b.(pub_max_video_bw_));
     ($"attributes", json_object)];
  metadata ← set_keys json_null [($"type", of_string $"publisher")];
  config ← j_set_key config $"metadata" metadata;
  muteStream ← set_keys json_null
    [($"audio", of_bool b.(pub_mute_audio_));
     ($"video", of_bool b.(pub_mute_video_))];
  config ← j_set_key config $"muteStream" muteStream;
  publishJson ← j_set_at publishJson 1 config;
  publishJson ← j_set_at publishJson 2 json_null;
  j_dump publishJson.

(** ** UpdateStreamAttributesPktBuilder *)
Record UpdateStreamAttributesPktBuilder := mkUpdate {
  upd_stream_id_ : option Z;
  upd_type_attr_ : str
}.

Definition update_new : UpdateStreamAttributesPktBuilder := mkUpdate None [].

Definition update_SetStreamId (streamId : Z) (b : UpdateStreamAttributesPktBuilder) :=
  mkUpdate (Some streamId) b.(upd_type_attr_).

Definition update_SetTypeAttr (type : str) (b : UpdateStreamAttributesPktBuilder) :=
  mkUpdate b.(upd_stream_id_) type.

Definition update_Build (b : UpdateStreamAttributesPktBuilder) : outcome str :=
  updateAttrJson ← j_set_at json_array 0 (of_string $"updateStreamAttributes");
  streamId ← read_init b.(upd_stream_id_);
  config ← set_keys json_null [($"id", of_uint64 streamId)];
  attrs ← set_keys json_null [($"type", of_string b.(upd_type_attr_))];
  config ← j_set_key config $"attrs" attrs;
  updateAttrJson ← j_set_at updateAttrJson 1 config;
  j_dump updateAttrJson.

(** ** SubscribeStreamPktBuilder *)
Record SubscribeStreamPktBuilder := mkSubscribe {
  sub_stream_id_ : option Z;
  sub_video_ : bool;
  sub_audio_ : bool;
  sub_data_ : bool;
  sub_mute_video_ : bool;
  sub_mute_audio_ : bool;
  sub_offer_from_erizo_ : bool;
  sub_max_video_bw_ : Z;
  sub_browser_ : str
}.

Definition subscribe_new : SubscribeStreamPktBuilder :=
  mkSubscribe None true true true false false true 300 $"cpp".

Definition subscribe_SetStreamId (streamId : Z) (b : SubscribeStreamPktBuilder) :=
  mkSubscribe (Some streamId) b.(sub_video_) b.(sub_audio_) b.(sub_data_) b.(sub_mute_video_)
    b.(sub_mute_audio_) b.(sub_offer_from_erizo_) b.(sub_max_video_bw_) b.(sub_browser_).

Definition subscribe_SetOfferFromErizo (enable : bool) (b : SubscribeStreamPktBuilder) :=
  mkSubscribe b.(sub_stream_id_) b.(sub_video_) b.(sub_audio_) b.(sub_data_) b.(sub_mute_video_)
    b.(sub_mute_audio_) enable b.(sub_max_video_bw_) b.(sub_browser_).

Definition subscribe_Build (b : SubscribeStreamPktBuilder) : outcome str :=
  subscribeJson ← j_set_at json_array 0 (of_string $"subscribe");
  streamId ← read_init b.(sub_stream_id_);
  stream ← set_keys json_null
    [($"streamId", of_uint64 streamId);
     ($"audio", of_bool b.(sub_audio_));
     ($"video", of_bool b.(sub_video_));
     ($"data", of_bool b.(sub_data_));
     ($"maxVideoBW", of_int b.(sub_max_video_bw_));
     ($"offerFromErizo", of_bool b.(sub_offer_from_erizo_));
     ($"browser", of_string b.(sub_browser_))];
  metadata ← set_keys json_null [($"type", of_string $"subscriber")];
  stream ← j_set_key stream $"metadata" metadata;
  muteStream ← set_keys json_null
    [($"audio", of_bool b.(sub_mute_audio_));
     ($"video", of_bool b.(sub_mute_video_))];
  stream ← j_set_key stream $"muteStream" muteStream;
  stream ← j_set_key stream $"slideShowMode" (of_bool false);
  subscribeJson ← j_set_at subscribeJson 1 stream;
  subscribeJson ← j_set_at subscribeJson 2 json_null;
  j_dump subscribeJson.

(** ** UnsubscribeStreamPktBuilder *)
Record UnsubscribeStreamPktBuilder := mkUnsubscribe { unsub_stream_id_ : Z }.

Definition unsubscribe_new : UnsubscribeStreamPktBuilder := mkUnsubscribe 0.

Definition unsubscribe_SetStreamId (streamId : Z) (b : UnsubscribeStreamPktBuilder) :=
  mkUnsubscribe streamId.

Definition unsubscribe_Build (b : UnsubscribeStreamPktBuilder) : outcome str :=
  unsubscribeJson ← j_set_at json_array 0 (of_string $"unsubscribe");
  unsubscribeJson ← j_set_at unsubscribeJson 1 (of_uint64 b.(unsub_stream_id_));
  unsubscribeJson ← j_set_at unsubscribeJson 2 json_null;
  j_dump unsubscribeJson.

(** ** OfferOrAnswerPktBuilder *)
Record OfferOrAnswerPktBuilder := mkOffer {
  ofr_browser_ : str;
  ofr_erizo_id_ : str;
  ofr_connection_id_ : str;
  ofr_type_ : str;
  ofr_sdp_ : str;
  ofr_received_session_version_ : Z;
  ofr_max_video_bw_ : Z
}.

Definition offer_new : OfferOrAnswerPktBuilder := mkOffer $"cpp" [] [] [] [] (-1) 300.

Definition offer_SetErizoId (id : str) (b : OfferOrAnswerPktBuilder) :=
  mkOffer b.(ofr_browser_) id b.(ofr_connection_id_) b.(ofr_type_) b.(ofr_sdp_)
    b.(ofr_received_session_version_) b.(ofr_max_video_bw_).

Definition offer_SetConnId (id : str) (b : OfferOrAnswerPktBuilder) :=
  mkOffer b.(ofr_browser_) b.(ofr_erizo_id_) id b.(ofr_type_) b.(ofr_sdp_)
    b.(ofr_received_session_version_) b.(ofr_max_video_bw_).

Definition offer_SetType (type : str) (b : OfferOrAnswerPktBuilder) :=
  mkOffer b.(ofr_browser_) b.(ofr_erizo_id_) b.(ofr_connection_id_) type b.(ofr_sdp_)
    b.(ofr_received_session_version_) b.(ofr_max_video_bw_).

Definition offer_SetSdp (sdp : str) (b : OfferOrAnswerPktBuilder) :=
  mkOffer b.(ofr_browser_) b.(ofr_erizo_id_) b.(ofr_connection_id_) b.(ofr_type_) sdp
    b.(ofr_received_session_version_) b.(ofr_max_video_bw_).

(** The version sent is the literal -1, not the member. *)
Definition offer_Build (b : OfferOrAnswerPktBuilder) : outcome str :=
  json0 ← j_set_at json_array 0 (of_string $"connectionMessage");
  info ← set_keys json_null
    [($"browser", of_string b.(ofr_browser_));
     ($"connectionId", of_string b.(ofr_connection_id_));
     ($"erizoId", of_string b.(ofr_erizo_id_))];
  msg ← set_keys json_null
    [($"type", of_string b.(ofr_type_));
     ($"sdp", of_string b.(ofr_sdp_));
     ($"receivedSessionVersion", of_int (-1))];
  config ← set_keys json_null [($"maxVideoBW", of_int b.(ofr_max_video_bw_))];
  msg ← j_set_key msg $"config" config;
  info ← j_set_key info $"msg" msg;
  json1 ← j_set_at json0 1 info;
  json2 ← j_set_at json1 2 json_null;
  j_dump json2.

(** ** ConnectionPtkBuilder *)
Record ConnectionPtkBuilder := mkConnection {
  con_browser_ : str;
  con_erizo_id_ : str;
  con_connection_id_ : str;
  con_sdp_m_line_index_ : option Z;
  con_sdp_mid_ : str;
  con_candidate_ : str;
  con_received_session_version_ : Z
}.

Definition connection_new : ConnectionPtkBuilder := mkConnection $"cpp" [] [] None [] [] 0.

Definition connection_SetErizoId (id : str) (b : ConnectionPtkBuilder) :=
  mkConnection b.(con_browser_) id b.(con_connection_id_) b.(con_sdp_m_line_index_)
    b.(con_sdp_mid_) b.(con_candidate_) b.(con_received_session_version_).

Definition connection_SetConnId (id : str) (b : ConnectionPtkBuilder) :=
  mkConnection b.(con_browser_) b.(con_erizo_id_) id b.(con_sdp_m_line_index_)
    b.(con_sdp_mid_) b.(con_candidate_) b.(con_received_session_version_).

Definition connection_SetSdpMLineIndex (index : Z) (b : ConnectionPtkBuilder) :=
  mkConnection b.(con_browser_) b.(con_erizo_id_) b.(con_connection_id_) (Some index)
    b.(con_sdp_mid_) b.(con_candidate_) b.(con_received_session_version_).

Definition connection_SetSdpMid (sdpMid : str) (b : ConnectionPtkBuilder) :=
  mkConnection b.(con_browser_) b.(con_erizo_id_) b.(con_connection_id_)
    b.(con_sdp_m_line_index_) sdpMid b.(con_candidate_) b.(con_received_session_version_).

Definition connection_SetCandidate_ (candidate : str) (b : ConnectionPtkBuilder) :=
  mkConnection b.(con_browser_) b.(con_erizo_id_) b.(con_connection_id_)
    b.(con_sdp_m_line_index_) b.(con_sdp_mid_) candidate b.(con_received_session_version_).

Definition connection_Build (b : ConnectionPtkBuilder) : outcome str :=
  connectionJson ← j_set_at json_array 0 (of_string $"connectionMessage");
  connection ← set_keys json_null
    [($"connectionId", of_string b.(con_connection_id_));
     ($"erizoId", of_string b.(con_erizo_id_))];
  msg ← set_keys json_null [($"type", of_string $"candidate")];
  index ← read_init b.(con_sdp_m_line_index_);
  cand ← set_keys json_null
    [($"sdpMLineIndex", of_int index);
     ($"sdpMid", of_string b.(con_sdp_mid_));
     ($"candidate", of_string b.(con_candidate_))];
  msg ← j_set_key msg $"candidate" cand;
  msg ← j_set_key msg $"receivedSessionVersion" (of_int b.(con_received_session_version_));
  connection ← j_set_key connection $"msg" msg;
  connection ← j_set_key connection $"browser" (of_string b.(con_browser_));
  connectionJson ← j_set_at connectionJson 1 connection;
  connectionJson ← j_set_at connectionJson 2 json_null;
  j_dump connectionJson.

(** ** CreateTokenPtkBuilder *)
Record CreateTokenPtkBuilder := mkCreateToken {
  tok_token_id_ : str;
  tok_host_ : str;
  tok_secure_ : option bool;
  tok_signature_ : str;
  tok_single_pc_ : bool
}.

Definition token_new : CreateTokenPtkBuilder := mkCreateToken [] [] None [] false.

Definition token_SetTokenId (id : str) (b : CreateTokenPtkBuilder) :=
  mkCreateToken id b.(tok_host_) b.(tok_secure_) b.(tok_signature_) b.(tok_single_pc_).

Definition token_SetHost (host : str) (b : CreateTokenPtkBuilder) :=
  mkCreateToken b.(tok_token_id_) host b.(tok_secure_) b.(tok_signature_) b.(tok_single_pc_).

Definition token_SetSecure (secure : bool) (b : CreateTokenPtkBuilder) :=
  mkCreateToken b.(tok_token_id_) b.(tok_host_) (Some secure) b.(tok_signature_) b.(tok_single_pc_).

Definition token_SetSignature (signature : str) (b : CreateTokenPtkBuilder) :=
  mkCreateToken b.(tok_token_id_) b.(tok_host_) b.(tok_secure_) signature b.(tok_single_pc_).

Definition token_SetSinglePC (singlePC : bool) (b : CreateTokenPtkBuilder) :=
  mkCreateToken b.(tok_token_id_) b.(tok_host_) b.(tok_secure_) b.(tok_signature_) singlePC.

Definition token_Build (b : CreateTokenPtkBuilder) : outcome str :=
  secure ← read_init b.(tok_secure_);
  tokenJson ← set_keys json_null
    [($"tokenId", of_string b.(tok_token_id_));
     ($"host", of_string b.(tok_host_));
     ($"signature", of_string b.(tok_signature_));
     ($"secure", of_bool secure)];
  data ← set_keys json_null
    [($"singlePC", of_bool b.(tok_single_pc_));
     ($"token", tokenJson)];
  j_dump (json_array_of [of_string $"token"; data]).

(** ** LicodeSignalingPktParser::ParseOpenMsg

    The three out parameters are the state; those assigned before an exception
    keep their new value. *)
Record open_out := mkOpen { o_sid : str; o_pingInterval : Z; o_pingTimeout : Z }.

Definition ParseOpenMsg (msg : str) : ST open_out unit :=
  try_catch
    (openMsg ← lift (j_parse msg);
     sid ← lift (j_value_string openMsg $"sid" []);
     modify (λ o, mkOpen sid o.(o_pingInterval) o.(o_pingTimeout)) ;;
     pi ← lift (j_value_int32 openMsg $"pingInterval" 25000);
     modify (λ o, mkOpen o.(o_sid) pi o.(o_pingTimeout)) ;;
     pt ← lift (j_value_int32 openMsg $"pingTimeout" 60000);
     modify (λ o, mkOpen o.(o_sid) o.(o_pingInterval) pt))
    (λ _, mret tt).

End builders.
