(* ===== verification/PktProps.v ===== *)
(** * What the packet builders put on the wire

    [wire] lists, for each builder, where the peer finds which value in the
    parsed packet; the theorem proves it from the library's laws. *)

From stdpp Require Import base list strings gmap.
From Stdlib Require Import Ascii ZArith Lia.
From S2P Require Import Prelude CppString Json JsonModel PktBuilder.

Local Open Scope Z_scope.

(** ** Contract *)
Inductive leaf :=
  | LStr (s : str) | LBool (b : bool) | LInt (z : Z) | LUint (z : Z) | LNull.

Section contract.
Context {J : JsonLib}.

Definition leaf_of (e : leaf) (v : json) : Prop :=
  match e with
  | LStr s => get_string v = Ret s
  | LBool b => get_bool v = Ret b
  | LInt z => get_int v = Ret z
  | LUint z => get_uint64 v = Ret z
  | LNull => j_is_null v = true
  end.

Definition reads (j : json) (e : list jstep * leaf) : Prop :=
  ∃ v, jpath j e.1 = Ret v ∧ leaf_of e.2 v.

Inductive packet :=
  | PPublish (b : PublicStreamPktBuilder)
  | PUpdate (b : UpdateStreamAttributesPktBuilder)
  | PSubscribe (b : SubscribeStreamPktBuilder)
  | PUnsubscribe (b : UnsubscribeStreamPktBuilder)
  | POffer (b : OfferOrAnswerPktBuilder)
  | PConnection (b : ConnectionPtkBuilder)
  | PToken (b : CreateTokenPtkBuilder).

Definition Build_packet (p : packet) : outcome str :=
  match p with
  | PPublish b => public_Build b
  | PUpdate b => update_Build b
  | PSubscribe b => subscribe_Build b
  | PUnsubscribe b => unsubscribe_Build b
  | POffer b => offer_Build b
  | PConnection b => connection_Build b
  | PToken b => token_Build b
  end.

(** The members without initialiser have been set. *)
Definition initialised (p : packet) : bool :=
  match p with
  | PUpdate b => bool_decide (is_Some b.(upd_stream_id_))
  | PSubscribe b => bool_decide (is_Some b.(sub_stream_id_))
  | PConnection b => bool_decide (is_Some b.(con_sdp_m_line_index_))
  | PToken b => bool_decide (is_Some b.(tok_secure_))
  | _ => true
  end.

(** Integer members hold values of their C++ types. *)
Definition in_range (p : packet) : bool :=
  match p with
  | PPublish b => in_i32 b.(pub_min_video_bw_) && in_i32 b.(pub_max_video_bw_)
  | PUpdate b => in_u64 (default 0 b.(upd_stream_id_))
  | PSubscribe b => in_u64 (default 0 b.(sub_stream_id_)) && in_i32 b.(sub_max_video_bw_)
  | PUnsubscribe b => in_u64 b.(unsub_stream_id_)
  | POffer b => in_i32 b.(ofr_max_video_bw_)
  | PConnection b => in_i32 (default 0 b.(con_sdp_m_line_index_))
                     && in_i32 b.(con_received_session_version_)
  | PToken b => true
  end.

Definition strings_of (p : packet) : list str :=
  match p with
  | PPublish b => [b.(pub_label_)]
  | PUpdate b => [b.(upd_type_attr_)]
  | PSubscribe b => [b.(sub_browser_)]
  | PUnsubscribe b => []
  | POffer b => [b.(ofr_browser_); b.(ofr_erizo_id_); b.(ofr_connection_id_);
                 b.(ofr_type_); b.(ofr_sdp_)]
  | PConnection b => [b.(con_browser_); b.(con_erizo_id_); b.(con_connection_id_);
                      b.(con_sdp_mid_); b.(con_candidate_)]
  | PToken b => [b.(tok_token_id_); b.(tok_host_); b.(tok_signature_)]
  end.

Definition wire (p : packet) : list (list jstep * leaf) :=
  let k s := [JIdx 1; JKey s] in
  let k2 s t := [JIdx 1; JKey s; JKey t] in
  let k3 s t u := [JIdx 1; JKey s; JKey t; JKey u] in
  match p with
  | PPublish b =>
      [([JIdx 0], LStr $"publish");
       (k $"audio", LBool b.(pub_audio_)); (k $"video", LBool b.(pub_video_));
       (k $"data", LBool b.(pub_data_)); (k $"label", LStr b.(pub_label_));
       (k $"screen", LBool b.(pub_screen_));
       (k $"minVideoBW", LInt b.(pub_min_video_bw_));
       (k $"maxVideoBW", LInt b.(pub_max_video_bw_));
       (k2 $"metadata" $"type", LStr $"publisher");
       (k2 $"muteStream" $"audio", LBool b.(pub_mute_audio_));
       (k2 $"muteStream" $"video", LBool b.(pub_mute_video_));
       ([JIdx 2], LNull)]
  | PUpdate b =>
      [([JIdx 0], LStr $"updateStreamAttributes");
       (k $"id", LUint (default 0 b.(upd_stream_id_)));
       (k2 $"attrs" $"type", LStr b.(upd_type_attr_))]
  | PSubscribe b =>
      [([JIdx 0], LStr $"subscribe");
       (k $"streamId", LUint (default 0 b.(sub_stream_id_)));
       (k $"audio", LBool b.(sub_audio_)); (k $"video", LBool b.(sub_video_));
       (k $"data", LBool b.(sub_data_)); (k $"maxVideoBW", LInt b.(sub_max_video_bw_));
       (k $"offerFromErizo", LBool b.(sub_offer_from_erizo_));
       (k $"browser", LStr b.(sub_browser_));
       (k2 $"metadata" $"type", LStr $"subscriber");
       (k2 $"muteStream" $"audio", LBool b.(sub_mute_audio_));
       (k2 $"muteStream" $"video", LBool b.(sub_mute_video_));
       (k $"slideShowMode", LBool false);
       ([JIdx 2], LNull)]
  | PUnsubscribe b =>
      [([JIdx 0], LStr $"unsubscribe"); ([JIdx 1], LUint b.(unsub_stream_id_));
       ([JIdx 2], LNull)]
  | POffer b =>
      [([JIdx 0], LStr $"connectionMessage");
       (k $"browser", LStr b.(ofr_browser_));
       (k $"connectionId", LStr b.(ofr_connection_id_));
       (k $"erizoId", LStr b.(ofr_erizo_id_));
       (k2 $"msg" $"type", LStr b.(ofr_type_)); (k2 $"msg" $"sdp", LStr b.(ofr_sdp_));
       (k2 $"msg" $"receivedSessionVersion", LInt (-1));
       (k3 $"msg" $"config" $"maxVideoBW", LInt b.(ofr_max_video_bw_));
       ([JIdx 2], LNull)]
  | PConnection b =>
      [([JIdx 0], LStr $"connectionMessage");
       (k $"connectionId", LStr b.(con_connection_id_));
       (k $"erizoId", LStr b.(con_erizo_id_));
       (k2 $"msg" $"type", LStr $"candidate");
       (k3 $"msg" $"candidate" $"sdpMLineIndex", LInt (default 0 b.(con_sdp_m_line_index_)));
       (k3 $"msg" $"candidate" $"sdpMid", LStr b.(con_sdp_mid_));
       (k3 $"msg" $"candidate" $"candidate", LStr b.(con_candidate_));
       (k2 $"msg" $"receivedSessionVersion", LInt b.(con_received_session_version_));
       (k $"browser", LStr b.(con_browser_));
       ([JIdx 2], LNull)]
  | PToken b =>
      [([JIdx 0], LStr $"token");
       (k $"singlePC", LBool b.(tok_single_pc_));
       (k2 $"token" $"tokenId", LStr b.(tok_token_id_));
       (k2 $"token" $"host", LStr b.(tok_host_));
       (k2 $"token" $"signature", LStr b.(tok_signature_));
       (k2 $"token" $"secure", LBool (default false b.(tok_secure_)))]
  end.

(** ** Lemmas *)
Context {JL : JsonLaws J}.

Lemma reads_equiv j j' e : json_equiv j j' → reads j e → reads j' e.
Proof.
  intros He (v & Hv & Hl). destruct (jpath_equiv j j' e.1 v He Hv) as (v' & Hv' & Hvv').
  exists v'. split; [done|]. destruct e as [p []]; simpl in *; by rewrite <- Hvv'.
Qed.

Lemma reads_leaf v e : leaf_of e v → reads v ([], e).
Proof. intros. by exists v. Qed.

Lemma reads_idx l i v p e :
  l !! i = Some v → reads v (p, e) → reads (json_array_of l) (JIdx i :: p, e).
Proof.
  intros Hl (w & Hw & He). exists w. split; [|done]. simpl.
  by rewrite (at_const_array l i v Hl).
Qed.

Lemma reads_key j k v p e :
  j_key_const j k = Ret v → reads v (p, e) → reads j (JKey k :: p, e).
Proof. intros Hl (w & Hw & He). exists w. split; [|done]. simpl. by rewrite Hl. Qed.

(** An object under construction: what was stored so far. *)
Definition holds (j : json) (kvs : list (str * json)) : Prop :=
  j_is_object j = true ∧ (∀ k v, (k, v) ∈ kvs → j_key_const j k = Ret v) ∧
  (Forall (λ e, valid_utf8 e.1 ∧ json_plain e.2) kvs → json_plain j).

Lemma holds_new kvs :
  kvs ≠ [] → NoDup kvs.*1 → ∃ j, set_keys json_null kvs = Ret j ∧ holds j kvs.
Proof.
  intros Hne Hnd. destruct (set_keys_object kvs Hnd) as (j & Hj & Ho & Hget).
  exists j. rewrite set_keys_null by done. split; [done|]. split_and!; [done..|].
  intros Hp. eapply set_keys_plain; [apply object_is_object|apply plain_object|done|done].
Qed.

Lemma holds_add j kvs k v :
  holds j kvs → k ∉ kvs.*1 →
  ∃ j', j_set_key j k v = Ret j' ∧ holds j' (kvs ++ [(k, v)]).
Proof.
  intros (Ho & Hget & Hp) Hk.
  destruct (set_key_object j k v Ho) as (j' & Hj' & Ho' & Hsame & Hother).
  exists j'. split; [done|]. split_and!; [done|..].
  - intros k' v' Hin. apply elem_of_app in Hin as [Hin|Hin].
    + rewrite Hother; [by apply Hget|]. intros ->. apply Hk.
      apply list_elem_of_fmap. by exists (k, v').
    + apply list_elem_of_singleton in Hin. by simplify_eq.
  - rewrite Forall_app, Forall_singleton. intros [Hf [Hkv Hv]].
    exact (plain_set_key j k v j' Ho (Hp Hf) Hv Hkv Hj').
Qed.

(** The packet is an array; once its elements are known it can be dumped. *)
Lemma dump_array l e :
  Forall json_plain l → Forall (reads (json_array_of l)) e →
  ∃ text j, j_dump (json_array_of l) = Ret text ∧ j_parse text = Ret j ∧ Forall (reads j) e.
Proof.
  intros Hp He. destruct (parse_dump (json_array_of l)) as (text & j & Hd & Hj & Heq).
  { by apply plain_array. }
  exists text, j. split_and!; [done..|]. eapply Forall_impl; [exact He|].
  intros x. by apply reads_equiv.
Qed.

Lemma set_at_0 v : j_set_at json_array 0 v = Ret (json_array_of [v]).
Proof. apply (set_at_append [] v). Qed.
Lemma set_at_1 a v : j_set_at (json_array_of [a]) 1 v = Ret (json_array_of [a; v]).
Proof. apply (set_at_append [a] v). Qed.
Lemma set_at_2 a b v : j_set_at (json_array_of [a; b]) 2 v = Ret (json_array_of [a; b; v]).
Proof. apply (set_at_append [a; b] v). Qed.

End contract.

Create HintDb pkt discriminated.
#[export] Hint Resolve list_elem_of_here list_elem_of_further : pkt.
#[export] Hint Resolve plain_null plain_object plain_bool plain_int plain_uint64
  plain_string : pkt.

(** A string literal of the source is ASCII. *)
Ltac lit_utf8 := apply ascii_utf8; apply (bool_decide_unpack _); vm_compute; exact I.

(** Run one [set_keys] or [j_set_key] of a Build method. *)
Ltac pkt_step :=
  match goal with
  | |- context [set_keys json_null ?kvs] =>
      let j := fresh "j" in let E := fresh "E" in let H := fresh "Hh" in
      destruct (holds_new kvs) as (j & E & H);
      [done|by apply (bool_decide_unpack _)|rewrite E; clear E; cbn [mbind outcome_bind]]
  | H : holds ?j ?kvs |- context [j_set_key ?j ?k ?v] =>
      let j' := fresh "j" in let E := fresh "E" in let H' := fresh "Hh" in
      destruct (holds_add j kvs k v H) as (j' & E & H');
      [by apply (bool_decide_unpack _)|rewrite E; clear E; cbn [mbind outcome_bind]; cbn [app] in H']
  | |- context [j_set_at _ _ _] =>
      first [rewrite set_at_0 | rewrite set_at_1 | rewrite set_at_2]; cbn [mbind outcome_bind]
  end.

(** Everything stored in an object is plain. *)
Ltac solve_plain :=
  repeat match goal with
  | |- json_plain (json_array_of _) => apply plain_array
  | |- Forall _ [] => constructor
  | |- Forall _ (_ :: _) => constructor
  | |- _ ∧ _ => split
  | |- valid_utf8 (fst _) => cbn [fst]
  | |- json_plain (snd _) => cbn [snd]
  | |- json_plain (of_string _) => apply plain_string
  | |- valid_utf8 _ => first [assumption | lit_utf8]
  | H : holds ?j ?kvs |- json_plain ?j => apply (proj2 (proj2 H))
  | |- json_plain _ => solve [auto with pkt]
  end.

(** Follow one path of the contract. *)
Ltac solve_reads :=
  repeat match goal with
  | |- Forall _ [] => constructor
  | |- Forall _ (_ :: _) => constructor
  | |- reads (json_array_of _) (JIdx _ :: _, _) => eapply reads_idx; [reflexivity|]
  | H : holds ?j ?kvs |- reads ?j (JKey _ :: _, _) =>
      eapply reads_key; [apply (proj1 (proj2 H)); solve [eauto 20 with pkt]|]
  | |- reads _ ([], _) => apply reads_leaf; cbn [leaf_of];
      first [apply get_string_of | apply get_bool_of | by apply get_int_of
            | by apply get_uint64_of | apply is_null_null]
  end.

Ltac pkt_done := apply dump_array; [solve_plain|cbn [wire default]; solve_reads].

Section builders_ok.
Context {J : JsonLib} {JL : JsonLaws J}.

Definition on_wire (p : packet) : Prop :=
  ∃ text j, Build_packet p = Ret text ∧ j_parse text = Ret j ∧ Forall (reads j) (wire p).

Definition ready (p : packet) : Prop :=
  initialised p = true ∧ in_range p = true ∧ Forall valid_utf8 (strings_of p).

(** Split [ready] into the facts about single members. *)
Ltac use_ready H :=
  destruct H as (Hi & Hr & Hs); simpl in Hi, Hr, Hs;
  rewrite ?bool_decide_eq_true in Hi; rewrite ?andb_true_iff in Hr;
  rewrite ?Forall_cons in Hs; destruct_and?.

Lemma publish_on_wire b : ready (PPublish b) → on_wire (PPublish b).
Proof.
  intros H. use_ready H. unfold on_wire, Build_packet, public_Build.
  repeat pkt_step. pkt_done.
Qed.

Lemma update_on_wire b : ready (PUpdate b) → on_wire (PUpdate b).
Proof.
  intros H. use_ready H. destruct b as [[id|] ty]; [|by destruct Hi]. simpl in *.
  unfold on_wire, Build_packet, update_Build. simpl. repeat pkt_step. pkt_done.
Qed.

Lemma subscribe_on_wire b : ready (PSubscribe b) → on_wire (PSubscribe b).
Proof.
  intros H. use_ready H. destruct b as [[id|]]; [|by destruct Hi]. simpl in *.
  unfold on_wire, Build_packet, subscribe_Build. simpl. repeat pkt_step. pkt_done.
Qed.

Lemma unsubscribe_on_wire b : ready (PUnsubscribe b) → on_wire (PUnsubscribe b).
Proof.
  intros H. use_ready H. unfold on_wire, Build_packet, unsubscribe_Build.
  repeat pkt_step. pkt_done.
Qed.

Lemma offer_on_wire b : ready (POffer b) → on_wire (POffer b).
Proof.
  intros H. use_ready H. unfold on_wire, Build_packet, offer_Build.
  repeat pkt_step. pkt_done.
Qed.

Lemma connection_on_wire b : ready (PConnection b) → on_wire (PConnection b).
Proof.
  intros H. use_ready H. destruct b as [br er co [ix|] mid cand ver]; [|by destruct Hi].
  simpl in *. unfold on_wire, Build_packet, connection_Build. simpl.
  repeat pkt_step. pkt_done.
Qed.

Lemma token_on_wire b : ready (PToken b) → on_wire (PToken b).
Proof.
  intros H. use_ready H. destruct b as [id host [sec|] sig pc]; [|by destruct Hi].
  simpl in *. unfold on_wire, Build_packet, token_Build. simpl.
  repeat pkt_step. pkt_done.
Qed.

End builders_ok.


(** The subscribe packet the room sends for stream 4711, after the setters the
    room calls. *)
Definition sample_subscribe : SubscribeStreamPktBuilder :=
  subscribe_SetOfferFromErizo false (subscribe_SetStreamId 4711 subscribe_new).

