(* ===== verification/WebsocketSession.v ===== *)
(** * WebsocketSession (messenger/websocket_session.h, .cc)

    One session object: its members, the handlers posted to its io_context and
    the asynchronous operations it has started on the resolver and the stream.
    A method is a computation over the world [W] that holds the session, because
    its callbacks run the owner's code in the middle of a handler; [WsHost] says
    how the world holds the session and what the callbacks do.

    boost::asio and boost::beast are the environment: it runs posted handlers in
    order ([run_posted]) and completes a started operation with any result
    ([complete]). *)

From stdpp Require Import base list strings gmap.
From Stdlib Require Import Ascii ZArith Lia.
From S2P Require Import Prelude CppString.

Local Open Scope Z_scope.

(** ** Data *)
Inductive AsyncOp :=
  | OpResolve (host service : str)
  | OpConnect
  | OpHandshake (host target : str)
  | OpRead
  | OpWrite (buffer : str).

Inductive Posted :=
  | PClose
  | PSend (msg : str).

#[global] Instance AsyncOp_eq_dec : EqDecision AsyncOp.
Proof. solve_decision. Defined.

#[global] Instance Posted_eq_dec : EqDecision Posted.
Proof. solve_decision. Defined.

(** The callbacks are [std::function]s: the record keeps whether one is set.
    [posted] and [pending] are the io_context's work, [is_open] the stream's
    state, [wire] the buffers handed to [async_write] so far. *)
Record Ws := mkWs {
  url_ : str;
  scheme_ : str;
  host_ : str;
  port_ : Z;
  target_ : str;
  do_disconnect_ : bool;
  connected_ : bool;
  posted : list Posted;
  pending : list AsyncOp;
  is_open : bool;
  buffer_ : str;
  queue_ : list str;
  wire : list str;
  ready_callback_ : bool;
  receive_msg_callback_ : bool;
  abnormal_disconnect_callback_ : bool
}.

Definition set_scheme v s := mkWs s.(url_) v s.(host_) s.(port_) s.(target_) s.(do_disconnect_)
  s.(connected_) s.(posted) s.(pending) s.(is_open) s.(buffer_) s.(queue_) s.(wire)
  s.(ready_callback_) s.(receive_msg_callback_) s.(abnormal_disconnect_callback_).
Definition set_host v s := mkWs s.(url_) s.(scheme_) v s.(port_) s.(target_) s.(do_disconnect_)
  s.(connected_) s.(posted) s.(pending) s.(is_open) s.(buffer_) s.(queue_) s.(wire)
  s.(ready_callback_) s.(receive_msg_callback_) s.(abnormal_disconnect_callback_).
(** [port_] is an [int16_t]: the value assigned is truncated. *)
Definition set_port v s := mkWs s.(url_) s.(scheme_) s.(host_) (i16 v) s.(target_) s.(do_disconnect_)
  s.(connected_) s.(posted) s.(pending) s.(is_open) s.(buffer_) s.(queue_) s.(wire)
  s.(ready_callback_) s.(receive_msg_callback_) s.(abnormal_disconnect_callback_).
Definition set_target v s := mkWs s.(url_) s.(scheme_) s.(host_) s.(port_) v s.(do_disconnect_)
  s.(connected_) s.(posted) s.(pending) s.(is_open) s.(buffer_) s.(queue_) s.(wire)
  s.(ready_callback_) s.(receive_msg_callback_) s.(abnormal_disconnect_callback_).
Definition set_do_disconnect v s := mkWs s.(url_) s.(scheme_) s.(host_) s.(port_) s.(target_) v
  s.(connected_) s.(posted) s.(pending) s.(is_open) s.(buffer_) s.(queue_) s.(wire)
  s.(ready_callback_) s.(receive_msg_callback_) s.(abnormal_disconnect_callback_).
Definition set_connected v s := mkWs s.(url_) s.(scheme_) s.(host_) s.(port_) s.(target_)
  s.(do_disconnect_) v s.(posted) s.(pending) s.(is_open) s.(buffer_) s.(queue_) s.(wire)
  s.(ready_callback_) s.(receive_msg_callback_) s.(abnormal_disconnect_callback_).
Definition set_posted v s := mkWs s.(url_) s.(scheme_) s.(host_) s.(port_) s.(target_)
  s.(do_disconnect_) s.(connected_) v s.(pending) s.(is_open) s.(buffer_) s.(queue_) s.(wire)
  s.(ready_callback_) s.(receive_msg_callback_) s.(abnormal_disconnect_callback_).
Definition set_pending v s := mkWs s.(url_) s.(scheme_) s.(host_) s.(port_) s.(target_)
  s.(do_disconnect_) s.(connected_) s.(posted) v s.(is_open) s.(buffer_) s.(queue_) s.(wire)
  s.(ready_callback_) s.(receive_msg_callback_) s.(abnormal_disconnect_callback_).
Definition set_is_open v s := mkWs s.(url_) s.(scheme_) s.(host_) s.(port_) s.(target_)
  s.(do_disconnect_) s.(connected_) s.(posted) s.(pending) v s.(buffer_) s.(queue_) s.(wire)
  s.(ready_callback_) s.(receive_msg_callback_) s.(abnormal_disconnect_callback_).
Definition set_buffer v s := mkWs s.(url_) s.(scheme_) s.(host_) s.(port_) s.(target_)
  s.(do_disconnect_) s.(connected_) s.(posted) s.(pending) s.(is_open) v s.(queue_) s.(wire)
  s.(ready_callback_) s.(receive_msg_callback_) s.(abnormal_disconnect_callback_).
Definition set_queue v s := mkWs s.(url_) s.(scheme_) s.(host_) s.(port_) s.(target_)
  s.(do_disconnect_) s.(connected_) s.(posted) s.(pending) s.(is_open) s.(buffer_) v s.(wire)
  s.(ready_callback_) s.(receive_msg_callback_) s.(abnormal_disconnect_callback_).
Definition set_wire v s := mkWs s.(url_) s.(scheme_) s.(host_) s.(port_) s.(target_)
  s.(do_disconnect_) s.(connected_) s.(posted) s.(pending) s.(is_open) s.(buffer_) s.(queue_) v
  s.(ready_callback_) s.(receive_msg_callback_) s.(abnormal_disconnect_callback_).
Definition set_callbacks r m a s := mkWs s.(url_) s.(scheme_) s.(host_) s.(port_) s.(target_)
  s.(do_disconnect_) s.(connected_) s.(posted) s.(pending) s.(is_open) s.(buffer_) s.(queue_)
  s.(wire) r m a.

(** ** ParseUrl *)
Definition ws_port_text (hostPath : str) (portStart : Z) : outcome str :=
  let portEnd := find_first_of hostPath "/"%char in
  if portEnd =? npos then substr_from hostPath (u64 (portStart + 1))
  else substr hostPath (u64 (portStart + 1)) (u64 (portEnd - (portStart + 1))).

Definition parse_host (hostPath : str) : ST Ws unit :=
  let portStart := find_first_of hostPath ":"%char in
  let pathStart := find_first_of hostPath "/"%char in
  if portStart =? npos then
    modify (set_port 8080) ;;
    if pathStart =? npos then modify (set_host hostPath)
    else h ← lift (substr hostPath 0 pathStart); modify (set_host h)
  else
    h ← lift (substr hostPath 0 portStart);
    modify (set_host h) ;;
    portS ← lift (ws_port_text hostPath portStart);
    if decide (portS = []) then modify (set_port 8080)
    else p ← lift (atoi portS); modify (set_port p).

Definition parse_target (hostPath : str) : ST Ws unit :=
  t ← lift (substr_from hostPath (u64 (find_first_of hostPath "/"%char + 1)));
  modify (set_target ("/"%char :: t)).

Definition ParseUrl : ST Ws bool :=
  url ← gets url_;
  if bool_decide (url = []) || (size url <=? 5) then mret false
  else
    scheme ← lift (substr url 0 (find_first_of url ":"%char));
    if decide (scheme = []) then mret false
    else
      let scheme := to_lower scheme in
      if negb (bool_decide (scheme = $"ws") || bool_decide (scheme = $"wss")) then mret false
      else
        modify (set_scheme scheme) ;;
        let pathStart := size scheme + 3 in
        hostPath ← lift (substr url pathStart (u64 (size url - pathStart)));
        if decide (hostPath = []) then mret false
        else parse_host hostPath ;; parse_target hostPath ;; mret true.

(** The constructor. The io thread it starts runs the handlers below. *)
Definition new_session (url : str) : outcome Ws :=
  let s := mkWs url [] [] (-1) [] false false [] [] false [] [] [] false false false in
  match ParseUrl s with
  | (Ret _, s') => Ret s'
  | (Throw e, _) => Throw e
  | (Undef u, _) => Undef u
  end.

(** ** The world of a session *)
Class WsStore (W : Type) := {
  ws_get : W → Ws;
  ws_set : Ws → W → W
}.

Class WsHost (W : Type) := {
  ws_store :: WsStore W;
  on_ready : ST W unit;                (* ready_callback_ *)
  on_receive : str → ST W unit;        (* receive_msg_callback_ *)
  on_abnormal : str → ST W unit;       (* abnormal_disconnect_callback_ *)
  stream_close : W → outcome unit      (* ws_.close(reason): may throw *)
}.

(** ** The public methods *)
Section interface.
Context {W : Type} {St : WsStore W}.

Definition rd {A} (f : Ws → A) : ST W A := gets (λ w, f (ws_get w)).
Definition upd (f : Ws → Ws) : ST W unit := modify (λ w, ws_set (f (ws_get w)) w).

(** Starting an asynchronous operation; a write also puts its buffer on the
    wire. *)
Definition start (op : AsyncOp) : ST W unit :=
  upd (λ s, set_pending (s.(pending) ++ [op]) s).
Definition async_write (buffer : str) : ST W unit :=
  upd (λ s, set_wire (s.(wire) ++ [buffer]) s) ;; start (OpWrite buffer).
Definition post (p : Posted) : ST W unit :=
  upd (λ s, set_posted (s.(posted) ++ [p]) s).

Definition IsConnected : ST W bool := rd connected_.

Definition Connect : ST W unit :=
  connected ← rd connected_;
  if connected : bool then mret tt
  else
    upd (set_do_disconnect false) ;;
    upd (set_connected false) ;;
    s ← rd id;
    start (OpResolve s.(host_) (to_string s.(port_))).

Definition Disconnect : ST W unit :=
  upd (set_do_disconnect true) ;;
  post PClose.

Definition SendMsg (msg : str) : ST W unit :=
  connected ← IsConnected;
  if negb connected then mret tt else post (PSend msg).

Definition SetOnReadyCallback (callback : bool) : ST W unit :=
  upd (set_connected true) ;;
  upd (λ s, set_callbacks callback s.(receive_msg_callback_) s.(abnormal_disconnect_callback_) s).

Definition SetOnReceiveMsgCallback (callback : bool) : ST W unit :=
  upd (λ s, set_callbacks s.(ready_callback_) callback s.(abnormal_disconnect_callback_) s).

Definition SetOnAbnormalDisconnectCallback (callback : bool) : ST W unit :=
  upd (set_connected false) ;;
  upd (λ s, set_callbacks s.(ready_callback_) s.(receive_msg_callback_) callback s).

End interface.

(** ** The handlers *)
Section handlers.
Context {W : Type} {H : WsHost W}.

Definition ProcessDisconnect (reason : str) : ST W unit :=
  s ← rd id;
  if negb s.(do_disconnect_) && s.(abnormal_disconnect_callback_) then on_abnormal reason
  else mret tt.

(** The error code of a completion: [None] is success. *)
Definition OnResolve (ec : option str) : ST W unit :=
  match ec with
  | Some reason => ProcessDisconnect reason
  | None => start OpConnect
  end.

Definition OnConnect (ec : option str) : ST W unit :=
  match ec with
  | Some reason => ProcessDisconnect reason
  | None =>
      s ← rd id;
      let host := s.(host_) ++ $":" ++ to_string s.(port_) in
      start (OpHandshake host s.(target_))
  end.

Definition DoRead : ST W unit := start OpRead.

Definition OnHandshake (ec : option str) : ST W unit :=
  match ec with
  | Some reason => ProcessDisconnect reason
  | None =>
      upd (set_connected true) ;;
      cb ← rd ready_callback_;
      (if cb : bool then on_ready else mret tt) ;;
      DoRead
  end.

Definition OnRead (ec : option str) : ST W unit :=
  match ec with
  | Some reason => ProcessDisconnect reason
  | None =>
      msg ← rd buffer_;
      cb ← rd receive_msg_callback_;
      (if cb : bool then on_receive msg else mret tt) ;;
      upd (set_buffer []) ;;
      DoRead
  end.

Definition OnSend (msg : str) : ST W unit :=
  upd (λ s, set_queue (s.(queue_) ++ [msg]) s) ;;
  queue ← rd queue_;
  if decide (1 < length queue)%nat then mret tt
  else
    match queue with
    | front :: _ => async_write front
    | [] => lift (Undef EmptyFront)
    end.

Definition OnWrite (ec : option str) : ST W unit :=
  match ec with
  | Some _ => mret tt
  | None =>
      queue ← rd queue_;
      match queue with
      | [] => lift (Undef EmptyFront)
      | _ :: queue' =>
          upd (set_queue queue') ;;
          match queue' with
          | front :: _ => async_write front
          | [] => mret tt
          end
      end
  end.

Definition DoClose : ST W unit :=
  open ← rd is_open;
  if open : bool then
    r ← gets stream_close; lift r ;;
    upd (set_is_open false)
  else mret tt.

(** The destructor. It joins the io thread unless it runs on that thread, where
    [join] throws; the implicit [noexcept] turns any exception into
    [std::terminate]. *)
Definition destroy (on_io_thread : bool) : ST W unit :=
  if on_io_thread then lift (Throw SystemError)
  else
    upd (λ s, set_posted [] (set_pending [] s)) ;;
    open ← rd is_open;
    if open : bool then r ← gets stream_close; lift r else mret tt.

(** ** The io_context *)
Inductive result :=
  | Done                       (* success *)
  | Data (bytes : str)         (* success of a read: the frame received *)
  | Failed (reason : str).

Definition ec_of (r : result) : option str :=
  match r with Failed reason => Some reason | _ => None end.

Definition run_posted : ST W unit :=
  ps ← rd posted;
  match ps with
  | [] => mret tt
  | p :: ps' =>
      upd (set_posted ps') ;;
      match p with PClose => DoClose | PSend msg => OnSend msg end
  end.

(** The [i]-th started operation completes with [r]. *)
Definition complete (i : nat) (r : result) : ST W unit :=
  ops ← rd pending;
  match ops !! i with
  | None => mret tt
  | Some op =>
      upd (set_pending (delete i ops)) ;;
      match op with
      | OpResolve _ _ => OnResolve (ec_of r)
      | OpConnect => OnConnect (ec_of r)
      | OpHandshake _ _ =>
          upd (set_is_open (bool_decide (ec_of r = None))) ;; OnHandshake (ec_of r)
      | OpRead =>
          upd (λ s, set_buffer (s.(buffer_) ++ match r with Data d => d | _ => [] end) s) ;;
          OnRead (ec_of r)
      | OpWrite _ => OnWrite (ec_of r)
      end
  end.

(** Everything that can happen to a session. *)
Inductive ws_step :=
  | SConnect | SDisconnect | SSend (msg : str)
  | SSetReady (cb : bool) | SSetReceive (cb : bool) | SSetAbnormal (cb : bool)
  | SPosted                           (* the io thread runs the next posted handler *)
  | SComplete (i : nat) (r : result)  (* an operation completes *)
  | SDrop.                            (* the stream closes underneath *)

Definition run_step (st : ws_step) : ST W unit :=
  match st with
  | SConnect => Connect
  | SDisconnect => Disconnect
  | SSend msg => SendMsg msg
  | SSetReady cb => SetOnReadyCallback cb
  | SSetReceive cb => SetOnReceiveMsgCallback cb
  | SSetAbnormal cb => SetOnAbnormalDisconnectCallback cb
  | SPosted => run_posted
  | SComplete i r => complete i r
  | SDrop => upd (set_is_open false)
  end.

End handlers.

(** What the owner promises: a session read back is the one stored, and the
    callbacks reach the session only through its public methods, so they keep
    every property those methods keep. *)
Definition public_step (st : ws_step) : bool :=
  match st with SPosted | SComplete _ _ | SDrop => false | _ => true end.

Class WsClient (W : Type) `{H : WsHost W} := {
  ws_get_set s w : ws_get (ws_set s w) = s;
  callbacks_public (P : Ws → Prop) :
    (∀ st, public_step st = true → preserves (λ w : W, P (ws_get w)) (run_step st)) →
    preserves (λ w : W, P (ws_get w)) on_ready ∧
    (∀ m, preserves (λ w : W, P (ws_get w)) (on_receive m)) ∧
    (∀ r, preserves (λ w : W, P (ws_get w)) (on_abnormal r))
}.
