(* ===== verification/Scheduler.v ===== *)
(** * Scheduler (thread/scheduler.h, .cc)

    The timed function queue and the threads that serve it. What a thread does
    between taking [queue_mutex_] and releasing it (by [unlock] or by waiting on
    the condition variable) is one step, as the mutex guarantees; waiting may
    end at any time, spuriously or notified, and a timed wait may report a
    timeout once its time has come. Every interleaving of the threads, of
    [Schedule] and of [Stop] is a path of [sstep]. *)

From stdpp Require Import base list strings gmap relations sorting.
From Stdlib Require Import ZArith Lia.
From S2P Require Import Prelude.

Local Open Scope Z_scope.

(** ** State *)
(** Where a thread of the pool is in [ProcessFunctionQueue]. *)
Inductive pc (F : Type) :=
  | AtStart                       (* created, before taking the lock *)
  | WaitEmpty                     (* queue_schedule_cv_.wait(lk) *)
  | WaitUntil (t : Z)             (* queue_schedule_cv_.wait_until(lk, t) *)
  | Running (e : Z * F)           (* f(), lock released *)
  | Exited.
Arguments AtStart {F}.
Arguments WaitEmpty {F}.
Arguments WaitUntil {F} t.
Arguments Running {F} e.
Arguments Exited {F}.

(** [now] is the steady clock; [ran] lists the functions started, each with the
    time it was due and the time it was started. [aborted] is the state after
    LOG(FATAL). *)
Record Scheduler (F : Type) := mkScheduler {
  thread_count_ : Z;
  threads_ : list (pc F);
  function_queue_ : list (Z * F);
  stop_requested_ : bool;
  stop_when_empty_ : bool;
  now : Z;
  ran : list (Z * F * Z);
  aborted : bool
}.
Arguments mkScheduler {F}.
Arguments thread_count_ {F}.
Arguments threads_ {F}.
Arguments function_queue_ {F}.
Arguments stop_requested_ {F}.
Arguments stop_when_empty_ {F}.
Arguments now {F}.
Arguments ran {F}.
Arguments aborted {F}.

Section scheduler.
Context {F : Type}.
Implicit Types (s : Scheduler F) (q : list (Z * F)).

(** ** Operations *)
(** [std::multimap::emplace]: behind the entries with the same key. *)
Fixpoint emplace (t : Z) (f : F) q : list (Z * F) :=
  match q with
  | [] => [(t, f)]
  | (t', f') :: q' => if t <? t' then (t, f) :: q else (t', f') :: emplace t f q'
  end.

Definition new_scheduler (threadCount : nat) (clock : Z) : Scheduler F :=
  mkScheduler (Z.of_nat threadCount) (replicate threadCount AtStart) [] false false clock [] false.

Definition Schedule (func : F) (point : Z) s : Scheduler F :=
  mkScheduler s.(thread_count_) s.(threads_) (emplace point func s.(function_queue_))
    s.(stop_requested_) s.(stop_when_empty_) s.(now) s.(ran) s.(aborted).

(** The clock counts nanoseconds. *)
Definition ScheduleFromNow (func : F) (deltaMS : Z) s : Scheduler F :=
  Schedule func (s.(now) + deltaMS * 1000000) s.

(** The critical section of [Stop]; it returns once [joined]. *)
Definition Stop (drain : bool) s : Scheduler F :=
  mkScheduler s.(thread_count_) s.(threads_) s.(function_queue_)
    (if drain then s.(stop_requested_) else true)
    (if drain then true else s.(stop_when_empty_)) s.(now) s.(ran) s.(aborted).

Definition joined s : Prop := Forall (λ p, p = Exited) s.(threads_).

Definition set_pc (i : nat) (p : pc F) s : Scheduler F :=
  mkScheduler s.(thread_count_) (<[i := p]> s.(threads_)) s.(function_queue_)
    s.(stop_requested_) s.(stop_when_empty_) s.(now) s.(ran) s.(aborted).

(** After the loop: [--thread_count_]. *)
Definition exit_thread (i : nat) s : Scheduler F :=
  let s := set_pc i Exited s in
  mkScheduler (s.(thread_count_) - 1) s.(threads_) s.(function_queue_)
    s.(stop_requested_) s.(stop_when_empty_) s.(now) s.(ran) s.(aborted).

(** Take the first entry and call it. *)
Definition take_first (i : nat) (e : Z * F) q s : Scheduler F :=
  let s := set_pc i (Running e) s in
  mkScheduler s.(thread_count_) s.(threads_) q
    s.(stop_requested_) s.(stop_when_empty_) s.(now) (s.(ran) ++ [(e, s.(now))]) s.(aborted).

Definition queue_empty s : bool := bool_decide (length s.(function_queue_) = O).

(** [function_queue_.empty() ? now() : function_queue_.begin()->first] *)
Definition wait_time s : Z :=
  match s.(function_queue_) with [] => s.(now) | (t, _) :: _ => t end.

(** The test of the inner loop: wait, or leave it without a timeout. [None] is
    the way out, which is taken only when stopping or empty. *)
Definition inner_wait s : option Z :=
  if negb s.(stop_requested_) && negb (queue_empty s) then Some (wait_time s) else None.

(** The body from the loop head, and from the loop test. The queue cannot be
    taken from without a timed wait, so the only way round without blocking is
    [continue] on an empty queue, which either blocks or leaves: fuel 2 is
    enough ([loop_fuel]). *)
Fixpoint loop_head (fuel : nat) (i : nat) s : Scheduler F :=
  match fuel with
  | O => s
  | S k =>
      if negb s.(stop_requested_) && negb s.(stop_when_empty_) && queue_empty s
      then set_pc i WaitEmpty s
      else
        match inner_wait s with
        | Some t => set_pc i (WaitUntil t) s
        | None =>
            if s.(stop_requested_) then exit_thread i s
            else (* empty: continue *)
              if negb s.(stop_requested_) && negb (s.(stop_when_empty_) && queue_empty s)
              then loop_head k i s else exit_thread i s
        end
  end.

Definition loop_test (i : nat) s : Scheduler F :=
  if negb s.(stop_requested_) && negb (s.(stop_when_empty_) && queue_empty s)
  then loop_head 2 i s else exit_thread i s.

(** After the inner loop. *)
Definition after_wait (i : nat) s : Scheduler F :=
  if s.(stop_requested_) then exit_thread i s
  else match s.(function_queue_) with
       | [] => loop_test i s
       | e :: q => take_first i e q s
       end.

(** ** Steps *)
Inductive label := Tau | Scheduled (e : Z * F).

Inductive sstep : Scheduler F → label → Scheduler F → Prop :=
  | step_tick s t : s.(now) ≤ t →
      sstep s Tau (mkScheduler s.(thread_count_) s.(threads_) s.(function_queue_)
        s.(stop_requested_) s.(stop_when_empty_) t s.(ran) s.(aborted))
  | step_schedule s f t : sstep s (Scheduled (t, f)) (Schedule f t s)
  | step_stop s drain : sstep s Tau (Stop drain s)
  | step_start s i : s.(threads_) !! i = Some AtStart → sstep s Tau (loop_head 2 i s)
  | step_wake_empty s i : s.(threads_) !! i = Some WaitEmpty → sstep s Tau (loop_head 2 i s)
  | step_wake_early s i t : s.(threads_) !! i = Some (WaitUntil t) →
      (* no timeout: the time is read again and the test repeated *)
      sstep s Tau (match inner_wait s with
                   | Some t' => set_pc i (WaitUntil t') s
                   | None => after_wait i s
                   end)
  | step_timeout s i t : s.(threads_) !! i = Some (WaitUntil t) → t ≤ s.(now) →
      sstep s Tau (after_wait i s)
  | step_return s i e : s.(threads_) !! i = Some (Running e) → sstep s Tau (loop_test i s)
  | step_throw s i e : s.(threads_) !! i = Some (Running e) →
      sstep s Tau (mkScheduler (s.(thread_count_) - 1) s.(threads_) s.(function_queue_)
        s.(stop_requested_) s.(stop_when_empty_) s.(now) s.(ran) true).

(** Runs, with the entries scheduled on the way; nothing follows an abort. *)
Inductive sruns : Scheduler F → list (Z * F) → Scheduler F → Prop :=
  | runs_nil s : sruns s [] s
  | runs_snoc s tr s' l s'' : sruns s tr s' → s'.(aborted) = false → sstep s' l s'' →
      sruns s (tr ++ match l with Scheduled e => [e] | Tau => [] end) s''.

End scheduler.
