(* ===== verification/SchedulerProps.v ===== *)
(** * Correctness of the Scheduler

    Safety over every interleaving: entries are neither lost nor run twice, the
    queue stays in time order, threads leave only when told to, and the thread
    count the destructor asserts is right. One thread never runs an entry before
    its time; two threads can. *)

From stdpp Require Import base list strings gmap relations sorting.
From Stdlib Require Import ZArith Lia.
From S2P Require Import Prelude Scheduler.

Local Open Scope Z_scope.

Section props.
Context {F : Type}.
Implicit Types (s : Scheduler F) (q : list (Z * F)).

(** ** What a thread can do in one step *)
Inductive teffect s (i : nat) (p : pc F) : Scheduler F → Prop :=
  | eff_wait_empty : s.(function_queue_) = [] → s.(stop_requested_) = false →
      s.(stop_when_empty_) = false → teffect s i p (set_pc i WaitEmpty s)
  | eff_wait_until t f q : s.(function_queue_) = (t, f) :: q → s.(stop_requested_) = false →
      teffect s i p (set_pc i (WaitUntil t) s)
  | eff_exit : s.(stop_requested_) = true ∨ s.(stop_when_empty_) = true ∧ s.(function_queue_) = [] →
      teffect s i p (exit_thread i s)
  | eff_take t e q : p = WaitUntil t → t ≤ s.(now) → s.(function_queue_) = e :: q →
      s.(stop_requested_) = false → teffect s i p (take_first i e q s).

Lemma loop_head_effect s i p : teffect s i p (loop_head 2 i s).
Proof.
  unfold loop_head, inner_wait, queue_empty, wait_time.
  destruct (stop_requested_ s) eqn:E1, (stop_when_empty_ s) eqn:E2,
    (function_queue_ s) as [|[t f] q] eqn:E3; simpl;
    first [by eapply eff_wait_empty | by eapply eff_wait_until | apply eff_exit; tauto].
Qed.

Lemma loop_test_effect s i p : teffect s i p (loop_test i s).
Proof.
  unfold loop_test, queue_empty.
  destruct (stop_requested_ s) eqn:E1; [apply eff_exit; tauto|].
  destruct (stop_when_empty_ s && _) eqn:E2; simpl; [|apply loop_head_effect].
  apply andb_true_iff in E2 as [E2 E3]. apply bool_decide_eq_true in E3.
  apply eff_exit. right. split; [done|]. by apply length_zero_iff_nil.
Qed.

(** More fuel changes nothing: the loop always blocks or leaves. *)
Lemma loop_fuel k i s : loop_head (2 + k) i s = loop_head 2 i s.
Proof.
  simpl. unfold inner_wait, queue_empty.
  destruct (stop_requested_ s) eqn:E1, (stop_when_empty_ s) eqn:E2,
    (function_queue_ s) as [|[t f] q] eqn:E3; done.
Qed.

Lemma wake_early_effect s i p :
  teffect s i p (match inner_wait s with
                 | Some t' => set_pc i (WaitUntil t') s
                 | None => after_wait i s
                 end).
Proof.
  unfold inner_wait, after_wait, queue_empty, wait_time.
  destruct (stop_requested_ s) eqn:E1; simpl; [apply eff_exit; tauto|].
  destruct (function_queue_ s) as [|[t f] q] eqn:E3; simpl; [apply loop_test_effect|].
  by eapply eff_wait_until.
Qed.

Lemma timeout_effect s i t : t ≤ s.(now) → teffect s i (WaitUntil t) (after_wait i s).
Proof.
  intros Ht. unfold after_wait.
  destruct (stop_requested_ s) eqn:E1; simpl; [apply eff_exit; tauto|].
  destruct (function_queue_ s) as [|e q] eqn:E3; [apply loop_test_effect|].
  by eapply eff_take.
Qed.

(** Every step is one of five kinds. *)
Lemma sstep_cases s l s' :
  sstep s l s' →
  (∃ t, s.(now) ≤ t ∧ l = Tau ∧ s' = mkScheduler s.(thread_count_) s.(threads_)
     s.(function_queue_) s.(stop_requested_) s.(stop_when_empty_) t s.(ran) s.(aborted)) ∨
  (∃ f t, l = Scheduled (t, f) ∧ s' = Schedule f t s) ∨
  (∃ d, l = Tau ∧ s' = Stop d s) ∨
  (∃ i p, l = Tau ∧ s.(threads_) !! i = Some p ∧ p ≠ Exited ∧ teffect s i p s') ∨
  (l = Tau ∧ s'.(aborted) = true ∧ s'.(function_queue_) = s.(function_queue_) ∧
   s'.(ran) = s.(ran) ∧ s'.(threads_) = s.(threads_)).
Proof.
  destruct 1; [eauto 10..| | | | | |].
  - right; right; right; left. exists i, AtStart. split_and!; [done..|apply loop_head_effect].
  - right; right; right; left. exists i, WaitEmpty. split_and!; [done..|apply loop_head_effect].
  - right; right; right; left. exists i, (WaitUntil t). split_and!; [done..|apply wake_early_effect].
  - right; right; right; left. exists i, (WaitUntil t). split_and!; [done..|by apply timeout_effect].
  - right; right; right; left. exists i, (Running e). split_and!; [done..|apply loop_test_effect].
  - do 4 right. done.
Qed.

(** Rule induction over runs. *)
Lemma sruns_inv (P : list (Z * F) → Scheduler F → Prop) s0 :
  P [] s0 →
  (∀ tr s l s', P tr s → s.(aborted) = false → sstep s l s' →
     P (tr ++ match l with Scheduled e => [e] | Tau => [] end) s') →
  ∀ tr s, sruns s0 tr s → P tr s.
Proof. intros H0 Hs tr s. induction 1; eauto. Qed.

(** ** The queue *)
Definition key_le (a b : Z * F) : Prop := a.1 ≤ b.1.

Lemma emplace_perm t f q : emplace t f q ≡ₚ (t, f) :: q.
Proof.
  induction q as [|[t' f'] q IH]; simpl; [done|]. destruct (t <? t'); [done|].
  rewrite IH. apply Permutation_swap.
Qed.

Lemma emplace_sorted t f q :
  StronglySorted key_le q → StronglySorted key_le (emplace t f q).
Proof.
  induction 1 as [|[t' f'] q Hq IH Hle]; simpl; [by repeat constructor|].
  destruct (Z.ltb_spec t t').
  - constructor; [by constructor|]. constructor; [unfold key_le; simpl; lia|].
    eapply Forall_impl; [exact Hle|]. unfold key_le. simpl. intros e ?. lia.
  - constructor; [done|]. rewrite emplace_perm. constructor; [unfold key_le; simpl; lia|done].
Qed.

(** Entries with the same time keep the order in which they were scheduled. *)
Lemma emplace_stable t f q :
  StronglySorted key_le q →
  filter (λ e, e.1 = t) (emplace t f q) = filter (λ e, e.1 = t) q ++ [(t, f)].
Proof.
  induction 1 as [|[t' f'] q Hq IH Hle]; simpl; [by rewrite filter_cons_True|].
  destruct (Z.ltb_spec t t').
  - rewrite filter_cons_True by done.
    assert (filter (λ e, e.1 = t) ((t', f') :: q) = []) as ->; [|done].
    apply filter_none. constructor; [simpl; lia|]. eapply Forall_impl; [exact Hle|].
    unfold key_le. simpl. intros e ?. lia.
  - rewrite !filter_cons. simpl. by case_decide; rewrite IH.
Qed.

Definition balanced (tr : list (Z * F)) s : Prop :=
  StronglySorted key_le s.(function_queue_) ∧
  s.(function_queue_) ++ s.(ran).*1 ≡ₚ tr.

Lemma balanced_step tr s l s' :
  balanced tr s → sstep s l s' →
  balanced (tr ++ match l with Scheduled e => [e] | Tau => [] end) s'.
Proof.
  intros [Hs Hp] [(t & _ & -> & ->)|[(f & t & -> & ->)|[(d & -> & ->)|
    [(i & p & -> & _ & _ & He)|(-> & _ & Hq & Hr & _)]]]]%sstep_cases;
    rewrite ?app_nil_r; try done.
  - split; simpl; [by apply emplace_sorted|]. rewrite emplace_perm, <- Hp. simpl.
    by rewrite <- Permutation_cons_append.
  - destruct He as [| | |t e q -> Ht Hq _]; [done..|]. unfold balanced in *. simpl.
    rewrite Hq in Hs, Hp. split; [by inversion Hs|].
    rewrite fmap_app. simpl. rewrite app_assoc, <- Hp. simpl.
    by rewrite <- Permutation_cons_append.
  - unfold balanced. by rewrite Hq, Hr.
Qed.

(** ** Threads *)
Definition is_exited (p : pc F) : bool := match p with Exited => true | _ => false end.
Definition alive s : nat := length (filter (λ p, is_exited p = false) s.(threads_)).

Lemma alive_insert (l : list (pc F)) i p p' :
  l !! i = Some p → p ≠ Exited →
  (length (filter (λ p, is_exited p = false) (<[i := p']> l)) + (if is_exited p' then 1 else 0)
   = length (filter (λ p, is_exited p = false) l))%nat.
Proof.
  intros Hi Hp. pose proof (lookup_lt_Some _ _ _ Hi).
  rewrite <- (take_drop_middle l i p Hi) at 2.
  rewrite insert_take_drop by done. rewrite !filter_app, !length_app.
  rewrite (filter_cons_True _ p) by (by destruct p).
  rewrite (filter_cons _ p'). destruct p'; simpl; lia.
Qed.

Lemma joined_alive s : joined s ↔ alive s = O.
Proof.
  unfold joined, alive. split.
  - intros Hj. rewrite filter_none; [done|]. eapply Forall_impl; [exact Hj|]. by intros p ->.
  - intros Ha. apply length_zero_iff_nil in Ha. apply Forall_forall. intros p Hp.
    destruct (is_exited p) eqn:E; [by destruct p|].
    assert (p ∈ filter (λ p, is_exited p = false) s.(threads_)) as Hin
      by (by apply list_elem_of_filter). rewrite Ha in Hin. by apply not_elem_of_nil in Hin.
Qed.

Definition counted (tr : list (Z * F)) s : Prop :=
  s.(aborted) = false →
  s.(thread_count_) = Z.of_nat (alive s) ∧
  (Exited ∈ s.(threads_) → s.(stop_requested_) = true ∨ s.(stop_when_empty_) = true).

Lemma exited_insert (l : list (pc F)) i p : Exited ∈ <[i := p]> l → p = Exited ∨ Exited ∈ l.
Proof.
  intros (j & Hj)%list_elem_of_lookup. destruct (decide (i = j)) as [<-|Hne].
  - left. destruct (decide (i < length l)%nat).
    + rewrite list_lookup_insert_eq in Hj by done. by simplify_eq.
    + rewrite list_insert_ge in Hj by lia. apply lookup_lt_Some in Hj. lia.
  - right. rewrite list_lookup_insert_ne in Hj by done. by eapply list_elem_of_lookup_2.
Qed.

Lemma counted_step tr s l s' :
  counted tr s → s.(aborted) = false → sstep s l s' →
  counted (tr ++ match l with Scheduled e => [e] | Tau => [] end) s'.
Proof.
  intros Hc Ha Hs Ha'. destruct (Hc Ha) as [Hn Hx]. clear Hc.
  apply sstep_cases in Hs as [(t & _ & -> & ->)|[(f & t & -> & ->)|[(d & -> & ->)|
    [(i & p & -> & Hi & Hp & He)|(-> & Hab & _)]]]]; [done..| | |congruence].
  - split; [done|]. simpl. intros Hin. destruct d; [by right|by left].
  - assert (∀ p', p' ≠ Exited → alive (set_pc i p' s) = alive s) as Hal.
    { intros p' Hp'. pose proof (alive_insert _ _ _ p' Hi Hp) as Hl. unfold alive. simpl.
      destruct p'; simpl in Hl; [lia..|done]. }
    destruct He as [Hq Hs1 Hs2|t f q Hq Hs1|Hs1|t e q -> Ht Hq Hs1].
    + split; [by rewrite Hal|]. simpl. intros [?|?]%exited_insert; [done|auto].
    + split; [by rewrite Hal|]. simpl. intros [?|?]%exited_insert; [done|auto].
    + pose proof (alive_insert _ _ _ Exited Hi Hp) as Hl. simpl in Hl.
      split; [simpl; unfold alive in *; simpl; lia|]. simpl. tauto.
    + split; [exact (eq_trans Hn (f_equal Z.of_nat (eq_sym (Hal (Running e) ltac:(done)))))|].
      simpl. intros [?|?]%exited_insert; [done|auto].
Qed.

(** ** One thread *)
Definition punctual s : Prop :=
  Forall (λ r, r.1.1 ≤ r.2) s.(ran) ∧
  ∃ p, s.(threads_) = [p] ∧
    ∀ t, p = WaitUntil t → ∃ e q, s.(function_queue_) = e :: q ∧ e.1 ≤ t.

Lemma emplace_head t f e q : ∃ e' q', emplace t f (e :: q) = e' :: q' ∧ e'.1 ≤ e.1.
Proof.
  destruct e as [t' f']. simpl. destruct (Z.ltb_spec t t'); do 2 eexists; split; try done; simpl; lia.
Qed.

Lemma punctual_step s l s' : punctual s → sstep s l s' → punctual s'.
Proof.
  intros [Hr (p & Hp & Hw)] [(t & _ & -> & ->)|[(f & t & -> & ->)|[(d & -> & ->)|
    [(i & p' & -> & Hi & Hne & He)|(-> & _ & Hq & Hr' & Ht)]]]]%sstep_cases.
  - split; [done|]. by exists p.
  - split; [done|]. exists p. split; [done|]. intros t' E. destruct (Hw t' E) as (e & q & Hq & Hle).
    simpl. rewrite Hq. destruct (emplace_head t f e q) as (e' & q' & -> & Hle'). do 2 eexists.
    split; [done|lia].
  - split; [done|]. by exists p.
  - rewrite Hp in Hi. destruct i; [|done]. simpl in Hi. simplify_eq.
    destruct He as [Hq Hs1 Hs2|t f q Hq Hs1|Hs1|t e q -> Ht Hq Hs1]; unfold punctual; simpl; rewrite Hp; simpl.
    + split; [done|]. by eexists.
    + split; [done|]. eexists. split; [done|]. intros t' [= <-]. do 2 eexists. split; [done|]. simpl. lia.
    + split; [done|]. by eexists.
    + split; [|by eexists]. apply Forall_app. split; [done|]. apply Forall_singleton. simpl.
      destruct (Hw t eq_refl) as (e' & q' & Hq' & Hle). rewrite Hq in Hq'. simplify_eq. lia.
  - unfold punctual. rewrite Hq, Hr', Ht. split; [done|]. by exists p.
Qed.

(** ** Stopping *)
Lemma stopping_effect s i p s' :
  s.(stop_requested_) = true → teffect s i p s' → s' = exit_thread i s.
Proof. intros Hs. destruct 1; congruence. Qed.

(** A thread that is not done can move: [WaitUntil] may wake early. *)
Lemma thread_can_step s i p :
  s.(threads_) !! i = Some p → p ≠ Exited → ∃ s', sstep s Tau s' ∧ teffect s i p s'.
Proof.
  intros Hi Hp. destruct p; [..|done]; eexists.
  - split; [by apply step_start|apply loop_head_effect].
  - split; [by apply step_wake_empty|apply loop_head_effect].
  - split; [by eapply step_wake_early|apply wake_early_effect].
  - split; [by eapply step_return|apply loop_test_effect].
Qed.

Lemma alive_thread s : alive s ≠ O → ∃ i p, s.(threads_) !! i = Some p ∧ p ≠ Exited.
Proof.
  intros Ha. destruct (filter (λ p, is_exited p = false) s.(threads_)) as [|p l] eqn:E.
  { by unfold alive in Ha; rewrite E in Ha. }
  assert (p ∈ filter (λ p, is_exited p = false) s.(threads_)) as Hin by (rewrite E; by left).
  apply list_elem_of_filter in Hin as [Hp (i & Hi)%list_elem_of_lookup].
  exists i, p. split; [done|]. by intros ->.
Qed.

Lemma stop_drains n s0 tr s :
  alive s = n → s.(stop_requested_) = true → s.(aborted) = false → sruns s0 tr s →
  ∃ s', sruns s0 tr s' ∧ joined s' ∧ s'.(aborted) = false ∧
    s'.(function_queue_) = s.(function_queue_).
Proof.
  revert s. induction n as [|n IH]; intros s Hn Hs Ha Hr.
  { exists s. split_and!; [done|by apply joined_alive|done..]. }
  destruct (alive_thread s) as (i & p & Hi & Hp); [lia|].
  destruct (thread_can_step s i p Hi Hp) as (s' & Hst & He).
  apply stopping_effect in He as ->; [|done].
  pose proof (alive_insert _ _ _ Exited Hi Hp) as Hl.
  edestruct (IH (exit_thread i s)) as (s' & ?); [| | | |by exists s']; [|done..|].
  - unfold alive in *. simpl in *. lia.
  - rewrite <- (app_nil_r tr). by eapply (runs_snoc _ _ _ Tau).
Qed.

End props.

(** C6: However the scheduler's threads, the clock and the callers interleave,
    the functions run so far together with those still queued are exactly the
    scheduled ones, each once, and the queue stays ordered by due time. *)
Theorem scheduler_neither_loses_nor_repeats {F} n clock (tr : list (Z * F)) s :
  sruns (new_scheduler n clock) tr s →
  s.(function_queue_) ++ s.(ran).*1 ≡ₚ tr ∧ StronglySorted key_le s.(function_queue_).
Proof.
  intros Hr. apply (sruns_inv balanced) in Hr as [Hs Hp]; [done|by split; [constructor|]|].
  intros. by eapply balanced_step.
Qed.

(** C23: A scheduler with one thread never runs a function before its due
    time. *)
Theorem scheduler_one_thread_is_punctual {F} clock (tr : list (Z * F)) s :
  sruns (new_scheduler 1 clock) tr s → Forall (λ r, r.1.1 ≤ r.2) s.(ran).
Proof.
  intros Hr. apply (sruns_inv (λ _, punctual)) in Hr as [Hs _]; [done| |].
  - split; [constructor|]. by eexists.
  - intros. by eapply punctual_step.
Qed.

(** A thread that leaves its loop without an immediate stop does so only
    in draining mode and only when everything that was scheduled has been run.
    *)
Lemma scheduler_drained_exit {F} n clock (tr : list (Z * F)) s l s' :
  sruns (new_scheduler n clock) tr s → sstep s l s' →
  (alive s' < alive s)%nat → s.(stop_requested_) = false →
  s.(stop_when_empty_) = true ∧ s'.(ran).*1 ≡ₚ tr.
Proof.
  intros Hr Hst Hlt Hns. apply (sruns_inv balanced) in Hr as [Hs Hp];
    [|by split; [constructor|]|intros; by eapply balanced_step].
  apply sstep_cases in Hst as [(t & _ & -> & ->)|[(f & t & -> & ->)|[(d & -> & ->)|
    [(i & p & -> & Hi & Hne & He)|(-> & _ & _ & _ & Ht)]]]];
    try (unfold alive in Hlt; simpl in Hlt; rewrite ?Ht in Hlt; lia).
  pose proof (λ p', alive_insert _ _ _ p' Hi Hne) as Hal. unfold alive in Hlt.
  destruct He as [Hq Hs1 Hs2|t f q Hq Hs1|[Hs1|[Hs1 Hq]]|t e q -> Ht Hq Hs1]; simpl in Hlt;
    [specialize (Hal WaitEmpty)|specialize (Hal (WaitUntil t))|congruence| |specialize (Hal (Running e))];
    simpl in *; try lia.
  split; [done|]. by rewrite <- Hp, Hq.
Qed.


(** Extend the run [H] by one step. *)
Tactic Notation "run_on" hyp(H) uconstr(st) :=
  match type of H with
  | sruns _ _ ?s =>
      let Hs := fresh in let H' := fresh in
      eassert (sstep s _ _) as Hs by (eapply st; first [reflexivity | simpl; lia]);
      pose proof (runs_snoc _ _ _ _ _ H eq_refl Hs) as H'; clear H Hs; rename H' into H;
      unfold Schedule in H; cbn in H
  end.

(** ** Two threads

    Both threads wait for the first entry; the one that times out second takes
    the next entry without looking at its time. *)
(** With two threads a function can run early: both wait for the first
    deadline, and the one that wakes second takes the next function, whatever
    its due time. *)
Lemma scheduler_two_threads_run_early {F} clock t1 t2 (f1 f2 : F) :
  clock ≤ t1 → t1 < t2 →
  ∃ s, sruns (new_scheduler 2 clock) [(t1, f1); (t2, f2)] s ∧ ((t2, f2), t1) ∈ s.(ran).
Proof.
  intros H1 H2. pose proof (runs_nil (new_scheduler 2 clock : Scheduler F)) as R.
  run_on R (step_schedule (new_scheduler 2 clock) f1 t1).
  run_on R (step_schedule _ f2 t2).
  rewrite (proj2 (Z.ltb_ge t2 t1)) in R by lia.
  run_on R (step_start _ 0).
  run_on R (step_start _ 1).
  run_on R (step_tick _ t1).
  run_on R (step_timeout _ 0 t1).
  run_on R (step_timeout _ 1 t1).
  eexists. split; [exact R|]. right. left.
Qed.

Lemma scheduler_two_threads_run_early_witness :
  ∃ s, sruns (new_scheduler 2 0) [(10, 1%nat); (1000, 2%nat)] s ∧ ((1000, 2%nat), 10) ∈ s.(ran).
Proof. apply scheduler_two_threads_run_early; lia. Defined.

(** ** Sample runs *)
Definition one_thread : Scheduler nat :=
  mkScheduler 1 [Running (5, 7%nat)] [] false false 9 [((5, 7%nat), 9)] false.

(** One thread, one entry due at time 5, served at time 9. *)
Lemma one_thread_run : sruns (new_scheduler 1 0) [(5, 7%nat)] one_thread.
Proof.
  pose proof (runs_nil (new_scheduler 1 0 : Scheduler nat)) as R.
  run_on R (step_start _ 0).
  run_on R (step_schedule _ 7%nat 5).
  run_on R (step_wake_empty _ 0).
  run_on R (step_tick _ 9).
  run_on R (step_timeout _ 0 5).
  exact R.
Qed.

Lemma scheduler_neither_loses_nor_repeats_witness :
  one_thread.(function_queue_) ++ one_thread.(ran).*1 ≡ₚ [(5, 7%nat)] ∧
  StronglySorted key_le one_thread.(function_queue_).
Proof. apply (scheduler_neither_loses_nor_repeats 1 0), one_thread_run. Defined.

Lemma scheduler_one_thread_is_punctual_witness :
  Forall (λ r, r.1.1 ≤ r.2) one_thread.(ran).
Proof. apply (scheduler_one_thread_is_punctual 0 [(5, 7%nat)]), one_thread_run. Defined.

(** The same thread, told to drain while it runs the entry. *)
Lemma drain_run :
  sruns (new_scheduler 1 0) [(5, 7%nat)] (Stop true one_thread).
Proof.
  pose proof one_thread_run as R. run_on R (step_stop one_thread true). exact R.
Qed.

Lemma scheduler_drained_exit_witness :
  (Stop true one_thread).(stop_when_empty_) = true ∧
  (exit_thread 0 (Stop true one_thread)).(ran).*1 ≡ₚ [(5, 7%nat)].
Proof.
  apply (scheduler_drained_exit 1 0 [(5, 7%nat)] (Stop true one_thread) Tau
    (exit_thread 0 (Stop true one_thread))); [apply drain_run| |vm_compute; lia|done].
  exact (step_return (Stop true one_thread) 0 (5, 7%nat) eq_refl).
Defined.

