(* ===== verification/Worker.v ===== *)
(** * Worker (thread/worker.h, .cc)

    A worker is an io_context served by one thread. A posted task is a value of
    a type [T], a periodic one of a type [P]; what running one does is the
    owner's code, a computation over the world [W] that holds the worker, its
    scheduler and the clock ([WorkerHost]). [boost::asio::dispatch] runs a task
    in place when the caller is the worker's own thread and queues it
    otherwise. *)

From stdpp Require Import base list strings gmap.
From Stdlib Require Import ZArith Lia.
From S2P Require Import Prelude Scheduler.

Local Open Scope Z_scope.

(** ** ScheduledTaskReference *)
Record ScheduledTaskReference := mkRef { cancelled_ : bool }.

Definition new_ref : ScheduledTaskReference := mkRef false.
Definition IsCancelled (r : ScheduledTaskReference) : bool := r.(cancelled_).
Definition Cancel (r : ScheduledTaskReference) : ScheduledTaskReference := mkRef true.

(** ** State *)
(** [work_thread_]: none yet, serving the io_context, run to completion, joined. *)
Inductive thread := NoThread | Serving | Finished | Joined.

#[global] Instance thread_eq_dec : EqDecision thread.
Proof. solve_decision. Defined.

(** What [ScheduleFromNow] is asked to run: a task, or one round of a periodic
    task with what its closure captured. *)
Inductive Timed (T P : Type) :=
  | TOnce (task : T)
  | TEvery (task : P) (start period nextDelay : Z).
Arguments TOnce {T P} task.
Arguments TEvery {T P} task start period nextDelay.

(** A function in the io_context: a posted task, or the wrapper that checks the
    reference [ref] first. *)
Inductive Job (T P : Type) :=
  | JTask (task : T)
  | JTimed (ref : nat) (task : Timed T P).
Arguments JTask {T P} task.
Arguments JTimed {T P} ref task.

(** [refs] holds the ScheduledTaskReference objects, a reference is an index. *)
Record Worker (T P : Type) := mkWorker {
  guard_ : bool;
  work_thread_ : thread;
  running_ : bool;
  ioc_ : list (Job T P);
  refs : list ScheduledTaskReference
}.
Arguments mkWorker {T P}.
Arguments guard_ {T P}.
Arguments work_thread_ {T P}.
Arguments running_ {T P}.
Arguments ioc_ {T P}.
Arguments refs {T P}.

Section worker.
Context {T P : Type}.
Implicit Types k : Worker T P.

Definition new_worker : Worker T P := mkWorker false NoThread false [] [].

(** ** Start and Stop *)
Definition Start k : Worker T P :=
  if k.(running_) then k else mkWorker true Serving true k.(ioc_) k.(refs).

(** [Stop] up to [join]: the thread now leaves [run()] when it is out of work. *)
Definition Stop k : Worker T P :=
  if negb k.(running_) then k
  else mkWorker false k.(work_thread_) false k.(ioc_) k.(refs).

(** [join] returns once the thread has left [run()]. *)
Definition Stop_join k : Worker T P :=
  match k.(work_thread_) with
  | Finished => mkWorker k.(guard_) Joined k.(running_) k.(ioc_) k.(refs)
  | _ => k
  end.

Definition Running k : bool := k.(running_).

(** [io_context::run] returns when the work guard is gone and nothing is queued. *)
Definition thread_exit k : Worker T P :=
  match k.(work_thread_), k.(guard_), k.(ioc_) with
  | Serving, false, [] => mkWorker false Finished k.(running_) [] k.(refs)
  | _, _, _ => k
  end.

Definition push (j : Job T P) k : Worker T P :=
  mkWorker k.(guard_) k.(work_thread_) k.(running_) (k.(ioc_) ++ [j]) k.(refs).

Definition pop k : option (Job T P * Worker T P) :=
  match k.(work_thread_), k.(ioc_) with
  | Serving, j :: js => Some (j, mkWorker k.(guard_) Serving k.(running_) js k.(refs))
  | _, _ => None
  end.

Definition set_refs l k : Worker T P :=
  mkWorker k.(guard_) k.(work_thread_) k.(running_) k.(ioc_) l.

End worker.

(** ** The world of a worker *)
Class WorkerStore (W T P : Type) := {
  wk_get : W → Worker T P;
  wk_set : Worker T P → W → W;
  (* scheduler_.lock() *)
  sched_get : W → option (Scheduler (nat * Timed T P));
  sched_set : Scheduler (nat * Timed T P) → W → W;
  (* steady_clock::now(), in nanoseconds *)
  read_clock : ST W Z
}.

Class WorkerHost (W T P : Type) := {
  wk_store :: WorkerStore W T P;
  exec : T → ST W unit;
  exec_period : P → ST W bool
}.

Section interface.
Context {W T P : Type} {St : WorkerStore W T P}.

Definition upd_worker (f : Worker T P → Worker T P) : ST W unit :=
  modify (λ w, wk_set (f (wk_get w)) w).

(** [dispatch]: [run] is what running the task does, if the caller is the
    worker's thread ([on_worker]). *)
Definition PostTask (on_worker : bool) (run : ST W unit) (task : T) : ST W unit :=
  if on_worker then run else upd_worker (push (JTask task)).

(** [duration_cast<milliseconds>] of nanoseconds truncates toward zero. *)
Definition to_ms (duration : Z) : Z := Z.quot duration 1000000.

(** The reference returned: [None] is the null pointer. *)
Definition ScheduleFromNow (task : Timed T P) (duration : Z) : ST W (option nat) :=
  ref ← gets (λ w, length (wk_get w).(refs));
  upd_worker (λ k, set_refs (k.(refs) ++ [new_ref]) k) ;;
  scheduler ← gets sched_get;
  match scheduler with
  | None => mret (Some ref)
  | Some s =>
      modify (sched_set (Scheduler.ScheduleFromNow (ref, task) (to_ms duration) s)) ;;
      mret None
  end.

Definition Unschedule (ref : option nat) : ST W unit :=
  match ref with
  | None => lift (Undef NullDeref)
  | Some r => upd_worker (λ k, set_refs (alter Cancel r k.(refs)) k)
  end.

(** The overload with a [nextDelay]. *)
Definition ScheduleEvery_next (task : P) (period nextDelay : Z) : ST W unit :=
  start ← read_clock;
  ScheduleFromNow (TEvery task start period nextDelay) (Z.max nextDelay 0) ;;
  mret tt.

Definition ScheduleEvery (task : P) (duration : Z) : ST W unit :=
  ScheduleEvery_next task duration duration.

(** The scheduler's function: it posts the wrapper from a scheduler thread, if
    the worker still exists. *)
Definition fire (alive : bool) (f : nat * Timed T P) : ST W unit :=
  if alive then upd_worker (push (JTimed f.1 f.2)) else mret tt.

End interface.

Section running.
Context {W T P : Type} {H : WorkerHost W T P}.

(** The body of a function given to [ScheduleFromNow]. *)
Definition run_timed (t : Timed T P) : ST W unit :=
  match t with
  | TOnce task => exec task
  | TEvery task start period nextDelay =>
      try_catch
        (again ← exec_period task;
         if again : bool then
           now ← read_clock;
           let delay := period - (now - start - nextDelay) in
           ScheduleEvery_next task period delay
         else mret tt)
        (λ _, mret tt)
  end.

Definition ref_cancelled (ref : nat) (k : Worker T P) : bool :=
  match k.(refs) !! ref with Some r => IsCancelled r | None => false end.

Definition run_job (j : Job T P) : ST W unit :=
  match j with
  | JTask task => exec task
  | JTimed ref task =>
      cancelled ← gets (λ w, ref_cancelled ref (wk_get w));
      if cancelled : bool then mret tt
      else try_catch (run_timed task) (λ _, mret tt)
  end.

(** The worker's thread runs the next function; an exception leaves [run()]. *)
Definition run_next : ST W unit :=
  k ← gets wk_get;
  match pop k with
  | None => mret tt
  | Some (j, k') => modify (wk_set k') ;; run_job j
  end.

End running.

(** A closure guarded by a weak pointer to its object
    ([Worker::SafeTask], [LicodeRoom::SafeTask]). *)
Definition SafeTask {W} (alive : bool) (f : ST W unit) : ST W unit :=
  if alive then f else mret tt.
