(* ===== verification/ThreadPool.v ===== *)
(** * ThreadPool (thread/thread_pool.h, .cc)

    A vector of workers that share one scheduler. A worker is a location; the
    pool's model keeps how many other owners each worker's shared pointer has,
    because [GetLessUsedWorker] compares [use_count]s, its own local pointer
    included. *)

From stdpp Require Import base list strings gmap.
From Stdlib Require Import ZArith Lia.
From S2P Require Import Prelude Scheduler Worker.

Local Open Scope Z_scope.

Section pool.
Context {T P : Type}.

(** A worker of the pool and the number of shared pointers to it held outside
    the pool (rooms, sessions, callers). *)
Record PoolWorker := mkPoolWorker { pw_worker : Worker T P; pw_others : nat }.

(** [scheduler_]: the pool's own (with its thread count) or a shared one. *)
Record ThreadPool := mkPool {
  workers_ : list PoolWorker;
  scheduler_ : option (Scheduler (nat * Timed T P))
}.

(** [ThreadPool(int count)]: a scheduler with two threads of its own. *)
Definition new_pool (count : nat) (clock : Z) : ThreadPool :=
  mkPool (replicate count (mkPoolWorker new_worker 0)) (Some (new_scheduler 2 clock)).

(** [ThreadPool(scheduler, count)] *)
Definition new_pool_with (scheduler : option (Scheduler (nat * Timed T P))) (count : nat)
    : ThreadPool :=
  mkPool (replicate count (mkPoolWorker new_worker 0)) scheduler.

Definition on_workers (f : Worker T P → Worker T P) (p : ThreadPool) : ThreadPool :=
  mkPool ((λ w, mkPoolWorker (f w.(pw_worker)) w.(pw_others)) <$> p.(workers_)) p.(scheduler_).

Definition Start : ThreadPool → ThreadPool := on_workers Worker.Start.

(** Each worker's [Stop] in turn; [Stop_join] of it is the wait for its thread. *)
Definition Stop : ThreadPool → ThreadPool := on_workers Worker.Stop.

(** [use_count()] while the local [better] points to worker [b]: the pool's
    pointer, the owners outside, and [better] itself. *)
Definition use_count (ws : list PoolWorker) (b i : nat) : nat :=
  (1 + from_option pw_others 0 (ws !! i) + if decide (b = i) then 1 else 0)%nat.

(** The loop of [GetLessUsedWorker] from worker [i] on. *)
Fixpoint scan_workers (ws : list PoolWorker) (fuel i better : nat) : nat :=
  match fuel with
  | O => better
  | S f =>
      let better' := if decide (use_count ws better i < use_count ws better better)%nat
                     then i else better in
      scan_workers ws f (S i) better'
  end.

(** The index of the worker returned; [front()] of an empty vector is
    undefined. *)
Definition GetLessUsedWorker (p : ThreadPool) : outcome nat :=
  match p.(workers_) with
  | [] => Undef EmptyFront
  | _ :: _ => Ret (scan_workers p.(workers_) (length p.(workers_)) 0 0)
  end.

(** ** Properties *)
Definition others (ws : list PoolWorker) (i : nat) : nat := from_option pw_others 0%nat (ws !! i).

(** Among the workers before [n], [b] has the fewest owners, and the last such. *)
Definition last_min (ws : list PoolWorker) (n b : nat) : Prop :=
  (∀ j, (j < n)%nat → (others ws b ≤ others ws j)%nat) ∧
  (∀ j, (b < j < n)%nat → (others ws b < others ws j)%nat).

Lemma scan_workers_last_min ws fuel i better :
  (better < length ws)%nat → (i + fuel = length ws)%nat →
  last_min ws i better ∧ (better < i ∨ better = 0 ∧ i = 0)%nat →
  last_min ws (length ws) (scan_workers ws fuel i better) ∧
  (scan_workers ws fuel i better < length ws)%nat.
Proof.
  revert i better. induction fuel as [|f IH]; intros i better Hb Hi [[Hmin Hlast] Hle]; simpl.
  { replace (length ws) with i by lia. split; [done|lia]. }
  assert (∀ j, use_count ws better j = 1 + others ws j + if decide (better = j) then 1 else 0)%nat
    as Hu by done.
  rewrite !Hu, (decide_True (P := better = better)) by done.
  repeat case_decide; try lia; apply IH; try lia; (split; [|lia]);
    split; intros j Hj; pose proof (Hmin j); pose proof (Hlast j);
    destruct (decide (j = i)) as [->|]; lia.
Qed.

End pool.
Arguments PoolWorker : clear implicits.
Arguments ThreadPool : clear implicits.

(** In a pool that is not empty GetLessUsedWorker returns a worker of the
    pool that has the fewest holders outside the pool, the last one of those
    when several do. *)
Lemma pool_picks_less_used {T P} (p : ThreadPool T P) :
  p.(workers_) ≠ [] →
  ∃ i, GetLessUsedWorker p = Ret i ∧ (i < length p.(workers_))%nat ∧
  (∀ j, (j < length p.(workers_))%nat → (others p.(workers_) i ≤ others p.(workers_) j)%nat) ∧
  (∀ j, (i < j < length p.(workers_))%nat → (others p.(workers_) i < others p.(workers_) j)%nat).
Proof.
  unfold GetLessUsedWorker. destruct (workers_ p) as [|w ws] eqn:E; [done|]. intros _.
  destruct (scan_workers_last_min (w :: ws) (length (w :: ws)) 0 0) as [[? ?] ?];
    [simpl; lia|simpl; lia| |by eexists].
  split; [split; intros; lia|auto].
Qed.

(** Three workers; the first two are used by one room each. *)
Lemma pool_picks_less_used_witness :
  let p := mkPool [mkPoolWorker (@new_worker nat nat) 1; mkPoolWorker new_worker 1;
                   mkPoolWorker new_worker 0] None in
  GetLessUsedWorker p = Ret 2%nat ∧
  ∃ i, GetLessUsedWorker p = Ret i ∧ (others p.(workers_) i ≤ others p.(workers_) 0)%nat.
Proof.
  intros p. split; [by vm_compute|].
  destruct (pool_picks_less_used p) as (i & Hi & _ & Hmin & _); [done|].
  exists i. split; [exact Hi|]. apply Hmin. simpl. lia.
Defined.
