(* ===== verification/LicodeData.v ===== *)
(** * The client's data

    LicodeStreamInfo, LicodeToken, IceServer, LicodeRoomInfo and the event
    types (core/licode_stream_info.h, licode_token.h, ice_server.h,
    licode_room_info.h, licode_event.h). *)

From stdpp Require Import base list strings gmap.
From Stdlib Require Import Ascii ZArith Lia.
From S2P Require Import Prelude CppString.

Local Open Scope Z_scope.

(** ** LicodeStreamInfo *)
Module StreamInfo.

Record LicodeStreamInfo := mkInfo {
  id_ : Z;
  has_video_ : bool;
  has_audio_ : bool;
  has_data_ : bool;
  label_ : str;
  screen_ : bool;
  attributes_ : str;
  connection_id_ : str;
  connected_ : bool
}.

#[global] Instance info_eq_dec : EqDecision LicodeStreamInfo.
Proof. solve_decision. Defined.

(** The constructor with an id. *)
Definition make (id : Z) (hasVideo hasAudio hasData : bool) (label : str) (screen : bool)
    (attributes : str) : LicodeStreamInfo :=
  mkInfo id hasVideo hasAudio hasData label screen attributes [] false.

(** The constructor for a local stream: it passes [hasAudio] twice. *)
Definition make_local (hasVideo hasAudio hasData : bool) (label : str) (screen : bool)
    (attributes : str) : LicodeStreamInfo :=
  make 0 hasAudio hasAudio hasData label screen attributes.

Definition make_default : LicodeStreamInfo := make 0 false false false [] false [].

Definition SetId (id : Z) (i : LicodeStreamInfo) : LicodeStreamInfo :=
  mkInfo id i.(has_video_) i.(has_audio_) i.(has_data_) i.(label_) i.(screen_) i.(attributes_)
    i.(connection_id_) i.(connected_).
Definition Id (i : LicodeStreamInfo) : Z := i.(id_).
Definition Label (i : LicodeStreamInfo) : str := i.(label_).
Definition HasVideo (i : LicodeStreamInfo) : bool := i.(has_video_).
Definition HasAudio (i : LicodeStreamInfo) : bool := i.(has_audio_).
Definition HasData (i : LicodeStreamInfo) : bool := i.(has_data_).
Definition screen (i : LicodeStreamInfo) : bool := i.(screen_).
Definition Attributes (i : LicodeStreamInfo) : str := i.(attributes_).
Definition SetConnectionId (connId : str) (i : LicodeStreamInfo) : LicodeStreamInfo :=
  mkInfo i.(id_) i.(has_video_) i.(has_audio_) i.(has_data_) i.(label_) i.(screen_) i.(attributes_)
    connId i.(connected_).
Definition ConnectionId (i : LicodeStreamInfo) : str := i.(connection_id_).
Definition SetConnected (connect : bool) (i : LicodeStreamInfo) : LicodeStreamInfo :=
  mkInfo i.(id_) i.(has_video_) i.(has_audio_) i.(has_data_) i.(label_) i.(screen_) i.(attributes_)
    i.(connection_id_) connect.
Definition Connected (i : LicodeStreamInfo) : bool := i.(connected_).

End StreamInfo.

(** ** LicodeToken *)
Module Token.

Record LicodeToken := mkToken {
  tokenId : str;
  host : str;
  secure : bool;
  signature : str
}.

#[global] Instance token_eq_dec : EqDecision LicodeToken.
Proof. solve_decision. Defined.

(** [operator==] and [operator!=] *)
Definition token_eq (lhs rhs : LicodeToken) : bool :=
  bool_decide (lhs.(tokenId) = rhs.(tokenId)) && bool_decide (lhs.(host) = rhs.(host)) &&
  Bool.eqb lhs.(secure) rhs.(secure) && bool_decide (lhs.(signature) = rhs.(signature)).
Definition token_ne (lhs rhs : LicodeToken) : bool := negb (token_eq rhs lhs).

Definition Isvalid (t : LicodeToken) : bool :=
  negb (bool_decide (t.(tokenId) = [])) && negb (bool_decide (t.(host) = [])) &&
  negb (bool_decide (t.(signature) = [])).

End Token.

(** ** IceServer *)
Module Ice.

Record IceServer := mkIce { url : str; username : str; credential : str }.

#[global] Instance ice_eq_dec : EqDecision IceServer.
Proof. solve_decision. Defined.

Definition ice_eq (lhs rhs : IceServer) : bool :=
  bool_decide (lhs.(url) = rhs.(url)) && bool_decide (lhs.(username) = rhs.(username)) &&
  bool_decide (lhs.(credential) = rhs.(credential)).
Definition ice_ne (lhs rhs : IceServer) : bool := negb (ice_eq rhs lhs).

End Ice.

(** ** LicodeRoomInfo *)
Module RoomInfo.

Record LicodeRoomInfo := mkRoomInfo {
  id_ : str;
  name_ : str;
  data_ : str;
  media_configuration_ : str;
  p2p_ : bool
}.

Definition Id (r : LicodeRoomInfo) : str := r.(id_).
Definition Name (r : LicodeRoomInfo) : str := r.(name_).
Definition Data (r : LicodeRoomInfo) : str := r.(data_).
Definition MediaConfiguration (r : LicodeRoomInfo) : str := r.(media_configuration_).
Definition P2p (r : LicodeRoomInfo) : bool := r.(p2p_).

End RoomInfo.

(** ** LicodeEvent and the types derived from it *)
Module Event.

Record LicodeEvent := mkEvent { type : str }.

Inductive AnyEvent :=
  | ConnectionEvent (e : LicodeEvent)
  | RoomEvent (e : LicodeEvent)
  | StreamEvent (e : LicodeEvent)
  | PublisherEvent (e : LicodeEvent).

End Event.

(** ** Properties *)
Lemma token_eq_spec a b : Token.token_eq a b = true ↔ a = b.
Proof.
  unfold Token.token_eq. rewrite !andb_true_iff, !bool_decide_eq_true, eqb_true_iff.
  destruct a, b; simpl. naive_solver.
Qed.

Lemma ice_eq_spec a b : Ice.ice_eq a b = true ↔ a = b.
Proof.
  unfold Ice.ice_eq. rewrite !andb_true_iff, !bool_decide_eq_true.
  destruct a, b; simpl. naive_solver.
Qed.

(** The local-stream constructor loses [hasVideo]. *)
Lemma local_stream_video_follows_audio v a d l s at_ :
  StreamInfo.HasVideo (StreamInfo.make_local v a d l s at_) = a ∧
  StreamInfo.HasVideo (StreamInfo.make 0 v a d l s at_) = v.
Proof. done. Qed.

Lemma data_equality_is_structural a b i j :
  (Token.token_eq a b = true ↔ a = b) ∧ (Token.token_ne a b = true ↔ a ≠ b) ∧
  (Ice.ice_eq i j = true ↔ i = j) ∧ (Ice.ice_ne i j = true ↔ i ≠ j).
Proof.
  unfold Token.token_ne, Ice.ice_ne. rewrite !negb_true_iff, <- !not_true_iff_false.
  rewrite !token_eq_spec, !ice_eq_spec. split_and!; split; congruence.
Qed.
