(* ===== verification/NuveApi.v ===== *)
(** * core/licode_nuve_api.{h,cc}: LicodeNuveApi

    The REST client of the Nuve server: how a request is built and signed, and
    what each call makes of the answer. HMAC-SHA1, the boost base64 iterators,
    the clock, the random engine and the network are not part of the
    repository: they are the operations of the classes [Crypto] and [Net]. The
    exchange itself is HttpSession.v. *)

From stdpp Require Import base list strings gmap.
From Stdlib Require Import Ascii ZArith Lia.
From S2P Require Import Prelude CppString StdContainers HttpUrl HttpUrlProps HttpRequest.
From S2P Require Import Base64 HttpSession Json JsonModel LicodeData.

Local Open Scope Z_scope.

(** ** What the code calls *)
Class Crypto := {
  hmac_sha1 : str → str → str;                 (* hmac<SHA1>(data, key), in hex *)
  base64_from_binary : str → str;              (* over transform_width<..., 6, 8> *)
  binary_from_base64 : str → outcome str       (* under transform_width<..., 8, 6>, throws *)
}.

(** Documented: the adaptors regroup the bits, without padding. *)
Class CryptoLaws (C : Crypto) := {
  base64_regroups s : base64_from_binary s = b64_digits s
}.

Class Net {B : Beast} := {
  now_ms : Z;                                  (* system_clock, in milliseconds *)
  random_value : Z;                            (* default_random_engine(rd())() *)
  beast_version : str;                         (* BOOST_BEAST_VERSION_STRING *)
  exchange : Request.HttpRequest → Http.response
}.

(** [try { m } catch (const std::exception&) { return h }] *)
Definition or_else {A} (m : outcome A) (h : A) : outcome A :=
  match m with Throw _ => Ret h | r => r end.

Lemma or_else_no_throw {A} (m : outcome A) h e : or_else m h ≠ Throw e.
Proof. by destruct m. Qed.

Module Nuve.

Record LicodeNuveApi := mkNuve {
  service_id_ : str;
  key_ : str;
  url_ : str;
  port_ : Z
}.

(** The port parameter is an [int16_t]. *)
Definition new_api (serviceId key url : str) (port : Z) : LicodeNuveApi :=
  mkNuve serviceId key url (i16 port).

Definition baseHeader : str :=
  $"MAuth realm=http://marte3.dit.upm.es,mauth_signature_method=HMAC_SHA1".

Section nuve.
Context {B : Beast} {C : Crypto} {N : Net} {J : JsonLib}.

Definition CalculateSignature (toSign key : str) : str :=
  let hash := hmac_sha1 toSign key in
  base64_from_binary hash ++ replicate (Z.to_nat (equal_count (size hash))) "="%char.

(** The text that is signed, and the Authorization header around it. *)
Definition to_sign (userName role : str) : str :=
  to_string now_ms ++ $"," ++ to_string random_value ++
  (if decide (userName ≠ [] ∧ role ≠ []) then $"," ++ userName ++ $"," ++ role else []).

Definition auth_header (api : LicodeNuveApi) (userName role : str) : str :=
  baseHeader ++
  (if decide (userName ≠ [] ∧ role ≠ [])
   then $",,mauth_username=" ++ userName ++ $",,,mauth_role=" ++ role else []) ++
  $",mauth_serviceid=" ++ api.(service_id_) ++
  $",mauth_cnonce=" ++ to_string random_value ++
  $",mauth_timestamp=" ++ to_string now_ms ++
  $",mauth_signature=" ++ CalculateSignature (to_sign userName role) api.(key_).

Definition request_url (api : LicodeNuveApi) (target : str) : str :=
  $"http://" ++ api.(url_) ++ $":" ++ to_string api.(port_) ++ target.

(** [SyncRequest] up to the exchange. *)
Definition build_request (api : LicodeNuveApi) (method body target userName role : str)
    : ST Request.HttpRequest unit :=
  Request.SetUrl_string (request_url api target) ;;
  Request.SetMethod method ;;
  Request.SetVersion kHTTP_1_1 ;;
  Request.AddHeader $"User-Agent" beast_version ;;
  Request.AddHeader $"Authorization" (auth_header api userName role) ;;
  Request.AddHeader $"Content-Type" $"application/json" ;;
  (if decide (method ≠ $"GET" ∧ body ≠ []) then Request.SetBody body else mret tt) ;;
  Request.PreparePayload.

Definition SyncRequest (api : LicodeNuveApi) (method body target userName role : str)
    : outcome str :=
  let '(o, request) := build_request api method body target userName role Request.new in
  _ ← o;
  Ret (Http.text_of (exchange request)).

(** What the calls read from an answer. *)
Definition read_room (response : json) : outcome RoomInfo.LicodeRoomInfo :=
  id ← j_value_string response $"_id" [];
  name ← j_value_string response $"name" [];
  data ← j_value_string response $"data" [];
  media ← j_value_string response $"mediaConfiguration" [];
  p2p ← j_value_bool response $"p2p" false;
  Ret (RoomInfo.mkRoomInfo id name data media p2p).

(** The argument [mediaConfiguration] is not used. *)
Definition room_body (name mediaConfiguration roomData : str) (p2p : bool) : outcome json :=
  body ← j_set_key json_null $"name" (of_string name);
  options ← j_set_key json_null $"mediaConfiguration" (of_string $"default");
  options ← j_set_key options $"data" (of_string roomData);
  options ← (if p2p then j_set_key options $"p2p" (of_bool true) else Ret options);
  j_set_key body $"options" options.

Definition SyncCreateRoom (api : LicodeNuveApi) (name mediaConfiguration roomData : str) (p2p : bool)
    : outcome (option RoomInfo.LicodeRoomInfo) :=
  body ← room_body name mediaConfiguration roomData p2p;
  text ← j_dump body;
  result ← SyncRequest api $"POST" text $"/rooms" [] [];
  if decide (result = []) then Ret None
  else or_else (response ← j_parse result; room ← read_room response; Ret (Some room)) None.

Definition SyncDestroyRoom (api : LicodeNuveApi) (roomId : str) : outcome bool :=
  result ← SyncRequest api $"DELETE" [] ($"/rooms/" ++ roomId) [] [];
  Ret (bool_decide (result = $"Room deleted")).

Definition SyncGetRoom (api : LicodeNuveApi) (roomId : str)
    : outcome (option RoomInfo.LicodeRoomInfo) :=
  result ← SyncRequest api $"GET" [] ($"/rooms/" ++ roomId) [] [];
  if decide (result = []) then Ret None
  else or_else (response ← j_parse result; room ← read_room response; Ret (Some room)) None.

Definition read_token (token : json) : outcome Token.LicodeToken :=
  signature ← j_value_string token $"signature" [];
  host ← j_value_string token $"host" [];
  tokenId ← j_value_string token $"tokenId" [];
  secure ← j_value_bool token $"secure" false;
  Ret (Token.mkToken tokenId host secure signature).

(** The answer is decoded before the [try]. *)
Definition SyncCreateToken (api : LicodeNuveApi) (roomId userName role : str)
    : outcome (option Token.LicodeToken) :=
  result ← SyncRequest api $"POST" [] ($"/rooms/" ++ roomId ++ $"/tokens") userName role;
  if decide (result = []) then Ret None
  else
    dec ← binary_from_base64 result;
    or_else (token ← j_parse dec; t ← read_token token; Ret (Some t)) None.

(** One element of the list: [room[...]] on a value that is not const inserts
    a null for a missing key, and the element is changed. *)
Definition read_listed_room (room : json) : outcome RoomInfo.LicodeRoomInfo :=
  '(n, room) ← j_key room $"name";
  _ ← (if j_is_string n then j_value_string room $"name" [] else Ret []);
  '(d, room) ← j_key room $"data";
  data ← (if j_is_null d then Ret []
          else if j_is_object d then j_dump d else get_string d);
  '(m, room) ← j_key room $"mediaConfiguration";
  media ← (if j_is_null m then Ret [] else get_string m);
  id ← j_value_string room $"_id" [];
  name ← j_value_string room $"name" [];
  Ret (RoomInfo.mkRoomInfo id name data media false).

Definition SyncListRoom (api : LicodeNuveApi)
    : outcome (option (list RoomInfo.LicodeRoomInfo)) :=
  result ← SyncRequest api $"GET" [] $"/rooms" [] [];
  if decide (result = []) then Ret None
  else or_else
    (response ← j_parse result;
     rooms ← map_outcome read_listed_room (j_elems response);
     Ret (Some rooms)) None.

End nuve.
End Nuve.

Import Nuve.

(** ** Properties *)

(** C18: A signature is the RFC 4648 base64 text of the HMAC: the regrouped
    bits followed by the padding the code appends are the block-wise encoding,
    whatever the length of the digest. *)
Theorem nuve_signature_is_base64 {C : Crypto} {CL : CryptoLaws C} toSign key :
  CalculateSignature toSign key = rfc4648 (hmac_sha1 toSign key).
Proof. unfold CalculateSignature. rewrite base64_regroups. apply b64_padded. Qed.


(** ** The request on the wire *)

(** Beast knows the methods and the header names the client uses. *)
Class BeastKnows (B : Beast) := {
  known_method m : m ∈ [$"GET"; $"POST"; $"DELETE"] → string_to_verb m ≠ verb_unknown;
  known_field f : f ∈ [$"User-Agent"; $"Authorization"; $"Content-Type"] →
    string_to_field f ≠ field_unknown
}.

Section wire.
Context {B : Beast} {BK : BeastKnows B} {C : Crypto} {N : Net}.

Definition with_header (name value : str) (r : request) : request :=
  req_set (string_to_field name) value r.

Lemma AddHeader_known name value r :
  name ∈ [$"User-Agent"; $"Authorization"; $"Content-Type"] → value ≠ [] →
  Request.AddHeader name value r = (Ret tt, Request.on_request (with_header name value) r).
Proof.
  intros Hn Hv. unfold Request.AddHeader. rewrite decide_False.
  - by rewrite decide_False by by apply known_field.
  - intros [->|?]; [|done]. rewrite !elem_of_cons in Hn.
    by destruct Hn as [?|[?|[?|[]%not_elem_of_nil]]].
Qed.

Lemma SetMethod_known m r :
  m ∈ [$"GET"; $"POST"; $"DELETE"] →
  Request.SetMethod m r = (Ret tt, Request.on_request (req_method (string_to_verb m)) r).
Proof.
  intros Hm. unfold Request.SetMethod. rewrite decide_False.
  - by rewrite decide_False by by apply known_method.
  - intros ->. rewrite !elem_of_cons in Hm.
    by destruct Hm as [?|[?|[?|[]%not_elem_of_nil]]].
Qed.

(** The request as it is sent. *)
Definition sent (api : LicodeNuveApi) (b : Builder.Builder) (m body userName role : str)
    (r : request) : request :=
  req_prepare_payload
    ((if decide (m ≠ $"GET" ∧ body ≠ []) then req_body body else id)
      (with_header $"Content-Type" $"application/json"
        (with_header $"Authorization" (auth_header api userName role)
          (with_header $"User-Agent" beast_version
            (req_version 11 (req_method (string_to_verb m)
              (req_target (path_and_tail b) (req_set field_host b.(Builder.host_) r)))))))).

Lemma build_request_sent api b m body target userName role r :
  canonical b → Builder.ToString b = request_url api target →
  m ∈ [$"GET"; $"POST"; $"DELETE"] → beast_version ≠ [] →
  build_request api m body target userName role r =
  (Ret tt, Request.mkRequest (Url.Build b) (sent api b m body userName role r.(Request.request_))).
Proof.
  intros Hb Hu Hm Hv. unfold build_request.
  erewrite ST_bind_Ret; [|rewrite <- Hu, SetUrl_string_canonical by done;
    by apply SetUrl_canonical].
  erewrite ST_bind_Ret; [|by apply SetMethod_known].
  erewrite ST_bind_Ret; [|reflexivity].
  erewrite ST_bind_Ret; [|apply AddHeader_known; [set_solver|done]].
  erewrite ST_bind_Ret; [|apply AddHeader_known; [set_solver|done]].
  erewrite ST_bind_Ret; [|apply AddHeader_known; [set_solver|done]].
  unfold sent. by destruct (decide _).
Qed.

End wire.


(** ** Listing rooms *)
Lemma defined_bind {A X} (m : outcome A) (f : A → outcome X) :
  defined m = true → (∀ a, defined (f a) = true) → defined (m ≫= f) = true.
Proof. destruct m; simpl; auto. Qed.

Lemma map_outcome_throw {A X} (f : A → outcome X) l x e :
  (∀ y, defined (f y) = true) → x ∈ l → f x = Throw e → ∃ e', map_outcome f l = Throw e'.
Proof.
  intros Hu Hx Hf. induction l as [|z l IH]; [by apply not_elem_of_nil in Hx|]. simpl.
  specialize (Hu z). destruct (f z) as [v|e'|u] eqn:Ez; simpl; [|eauto|done].
  apply elem_of_cons in Hx as [->|Hx]; [congruence|].
  destruct (IH Hx) as [e' ->]. simpl. eauto.
Qed.

Lemma jv_value_defined {A} (conv : jv → outcome A) j k d :
  (∀ v, defined (conv v) = true) → defined (jv_value conv j k d) = true.
Proof. intros H. destruct j; simpl; try done. by case_match. Qed.

Lemma read_listed_room_defined (room : jv) :
  defined (read_listed_room (J := model_json) room) = true.
Proof.
  assert (∀ v, defined (jv_string v) = true) as Hs by by intros [].
  assert (∀ j k, defined (j_key (JsonLib := model_json) j k) = true) as Hk.
  { intros j k. apply defined_bind; [by destruct j|]. intros m. by case_match. }
  assert (∀ j k, defined (jv_value jv_string j k []) = true) as Hv
    by (intros; by apply jv_value_defined).
  unfold read_listed_room.
  apply defined_bind; [apply Hk|intros [n r1]]. apply defined_bind; [case_match; [apply Hv|done]|intros _].
  apply defined_bind; [apply Hk|intros [d r2]].
  apply defined_bind; [by repeat case_match; try apply Hs|intros data].
  apply defined_bind; [apply Hk|intros [md r3]].
  apply defined_bind; [by case_match; try apply Hs|intros media].
  apply defined_bind; [apply Hv|intros id]. by apply defined_bind; [apply Hv|].
Qed.

Lemma model_key m k v r :
  j_key (JsonLib := model_json) (JObj m) k = Ret (v, r) →
  ∃ m', r = JObj m' ∧ map_find k m' = Some (default JNull (map_find k m)) ∧
    ∀ k', k' ≠ k → map_find k' m' = map_find k' m.
Proof.
  simpl. destruct (map_find k m) eqn:E; intros H; inv_out; eauto.
  eexists. split_and!; [done| |intros; by apply map_emplace_find_ne].
  apply map_emplace_find. by apply map_find_None.
Qed.

(** The null [room["name"]] leaves behind cannot be read as a string. *)
Lemma read_nameless_room m :
  map_find $"name" m = None →
  ∃ e, read_listed_room (J := model_json) (JObj m) = Throw e.
Proof.
  intros Hm. pose proof (read_listed_room_defined (JObj m)) as Hd.
  destruct (read_listed_room _) as [r|e|u] eqn:E; [exfalso|eauto|done]. clear Hd.
  unfold read_listed_room in E.
  apply outcome_bind_inv in E as ([n r1] & (m1 & -> & H1 & _)%model_key & E). rewrite Hm in H1.
  apply outcome_bind_inv in E as (? & _ & E).
  apply outcome_bind_inv in E as ([d r2] & (m2 & -> & _ & H2)%model_key & E).
  apply outcome_bind_inv in E as (? & _ & E).
  apply outcome_bind_inv in E as ([md r3] & (m3 & -> & _ & H3)%model_key & E).
  apply outcome_bind_inv in E as (? & _ & E).
  apply outcome_bind_inv in E as (? & _ & E).
  apply outcome_bind_inv in E as (nm & E & _).
  cbn [j_value_string model_json jv_value] in E.
  by rewrite H3, H2, H1 in E by done.
Qed.

(** One room without a name makes the whole listing fail, although the
    loop tests whether the name is a string: the test itself has inserted a
    null, which the read that follows refuses. *)
Lemma nuve_list_fails_on_a_nameless_room {B : Beast} {C : Crypto} {N : Net} api text rooms m :
  SyncRequest api $"GET" [] $"/rooms" [] [] = Ret text → text ≠ [] →
  parse_json text = Ret (JArr rooms) → JObj m ∈ rooms → map_find $"name" m = None →
  SyncListRoom (J := model_json) api = Ret None.
Proof.
  intros E Ht Ep Hm Hn. unfold SyncListRoom. rewrite E. simpl.
  rewrite decide_False by done. rewrite Ep. simpl.
  destruct (read_nameless_room m Hn) as [e He].
  destruct (map_outcome_throw _ _ _ _ read_listed_room_defined Hm He) as [e' ->]. done.
Qed.

(** ** Instances *)
Definition toy_crypto : Crypto := {|
  hmac_sha1 data key := data ++ key;
  base64_from_binary := b64_digits;
  binary_from_base64 s := Ret s
|}.

#[global] Instance toy_crypto_laws : CryptoLaws toy_crypto.
Proof. by constructor. Qed.

#[global] Instance log_beast_knows : BeastKnows log_beast.
Proof.
  constructor; intros x Hx; simpl; rewrite !elem_of_cons in Hx;
    by destruct Hx as [->|[->|[->|[]%not_elem_of_nil]]].
Qed.

(** A server that answers every request with the same text. *)
Definition answers (text : str) : Net (B := log_beast) := {|
  now_ms := 1600000000000; random_value := 48271; beast_version := $"Beast";
  exchange _ := Http.mkRes 200 $"OK" text
|}.

Definition sample_api : LicodeNuveApi := new_api $"service" $"key" $"nuve.example" 3000.
Definition rooms_url : Builder.Builder :=
  Builder.mkBuilder $"http" $"nuve.example" 3000 [$"rooms"] [] [].

Lemma nuve_signature_is_base64_witness :
  CalculateSignature (C := toy_crypto) $"data" $"key" = $"ZGF0YWtleQ==".
Proof. rewrite (nuve_signature_is_base64 (C := toy_crypto)). vm_compute. reflexivity. Defined.


Lemma nuve_list_fails_on_a_nameless_room_witness :
  SyncListRoom (C := toy_crypto) (N := answers $"[{}]") (J := model_json) sample_api = Ret None.
Proof.
  apply (nuve_list_fails_on_a_nameless_room (C := toy_crypto) (N := answers $"[{}]")
           sample_api $"[{}]" [JObj []] []); [by vm_compute|done|by vm_compute|left|done].
Defined.
