(* ===== verification/SafeNumerics.v ===== *)
(** * Integer types and safe numerics of libwebrtc

    The integer types of C++ with their promotions and conversions, and on top
    of them the headers that the rest of libwebrtc's inline code relies on:
    [rtc_base/checks.h] (the checking macros), [rtc_base/numerics/safe_compare.h],
    [safe_conversions.h], [safe_minmax.h] and [divide_round.h]. Floating-point
    arguments are left out. *)

From stdpp Require Import base list.
From Stdlib Require Import ZArith Lia.
From S2P Require Import Prelude.

Local Open Scope Z_scope.

(** ** Integer types *)
Module Int.

(** The types of <stdint.h>; [int] is [int32_t] and pointers have eight
    bytes. *)
Inductive ity :=
  | int8_t | uint8_t | int16_t | uint16_t | int32_t | uint32_t | int64_t | uint64_t.

#[global] Instance ity_eq_dec : EqDecision ity.
Proof. solve_decision. Defined.

Definition all_types : list ity :=
  [int8_t; uint8_t; int16_t; uint16_t; int32_t; uint32_t; int64_t; uint64_t].

Definition sizeof (t : ity) : Z :=
  match t with
  | int8_t | uint8_t => 1
  | int16_t | uint16_t => 2
  | int32_t | uint32_t => 4
  | int64_t | uint64_t => 8
  end.

Definition is_signed (t : ity) : bool :=
  match t with int8_t | int16_t | int32_t | int64_t => true | _ => false end.

Definition make_unsigned (t : ity) : ity :=
  match t with
  | int8_t | uint8_t => uint8_t
  | int16_t | uint16_t => uint16_t
  | int32_t | uint32_t => uint32_t
  | int64_t | uint64_t => uint64_t
  end.

(** std::numeric_limits *)
Definition lowest (t : ity) : Z :=
  if is_signed t then - 2 ^ (8 * sizeof t - 1) else 0.
Definition max (t : ity) : Z :=
  if is_signed t then 2 ^ (8 * sizeof t - 1) - 1 else 2 ^ (8 * sizeof t) - 1.

Definition in_range (t : ity) (z : Z) : bool := (lowest t <=? z) && (z <=? max t).

(** Conversion keeps the low bits. *)
Definition static_cast (t : ity) (z : Z) : Z :=
  if is_signed t then wrap_signed (8 * sizeof t) z else z mod 2 ^ (8 * sizeof t).

(** The result of an operation: unsigned types wrap, signed overflow is
    undefined. *)
Definition arith (t : ity) (z : Z) : outcome Z :=
  if in_range t z then Ret z
  else if is_signed t then Undef SignedOverflow else Ret (static_cast t z).

(** Integral promotion and the usual arithmetic conversions. *)
Definition promote (t : ity) : ity := if sizeof t <? 4 then int32_t else t.

Definition common (t1 t2 : ity) : ity :=
  let t1 := promote t1 in
  let t2 := promote t2 in
  if sizeof t1 =? sizeof t2 then (if is_signed t1 then t2 else t1)
  else if sizeof t1 <? sizeof t2 then t2 else t1.

(** A value of an integer type. *)
Record tv := TV { ty : ity; val : Z }.

Definition ok (a : tv) : bool := in_range a.(ty) a.(val).

Definition cast (t : ity) (a : tv) : tv := TV t (static_cast t a.(val)).

(** Unary plus. *)
Definition uplus (a : tv) : tv := cast (promote a.(ty)) a.

(** A literal. *)
Definition int (z : Z) : tv := TV int32_t z.
Definition lowest_of (t : ity) : tv := TV t (lowest t).
Definition max_of (t : ity) : tv := TV t (max t).

(** A binary operation, after the conversions. *)
Definition binop (f : Z → Z → Z) (a b : tv) : outcome tv :=
  let c := common a.(ty) b.(ty) in
  v ← arith c (f (static_cast c a.(val)) (static_cast c b.(val)));
  Ret (TV c v).

Definition add : tv → tv → outcome tv := binop Z.add.
Definition sub : tv → tv → outcome tv := binop Z.sub.
Definition mul : tv → tv → outcome tv := binop Z.mul.

(** Division truncates; dividing by zero is undefined, and so is the remainder
    when the quotient overflows. *)
Definition div (a b : tv) : outcome tv :=
  if (cast (common a.(ty) b.(ty)) b).(val) =? 0 then Undef DivByZero else binop Z.quot a b.
Definition rem (a b : tv) : outcome tv :=
  _ ← div a b; binop Z.rem a b.

Inductive op := Eq | Ne | Lt | Le | Gt | Ge.

Definition holds (o : op) (x y : Z) : bool :=
  match o with
  | Eq => x =? y
  | Ne => negb (x =? y)
  | Lt => x <? y
  | Le => x <=? y
  | Gt => y <? x
  | Ge => y <=? x
  end.

(** A built-in comparison. *)
Definition cmp (o : op) (a b : tv) : bool :=
  let c := common a.(ty) b.(ty) in holds o (static_cast c a.(val)) (static_cast c b.(val)).

(** *** Facts *)
Lemma in_range_spec t z : in_range t z = true ↔ lowest t ≤ z ≤ max t.
Proof. unfold in_range. rewrite andb_true_iff, !Z.leb_le. done. Qed.

Lemma in_range_true t z : lowest t ≤ z ≤ max t → in_range t z = true.
Proof. apply in_range_spec. Qed.

Lemma static_cast_id t z : lowest t ≤ z ≤ max t → static_cast t z = z.
Proof.
  unfold static_cast, wrap_signed, lowest, max. destruct t; simpl; intros H;
    change (Z.pow_pos 2 ?p) with (2 ^ Z.pos p); rewrite Z.mod_small; lia.
Qed.

Lemma static_cast_range t z : lowest t ≤ static_cast t z ≤ max t.
Proof.
  unfold static_cast, wrap_signed, lowest, max. destruct t; simpl;
    match goal with |- context [?x mod ?n] => pose proof (Z.mod_pos_bound x n ltac:(lia)) end; lia.
Qed.

Lemma arith_ok t z : lowest t ≤ z ≤ max t → arith t z = Ret z.
Proof. intros H. unfold arith. by rewrite in_range_true. Qed.

Lemma ok_unsigned T x : is_signed T = false → 0 ≤ x ≤ max T → ok (TV T x) = true.
Proof. intros HT Hx. apply in_range_true. unfold lowest. cbn [ty val]. rewrite HT. lia. Qed.

Lemma ok_u64 z : 0 ≤ z ≤ npos → ok (TV uint64_t z) = true.
Proof. intros Hz. by apply ok_unsigned. Qed.

Lemma in_range_i64 z :
  - 9223372036854775808 ≤ z ≤ 9223372036854775807 → in_range int64_t z = true.
Proof. intros Hz. by apply in_range_true. Qed.

Lemma i64_ok z : - 9223372036854775808 ≤ z ≤ 9223372036854775807 → ok (TV int64_t z) = true.
Proof. intros Hz. by apply in_range_true. Qed.

(** Every type fits its promotion. *)
Lemma promote_range t : lowest (promote t) ≤ lowest t ∧ max t ≤ max (promote t).
Proof. destruct t; vm_compute; intuition congruence. Qed.

Lemma binop_ok f a b c v :
  common a.(ty) b.(ty) = c → lowest c ≤ a.(val) ≤ max c → lowest c ≤ b.(val) ≤ max c →
  f a.(val) b.(val) = v → lowest c ≤ v ≤ max c → binop f a b = Ret (TV c v).
Proof.
  intros Hc Ha Hb <- Hv. unfold binop. rewrite Hc, !static_cast_id by done. by rewrite arith_ok.
Qed.

End Int.

(** ** safe_compare.h *)
Module SafeCmp.
Import Int.

Definition LargerIntImpl (n : Z) : option ity :=
  match n with
  | 1 => Some int16_t
  | 2 => Some int32_t
  | 4 => Some int64_t
  | _ => None
  end.

(** A signed type larger than the first type, when one is worth using. *)
Definition LargerInt (t1 t2 : ity) : option ity :=
  LargerIntImpl (if (sizeof t1 <? sizeof t2) || (sizeof t1 <? 8) then sizeof t1 else 0).

Definition MakeUnsigned (a : tv) : tv := cast (make_unsigned a.(ty)) a.

(** The five overloads. *)
Definition Cmp (o : op) (a b : tv) : bool :=
  match is_signed a.(ty), is_signed b.(ty) with
  | true, true | false, false => cmp o a b
  | true, false =>
      match LargerInt b.(ty) a.(ty) with
      | Some t => cmp o a (cast t b)
      | None => if cmp Lt a (int 0) then cmp o (int (-1)) (int 0) else cmp o (MakeUnsigned a) b
      end
  | false, true =>
      match LargerInt a.(ty) b.(ty) with
      | Some t => cmp o (cast t a) b
      | None => if cmp Lt b (int 0) then cmp o (int 0) (int (-1)) else cmp o a (MakeUnsigned b)
      end
  end.

(** SafeEq, SafeNe, SafeLt, SafeLe, SafeGt and SafeGe *)
Definition Safe (o : op) (a b : tv) : bool := Cmp o (uplus a) (uplus b).

(** A built-in comparison is right when both values fit the common type. *)
Lemma cmp_exact o a b :
  let c := common a.(ty) b.(ty) in
  lowest c ≤ a.(val) ≤ max c → lowest c ≤ b.(val) ≤ max c → cmp o a b = holds o a.(val) b.(val).
Proof. intros c Ha Hb. unfold cmp. fold c. by rewrite !static_cast_id. Qed.

Lemma holds_below o x y : x < 0 → 0 ≤ y → holds o (-1) 0 = holds o x y ∧ holds o 0 (-1) = holds o y x.
Proof.
  intros Hx Hy. destruct o; simpl; split; symmetry;
    rewrite ?negb_true_iff, ?Z.eqb_neq, ?Z.ltb_lt, ?Z.leb_le, ?Z.ltb_ge, ?Z.leb_gt; lia.
Qed.

Lemma uplus_ok a : ok a = true → uplus a = TV (promote a.(ty)) a.(val) ∧ ok (uplus a) = true.
Proof.
  unfold ok, uplus, cast. rewrite in_range_spec. intros Ha. pose proof (promote_range a.(ty)).
  rewrite static_cast_id by lia. split; [done|]. apply in_range_true. simpl. lia.
Qed.

(** On the types that promotion leaves. *)
Lemma Cmp_exact o t1 t2 x y :
  promote t1 = t1 → promote t2 = t2 →
  lowest t1 ≤ x ≤ max t1 → lowest t2 ≤ y ≤ max t2 → Cmp o (TV t1 x) (TV t2 y) = holds o x y.
Proof.
  destruct t1; try done; destruct t2; try done; intros _ _; unfold Cmp; simpl; intros Hx Hy;
    unfold lowest, max in Hx, Hy; simpl in Hx, Hy.
  all: unfold MakeUnsigned, cast; simpl; rewrite ?static_cast_id by (unfold lowest, max; simpl; lia).
  all: try match goal with |- context [?z <? 0] => destruct (Z.ltb_spec z 0) end.
  all: rewrite ?static_cast_id by (unfold lowest, max; simpl; lia).
  all: rewrite cmp_exact by (cbn; lia); simpl; try done.
  all: first [apply (holds_below o x y); lia | apply (holds_below o y x); lia].
Qed.

Lemma promote_idem t : promote (promote t) = promote t.
Proof. by destruct t. Qed.

Lemma Safe_exact o a b : ok a = true → ok b = true → Safe o a b = holds o a.(val) b.(val).
Proof.
  intros Ha Hb. unfold Safe. destruct (uplus_ok a Ha) as [Ea Oa], (uplus_ok b Hb) as [Eb Ob].
  rewrite Ea, Eb in *. apply Cmp_exact; try apply promote_idem; by apply in_range_spec.
Qed.

End SafeCmp.

(** ** checks.h *)
Module Checks.
Import Int SafeCmp.

(** How libwebrtc was compiled: with [RTC_DCHECK_IS_ON], or without. *)
Class Build := { RTC_DCHECK_IS_ON : bool }.

Definition RTC_CHECK (condition : bool) : outcome unit :=
  if condition then Ret tt else Undef CheckFailed.

Definition RTC_CHECK_OP (o : op) (a b : tv) : outcome unit := RTC_CHECK (Safe o a b).

Definition RTC_DCHECK `{Build} (condition : bool) : outcome unit :=
  if RTC_DCHECK_IS_ON then RTC_CHECK condition else Ret tt.

Definition RTC_DCHECK_OP `{Build} (o : op) (a b : tv) : outcome unit :=
  if RTC_DCHECK_IS_ON then RTC_CHECK_OP o a b else Ret tt.

Definition CheckedDivExact (a b : tv) : outcome tv :=
  r ← rem a b; RTC_CHECK_OP Eq r (int 0);; q ← div a b; Ret (cast a.(ty) q).

Lemma RTC_DCHECK_true `{Build} b : b = true → RTC_DCHECK b = Ret tt.
Proof. intros ->. unfold RTC_DCHECK. by destruct RTC_DCHECK_IS_ON. Qed.

Lemma RTC_DCHECK_OP_ok `{Build} o a b :
  ok a = true → ok b = true → holds o a.(val) b.(val) = true → RTC_DCHECK_OP o a b = Ret tt.
Proof.
  intros Ha Hb Ho. unfold RTC_DCHECK_OP, RTC_CHECK_OP, RTC_CHECK. rewrite Safe_exact, Ho by done.
  by destruct RTC_DCHECK_IS_ON.
Qed.

End Checks.

(** ** safe_conversions.h and safe_conversions_impl.h *)
Module Conversions.
Import Int Checks.

Inductive DstRange := OVERLAPS_RANGE | CONTAINS_RANGE.
Inductive RangeCheckResult := TYPE_VALID | TYPE_UNDERFLOW | TYPE_OVERFLOW | TYPE_INVALID.

(** Can the destination hold every value of the source? *)
Definition StaticRangeCheck (Dst Src : ity) : DstRange :=
  match is_signed Dst, is_signed Src with
  | true, true =>
      let kDstMaxExponent := sizeof Dst * 8 - 1 in
      let kSrcMaxExponent := sizeof Src * 8 - 1 in
      if kSrcMaxExponent <=? kDstMaxExponent then CONTAINS_RANGE else OVERLAPS_RANGE
  | false, false => if sizeof Src <=? sizeof Dst then CONTAINS_RANGE else OVERLAPS_RANGE
  | true, false =>
      let kDstMaxExponent := sizeof Dst * 8 - 1 in
      let kSrcMaxExponent := sizeof Src * 8 in
      if kSrcMaxExponent <=? kDstMaxExponent then CONTAINS_RANGE else OVERLAPS_RANGE
  | false, true => OVERLAPS_RANGE
  end.

Definition BASE_NUMERIC_RANGE_CHECK_RESULT (is_in_upper_bound is_in_lower_bound : bool) : RangeCheckResult :=
  match is_in_upper_bound, is_in_lower_bound with
  | true, true => TYPE_VALID
  | true, false => TYPE_UNDERFLOW
  | false, true => TYPE_OVERFLOW
  | false, false => TYPE_INVALID
  end.

(** The specialisations of RangeCheckImpl. *)
Definition RangeCheck (Dst : ity) (value : tv) : RangeCheckResult :=
  let Src := value.(ty) in
  match StaticRangeCheck Dst Src with
  | CONTAINS_RANGE => TYPE_VALID
  | OVERLAPS_RANGE =>
      match is_signed Dst, is_signed Src with
      | true, true =>
          BASE_NUMERIC_RANGE_CHECK_RESULT
            (cmp Le value (cast Src (max_of Dst))) (cmp Ge value (cast Src (lowest_of Dst)))
      | false, false =>
          BASE_NUMERIC_RANGE_CHECK_RESULT (cmp Le value (cast Src (max_of Dst))) true
      | true, false =>
          if sizeof Src <? sizeof Dst then TYPE_VALID
          else BASE_NUMERIC_RANGE_CHECK_RESULT (cmp Le value (cast Src (max_of Dst))) true
      | false, true =>
          let DstMaxExponent := sizeof Dst * 8 in
          let SrcMaxExponent := sizeof Src * 8 - 1 in
          if SrcMaxExponent <=? DstMaxExponent
          then BASE_NUMERIC_RANGE_CHECK_RESULT true (cmp Ge value (cast Src (int 0)))
          else BASE_NUMERIC_RANGE_CHECK_RESULT
                 (cmp Le value (cast Src (max_of Dst))) (cmp Ge value (cast Src (int 0)))
      end
  end.

Definition IsValueInRangeForNumericType (Dst : ity) (value : tv) : bool :=
  match RangeCheck Dst value with TYPE_VALID => true | _ => false end.

Definition checked_cast (Dst : ity) (value : tv) : outcome tv :=
  RTC_CHECK (IsValueInRangeForNumericType Dst value);; Ret (cast Dst value).

Definition dchecked_cast `{Build} (Dst : ity) (value : tv) : outcome tv :=
  RTC_DCHECK (IsValueInRangeForNumericType Dst value);; Ret (cast Dst value).

Definition saturated_cast (Dst : ity) (value : tv) : outcome tv :=
  match RangeCheck Dst value with
  | TYPE_VALID => Ret (cast Dst value)
  | TYPE_UNDERFLOW => Ret (lowest_of Dst)
  | TYPE_OVERFLOW => Ret (max_of Dst)
  | TYPE_INVALID => Undef CheckFailed
  end.

(** What the check should say. *)
Definition range_of (Dst : ity) (z : Z) : RangeCheckResult :=
  if z <? lowest Dst then TYPE_UNDERFLOW else if max Dst <? z then TYPE_OVERFLOW else TYPE_VALID.

#[local] Arguments cmp : simpl never.

(** Comparison with a constant of the source type. *)
Lemma cmp_bound o Src z d :
  lowest Src ≤ z ≤ max Src → in_range Src d.(val) = true →
  cmp o (TV Src z) (cast Src d) = holds o z d.(val).
Proof.
  rewrite in_range_spec. intros Hz Hd. unfold cast. rewrite (static_cast_id Src) by done.
  pose proof (promote_range Src). assert (common Src Src = promote Src) as E by (by destruct Src).
  by rewrite SafeCmp.cmp_exact by (cbn [ty val]; rewrite E; lia).
Qed.

Lemma RangeCheck_exact Dst v : ok v = true → RangeCheck Dst v = range_of Dst v.(val).
Proof.
  destruct v as [Src z]. unfold ok. rewrite in_range_spec. cbn [ty val]. intros Hz. unfold range_of.
  destruct Src, Dst; unfold RangeCheck; simpl; rewrite ?cmp_bound by done; simpl.
  all: repeat match goal with
    | |- context [?a <=? ?b] => destruct (Z.leb_spec a b)
    | |- context [?a <? ?b] => destruct (Z.ltb_spec a b)
    end; simpl; try done; unfold lowest, max in *; simpl in *; lia.
Qed.

Lemma IsValueInRange_exact Dst v :
  ok v = true → IsValueInRangeForNumericType Dst v = in_range Dst v.(val).
Proof.
  intros Hv. unfold IsValueInRangeForNumericType. rewrite RangeCheck_exact by done. unfold range_of, in_range.
  assert (lowest Dst ≤ max Dst) by (by destruct Dst).
  destruct (Z.ltb_spec v.(val) (lowest Dst)), (Z.ltb_spec (max Dst) v.(val)),
    (Z.leb_spec (lowest Dst) v.(val)), (Z.leb_spec v.(val) (max Dst)); simpl; first [done | lia].
Qed.

Lemma dchecked_cast_ok `{Build} Dst v :
  ok v = true → in_range Dst v.(val) = true → dchecked_cast Dst v = Ret (TV Dst v.(val)).
Proof.
  intros Hv Hd. unfold dchecked_cast. rewrite IsValueInRange_exact, RTC_DCHECK_true by done. simpl.
  unfold cast. by rewrite static_cast_id by (by apply in_range_spec).
Qed.

End Conversions.

(** ** safe_minmax.h *)
Module MinMax.
Import Int SafeCmp Checks.

(** MType::min_t: the lower minimum wins, then the lower maximum, then [t1]. *)
Definition min_t (t1 t2 : ity) : ity :=
  if Safe Lt (lowest_of t1) (lowest_of t2) then t1
  else if Safe Gt (lowest_of t1) (lowest_of t2) then t2
  else if Safe Le (max_of t1) (max_of t2) then t1 else t2.

(** MType::max_t: the higher maximum wins, then [t1]. *)
Definition max_t (t1 t2 : ity) : ity :=
  if Safe Ge (max_of t1) (max_of t2) then t1 else t2.

(** The requested type, or the default. [None] is a failed static_assert. *)
Definition TypeOr (A : option ity) (B : ity) : option ity :=
  let type := default B A in
  if Safe Le (lowest_of type) (lowest_of B) && Safe Ge (max_of type) (max_of B)
  then Some type else None.

Definition SafeMin (R : option ity) (a b : tv) : option tv :=
  R2 ← TypeOr R (min_t a.(ty) b.(ty));
  Some (if Safe Lt a b then cast R2 a else cast R2 b).

Definition SafeMax (R : option ity) (a b : tv) : option tv :=
  R2 ← TypeOr R (max_t a.(ty) b.(ty));
  Some (if Safe Gt a b then cast R2 a else cast R2 b).

(** ClampType::AcceptableType, between the bounds [r_min] and [r_max]. *)
Definition AcceptableType (T L H : ity) (r_min r_max : tv) (A : ity) : bool :=
  let not_too_large :=
    (sizeof A <=? sizeof L) || (sizeof A <=? sizeof H) || (sizeof A <=? sizeof T) in
  let range_contained := Safe Le (lowest_of A) r_min && Safe Le r_max (max_of A) in
  not_too_large && range_contained.

Definition ClampType (T L H : ity) : option ity :=
  r_min ← (lo ← SafeMin None (lowest_of H) (lowest_of T); SafeMax None (lowest_of L) lo);
  r_max ← (hi ← SafeMax None (max_of L) (max_of T); SafeMin None (max_of H) hi);
  let Acceptable := AcceptableType T L H r_min r_max in
  let best_signed_type :=
    if Acceptable int8_t then int8_t else if Acceptable int16_t then int16_t
    else if Acceptable int32_t then int32_t else int64_t in
  let best_unsigned_type :=
    if Acceptable uint8_t then uint8_t else if Acceptable uint16_t then uint16_t
    else if Acceptable uint32_t then uint32_t else uint64_t in
  let type :=
    if is_signed T
    then (if Acceptable best_signed_type then best_signed_type else best_unsigned_type)
    else (if Acceptable best_unsigned_type then best_unsigned_type else best_signed_type) in
  if Acceptable type then Some type else None.

Definition SafeClamp `{Build} (R : option ity) (x min max : tv) : option (outcome tv) :=
  type ← ClampType x.(ty) min.(ty) max.(ty);
  R2 ← TypeOr R type;
  Some (RTC_DCHECK_OP Le min max;;
        Ret (if Safe Le x min then cast R2 min
             else if Safe Ge x max then cast R2 max else cast R2 x)).

(** *** The result types *)

(** The range that a clamped value can lie in. *)
Definition clamp_low (T L H : ity) : Z := Z.max (lowest L) (Z.min (lowest H) (lowest T)).
Definition clamp_high (T L H : ity) : Z := Z.min (max H) (Z.max (max L) (max T)).

Definition holds_range (A : ity) (lo hi : Z) : bool := (lowest A <=? lo) && (hi <=? max A).

Definition no_larger (T L H A : ity) : bool :=
  (sizeof A <=? sizeof L) || (sizeof A <=? sizeof H) || (sizeof A <=? sizeof T).

(** A type allowed by the first two laws. *)
Definition lawful (T L H A : ity) : bool :=
  no_larger T L H A && holds_range A (clamp_low T L H) (clamp_high T L H).

(** The documented laws of the type that SafeClamp picks. *)
Definition clamp_laws (T L H A : ity) : bool :=
  lawful T L H A &&
  (Bool.eqb (is_signed A) (is_signed T) ||
   negb (existsb (λ B, Bool.eqb (is_signed B) (is_signed T) && lawful T L H B) all_types)) &&
  forallb (λ B, negb (lawful T L H B && Bool.eqb (is_signed B) (is_signed A) && (sizeof B <? sizeof A))) all_types.

Lemma all_types_all t : In t all_types.
Proof. destruct t; simpl; auto 10. Qed.

Lemma ClampType_lawful T L H : ∃ A, ClampType T L H = Some A ∧ clamp_laws T L H A = true.
Proof.
  assert (forallb (λ T, forallb (λ L, forallb (λ H,
    match ClampType T L H with Some A => clamp_laws T L H A | None => false end) all_types) all_types) all_types
    = true) as E by (vm_compute; reflexivity).
  rewrite forallb_forall in E. specialize (E T (all_types_all T)).
  rewrite forallb_forall in E. specialize (E L (all_types_all L)).
  rewrite forallb_forall in E. specialize (E H (all_types_all H)).
  destruct (ClampType T L H) as [A|]; [by exists A|done].
Qed.

Lemma lowest_of_ok t : ok (lowest_of t) = true.
Proof. by destruct t. Qed.

Lemma max_of_ok t : ok (max_of t) = true.
Proof. by destruct t. Qed.

(** A requested type is accepted when it holds the default's range. *)
Lemma TypeOr_spec A B :
  TypeOr A B =
    let type := default B A in if holds_range type (lowest B) (max B) then Some type else None.
Proof.
  unfold TypeOr, holds_range. cbv zeta. by rewrite !Safe_exact by (apply lowest_of_ok || apply max_of_ok).
Qed.

Lemma TypeOr_default B : TypeOr None B = Some B.
Proof. rewrite TypeOr_spec. by destruct B. Qed.

Lemma min_t_holds t1 t2 x y :
  lowest t1 ≤ x ≤ max t1 → lowest t2 ≤ y ≤ max t2 →
  lowest (min_t t1 t2) ≤ Z.min x y ≤ max (min_t t1 t2).
Proof.
  intros Hx Hy. unfold min_t. rewrite !Safe_exact by (apply lowest_of_ok || apply max_of_ok). simpl.
  destruct (Z.ltb_spec (lowest t1) (lowest t2)), (Z.ltb_spec (lowest t2) (lowest t1)),
    (Z.leb_spec (max t1) (max t2)); try lia.
Qed.

Lemma max_t_holds t1 t2 x y :
  lowest t1 ≤ x ≤ max t1 → lowest t2 ≤ y ≤ max t2 →
  lowest (max_t t1 t2) ≤ Z.max x y ≤ max (max_t t1 t2).
Proof.
  intros Hx Hy. unfold max_t. rewrite !Safe_exact by apply max_of_ok. simpl.
  destruct (Z.leb_spec (max t2) (max t1)); destruct t1, t2; unfold lowest, max in *; simpl in *; lia.
Qed.

Lemma TypeOr_holds R B t z : TypeOr R B = Some t → lowest B ≤ z ≤ max B → lowest t ≤ z ≤ max t.
Proof.
  rewrite TypeOr_spec. cbv zeta. destruct (holds_range _ _ _) eqn:E; [intros [= <-]|done].
  unfold holds_range in E. rewrite andb_true_iff, !Z.leb_le in E. lia.
Qed.

Lemma cast_if (b : bool) t x y z :
  z = (if b then x.(val) else y.(val)) → lowest t ≤ z ≤ max t →
  (if b then cast t x else cast t y) = TV t z.
Proof. intros -> H. unfold cast. destruct b; by rewrite static_cast_id. Qed.

Lemma SafeMin_exact R a b :
  ok a = true → ok b = true →
  SafeMin R a b = t ← TypeOr R (min_t a.(ty) b.(ty)); Some (TV t (Z.min a.(val) b.(val))).
Proof.
  intros Ha Hb. unfold SafeMin. destruct (TypeOr _ _) as [t|] eqn:E; [|done]. simpl. f_equal.
  unfold ok in *. rewrite in_range_spec in *.
  pose proof (TypeOr_holds _ _ _ _ E (min_t_holds _ _ _ _ Ha Hb)).
  rewrite Safe_exact by (by apply in_range_spec). apply cast_if; [|done].
  simpl. destruct (Z.ltb_spec a.(val) b.(val)); lia.
Qed.

Lemma SafeMax_exact R a b :
  ok a = true → ok b = true →
  SafeMax R a b = t ← TypeOr R (max_t a.(ty) b.(ty)); Some (TV t (Z.max a.(val) b.(val))).
Proof.
  intros Ha Hb. unfold SafeMax. destruct (TypeOr _ _) as [t|] eqn:E; [|done]. simpl. f_equal.
  unfold ok in *. rewrite in_range_spec in *.
  pose proof (TypeOr_holds _ _ _ _ E (max_t_holds _ _ _ _ Ha Hb)).
  rewrite Safe_exact by (by apply in_range_spec). apply cast_if; [|done].
  simpl. destruct (Z.ltb_spec b.(val) a.(val)); lia.
Qed.

Lemma clamp_laws_range T L H A z :
  clamp_laws T L H A = true → clamp_low T L H ≤ z ≤ clamp_high T L H → lowest A ≤ z ≤ max A.
Proof.
  unfold clamp_laws, lawful, holds_range. rewrite !andb_true_iff, !Z.leb_le. lia.
Qed.

Lemma SafeClamp_exact `{Build} R x lo hi :
  ok x = true → ok lo = true → ok hi = true → lo.(val) ≤ hi.(val) →
  ∃ A, clamp_laws x.(ty) lo.(ty) hi.(ty) A = true ∧
    SafeClamp R x lo hi = t ← TypeOr R A; Some (Ret (TV t (Z.max lo.(val) (Z.min x.(val) hi.(val))))).
Proof.
  intros Hx Hl Hh Hle. destruct (ClampType_lawful x.(ty) lo.(ty) hi.(ty)) as (A & E & Law).
  exists A. split; [done|]. unfold SafeClamp. rewrite E. simpl.
  destruct (TypeOr R A) as [t|] eqn:Et; [|done]. simpl. f_equal.
  rewrite RTC_DCHECK_OP_ok, !Safe_exact by (done || (simpl; by apply Z.leb_le)). simpl.
  set (z := Z.max _ _). unfold ok in *. rewrite in_range_spec in *.
  assert (lowest t ≤ z ≤ max t).
  { apply (TypeOr_holds _ _ _ _ Et), (clamp_laws_range _ _ _ _ _ Law).
    unfold clamp_low, clamp_high, z. lia. }
  f_equal. unfold cast, z in *.
  destruct (Z.leb_spec x.(val) lo.(val)), (Z.leb_spec hi.(val) x.(val));
    rewrite static_cast_id by lia; f_equal; lia.
Qed.

End MinMax.

(** ** divide_round.h *)
Module DivideRound.
Import Int SafeCmp Checks.

Definition DivideRoundUp `{Build} (dividend divisor : tv) : outcome tv :=
  RTC_DCHECK_OP Ge dividend (int 0);; RTC_DCHECK_OP Gt divisor (int 0);;
  quotient ← div dividend divisor;
  remainder ← rem dividend divisor;
  add quotient (int (if cmp Gt remainder (int 0) then 1 else 0)).

Definition DivideRoundToNearest `{Build} (dividend divisor : tv) : outcome tv :=
  RTC_DCHECK_OP Ge dividend (int 0);; RTC_DCHECK_OP Gt divisor (int 0);;
  half_of_divisor ← (d ← sub divisor (int 1); div d (int 2));
  quotient ← div dividend divisor;
  remainder ← rem dividend divisor;
  add quotient (int (if Safe Gt remainder half_of_divisor then 1 else 0)).

Lemma common_range t1 t2 z :
  lowest t1 ≤ z ≤ max t1 → 0 ≤ z → lowest (common t1 t2) ≤ z ≤ max (common t1 t2).
Proof. destruct t1, t2; unfold lowest, max; simpl; lia. Qed.

Lemma common_comm t1 t2 : common t1 t2 = common t2 t1.
Proof. by destruct t1, t2. Qed.

Lemma common_int t1 t2 : common (common t1 t2) int32_t = common t1 t2.
Proof. by destruct t1, t2. Qed.

Lemma div_pos a b :
  ok a = true → ok b = true → 0 ≤ a.(val) → 0 < b.(val) →
  let t := common a.(ty) b.(ty) in
  div a b = Ret (TV t (a.(val) / b.(val))) ∧ rem a b = Ret (TV t (a.(val) mod b.(val))).
Proof.
  intros Ha Hb Ha0 Hb0 t. unfold ok in Ha, Hb. rewrite in_range_spec in Ha, Hb.
  assert (lowest t ≤ a.(val) ≤ max t) as Ra by (unfold t; apply common_range; lia).
  assert (lowest t ≤ b.(val) ≤ max t) as Rb by (unfold t; rewrite common_comm; apply common_range; lia).
  assert (0 ≤ a.(val) / b.(val) ≤ a.(val)) as Rq
    by (split; [apply Z.div_pos; lia|apply Z.div_le_upper_bound; nia]).
  pose proof (Z.mod_pos_bound a.(val) b.(val) Hb0) as Rr.
  assert (lowest t ≤ 0) by (unfold t; by destruct (common _ _)).
  assert (div a b = Ret (TV t (a.(val) / b.(val)))) as Ed.
  { unfold div, cast. fold t. simpl. rewrite static_cast_id by done.
    destruct (Z.eqb_spec b.(val) 0); [lia|].
    apply (binop_ok _ _ _ t); [done..| |lia]. apply Z.quot_div_nonneg; lia. }
  split; [done|]. unfold rem. rewrite Ed. simpl.
  apply (binop_ok _ _ _ t); [done..| |lia]. apply Z.rem_mod_nonneg; lia.
Qed.

(** The quotient can take one more unless the division is exact. *)
Lemma quotient_range a b :
  ok a = true → 0 ≤ a.(val) → 0 < b.(val) →
  let t := common a.(ty) b.(ty) in let q := a.(val) / b.(val) in let r := a.(val) mod b.(val) in
  lowest t ≤ 0 ∧ 0 ≤ q ≤ max t ∧ 0 ≤ r ≤ max t ∧ (0 < r → q + 1 ≤ max t).
Proof.
  intros Ha Ha0 Hb0 t q r. unfold ok in Ha. rewrite in_range_spec in Ha.
  assert (lowest t ≤ a.(val) ≤ max t) as Ra by (unfold t; apply common_range; lia).
  assert (lowest t ≤ 0) by (unfold t; by destruct (common _ _)).
  pose proof (Z.mod_pos_bound a.(val) b.(val) Hb0). pose proof (Z.div_mod a.(val) b.(val) ltac:(lia)).
  assert (r ≤ a.(val)) by (apply Z.mod_le; lia).
  assert (0 ≤ q) by (apply Z.div_pos; lia). unfold q, r in *. split_and!; try lia; nia.
Qed.

Lemma round_add t1 t2 q (b : bool) :
  let t := common t1 t2 in
  lowest t ≤ 0 → 0 ≤ q ≤ max t → (b = true → q + 1 ≤ max t) →
  add (TV t q) (int (if b then 1 else 0)) = Ret (TV t (q + if b then 1 else 0)).
Proof.
  intros t H0 Hq Hb. apply (binop_ok _ _ _ t); cbn [ty val int]; [apply common_int|lia| |done|].
  - split; [destruct b; lia|]. unfold t. destruct b, (common t1 t2); vm_compute; congruence.
  - destruct b; [specialize (Hb eq_refl)|]; lia.
Qed.

Lemma DivideRoundUp_exact `{Build} a b :
  ok a = true → ok b = true → 0 ≤ a.(val) → 0 < b.(val) →
  DivideRoundUp a b = Ret (TV (common a.(ty) b.(ty)) ((a.(val) + b.(val) - 1) / b.(val))).
Proof.
  intros Ha Hb Ha0 Hb0. unfold DivideRoundUp.
  rewrite !RTC_DCHECK_OP_ok by (done || (simpl; (apply Z.leb_le || apply Z.ltb_lt); done)). simpl.
  destruct (div_pos a b Ha Hb Ha0 Hb0) as [-> ->]. cbn [mbind outcome_bind].
  destruct (quotient_range a b Ha Ha0 Hb0) as (Hl & Hq & Hr & Hone).
  unfold cmp. cbn [ty val int]. rewrite common_int, !static_cast_id by lia. simpl.
  rewrite round_add by (try done; rewrite Z.ltb_lt; done). do 2 f_equal.
  pose proof (Z.div_mod a.(val) b.(val) ltac:(lia)). pose proof (Z.mod_pos_bound a.(val) b.(val) Hb0).
  destruct (Z.ltb_spec 0 (a.(val) mod b.(val))).
  - apply Z.div_unique with (a.(val) mod b.(val) - 1); lia.
  - apply Z.div_unique with (b.(val) - 1); lia.
Qed.

Lemma half_ok b : ok b = true → 0 < b.(val) → ok (TV (promote b.(ty)) ((b.(val) - 1) / 2)) = true.
Proof.
  unfold ok. rewrite !in_range_spec. intros Hb Hb0. pose proof (promote_range b.(ty)).
  pose proof (Z.div_mod (b.(val) - 1) 2 ltac:(lia)). pose proof (Z.mod_pos_bound (b.(val) - 1) 2 ltac:(lia)).
  assert (lowest (promote b.(ty)) ≤ 0) by (by destruct b.(ty)). cbn [ty val]. lia.
Qed.

Lemma half_of_divisor_exact b :
  ok b = true → 0 < b.(val) →
  (d ← sub b (int 1); div d (int 2)) = Ret (TV (promote b.(ty)) ((b.(val) - 1) / 2)).
Proof.
  intros Hb Hb0. unfold ok in Hb. rewrite in_range_spec in Hb. pose proof (promote_range b.(ty)).
  assert (common b.(ty) int32_t = promote b.(ty)) as E by (by destruct b.(ty)).
  assert (lowest (promote b.(ty)) ≤ 0 ∧ 2 ≤ max (promote b.(ty))) as [] by (by destruct b.(ty)).
  assert (sub b (int 1) = Ret (TV (promote b.(ty)) (b.(val) - 1))) as ->.
  { apply binop_ok; cbn [ty val int]; [done|lia..|done|lia]. }
  simpl. assert (common (promote b.(ty)) int32_t = promote b.(ty)) as E2 by (by destruct b.(ty)).
  pose proof (div_pos (TV (promote b.(ty)) (b.(val) - 1)) (int 2)) as D. cbn [ty val int] in D.
  rewrite E2 in D. apply D; [apply in_range_true; cbn [ty val]; lia|done|lia|done].
Qed.

Lemma DivideRoundToNearest_exact `{Build} a b :
  ok a = true → ok b = true → 0 ≤ a.(val) → 0 < b.(val) →
  DivideRoundToNearest a b = Ret (TV (common a.(ty) b.(ty)) ((2 * a.(val) + b.(val)) / (2 * b.(val)))).
Proof.
  intros Ha Hb Ha0 Hb0. unfold DivideRoundToNearest.
  rewrite !RTC_DCHECK_OP_ok by (done || (simpl; (apply Z.leb_le || apply Z.ltb_lt); done)). simpl.
  rewrite half_of_divisor_exact by done. simpl.
  destruct (div_pos a b Ha Hb Ha0 Hb0) as [-> ->]. cbn [mbind outcome_bind].
  destruct (quotient_range a b Ha Ha0 Hb0) as (Hl & Hq & Hr & Hone).
  pose proof (Z.div_mod a.(val) b.(val) ltac:(lia)). pose proof (Z.mod_pos_bound a.(val) b.(val) Hb0).
  pose proof (Z.div_mod (b.(val) - 1) 2 ltac:(lia)). pose proof (Z.mod_pos_bound (b.(val) - 1) 2 ltac:(lia)).
  rewrite Safe_exact; [|apply in_range_true; simpl; lia|by apply half_ok]. simpl.
  rewrite round_add; [|done|done|rewrite Z.ltb_lt; intros; apply Hone; lia]. do 2 f_equal.
  destruct (Z.ltb_spec ((b.(val) - 1) / 2) (a.(val) mod b.(val))).
  - apply Z.div_unique with (2 * (a.(val) mod b.(val)) - b.(val)); lia.
  - apply Z.div_unique with (2 * (a.(val) mod b.(val)) + b.(val)); lia.
Qed.

End DivideRound.

(** ** Correctness *)
Section Correctness.
Import Int SafeCmp Checks Conversions MinMax DivideRound.

(** C32: SafeEq, SafeNe, SafeLt, SafeLe, SafeGt and SafeGe compare the
    mathematical values of their arguments for every pair of integer types,
    through all five overloads and the promotions, and RTC_CHECK_OP aborts
    exactly when that comparison is false. *)
Theorem safe_compare_mathematical o a b :
  ok a = true → ok b = true →
  Safe o a b = holds o a.(val) b.(val) ∧
  RTC_CHECK_OP o a b = (if holds o a.(val) b.(val) then Ret tt else Undef CheckFailed).
Proof. intros Ha Hb. unfold RTC_CHECK_OP, RTC_CHECK. by rewrite !Safe_exact. Qed.

(** Where the built-in comparison is wrong. *)
Lemma safe_compare_mathematical_witness :
  cmp Lt (TV int32_t (-1)) (TV uint64_t 0) = false ∧
  Safe Lt (TV int32_t (-1)) (TV uint64_t 0) = true ∧
  RTC_CHECK_OP Lt (TV int32_t (-1)) (TV uint64_t 0) = Ret tt.
Proof.
  split; [reflexivity|].
  exact (safe_compare_mathematical Lt (TV int32_t (-1)) (TV uint64_t 0) eq_refl eq_refl).
Defined.

(** [saturated_cast] clamps to the destination's range, [checked_cast] aborts
    outside it, and [dchecked_cast] does so when checks are on and keeps the low
    bits otherwise. *)
Lemma safe_casts_exact `{Build} Dst v :
  ok v = true →
  saturated_cast Dst v = Ret (TV Dst (Z.max (lowest Dst) (Z.min v.(val) (max Dst)))) ∧
  checked_cast Dst v = (if in_range Dst v.(val) then Ret (TV Dst v.(val)) else Undef CheckFailed) ∧
  dchecked_cast Dst v =
    (if in_range Dst v.(val) then Ret (TV Dst v.(val))
     else if RTC_DCHECK_IS_ON then Undef CheckFailed else Ret (TV Dst (static_cast Dst v.(val)))).
Proof.
  intros Hv. split_and!.
  - unfold saturated_cast. rewrite RangeCheck_exact by done. unfold range_of, lowest_of, max_of, cast.
    assert (lowest Dst ≤ max Dst) by (by destruct Dst).
    destruct (Z.ltb_spec v.(val) (lowest Dst)), (Z.ltb_spec (max Dst) v.(val));
      rewrite ?static_cast_id by lia; do 2 f_equal; lia.
  - unfold checked_cast, RTC_CHECK. rewrite IsValueInRange_exact by done.
    destruct (in_range _ _) eqn:E; [|done]. simpl. unfold cast. by rewrite static_cast_id by (by apply in_range_spec).
  - destruct (in_range _ _) eqn:E; [by apply dchecked_cast_ok|].
    unfold dchecked_cast, RTC_DCHECK, RTC_CHECK. rewrite IsValueInRange_exact, E by done.
    by destruct RTC_DCHECK_IS_ON.
Qed.

Lemma safe_casts_exact_witness :
  let _ := Build_Build false in
  saturated_cast int8_t (TV uint32_t 4000000000) = Ret (TV int8_t 127) ∧
  checked_cast int8_t (TV uint32_t 4000000000) = Undef CheckFailed ∧
  dchecked_cast int8_t (TV uint32_t 4000000000) = Ret (TV int8_t 0).
Proof. intros b. exact (safe_casts_exact int8_t (TV uint32_t 4000000000) eq_refl). Defined.

(** [SafeMin], [SafeMax] and [SafeClamp] return the mathematical result in a
    type that holds it, for all combinations of integer types. *)
Lemma safe_minmax_exact `{Build} R x y lo hi :
  ok x = true → ok y = true → ok lo = true → ok hi = true → lo.(val) ≤ hi.(val) →
  SafeMin R x y = (t ← TypeOr R (min_t x.(ty) y.(ty)); Some (TV t (Z.min x.(val) y.(val)))) ∧
  SafeMax R x y = (t ← TypeOr R (max_t x.(ty) y.(ty)); Some (TV t (Z.max x.(val) y.(val)))) ∧
  (∃ A, clamp_laws x.(ty) lo.(ty) hi.(ty) A = true ∧
     SafeClamp R x lo hi =
       (t ← TypeOr R A; Some (Ret (TV t (Z.max lo.(val) (Z.min x.(val) hi.(val))))))) ∧
  (∀ B, TypeOr None B = Some B).
Proof.
  intros Hx Hy Hl Hh Hle. split_and!.
  - by apply SafeMin_exact.
  - by apply SafeMax_exact.
  - by apply SafeClamp_exact.
  - apply TypeOr_default.
Qed.

(** A signed value clamped by unsigned bounds. *)
Lemma safe_minmax_exact_witness :
  let _ := Build_Build true in
  let x := TV int64_t (-5) in let y := TV uint32_t 7 in let lo := TV uint8_t 3 in let hi := TV uint16_t 9 in
  SafeMin None x y = Some (TV int64_t (-5)) ∧ SafeMax None x y = Some (TV int64_t 7) ∧
  (∃ A, clamp_laws int64_t uint8_t uint16_t A = true ∧
     SafeClamp None x lo hi = (t ← TypeOr None A; Some (Ret (TV t 3)))) ∧
  (∀ B, TypeOr None B = Some B).
Proof.
  intros b x y lo hi.
  exact (safe_minmax_exact None x y lo hi eq_refl eq_refl eq_refl eq_refl ltac:(vm_compute; congruence)).
Defined.

(** The two roundings of a quotient are exact, also where types mix. *)
Lemma divide_round_exact `{Build} a b :
  ok a = true → ok b = true → 0 ≤ a.(val) → 0 < b.(val) →
  DivideRoundUp a b = Ret (TV (common a.(ty) b.(ty)) ((a.(val) + b.(val) - 1) / b.(val))) ∧
  DivideRoundToNearest a b = Ret (TV (common a.(ty) b.(ty)) ((2 * a.(val) + b.(val)) / (2 * b.(val)))).
Proof. intros. split; [by apply DivideRoundUp_exact|by apply DivideRoundToNearest_exact]. Qed.

Lemma divide_round_exact_witness :
  let _ := Build_Build true in
  DivideRoundUp (TV uint8_t 7) (TV int64_t 2) = Ret (TV int64_t 4) ∧
  DivideRoundToNearest (TV uint8_t 7) (TV int64_t 2) = Ret (TV int64_t 4).
Proof.
  intros b. exact (divide_round_exact (TV uint8_t 7) (TV int64_t 2) eq_refl eq_refl
    ltac:(vm_compute; congruence) ltac:(vm_compute; congruence)).
Defined.

Lemma CheckedDivExact_spec a b :
  ok a = true → ok b = true → a.(ty) = b.(ty) → 0 ≤ a.(val) → 0 < b.(val) →
  CheckedDivExact a b =
    if a.(val) mod b.(val) =? 0 then Ret (TV a.(ty) (a.(val) / b.(val))) else Undef CheckFailed.
Proof.
  intros Ha Hb Ht Ha0 Hb0. unfold CheckedDivExact. destruct (div_pos a b Ha Hb Ha0 Hb0) as [-> ->].
  destruct (quotient_range a b Ha Ha0 Hb0) as (Hl & Hq & Hr & _). cbn [mbind outcome_bind].
  unfold RTC_CHECK_OP, RTC_CHECK. rewrite Safe_exact; [|apply in_range_true; simpl; lia|done]. simpl.
  destruct (Z.eqb_spec (a.(val) mod b.(val)) 0); [|done]. simpl. unfold cast. simpl.
  unfold ok in Ha. rewrite in_range_spec in Ha.
  rewrite static_cast_id; [done|]. assert (a.(val) / b.(val) ≤ a.(val)) by (apply Z.div_le_upper_bound; nia).
  assert (lowest a.(ty) ≤ 0) by (by destruct a.(ty)). lia.
Qed.

End Correctness.
