(* ===== verification/SeqNum.v ===== *)
(** * Wrapping sequence numbers

    [rtc_base/numerics/mod_ops.h] and [rtc_base/numerics/sequence_number_util.h]:
    distances between numbers that wrap, their order, and the unwrapper that
    turns a wrapping counter (an RTP sequence number, a timestamp) back into one
    that does not. The template arguments are the unsigned type [T] and the
    modulus [M], zero for the whole range of [T]. *)

From stdpp Require Import base list.
From Stdlib Require Import ZArith Lia.
From S2P Require Import Prelude SafeNumerics.

Local Open Scope Z_scope.
Import Int SafeCmp Checks.

Module Seq.
Section Code.
Context `{Build}.

(** ** mod_ops.h *)

(** [unsigned long] has 64 bits. *)
Definition Add (M a b : Z) : outcome Z :=
  RTC_DCHECK_OP Lt (TV uint64_t a) (TV uint64_t M);;
  let t := u64 (M - b mod M) in
  let res := u64 (a - t) in
  if a <? t then Ret (u64 (res + M)) else Ret res.

Definition Subtract (M a b : Z) : outcome Z :=
  RTC_DCHECK_OP Lt (TV uint64_t a) (TV uint64_t M);;
  let sub := b mod M in
  if a <? sub then Ret (u64 (M - u64 (sub - a))) else Ret (u64 (a - sub)).

Definition ForwardDiff (T : ity) (M a b : Z) : outcome Z :=
  if 0 <? M then
    RTC_DCHECK_OP Lt (TV T a) (TV T M);; RTC_DCHECK_OP Lt (TV T b) (TV T M);;
    if cmp Le (TV T a) (TV T b) then d ← sub (TV T b) (TV T a); Ret (cast T d).(val)
    else d ← sub (TV T a) (TV T b); d ← sub (TV T M) d; Ret (cast T d).(val)
  else d ← sub (TV T b) (TV T a); Ret (cast T d).(val).

Definition ReverseDiff (T : ity) (M a b : Z) : outcome Z :=
  if 0 <? M then
    RTC_DCHECK_OP Lt (TV T a) (TV T M);; RTC_DCHECK_OP Lt (TV T b) (TV T M);;
    if cmp Le (TV T b) (TV T a) then d ← sub (TV T a) (TV T b); Ret (cast T d).(val)
    else d ← sub (TV T b) (TV T a); d ← sub (TV T M) d; Ret (cast T d).(val)
  else d ← sub (TV T a) (TV T b); Ret (cast T d).(val).

Definition MinDiff (T : ity) (M a b : Z) : outcome Z :=
  f ← ForwardDiff T M a b; r ← ReverseDiff T M a b; Ret (Z.min f r).

(** ** sequence_number_util.h *)
Definition AheadOrAt (T : ity) (M a b : Z) : outcome bool :=
  if 0 <? M then
    let maxDist := M / 2 in
    near ← (if negb (Z.land M 1 =? 0) then Ret false
            else m ← MinDiff T M a b; Ret (m =? maxDist));
    if near : bool then Ret (b <? a)
    else f ← ForwardDiff T M b a; Ret (f <=? maxDist)
  else
    maxDist ← (h ← div (max_of T) (int 2); d ← add h (TV T 1); Ret (cast T d));
    d ← sub (TV T a) (TV T b);
    if cmp Eq d maxDist then Ret (b <? a)
    else f ← ForwardDiff T 0 b a; Ret (f <? maxDist.(val)).

Definition AheadOf (T : ity) (M a b : Z) : outcome bool :=
  if negb (a =? b) then AheadOrAt T M a b else Ret false.

Definition AscendingSeqNumComp (T : ity) (M a b : Z) : outcome bool := AheadOf T M a b.
Definition DescendingSeqNumComp (T : ity) (M a b : Z) : outcome bool := AheadOf T M b a.

Record SeqNumUnwrapper := mkUnwrapper { last_unwrapped_ : Z; last_value_ : option Z }.

Definition fresh : SeqNumUnwrapper := mkUnwrapper 0 None.

Definition Unwrap (T : ity) (M value : Z) (u : SeqNumUnwrapper) : outcome (Z * SeqNumUnwrapper) :=
  last ←
    match u.(last_value_) with
    | None => Ret value
    | Some last_value =>
        f ← ForwardDiff T M last_value value;
        last ← u.(last_unwrapped_) +! f;
        ahead ← AheadOrAt T M value last_value;
        if negb ahead then
          let kBackwardAdjustment := if M =? 0 then max T + 1 else M in
          last -! kBackwardAdjustment
        else Ret last
    end;
  Ret (last, mkUnwrapper last (Some value)).

(** A stream of calls. *)
Fixpoint UnwrapAll (T : ity) (M : Z) (values : list Z) (u : SeqNumUnwrapper) : outcome (list Z) :=
  match values with
  | [] => Ret []
  | v :: values' =>
      '(x, u) ← Unwrap T M v u; xs ← UnwrapAll T M values' u; Ret (x :: xs)
  end.

End Code.

(** ** Distances *)

(** Where [M] wraps. *)
Definition modulus (T : ity) (M : Z) : Z := if M =? 0 then max T + 1 else M.

(** The template's requirements. *)
Definition wraps (T : ity) (M : Z) : Prop := is_signed T = false ∧ 0 ≤ M ≤ max T.

Lemma sub_unsigned T x y :
  is_signed T = false → 0 ≤ x ≤ max T → 0 ≤ y ≤ max T →
  ∃ z, sub (TV T x) (TV T y) = Ret (TV (common T T) z) ∧ static_cast T z = (x - y) mod (max T + 1) ∧
    (y ≤ x → z = x - y) ∧ lowest (common T T) ≤ z ≤ max (common T T).
Proof.
  intros HT Hx Hy. unfold sub, binop. cbn [ty val].
  assert (lowest (common T T) ≤ 0 ∧ max T ≤ max (common T T)) as [] by (by destruct T).
  rewrite !static_cast_id by lia. unfold arith. destruct (in_range (common T T) (x - y)) eqn:E.
  - exists (x - y). rewrite in_range_spec in E. split_and!; try done; try lia. by destruct T.
  - assert (common T T = T) as EC.
    { destruct T; try done; unfold in_range, lowest, max in *; simpl in *; lia. }
    rewrite EC in *. rewrite HT. exists (static_cast T (x - y)).
    pose proof (static_cast_range T (x - y)). split_and!; try done; try lia.
    + unfold static_cast. rewrite HT, Z.mod_mod by (by destruct T). by destruct T.
    + intros. assert (in_range T (x - y) = true) by (apply in_range_true; unfold lowest; rewrite HT; lia).
      congruence.
Qed.

(** The unsigned comparison of two values of [T]. *)
Lemma cmp_unsigned o T x y :
  is_signed T = false → 0 ≤ x ≤ max T → 0 ≤ y ≤ max T → cmp o (TV T x) (TV T y) = holds o x y.
Proof.
  intros HT Hx Hy. assert (lowest (common T T) ≤ 0 ∧ max T ≤ max (common T T)) as [] by (by destruct T).
  apply cmp_exact; cbn [ty val]; lia.
Qed.

Lemma modulus_pos T M : wraps T M → 0 < modulus T M ≤ max T + 1.
Proof.
  intros [HT HM]. unfold modulus. assert (0 < max T) by (by destruct T).
  destruct (Z.eqb_spec M 0); lia.
Qed.

Section Distances.
Context `{Build} (T : ity) (M : Z) (HM : wraps T M).

Notation m := (modulus T M).

#[local] Arguments cmp : simpl never.
#[local] Arguments sub : simpl never.
#[local] Arguments static_cast : simpl never.

Lemma common_unsigned : lowest (common T T) ≤ 0 ∧ max T ≤ max (common T T).
Proof. by destruct T. Qed.

(** The two branches of both distances. *)
Lemma diff_exact x y :
  0 < M → 0 ≤ x < M → 0 ≤ y < M →
  (if cmp Le (TV T y) (TV T x) then d ← sub (TV T x) (TV T y); Ret (cast T d).(val)
   else d ← sub (TV T y) (TV T x); d ← sub (TV T M) d; Ret (cast T d).(val)) = Ret ((x - y) mod M).
Proof.
  intros H0 Hx Hy. destruct HM as [HT HM']. pose proof common_unsigned.
  assert (lowest T = 0) as E0 by (unfold lowest; by rewrite HT).
  rewrite cmp_unsigned by (lia || done). simpl. destruct (Z.leb_spec y x).
  - destruct (sub_unsigned T x y) as (z & -> & _ & Ez & _); [done|lia..|]. simpl.
    rewrite Ez, static_cast_id, Z.mod_small by lia. done.
  - destruct (sub_unsigned T y x) as (z & -> & _ & Ez & _); [done|lia..|]. simpl. rewrite Ez by lia.
    unfold sub. rewrite (binop_ok Z.sub _ _ (common T T) (M - (y - x))); cbn [ty val]; [|by destruct T|lia..|done|lia].
    simpl. rewrite static_cast_id by lia. f_equal. apply Z.mod_unique with (- 1); lia.
Qed.

Lemma modulus_cases : (0 < M ∧ m = M) ∨ (M = 0 ∧ m = max T + 1).
Proof. destruct HM as [_ ?]. unfold modulus. destruct (Z.eqb_spec M 0); lia. Qed.

Lemma ForwardDiff_exact a b : 0 ≤ a < m → 0 ≤ b < m → ForwardDiff T M a b = Ret ((b - a) mod m).
Proof.
  intros Ha Hb. pose proof HM as [HT HM']. unfold ForwardDiff.
  destruct modulus_cases as [[Hp E]|[Hp E]]; rewrite E in *; destruct (Z.ltb_spec 0 M); try lia.
  - rewrite !RTC_DCHECK_OP_ok by (try (apply ok_unsigned; lia || done); simpl; apply Z.ltb_lt; lia).
    by apply diff_exact.
  - destruct (sub_unsigned T b a) as (z & -> & Ez & _ & _); [done|lia..|]. simpl. by rewrite Ez.
Qed.

Lemma ReverseDiff_exact a b : 0 ≤ a < m → 0 ≤ b < m → ReverseDiff T M a b = Ret ((a - b) mod m).
Proof.
  intros Ha Hb. pose proof HM as [HT HM']. unfold ReverseDiff.
  destruct modulus_cases as [[Hp E]|[Hp E]]; rewrite E in *; destruct (Z.ltb_spec 0 M); try lia.
  - rewrite !RTC_DCHECK_OP_ok by (try (apply ok_unsigned; lia || done); simpl; apply Z.ltb_lt; lia).
    by apply diff_exact.
  - destruct (sub_unsigned T a b) as (z & -> & Ez & _ & _); [done|lia..|]. simpl. by rewrite Ez.
Qed.

(** [a] is at most half the circle ahead of [b]; opposite numbers are ordered
    by value. *)
Definition ahead (a b : Z) : bool :=
  let f := (a - b) mod m in (2 * f <? m) || ((2 * f =? m) && (b <? a)).

(** The distance the other way round. *)
Lemma mod_opp_circle a b :
  0 ≤ a < m → 0 ≤ b < m → (b - a) mod m = if a =? b then 0 else m - (a - b) mod m.
Proof.
  intros Ha Hb. destruct (Z.eqb_spec a b) as [->|Hn]; [rewrite Z.sub_diag; by apply Z.mod_0_l; lia|].
  destruct (Z.leb_spec b a).
  - rewrite (Z.mod_small (a - b)) by lia. symmetry. apply Z.mod_unique with (- 1); lia.
  - rewrite (Z.mod_small (b - a)) by lia. replace ((a - b) mod m) with (a - b + m); [lia|].
    apply Z.mod_unique with (- 1); lia.
Qed.

Lemma ahead_even (f f' : Z) :
  0 < M → 0 ≤ f < M → (f' = 0 ∧ f = 0) ∨ f' = M - f → ∀ b : bool,
  (near ← (if negb (Z.land M 1 =? 0) then Ret false else Ret (Z.min f' f =? M / 2));
   if near : bool then Ret b else Ret (f <=? M / 2)) = Ret ((2 * f <? M) || ((2 * f =? M) && b)).
Proof.
  intros Hp Hf Hf' b. change 1 with (Z.ones 1). rewrite Z.land_ones by lia. change (2 ^ 1) with 2.
  pose proof (Z.div_mod M 2 ltac:(lia)). pose proof (Z.mod_pos_bound M 2 ltac:(lia)).
  destruct (Z.eqb_spec (M mod 2) 0); simpl; [destruct (Z.eqb_spec (Z.min f' f) (M / 2))|]; simpl;
    destruct (Z.leb_spec f (M / 2)), (Z.ltb_spec (2 * f) M), (Z.eqb_spec (2 * f) M), b; simpl; done || lia.
Qed.

Definition max_dist : Z := max T / 2 + 1.

Lemma max_dist_exact :
  is_signed T = false →
  (h ← div (max_of T) (int 2); d ← add h (TV T 1); Ret (cast T d)) = Ret (TV T max_dist) ∧
  2 * max_dist = max T + 1.
Proof. unfold max_dist. destruct T; try done; split; vm_compute; reflexivity. Qed.

Lemma AheadOrAt_exact a b : 0 ≤ a < m → 0 ≤ b < m → AheadOrAt T M a b = Ret (ahead a b).
Proof.
  intros Ha Hb. pose proof HM as [HT HM']. unfold AheadOrAt, MinDiff, ahead.
  pose proof (mod_opp_circle a b Ha Hb) as Eo.
  pose proof (Z.mod_pos_bound (a - b) m ltac:(lia)) as Hf.
  destruct modulus_cases as [[Hp E]|[Hp E]].
  - rewrite !ForwardDiff_exact, ReverseDiff_exact by done. rewrite E in *. cbv zeta.
    destruct (Z.ltb_spec 0 M); [|lia]. simpl.
    rewrite <- (ahead_even ((a - b) mod M) ((b - a) mod M)); [done..|].
    rewrite Eo. destruct (Z.eqb_spec a b) as [->|]; [left|by right]. by rewrite Z.sub_diag, Z.mod_0_l by lia.
  - destruct (max_dist_exact HT) as [-> Em]. replace (ForwardDiff T 0 b a) with (ForwardDiff T M b a) by congruence.
    rewrite ForwardDiff_exact by done. rewrite E in *. destruct (Z.ltb_spec 0 M); [lia|]. simpl.
    destruct (sub_unsigned T a b) as (z & -> & Ez & Hz & Rz); [done|lia..|]. simpl.
    assert (lowest T = 0) as E0 by (unfold lowest; by rewrite HT). pose proof common_unsigned.
    assert (common (common T T) T = common T T) as Ec by (by destruct T).
    rewrite cmp_exact by (cbn [ty val]; rewrite Ec; lia). simpl.
    destruct (Z.eqb_spec z max_dist) as [->|Hne].
    + rewrite static_cast_id in Ez by lia. rewrite <- Ez.
      destruct (Z.ltb_spec (2 * max_dist) (max T + 1)), (Z.eqb_spec (2 * max_dist) (max T + 1)); done || lia.
    + f_equal. destruct (Z.ltb_spec b a).
      * rewrite Hz, <- (Z.mod_small (a - b) (max T + 1)) in Hne by lia.
        destruct (Z.ltb_spec ((a - b) mod (max T + 1)) max_dist),
          (Z.ltb_spec (2 * ((a - b) mod (max T + 1))) (max T + 1)),
          (Z.eqb_spec (2 * ((a - b) mod (max T + 1))) (max T + 1)); simpl; done || lia.
      * rewrite andb_false_r, orb_false_r.
        destruct (Z.ltb_spec ((a - b) mod (max T + 1)) max_dist),
          (Z.ltb_spec (2 * ((a - b) mod (max T + 1))) (max T + 1)); simpl; done || lia.
Qed.

Lemma AheadOf_exact a b : 0 ≤ a < m → 0 ≤ b < m → AheadOf T M a b = Ret (negb (a =? b) && ahead a b).
Proof. intros Ha Hb. unfold AheadOf. destruct (Z.eqb_spec a b); [done|]. by apply AheadOrAt_exact. Qed.

(** Of two different numbers exactly one is ahead. *)
Lemma ahead_total a b : 0 ≤ a < m → 0 ≤ b < m → a ≠ b → ahead b a = negb (ahead a b).
Proof.
  intros Ha Hb Hn. unfold ahead. rewrite (mod_opp_circle a b Ha Hb).
  destruct (Z.eqb_spec a b); [done|]. pose proof (Z.mod_pos_bound (a - b) m ltac:(lia)).
  set (f := (a - b) mod m) in *. clearbody f.
  destruct (Z.ltb_spec (2 * (m - f)) m), (Z.eqb_spec (2 * (m - f)) m), (Z.ltb_spec a b),
    (Z.ltb_spec (2 * f) m), (Z.eqb_spec (2 * f) m), (Z.ltb_spec b a); simpl; done || lia.
Qed.

(** ** Unwrapping *)

(** Half the circle at most. *)
Definition near (x y : Z) : Prop := 2 * Z.abs (y - x) < m.

Lemma ahead_near x y : near x y → ahead (y mod m) (x mod m) = (x <=? y).
Proof.
  unfold near, ahead. intros Hn. cbv zeta.
  rewrite <- Zminus_mod. destruct (Z.leb_spec x y).
  - rewrite (Z.mod_small (y - x)) by lia. destruct (Z.ltb_spec (2 * (y - x)) m); [done|lia].
  - replace ((y - x) mod m) with (y - x + m) by (apply Z.mod_unique with (- 1); lia).
    destruct (Z.ltb_spec (2 * (y - x + m)) m), (Z.eqb_spec (2 * (y - x + m)) m); simpl; done || lia.
Qed.

(** A call on the next number of a stream. *)
Lemma Unwrap_next x y u :
  T ≠ uint64_t → near x y → u.(last_value_) = Some (x mod m) →
  - 2 ^ 62 ≤ u.(last_unwrapped_) ≤ 2 ^ 62 →
  let z := u.(last_unwrapped_) + (y - x) in
  Unwrap T M (y mod m) u = Ret (z, mkUnwrapper z (Some (y mod m))).
Proof.
  intros HU Hn Hl Hb z. pose proof (modulus_pos T M HM) as Hm. unfold Unwrap. rewrite Hl.
  assert (max T + 1 ≤ 2 ^ 32).
  { destruct HM as [HT _]. destruct T; try done; unfold max; simpl; lia. }
  rewrite ForwardDiff_exact, AheadOrAt_exact by (apply Z.mod_pos_bound; lia). simpl.
  rewrite ahead_near, <- Zminus_mod by done. fold m.
  unfold near in Hn. destruct (Z.leb_spec x y).
  - rewrite (Z.mod_small (y - x)) by lia. rewrite chk64_ok by lia. done.
  - replace ((y - x) mod m) with (y - x + m) by (apply Z.mod_unique with (- 1); lia).
    rewrite chk64_ok by lia. simpl. fold (modulus T M). rewrite chk64_ok by lia. simpl.
    replace (_ + _ - m) with z by (unfold z; lia). done.
Qed.

(** Numbers that never jump by half the circle or more. *)
Fixpoint steady (x : Z) (xs : list Z) : Prop :=
  match xs with
  | [] => True
  | y :: ys => near x y ∧ steady y ys
  end.

Lemma UnwrapAll_steady x xs u :
  T ≠ uint64_t → steady x xs → u.(last_value_) = Some (x mod m) →
  - 2 ^ 61 ≤ u.(last_unwrapped_) - x ≤ 2 ^ 61 → Forall (λ y, - 2 ^ 61 ≤ y ≤ 2 ^ 61) (x :: xs) →
  UnwrapAll T M ((λ y, y mod m) <$> xs) u = Ret ((λ y, u.(last_unwrapped_) + (y - x)) <$> xs).
Proof.
  intros HU. revert x u. induction xs as [|y ys IH]; intros x u Hs Hl Hu Hb; [done|].
  destruct Hs as [Hn Hs]. apply Forall_cons in Hb as [Hx Hb]. pose proof (Forall_inv Hb).
  simpl. rewrite (Unwrap_next x y u) by (done || lia). simpl.
  rewrite (IH y) by (done || (simpl; lia)). simpl. do 2 f_equal. apply list_fmap_ext. intros i z _. lia.
Qed.

Lemma Add_exact N a b : 0 < N ≤ npos → 0 ≤ a < N → 0 ≤ b ≤ npos → Add N a b = Ret ((a + b) mod N).
Proof.
  intros HN Ha Hb. unfold Add.
  rewrite RTC_DCHECK_OP_ok; [|apply ok_unsigned; [done|change (max uint64_t) with npos; lia]..
    |apply Z.ltb_lt; simpl; lia].
  pose proof (Z.mod_pos_bound b N ltac:(lia)). pose proof (Z.div_mod b N ltac:(lia)). simpl.
  rewrite (u64_small (N - b mod N)) by lia. destruct (Z.ltb_spec a (N - b mod N)).
  - unfold u64. rewrite Zplus_mod_idemp_l. fold (u64 (a - (N - b mod N) + N)). rewrite u64_small by lia.
    f_equal. apply Z.mod_unique with (b / N); lia.
  - rewrite u64_small by lia. f_equal. apply Z.mod_unique with (b / N + 1); lia.
Qed.

Lemma Subtract_exact N a b :
  0 < N ≤ npos → 0 ≤ a < N → 0 ≤ b ≤ npos → Subtract N a b = Ret ((a - b) mod N).
Proof.
  intros HN Ha Hb. unfold Subtract.
  rewrite RTC_DCHECK_OP_ok; [|apply ok_unsigned; [done|change (max uint64_t) with npos; lia]..
    |apply Z.ltb_lt; simpl; lia].
  pose proof (Z.mod_pos_bound b N ltac:(lia)). pose proof (Z.div_mod b N ltac:(lia)). simpl.
  destruct (Z.ltb_spec a (b mod N)).
  - rewrite (u64_small (b mod N - a)), u64_small by lia. f_equal. apply Z.mod_unique with (- (b / N) - 1); lia.
  - rewrite u64_small by lia. f_equal. apply Z.mod_unique with (- (b / N)); lia.
Qed.

End Distances.
End Seq.

Import Seq.

(** The distances are those modulo the period, and of two different numbers
    exactly one is ahead. *)
Lemma sequence_number_order `{Build} T M a b :
  wraps T M → 0 ≤ a < modulus T M → 0 ≤ b < modulus T M →
  ForwardDiff T M a b = Ret ((b - a) mod modulus T M) ∧
  ReverseDiff T M a b = Ret ((a - b) mod modulus T M) ∧
  AheadOrAt T M a b = Ret (ahead T M a b) ∧
  (a ≠ b → AheadOf T M a b = Ret (ahead T M a b) ∧ AheadOf T M b a = Ret (negb (ahead T M a b))).
Proof.
  intros HM Ha Hb. split_and!; [by apply ForwardDiff_exact|by apply ReverseDiff_exact|by apply AheadOrAt_exact|].
  intros Hn. rewrite !AheadOf_exact by done. rewrite (ahead_total T M a b) by done.
  by destruct (Z.eqb_spec a b), (Z.eqb_spec b a).
Qed.

(** Opposite 16-bit numbers. *)
Lemma sequence_number_order_witness :
  let _ := Build_Build true in
  ForwardDiff uint16_t 0 65535 32767 = Ret 32768 ∧ ReverseDiff uint16_t 0 65535 32767 = Ret 32768 ∧
  AheadOrAt uint16_t 0 65535 32767 = Ret true ∧
  (65535 ≠ 32767 → AheadOf uint16_t 0 65535 32767 = Ret true ∧ AheadOf uint16_t 0 32767 65535 = Ret false).
Proof.
  intros b. exact (sequence_number_order uint16_t 0 65535 32767
    ltac:(vm_compute; intuition congruence) ltac:(vm_compute; intuition congruence)
    ltac:(vm_compute; intuition congruence)).
Defined.

(** C33: Unwrapping the wrapped image of a sequence whose neighbours are less
    than half a period apart gives the sequence back, relative to its first
    element, for every unsigned type below 64 bits and every period. *)
Theorem unwrapper_reconstructs `{Build} T M x xs :
  wraps T M → T ≠ uint64_t → steady T M x xs → Forall (λ y, - 2 ^ 60 ≤ y ≤ 2 ^ 60) (x :: xs) →
  let wrapped y := y mod modulus T M in
  UnwrapAll T M (wrapped <$> x :: xs) fresh = Ret ((λ y, wrapped x + (y - x)) <$> x :: xs).
Proof.
  intros HM HU Hs Hb wrapped. pose proof (Forall_inv Hb) as Hx. cbv beta in Hx. pose proof (modulus_pos T M HM).
  assert (max T + 1 ≤ 2 ^ 32) by (destruct HM as [HT _]; destruct T; try done; unfold max; simpl; lia).
  pose proof (Z.mod_pos_bound x (modulus T M) ltac:(lia)). simpl.
  rewrite (UnwrapAll_steady T M HM x); [|done..|cbn [last_unwrapped_]; unfold wrapped; lia|].
  - simpl. do 2 f_equal. unfold wrapped. lia.
  - eapply Forall_impl; [exact Hb|]. intros y Hy. simpl in Hy. lia.
Qed.

(** An RTP sequence number that wraps, and a late packet. *)
Lemma unwrapper_reconstructs_witness :
  let _ := Build_Build true in
  UnwrapAll uint16_t 0 [65534; 65535; 1; 0; 2] fresh = Ret [65534; 65535; 65537; 65536; 65538].
Proof.
  intros b. apply (unwrapper_reconstructs uint16_t 0 65534 [65535; 65537; 65536; 65538]).
  - vm_compute. intuition congruence.
  - done.
  - vm_compute. intuition congruence.
  - repeat constructor; vm_compute; congruence.
Defined.
