(* ===== verification/Units.v ===== *)
(** * Units of time, size, rate and frequency

    [rtc_base/units/unit_base.h] and the five units of [api/units]: a 64-bit
    count in which the two extreme values stand for the infinities, so that
    arithmetic is that of the integers extended by them. The template parameter
    [Unit_T] is an index; conversions from and to the integer type [T] go
    through [SafeNumerics]. The members that compute in [double] are left
    out. *)

From stdpp Require Import base list.
From Stdlib Require Import ZArith Lia.
From S2P Require Import Prelude SafeNumerics.

Local Open Scope Z_scope.
Import Int SafeCmp Checks Conversions.

Module Units.

Inductive kind := TimeDelta | Timestamp | DataSize | DataRate | Frequency.

Record Unit_T (u : kind) := mkUnit { value_ : Z }.
Arguments mkUnit {u} value_.
Arguments value_ {u} _.

Definition one_sided (u : kind) : bool :=
  match u with TimeDelta => false | Timestamp | DataSize | DataRate | Frequency => true end.

(** ** UnitBase *)
Definition PlusInfinityVal : Z := max int64_t.
Definition MinusInfinityVal : Z := lowest int64_t.

Definition Zero {u} : Unit_T u := mkUnit 0.
Definition PlusInfinity {u} : Unit_T u := mkUnit PlusInfinityVal.
Definition MinusInfinity {u} : Unit_T u := mkUnit MinusInfinityVal.

Definition IsZero {u} (a : Unit_T u) : bool := a.(value_) =? 0.
Definition IsInfinite {u} (a : Unit_T u) : bool :=
  (a.(value_) =? PlusInfinityVal) || (a.(value_) =? MinusInfinityVal).
Definition IsFinite {u} (a : Unit_T u) : bool := negb (IsInfinite a).
Definition IsPlusInfinity {u} (a : Unit_T u) : bool := a.(value_) =? PlusInfinityVal.
Definition IsMinusInfinity {u} (a : Unit_T u) : bool := a.(value_) =? MinusInfinityVal.

Definition unit_eq {u} (a b : Unit_T u) : bool := a.(value_) =? b.(value_).
Definition unit_ne {u} (a b : Unit_T u) : bool := negb (a.(value_) =? b.(value_)).
Definition unit_le {u} (a b : Unit_T u) : bool := a.(value_) <=? b.(value_).
Definition unit_ge {u} (a b : Unit_T u) : bool := b.(value_) <=? a.(value_).
Definition unit_gt {u} (a b : Unit_T u) : bool := b.(value_) <? a.(value_).
Definition unit_lt {u} (a b : Unit_T u) : bool := a.(value_) <? b.(value_).

Section Code.
Context `{Build}.

Notation i64 z := (TV int64_t z).

(** Signed division. *)
Definition idiv (a b : Z) : outcome Z :=
  if b =? 0 then Undef DivByZero else chk64 (a ÷ b).

Definition FromValue (u : kind) (value : tv) : outcome (Unit_T u) :=
  (if one_sided u then RTC_DCHECK_OP Ge value (int 0) else Ret tt);;
  RTC_DCHECK_OP Gt value (i64 MinusInfinityVal);;
  RTC_DCHECK_OP Lt value (i64 PlusInfinityVal);;
  v ← dchecked_cast int64_t value; Ret (mkUnit v.(val)).

Definition FromFraction (u : kind) (denominator : Z) (value : tv) : outcome (Unit_T u) :=
  (if one_sided u then RTC_DCHECK_OP Ge value (int 0) else Ret tt);;
  RTC_DCHECK_OP Gt value (i64 (MinusInfinityVal ÷ denominator));;
  RTC_DCHECK_OP Lt value (i64 (PlusInfinityVal ÷ denominator));;
  p ← mul value (i64 denominator);
  v ← dchecked_cast int64_t p; Ret (mkUnit v.(val)).

Definition ToValue {u} (T : ity) (a : Unit_T u) : outcome Z :=
  RTC_DCHECK (IsFinite a);; v ← dchecked_cast T (i64 a.(value_)); Ret v.(val).

Definition ToValueOr {u} (a : Unit_T u) (fallback_value : Z) : Z :=
  if IsFinite a then a.(value_) else fallback_value.

Definition DivRoundPositiveToNearest (n d : Z) : outcome Z := s ← n +! d ÷ 2; idiv s d.

Definition DivRoundToNearest (n d : Z) : outcome Z :=
  s ← n +! (if 0 <=? n then d ÷ 2 else (- d) ÷ 2); idiv s d.

Definition ToFraction {u} (Denominator : Z) (T : ity) (a : Unit_T u) : outcome Z :=
  RTC_DCHECK (IsFinite a);;
  q ← (if one_sided u then DivRoundPositiveToNearest a.(value_) Denominator
       else DivRoundToNearest a.(value_) Denominator);
  v ← dchecked_cast T (i64 q); Ret v.(val).

Definition ToFractionOr {u} (Denominator : Z) (a : Unit_T u) (fallback_value : Z) : outcome Z :=
  if IsFinite a then
    if one_sided u then DivRoundPositiveToNearest a.(value_) Denominator
    else DivRoundToNearest a.(value_) Denominator
  else Ret fallback_value.

Definition ToMultiple {u} (Factor : Z) (T : ity) (a : Unit_T u) : outcome Z :=
  v ← ToValue int64_t a; RTC_DCHECK_OP Ge (i64 v) (i64 (lowest T ÷ Factor));;
  v ← ToValue int64_t a; RTC_DCHECK_OP Le (i64 v) (i64 (max T ÷ Factor));;
  v ← ToValue int64_t a; p ← v *! Factor;
  r ← dchecked_cast T (i64 p); Ret r.(val).

(** ** RelativeUnit *)
Definition Clamped {u} (a min_value max_value : Unit_T u) : Unit_T u :=
  let lower := if unit_lt max_value a then max_value else a in
  if unit_lt min_value lower then lower else min_value.

Definition plus {u} (a other : Unit_T u) : outcome (Unit_T u) :=
  if IsPlusInfinity a || IsPlusInfinity other then
    RTC_DCHECK (negb (IsMinusInfinity a));; RTC_DCHECK (negb (IsMinusInfinity other));;
    Ret PlusInfinity
  else if IsMinusInfinity a || IsMinusInfinity other then
    RTC_DCHECK (negb (IsPlusInfinity a));; RTC_DCHECK (negb (IsPlusInfinity other));;
    Ret MinusInfinity
  else
    x ← ToValue int64_t a; y ← ToValue int64_t other; s ← x +! y; FromValue u (i64 s).

Definition minus {u} (a other : Unit_T u) : outcome (Unit_T u) :=
  if IsPlusInfinity a || IsMinusInfinity other then
    RTC_DCHECK (negb (IsMinusInfinity a));; RTC_DCHECK (negb (IsPlusInfinity other));;
    Ret PlusInfinity
  else if IsMinusInfinity a || IsPlusInfinity other then
    RTC_DCHECK (negb (IsPlusInfinity a));; RTC_DCHECK (negb (IsMinusInfinity other));;
    Ret MinusInfinity
  else
    x ← ToValue int64_t a; y ← ToValue int64_t other; s ← x -! y; FromValue u (i64 s).

(** [*] with an [int64_t] or an [int32_t]. *)
Definition times {u} (a : Unit_T u) (scalar : Z) : outcome (Unit_T u) :=
  x ← ToValue int64_t a; p ← x *! scalar; FromValue u (i64 p).

Definition round_checks {u} (a resolution : Unit_T u) : outcome unit :=
  RTC_DCHECK (IsFinite a);; RTC_DCHECK (IsFinite resolution);;
  RTC_DCHECK_OP Gt (i64 resolution.(value_)) (int 0).

Definition RoundTo {u} (a resolution : Unit_T u) : outcome (Unit_T u) :=
  round_checks a resolution;;
  s ← a.(value_) +! resolution.(value_) ÷ 2; q ← idiv s resolution.(value_);
  times (mkUnit (u := u) q) resolution.(value_).

Definition RoundUpTo {u} (a resolution : Unit_T u) : outcome (Unit_T u) :=
  round_checks a resolution;;
  s ← a.(value_) +! resolution.(value_); s ← s -! 1; q ← idiv s resolution.(value_);
  times (mkUnit (u := u) q) resolution.(value_).

Definition RoundDownTo {u} (a resolution : Unit_T u) : outcome (Unit_T u) :=
  round_checks a resolution;;
  q ← idiv a.(value_) resolution.(value_);
  times (mkUnit (u := u) q) resolution.(value_).

(** ** TimeDelta and Timestamp: microseconds *)
Definition Seconds (u : kind) (value : tv) : outcome (Unit_T u) := FromFraction u 1000000 value.
Definition Millis (u : kind) (value : tv) : outcome (Unit_T u) := FromFraction u 1000 value.
Definition Micros (u : kind) (value : tv) : outcome (Unit_T u) := FromValue u value.

Definition seconds {u} (T : ity) (a : Unit_T u) : outcome Z := ToFraction 1000000 T a.
Definition ms {u} (T : ity) (a : Unit_T u) : outcome Z := ToFraction 1000 T a.
Definition us {u} (T : ity) (a : Unit_T u) : outcome Z := ToValue T a.
Definition ns (T : ity) (a : Unit_T TimeDelta) : outcome Z := ToMultiple 1000 T a.

Definition seconds_or {u} (a : Unit_T u) (fallback : Z) : outcome Z := ToFractionOr 1000000 a fallback.
Definition ms_or {u} (a : Unit_T u) (fallback : Z) : outcome Z := ToFractionOr 1000 a fallback.
Definition us_or {u} (a : Unit_T u) (fallback : Z) : Z := ToValueOr a fallback.

Definition Abs (a : Unit_T TimeDelta) : outcome (Unit_T TimeDelta) :=
  x ← us int64_t a;
  if x <? 0 then x ← us int64_t a; y ← 0 -! x; Micros TimeDelta (i64 y) else Ret a.

Definition ts_plus (a : Unit_T Timestamp) (delta : Unit_T TimeDelta) : outcome (Unit_T Timestamp) :=
  if IsPlusInfinity a || IsPlusInfinity delta then
    RTC_DCHECK (negb (IsMinusInfinity a));; RTC_DCHECK (negb (IsMinusInfinity delta));;
    Ret PlusInfinity
  else if IsMinusInfinity a || IsMinusInfinity delta then
    RTC_DCHECK (negb (IsPlusInfinity a));; RTC_DCHECK (negb (IsPlusInfinity delta));;
    Ret MinusInfinity
  else
    x ← us int64_t a; y ← us int64_t delta; s ← x +! y; Micros Timestamp (i64 s).

Definition ts_minus (a : Unit_T Timestamp) (delta : Unit_T TimeDelta) : outcome (Unit_T Timestamp) :=
  if IsPlusInfinity a || IsMinusInfinity delta then
    RTC_DCHECK (negb (IsMinusInfinity a));; RTC_DCHECK (negb (IsPlusInfinity delta));;
    Ret PlusInfinity
  else if IsMinusInfinity a || IsPlusInfinity delta then
    RTC_DCHECK (negb (IsPlusInfinity a));; RTC_DCHECK (negb (IsMinusInfinity delta));;
    Ret MinusInfinity
  else
    x ← us int64_t a; y ← us int64_t delta; s ← x -! y; Micros Timestamp (i64 s).

Definition ts_diff (a other : Unit_T Timestamp) : outcome (Unit_T TimeDelta) :=
  if IsPlusInfinity a || IsMinusInfinity other then
    RTC_DCHECK (negb (IsMinusInfinity a));; RTC_DCHECK (negb (IsPlusInfinity other));;
    Ret PlusInfinity
  else if IsMinusInfinity a || IsPlusInfinity other then
    RTC_DCHECK (negb (IsPlusInfinity a));; RTC_DCHECK (negb (IsMinusInfinity other));;
    Ret MinusInfinity
  else
    x ← us int64_t a; y ← us int64_t other; s ← x -! y; Micros TimeDelta (i64 s).

(** ** DataSize, DataRate and Frequency *)
Definition Bytes (value : tv) : outcome (Unit_T DataSize) := FromValue DataSize value.
Definition bytes (T : ity) (a : Unit_T DataSize) : outcome Z := ToValue T a.
Definition bytes_or (a : Unit_T DataSize) (fallback : Z) : Z := ToValueOr a fallback.

Definition BitsPerSec (value : tv) : outcome (Unit_T DataRate) := FromValue DataRate value.
Definition BytesPerSec (value : tv) : outcome (Unit_T DataRate) := FromFraction DataRate 8 value.
Definition KilobitsPerSec (value : tv) : outcome (Unit_T DataRate) := FromFraction DataRate 1000 value.
Definition bps (T : ity) (a : Unit_T DataRate) : outcome Z := ToValue T a.
Definition bytes_per_sec (T : ity) (a : Unit_T DataRate) : outcome Z := ToFraction 8 T a.
Definition kbps (T : ity) (a : Unit_T DataRate) : outcome Z := ToFraction 1000 T a.
Definition bps_or (a : Unit_T DataRate) (fallback : Z) : Z := ToValueOr a fallback.
Definition kbps_or (a : Unit_T DataRate) (fallback : Z) : outcome Z := ToFractionOr 1000 a fallback.

Definition MilliHertz (value : tv) : outcome (Unit_T Frequency) := FromValue Frequency value.
Definition Hertz (value : tv) : outcome (Unit_T Frequency) := FromFraction Frequency 1000 value.
Definition KiloHertz (value : tv) : outcome (Unit_T Frequency) := FromFraction Frequency 1000000 value.
Definition hertz (T : ity) (a : Unit_T Frequency) : outcome Z := ToFraction 1000 T a.
Definition millihertz (T : ity) (a : Unit_T Frequency) : outcome Z := ToValue T a.

Definition Microbits (size : Unit_T DataSize) : outcome Z :=
  let kMaxBeforeConversion := max int64_t ÷ 8000000 in
  b ← bytes int64_t size; RTC_DCHECK_OP Le (i64 b) (i64 kMaxBeforeConversion);;
  b ← bytes int64_t size; b *! 8000000.

Definition MillibytePerSec (rate : Unit_T DataRate) : outcome Z :=
  let kMaxBeforeConversion := max int64_t ÷ (1000 ÷ 8) in
  b ← bps int64_t rate; RTC_DCHECK_OP Le (i64 b) (i64 kMaxBeforeConversion);;
  b ← bps int64_t rate; b *! (1000 ÷ 8).

(** size / duration *)
Definition size_div_time (size : Unit_T DataSize) (duration : Unit_T TimeDelta) : outcome (Unit_T DataRate) :=
  b ← Microbits size; d ← us int64_t duration; q ← idiv b d; BitsPerSec (i64 q).

(** size / rate *)
Definition size_div_rate (size : Unit_T DataSize) (rate : Unit_T DataRate) : outcome (Unit_T TimeDelta) :=
  b ← Microbits size; r ← bps int64_t rate; q ← idiv b r; Micros TimeDelta (i64 q).

(** rate * duration *)
Definition rate_times_time (rate : Unit_T DataRate) (duration : Unit_T TimeDelta) : outcome (Unit_T DataSize) :=
  r ← bps int64_t rate; d ← us int64_t duration; microbits ← r *! d;
  s ← microbits +! 4000000; q ← idiv s 8000000; Bytes (i64 q).

(** rate / frequency *)
Definition rate_div_freq (rate : Unit_T DataRate) (frequency : Unit_T Frequency) : outcome (Unit_T DataSize) :=
  f ← millihertz int64_t frequency; m ← MillibytePerSec rate; q ← idiv m f; Bytes (i64 q).

(** rate / size *)
Definition rate_div_size (rate : Unit_T DataRate) (size : Unit_T DataSize) : outcome (Unit_T Frequency) :=
  m ← MillibytePerSec rate; b ← bytes int64_t size; q ← idiv m b; MilliHertz (i64 q).

(** size * frequency *)
Definition size_times_freq (size : Unit_T DataSize) (frequency : Unit_T Frequency) : outcome (Unit_T DataRate) :=
  (if RTC_DCHECK_IS_ON then
     if IsZero frequency then Ret tt
     else
       b ← bytes int64_t size; f ← millihertz int64_t frequency; q ← idiv (max int64_t ÷ 8) f;
       RTC_CHECK (b <=? q)
   else Ret tt);;
  b ← bytes int64_t size; b8 ← b *! 8; f ← millihertz int64_t frequency;
  millibits_per_second ← b8 *! f;
  s ← millibits_per_second +! 500; q ← idiv s 1000; BitsPerSec (i64 q).

(** nominator / interval *)
Definition num_div_time (nominator : Z) (interval : Unit_T TimeDelta) : outcome (Unit_T Frequency) :=
  let kKiloPerMicro := 1000 * 1000000 in
  RTC_DCHECK_OP Le (i64 nominator) (i64 (max int64_t ÷ kKiloPerMicro));;
  RTC_CHECK (IsFinite interval);; RTC_CHECK (negb (IsZero interval));;
  p ← nominator *! kKiloPerMicro; d ← us int64_t interval; q ← idiv p d; MilliHertz (i64 q).

(** nominator / frequency *)
Definition num_div_freq (nominator : Z) (frequency : Unit_T Frequency) : outcome (Unit_T TimeDelta) :=
  let kMegaPerMilli := 1000000 * 1000 in
  RTC_DCHECK_OP Le (i64 nominator) (i64 (max int64_t ÷ kMegaPerMilli));;
  RTC_CHECK (IsFinite frequency);; RTC_CHECK (negb (IsZero frequency));;
  p ← nominator *! kMegaPerMilli; d ← millihertz int64_t frequency; q ← idiv p d; Micros TimeDelta (i64 q).

End Code.

(** ** Extended integers *)
Inductive ext := Fin (z : Z) | PInf | MInf.

Definition denote {u} (a : Unit_T u) : ext :=
  if a.(value_) =? PlusInfinityVal then PInf
  else if a.(value_) =? MinusInfinityVal then MInf else Fin a.(value_).

(** [None] for the difference of two equal infinities. *)
Definition ext_add (x y : ext) : option ext :=
  match x, y with
  | Fin a, Fin b => Some (Fin (a + b))
  | PInf, MInf | MInf, PInf => None
  | PInf, _ | _, PInf => Some PInf
  | MInf, _ | _, MInf => Some MInf
  end.

Definition ext_opp (x : ext) : ext :=
  match x with Fin a => Fin (- a) | PInf => MInf | MInf => PInf end.

Definition ext_le (x y : ext) : bool :=
  match x, y with
  | MInf, _ | _, PInf => true
  | Fin a, Fin b => a <=? b
  | _, _ => false
  end.

(** The values of a unit. *)
Definition representable (u : kind) (x : ext) : bool :=
  match x with
  | Fin z => (MinusInfinityVal <? z) && (z <? PlusInfinityVal) && (negb (one_sided u) || (0 <=? z))
  | _ => true
  end.

Definition wf {u} (a : Unit_T u) : bool := in_range int64_t a.(value_) && representable u (denote a).

Lemma infinity_vals : PlusInfinityVal = 9223372036854775807 ∧ MinusInfinityVal = - 9223372036854775808.
Proof. done. Qed.

Lemma representable_fin u z :
  representable u (Fin z) = true →
  - 9223372036854775808 < z < 9223372036854775807 ∧ (one_sided u = true → 0 ≤ z).
Proof.
  simpl. destruct infinity_vals as [-> ->]. rewrite !andb_true_iff, orb_true_iff, negb_true_iff, !Z.ltb_lt, Z.leb_le.
  destruct (one_sided u); intuition congruence.
Qed.

Lemma denote_fin u z :
  - 9223372036854775808 < z < 9223372036854775807 → denote (mkUnit (u := u) z) = Fin z.
Proof.
  intros Hz. unfold denote. simpl. destruct infinity_vals as [-> ->].
  destruct (Z.eqb_spec z 9223372036854775807), (Z.eqb_spec z (- 9223372036854775808)); done || lia.
Qed.

(** The three cases of a value. *)
Lemma denote_cases u (a : Unit_T u) :
  wf a = true →
  a = PlusInfinity ∧ denote a = PInf ∨ a = MinusInfinity ∧ denote a = MInf ∨
  denote a = Fin a.(value_) ∧ representable u (Fin a.(value_)) = true ∧ IsPlusInfinity a = false ∧
    IsMinusInfinity a = false.
Proof.
  destruct a as [z]. unfold wf, denote, IsPlusInfinity, IsMinusInfinity, PlusInfinity, MinusInfinity. simpl.
  rewrite andb_true_iff. intros [_ Hr].
  destruct (Z.eqb_spec z PlusInfinityVal) as [E|]; [left; by rewrite E|].
  destruct (Z.eqb_spec z MinusInfinityVal) as [E|]; [right; left; by rewrite E|by right; right].
Qed.

#[local] Arguments representable : simpl never.

Section Lemmas.
Context `{Build}.

Lemma FromValue_ok u z :
  representable u (Fin z) = true → FromValue u (TV int64_t z) = Ret (mkUnit z).
Proof.
  intros Hr. apply representable_fin in Hr as [Hz Hs]. unfold FromValue. destruct infinity_vals as [-> ->].
  assert (ok (TV int64_t z) = true) by (apply i64_ok; lia).
  assert ((if one_sided u then RTC_DCHECK_OP Ge (TV int64_t z) (int 0) else Ret tt) = Ret tt) as ->.
  { destruct (one_sided u); [|done]. apply RTC_DCHECK_OP_ok; [done..|]. apply Z.leb_le. by apply Hs. }
  simpl. rewrite !RTC_DCHECK_OP_ok by (done || (apply Z.ltb_lt; simpl; lia)). simpl.
  by rewrite dchecked_cast_ok by (done || (apply in_range_true; simpl; lia)).
Qed.

Lemma IsFinite_fin u (a : Unit_T u) : representable u (Fin a.(value_)) = true → IsFinite a = true.
Proof.
  intros Hr. apply representable_fin in Hr as [Hz _]. unfold IsFinite, IsInfinite.
  destruct infinity_vals as [-> ->].
  destruct (Z.eqb_spec a.(value_) 9223372036854775807), (Z.eqb_spec a.(value_) (- 9223372036854775808)); done || lia.
Qed.

Lemma ToValue_ok u (a : Unit_T u) T :
  representable u (Fin a.(value_)) = true → in_range T a.(value_) = true → ToValue T a = Ret a.(value_).
Proof.
  intros Hr HT. unfold ToValue. rewrite RTC_DCHECK_true by (by apply IsFinite_fin).
  apply representable_fin in Hr as [Hz _]. simpl. rewrite dchecked_cast_ok; [done|apply i64_ok; lia|done].
Qed.

(** [o] is the value [x]. *)
Definition denotes {u} (o : outcome (Unit_T u)) (x : ext) : Prop :=
  ∃ c, o = Ret c ∧ denote c = x ∧ wf c = true.

Lemma denotes_fin u z o :
  representable u (Fin z) = true → o = Ret (mkUnit (u := u) z) → denotes o (Fin z).
Proof.
  intros Hr ->. pose proof (representable_fin _ _ Hr) as [Hz _]. exists (mkUnit z).
  rewrite denote_fin by done. split_and!; try done. unfold wf. rewrite denote_fin, Hr, andb_true_r by done.
  apply in_range_i64. simpl. lia.
Qed.

Lemma denotes_FromValue u z :
  representable u (Fin z) = true → denotes (FromValue u (TV int64_t z)) (Fin z).
Proof. intros Hr. apply denotes_fin; [done|]. by apply FromValue_ok. Qed.

Lemma denotes_PlusInfinity u : denotes (u := u) (Ret PlusInfinity) PInf.
Proof. by exists PlusInfinity. Qed.

Lemma denotes_MinusInfinity u : denotes (u := u) (Ret MinusInfinity) MInf.
Proof. by exists MinusInfinity. Qed.

Lemma IsInf_of u :
  IsPlusInfinity (@PlusInfinity u) = true ∧ IsMinusInfinity (@PlusInfinity u) = false ∧
  IsPlusInfinity (@MinusInfinity u) = false ∧ IsMinusInfinity (@MinusInfinity u) = true.
Proof. done. Qed.

(** Finite operands. *)
Lemma fin_i64 u (a : Unit_T u) :
  representable u (Fin a.(value_)) = true → ToValue int64_t a = Ret a.(value_).
Proof.
  intros Hr. apply ToValue_ok; [done|]. apply representable_fin in Hr as [? _]. apply in_range_i64. lia.
Qed.

(** Operators on two extended values: the infinities by cases, the rest by
    64-bit arithmetic. *)
Ltac extended a b Ha Hb He Hr :=
  destruct (denote_cases _ a Ha) as [[-> ?Ea]|[[-> ?Ea]|(?Ea & ?Ra & ?Pa & ?Ma)]],
    (denote_cases _ b Hb) as [[-> ?Eb]|[[-> ?Eb]|(?Eb & ?Rb & ?Pb & ?Mb)]];
  repeat match goal with E : denote _ = _ |- _ => progress rewrite ?E in He; clear E end;
  simplify_eq/=;
  repeat match goal with E : IsPlusInfinity _ = _ |- _ => rewrite E; clear E end;
  repeat match goal with E : IsMinusInfinity _ = _ |- _ => rewrite E; clear E end;
  simpl; rewrite ?RTC_DCHECK_true by done; simpl;
  try first [apply denotes_PlusInfinity | apply denotes_MinusInfinity];
  unfold us; rewrite !fin_i64 by done; simpl; pose proof (representable_fin _ _ Hr) as [? _];
  rewrite chk64_ok by lia; by apply denotes_FromValue.

Section Binary.
Context {u : kind} (a b : Unit_T u) (e : ext) (Ha : wf a = true) (Hb : wf b = true).

Lemma plus_denotes :
  ext_add (denote a) (denote b) = Some e → representable u e = true → denotes (plus a b) e.
Proof. intros He Hr. unfold plus. extended a b Ha Hb He Hr. Qed.

Lemma minus_denotes :
  ext_add (denote a) (ext_opp (denote b)) = Some e → representable u e = true → denotes (minus a b) e.
Proof. intros He Hr. unfold minus. extended a b Ha Hb He Hr. Qed.

Lemma unit_le_denotes : unit_le a b = ext_le (denote a) (denote b).
Proof.
  unfold unit_le. destruct infinity_vals as [EP EM].
  destruct (denote_cases _ a Ha) as [[-> Ea]|[[-> Ea]|(Ea & Ra & _)]],
    (denote_cases _ b Hb) as [[-> Eb]|[[-> Eb]|(Eb & Rb & _)]]; rewrite ?Ea, ?Eb; try done;
    try (apply representable_fin in Ra as [Ra _]); try (apply representable_fin in Rb as [Rb _]);
    simpl; rewrite ?EP, ?EM; (apply Z.leb_le || apply Z.leb_gt); lia.
Qed.

End Binary.

Section Stamps.
Context (t : Unit_T Timestamp) (d : Unit_T TimeDelta) (t' : Unit_T Timestamp) (e : ext).
Context (Ht : wf t = true) (Hd : wf d = true) (Ht' : wf t' = true).

Lemma ts_plus_denotes :
  ext_add (denote t) (denote d) = Some e → representable Timestamp e = true → denotes (ts_plus t d) e.
Proof. intros He Hr. unfold ts_plus. extended t d Ht Hd He Hr. Qed.

Lemma ts_minus_denotes :
  ext_add (denote t) (ext_opp (denote d)) = Some e → representable Timestamp e = true →
  denotes (ts_minus t d) e.
Proof. intros He Hr. unfold ts_minus. extended t d Ht Hd He Hr. Qed.

Lemma ts_diff_denotes :
  ext_add (denote t) (ext_opp (denote t')) = Some e → representable TimeDelta e = true →
  denotes (ts_diff t t') e.
Proof. intros He Hr. unfold ts_diff. extended t t' Ht Ht' He Hr. Qed.

End Stamps.

(** ** Conversions *)

(** [q] is a nearest integer to [n / d]. *)
Definition nearest (n d q : Z) : Prop := 2 * Z.abs (n - q * d) ≤ d.

(** The denominators in use. *)
Definition scale (d : Z) : Prop := 0 < d ≤ 1000000000.

Lemma idiv_ok a b :
  0 < b → - 9223372036854775808 ≤ a ≤ 9223372036854775807 → idiv a b = Ret (a ÷ b).
Proof.
  intros Hb Ha. unfold idiv. destruct (Z.eqb_spec b 0); [lia|]. apply chk64_ok.
  pose proof (Z.quot_rem' a b). pose proof (Z.rem_bound_abs a b). nia.
Qed.

Lemma DivRoundPositive_nearest n d :
  scale d → 0 ≤ n ≤ 9223372036854775808 - d →
  ∃ q, DivRoundPositiveToNearest n d = Ret q ∧ nearest n d q ∧ 0 ≤ q ≤ n.
Proof.
  unfold scale. intros Hd Hn. unfold DivRoundPositiveToNearest, nearest.
  rewrite (Z.quot_div_nonneg d 2) by lia.
  pose proof (Z.div_mod d 2 ltac:(lia)). pose proof (Z.mod_pos_bound d 2 ltac:(lia)).
  rewrite chk64_ok by lia. simpl. rewrite idiv_ok by lia.
  rewrite Z.quot_div_nonneg by lia. eexists. split; [done|].
  pose proof (Z.div_mod (n + d / 2) d ltac:(lia)). pose proof (Z.mod_pos_bound (n + d / 2) d ltac:(lia)).
  set (q := (n + d / 2) / d) in *. clearbody q. split; [nia|]. split; nia.
Qed.

Lemma DivRound_nearest n d :
  scale d → - 9223372036854775808 + d ≤ n ≤ 9223372036854775808 - d →
  ∃ q, DivRoundToNearest n d = Ret q ∧ nearest n d q ∧ Z.abs q ≤ Z.abs n.
Proof.
  intros Hd Hn. unfold DivRoundToNearest. destruct (Z.leb_spec 0 n).
  - destruct (DivRoundPositive_nearest n d) as (q & E & Hq & Hb); [done|lia|].
    exists q. split_and!; [exact E|done|lia].
  - destruct (DivRoundPositive_nearest (- n) d) as (q & E & Hq & Hb); [done|lia|].
    unfold DivRoundPositiveToNearest, scale in *. rewrite (Z.quot_div_nonneg d 2) in E by lia.
    pose proof (Z.div_mod d 2 ltac:(lia)). pose proof (Z.mod_pos_bound d 2 ltac:(lia)).
    rewrite chk64_ok in E by lia. simpl in E. rewrite idiv_ok in E by lia. injection E as E.
    exists (- q). rewrite Z.quot_opp_l, (Z.quot_div_nonneg d 2), chk64_ok by lia. simpl.
    rewrite idiv_ok by lia. split_and!; [|unfold nearest in *; lia|lia].
    rewrite <- E. f_equal. rewrite <- Z.quot_opp_l by lia. f_equal. lia.
Qed.

Lemma ToFraction_nearest u (a : Unit_T u) d T :
  scale d → representable u (Fin a.(value_)) = true →
  - 9223372036854775808 + d ≤ a.(value_) ≤ 9223372036854775808 - d →
  ∃ q, nearest a.(value_) d q ∧ (in_range T q = true → ToFraction d T a = Ret q).
Proof.
  intros Hd Hr Hb. pose proof (representable_fin _ _ Hr) as [Hf Hs].
  assert (∃ q, (if one_sided u then DivRoundPositiveToNearest a.(value_) d
      else DivRoundToNearest a.(value_) d) = Ret q ∧ nearest a.(value_) d q ∧
      Z.abs q ≤ Z.abs a.(value_)) as (q & E & Hq & Hqb).
  { destruct (one_sided u); [|by apply DivRound_nearest]. specialize (Hs eq_refl).
    destruct (DivRoundPositive_nearest a.(value_) d) as (q & -> & Hq & ?); [done|lia|].
    exists q. split_and!; [done..|lia]. }
  exists q. split; [done|]. intros HT. unfold ToFraction.
  rewrite RTC_DCHECK_true by (by apply IsFinite_fin). simpl. rewrite E. simpl.
  rewrite dchecked_cast_ok; [done|apply i64_ok; lia|done].
Qed.

Lemma FromFraction_ok u d v :
  scale d → ok v = true →
  MinusInfinityVal ÷ d < v.(val) < PlusInfinityVal ÷ d → (one_sided u = true → 0 ≤ v.(val)) →
  FromFraction u d v = Ret (mkUnit (v.(val) * d)) ∧ representable u (Fin (v.(val) * d)) = true ∧
  - 9223372036854775808 + d ≤ v.(val) * d ≤ 9223372036854775807 - d.
Proof.
  unfold scale. intros Hd Hv Hb Hs. unfold FromFraction.
  assert (- 9223372036854775808 + d ≤ v.(val) * d ≤ 9223372036854775807 - d) as Hp.
  { destruct infinity_vals as [EP EM]. rewrite EP, EM in Hb.
    quot_rem 9223372036854775807 d. quot_rem (- 9223372036854775808) d.
    assert ((v.(val) + 1) * d ≤ q * d) by (apply Z.mul_le_mono_nonneg_r; lia).
    assert ((q0 + 1) * d ≤ v.(val) * d) by (apply Z.mul_le_mono_nonneg_r; lia). lia. }
  assert (representable u (Fin (v.(val) * d)) = true) as Hr.
  { unfold representable. destruct infinity_vals as [-> ->].
    rewrite !andb_true_iff, orb_true_iff, negb_true_iff, !Z.ltb_lt, Z.leb_le.
    split; [lia|]. destruct (one_sided u); [right; specialize (Hs eq_refl); nia|by left]. }
  split_and!; try done; try lia.
  assert (- 9223372036854775808 ≤ MinusInfinityVal ÷ d ≤ 0 ∧ 0 ≤ PlusInfinityVal ÷ d ≤ 9223372036854775807)
    as [B1 B2].
  { destruct infinity_vals as [-> ->].
    quot_rem 9223372036854775807 d. quot_rem (- 9223372036854775808) d. nia. }
  assert ((if one_sided u then RTC_DCHECK_OP Ge v (int 0) else Ret tt) = Ret tt) as ->.
  { destruct (one_sided u); [|done]. apply RTC_DCHECK_OP_ok; [done..|]. apply Z.leb_le. by apply Hs. }
  simpl. rewrite !RTC_DCHECK_OP_ok by (done || (apply i64_ok; lia) || (apply Z.ltb_lt; simpl; lia)). simpl.
  assert (∃ c, common v.(ty) int64_t = c ∧ (c = int64_t ∨ c = uint64_t ∧ 0 ≤ v.(val))) as (c & Ec & Hc).
  { exists (common v.(ty) int64_t). split; [done|]. unfold ok in Hv. rewrite in_range_spec in Hv.
    destruct v.(ty); try (by left). right. split; [done|]. exact (proj1 Hv). }
  assert (lowest c ≤ v.(val) * d ≤ max c ∧ lowest c ≤ v.(val) ≤ max c ∧ lowest c ≤ d ≤ max c) as (R1 & R2 & R3).
  { unfold lowest, max. destruct Hc as [->|[-> ?]]; simpl; split_and!; nia. }
  unfold mul. rewrite (binop_ok Z.mul v (TV int64_t d) c (v.(val) * d)) by done. simpl.
  rewrite dchecked_cast_ok; [done|by apply in_range_true|apply in_range_i64; simpl; lia].
Qed.

(** ** Rounding *)
Lemma round_checks_ok u (a r : Unit_T u) :
  representable u (Fin a.(value_)) = true → representable u (Fin r.(value_)) = true → 0 < r.(value_) →
  round_checks a r = Ret tt.
Proof.
  intros Ha Hr H0. unfold round_checks. rewrite !RTC_DCHECK_true by (by apply IsFinite_fin). simpl.
  apply representable_fin in Hr as [Hr _].
  apply RTC_DCHECK_OP_ok; [apply i64_ok; lia|done|]. by apply Z.ltb_lt.
Qed.

Lemma times_ok u q k :
  representable u (Fin q) = true → representable u (Fin (q * k)) = true →
  times (mkUnit (u := u) q) k = Ret (mkUnit (q * k)).
Proof.
  intros Hq Hp. unfold times. rewrite fin_i64 by done. simpl.
  rewrite chk64_ok by (apply representable_fin in Hp; lia). by apply FromValue_ok.
Qed.

Lemma representable_nonneg u z : 0 ≤ z < 9223372036854775807 → representable u (Fin z) = true.
Proof.
  intros Hz. unfold representable. destruct infinity_vals as [-> ->].
  rewrite !andb_true_iff, orb_true_iff, !Z.ltb_lt, Z.leb_le. lia.
Qed.

(** The multiple [k] of the resolution. *)
Lemma times_multiple u k r z :
  0 < r → 0 ≤ k → k * r ≤ z → z < 9223372036854775807 →
  times (mkUnit (u := u) k) r = Ret (mkUnit (k * r)).
Proof. intros. apply times_ok; apply representable_nonneg; nia. Qed.

Lemma RoundDownTo_ok u (a r : Unit_T u) :
  let v := a.(value_) in
  0 ≤ v < 9223372036854775807 → 0 < r.(value_) < 9223372036854775807 →
  ∃ k, RoundDownTo a r = Ret (mkUnit (k * r.(value_))) ∧ k * r.(value_) ≤ v < (k + 1) * r.(value_).
Proof.
  intros v Hv Hr. unfold RoundDownTo. fold v.
  rewrite round_checks_ok by (try apply representable_nonneg; unfold v in *; lia). simpl.
  rewrite idiv_ok by lia. simpl. quot_rem v r.(value_). exists q.
  rewrite (times_multiple _ _ _ v) by nia. split; [done|nia].
Qed.

Lemma RoundUpTo_ok u (a r : Unit_T u) :
  let v := a.(value_) in
  0 ≤ v → 0 < r.(value_) → v + r.(value_) < 9223372036854775807 →
  ∃ k, RoundUpTo a r = Ret (mkUnit (k * r.(value_))) ∧ (k - 1) * r.(value_) < v ≤ k * r.(value_).
Proof.
  intros v Hv Hr Hb. unfold RoundUpTo. fold v.
  rewrite round_checks_ok by (try apply representable_nonneg; unfold v in *; lia). simpl.
  rewrite chk64_ok by lia. simpl. rewrite chk64_ok by lia. simpl. rewrite idiv_ok by lia. simpl.
  quot_rem (v + r.(value_) - 1) r.(value_). exists q.
  rewrite (times_multiple _ _ _ (v + r.(value_))) by nia. split; [done|nia].
Qed.

Lemma RoundTo_ok u (a r : Unit_T u) :
  let v := a.(value_) in
  0 ≤ v → 0 < r.(value_) → v + r.(value_) < 9223372036854775807 →
  ∃ k, RoundTo a r = Ret (mkUnit (k * r.(value_))) ∧ nearest v r.(value_) k.
Proof.
  intros v Hv Hr Hb. unfold RoundTo, nearest. fold v.
  rewrite round_checks_ok by (try apply representable_nonneg; unfold v in *; lia). simpl.
  quot_rem r.(value_) 2. rewrite chk64_ok by lia. simpl. rewrite idiv_ok by lia. simpl.
  quot_rem (v + q) r.(value_). exists q0.
  rewrite (times_multiple _ _ _ (v + r.(value_))) by nia. split; [done|nia].
Qed.

(** Negative values round towards zero in all three. *)
Lemma negative_rounding :
  RoundUpTo (mkUnit (u := TimeDelta) (-1500)) (mkUnit 1000) = Ret (mkUnit 0) ∧
  RoundDownTo (mkUnit (u := TimeDelta) (-1500)) (mkUnit 1000) = Ret (mkUnit (-1000)) ∧
  RoundTo (mkUnit (u := TimeDelta) (-1700)) (mkUnit 1000) = Ret (mkUnit (-1000)).
Proof. destruct H as [[]]; split_and!; reflexivity. Qed.

(** ** Rates *)
Lemma Microbits_ok s :
  0 ≤ s < max int64_t ÷ 8000000 → Microbits (mkUnit s) = Ret (s * 8000000).
Proof.
  intros Hs. change (max int64_t ÷ 8000000) with 1152921504606 in Hs. unfold Microbits, bytes.
  assert (representable DataSize (Fin s) = true) by (apply representable_nonneg; lia).
  rewrite !fin_i64 by done. simpl.
  rewrite RTC_DCHECK_OP_ok by ((apply i64_ok; change (max int64_t ÷ 8000000) with 1152921504606; lia)
    || (apply Z.leb_le; change (s ≤ 1152921504606); lia)).
  simpl. rewrite chk64_ok by lia. done.
Qed.

Lemma size_div_rate_ok s r :
  0 ≤ s < max int64_t ÷ 8000000 → 0 < r < 9223372036854775807 →
  ∃ t, size_div_rate (mkUnit s) (mkUnit r) = Ret (mkUnit t) ∧ 0 ≤ t ≤ s * 8000000 ∧
    t * r ≤ s * 8000000 < (t + 1) * r.
Proof.
  intros Hs Hr. unfold size_div_rate, bps. rewrite Microbits_ok by done.
  change (max int64_t ÷ 8000000) with 1152921504606 in Hs. simpl.
  rewrite fin_i64 by (apply representable_nonneg; simpl; lia). simpl. rewrite idiv_ok by lia. simpl.
  quot_rem (s * 8000000) r. exists q. unfold Micros.
  rewrite FromValue_ok by (apply representable_nonneg; nia). split_and!; [done|nia..].
Qed.

Lemma rate_times_time_ok r t :
  0 < r < 9223372036854775807 → 0 ≤ t < 9223372036854775807 → t * r + 4000000 < 9223372036854775807 →
  ∃ s, rate_times_time (mkUnit r) (mkUnit t) = Ret (mkUnit s) ∧ 0 ≤ s ∧
    s * 8000000 ≤ t * r + 4000000 < (s + 1) * 8000000.
Proof.
  intros Hr Ht Hp. unfold rate_times_time, bps, us.
  rewrite !fin_i64 by (apply representable_nonneg; simpl; lia). simpl. rewrite (Z.mul_comm r t).
  rewrite chk64_ok by nia. simpl. rewrite chk64_ok by nia. simpl. rewrite idiv_ok by nia. simpl.
  assert (0 ≤ t * r) by nia. quot_rem (t * r + 4000000) 8000000. exists q. unfold Bytes.
  rewrite FromValue_ok by (apply representable_nonneg; lia). split_and!; [done|lia..].
Qed.

End Lemmas.
End Units.

Import Units.

(** C31: Time, size, rate and frequency values are integers extended by two
    infinities: comparison, sums and differences of any unit, and of
    timestamps with time deltas, return the value the extended integers give
    whenever that is defined and representable. *)
Theorem units_extended_arithmetic `{Build} u (a b : Unit_T u) (t t' : Unit_T Timestamp) (d : Unit_T TimeDelta) :
  wf a = true → wf b = true → wf t = true → wf t' = true → wf d = true →
  (unit_le a b = ext_le (denote a) (denote b)) ∧
  (∀ e, ext_add (denote a) (denote b) = Some e → representable u e = true → denotes (plus a b) e) ∧
  (∀ e, ext_add (denote a) (ext_opp (denote b)) = Some e → representable u e = true → denotes (minus a b) e) ∧
  (∀ e, ext_add (denote t) (denote d) = Some e → representable Timestamp e = true → denotes (ts_plus t d) e) ∧
  (∀ e, ext_add (denote t) (ext_opp (denote d)) = Some e → representable Timestamp e = true →
     denotes (ts_minus t d) e) ∧
  (∀ e, ext_add (denote t) (ext_opp (denote t')) = Some e → representable TimeDelta e = true →
     denotes (ts_diff t t') e).
Proof.
  intros. split_and!; intros; [by apply unit_le_denotes|by apply plus_denotes|by apply minus_denotes
    |by apply ts_plus_denotes|by apply ts_minus_denotes|by apply ts_diff_denotes].
Qed.

Lemma units_extended_arithmetic_witness :
  let _ := Build_Build true in
  denotes (plus (mkUnit (u := DataRate) 5) PlusInfinity) PInf ∧
  denotes (ts_diff (mkUnit 3) (mkUnit 7)) (Fin (-4)).
Proof.
  intros B.
  destruct (units_extended_arithmetic DataRate (mkUnit 5) PlusInfinity (mkUnit 3) (mkUnit 7) (mkUnit 9)
    eq_refl eq_refl eq_refl eq_refl eq_refl) as (_ & P & _ & _ & _ & D).
  split; [exact (P PInf eq_refl eq_refl)|exact (D (Fin (-4)) eq_refl eq_refl)].
Defined.

(** A count of larger units converts to the base unit and back. *)
Lemma units_conversions_round_trip `{Build} u D T v :
  scale D → ok v = true → ty v = T →
  MinusInfinityVal ÷ D < v.(val) < PlusInfinityVal ÷ D → (one_sided u = true → 0 ≤ v.(val)) →
  ∃ a, FromFraction u D v = Ret a ∧ a.(value_) = v.(val) * D ∧ ToFraction D T a = Ret v.(val).
Proof.
  intros HD Hv <- Hb Hs. destruct (FromFraction_ok u D v) as (E & Hr & Hp); [done..|].
  exists (mkUnit (v.(val) * D)). split_and!; [done..|].
  destruct (ToFraction_nearest u (mkUnit (v.(val) * D)) D v.(ty)) as (q & Hq & Hf); [done..|simpl; lia|].
  assert (q = v.(val)) as -> by (unfold nearest, scale in *; simpl in Hq; nia).
  by apply Hf.
Qed.

(** A negative duration in milliseconds, from [int32_t]. *)
Lemma units_conversions_round_trip_witness :
  let _ := Build_Build true in
  ∃ a, Millis TimeDelta (TV int32_t (-20)) = Ret a ∧ a.(value_) = -20 * 1000 ∧ ms int32_t a = Ret (-20).
Proof.
  intros B. apply (units_conversions_round_trip TimeDelta 1000 int32_t (TV int32_t (-20)));
    vm_compute; intuition congruence.
Defined.

(** Rounding of values that are not negative: down, up and to the nearest. *)
Lemma units_rounding `{Build} u (a r : Unit_T u) :
  0 ≤ a.(value_) → 0 < r.(value_) → a.(value_) + r.(value_) < PlusInfinityVal →
  (∃ k, RoundDownTo a r = Ret (mkUnit (k * r.(value_))) ∧ k * r.(value_) ≤ a.(value_) < (k + 1) * r.(value_)) ∧
  (∃ k, RoundUpTo a r = Ret (mkUnit (k * r.(value_))) ∧ (k - 1) * r.(value_) < a.(value_) ≤ k * r.(value_)) ∧
  (∃ k, RoundTo a r = Ret (mkUnit (k * r.(value_))) ∧ nearest a.(value_) r.(value_) k) ∧
  (∀ D T, scale D → a.(value_) ≤ PlusInfinityVal - D →
     ∃ q, nearest a.(value_) D q ∧ (in_range T q = true → ToFraction D T a = Ret q)).
Proof.
  destruct infinity_vals as [-> _]. intros Ha Hr Hb.
  split_and!; [apply RoundDownTo_ok; lia|by apply RoundUpTo_ok|by apply RoundTo_ok|].
  intros D T HD HaD. unfold scale in *. apply ToFraction_nearest; [done| |lia]. apply representable_nonneg. lia.
Qed.

Lemma units_rounding_witness :
  let _ := Build_Build true in
  let a := mkUnit (u := TimeDelta) 1500 in let r := mkUnit 1000 in
  (∃ k, RoundDownTo a r = Ret (mkUnit (k * 1000)) ∧ k * 1000 ≤ 1500 < (k + 1) * 1000) ∧
  (∃ k, RoundUpTo a r = Ret (mkUnit (k * 1000)) ∧ (k - 1) * 1000 < 1500 ≤ k * 1000).
Proof.
  intros B a r. destruct (units_rounding TimeDelta a r) as (Hd & Hu & _);
    [vm_compute; congruence..|]. split; [exact Hd|exact Hu].
Defined.

(** The time to send a size at a rate is the exact quotient rounded down, and
    sending for that time gives the size back, up to what one microsecond
    carries. *)
Lemma transfer_time_and_rate `{Build} s r :
  0 ≤ s < max int64_t ÷ 8000000 → 0 < r < PlusInfinityVal →
  ∃ t s', size_div_rate (mkUnit s) (mkUnit r) = Ret (mkUnit t) ∧
    rate_times_time (mkUnit r) (mkUnit t) = Ret (mkUnit s') ∧
    t * r ≤ s * 8000000 < (t + 1) * r ∧
    s - (r + 3999999) ÷ 8000000 ≤ s' ≤ s ∧ (r ≤ 4000000 → s' = s).
Proof.
  destruct infinity_vals as [-> _]. intros Hs Hr.
  destruct (size_div_rate_ok s r) as (t & Et & Ht & Hb); [done..|].
  change (max int64_t ÷ 8000000) with 1152921504606 in Hs.
  destruct (rate_times_time_ok r t) as (s' & Es & Hs0 & Hs'); [lia..|].
  exists t, s'. split_and!; [done..|lia|lia| |lia|lia]. quot_rem (r + 3999999) 8000000. lia.
Qed.

(** 1500 bytes at 1 Mbit/s. *)
Lemma transfer_time_and_rate_witness :
  let _ := Build_Build true in
  ∃ t s', size_div_rate (mkUnit 1500) (mkUnit 1000000) = Ret (mkUnit t) ∧
    rate_times_time (mkUnit 1000000) (mkUnit t) = Ret (mkUnit s') ∧
    t * 1000000 ≤ 1500 * 8000000 < (t + 1) * 1000000 ∧
    1500 - (1000000 + 3999999) ÷ 8000000 ≤ s' ≤ 1500 ∧ (1000000 ≤ 4000000 → s' = 1500).
Proof. intros B. apply transfer_time_and_rate; vm_compute; intuition congruence. Defined.
