(* ===== verification/Uint128.v ===== *)
(** * 128-bit unsigned integers

    [absl/numeric/int128.h]: absl::uint128 as two 64-bit halves, in the portable
    form that is compiled where the compiler has no 128-bit type. The signed
    type, division and the conversions to floating point are not in the tree or
    not in integers. The theorem: every operation is that of the integers modulo
    2^128. *)

From stdpp Require Import base list.
From Stdlib Require Import ZArith Lia.
From S2P Require Import Prelude SafeNumerics.

Local Open Scope Z_scope.
Import Int.

Module U128.

Record uint128 := mk { hi_ : Z; lo_ : Z }.

(** ** 64-bit operations *)
Definition not64 (x : Z) : Z := u64 (Z.lnot x).
Definition shl64 (x amount : Z) : outcome Z :=
  if (0 <=? amount) && (amount <? 64) then Ret (u64 (Z.shiftl x amount)) else Undef BadShift.
Definition shr64 (x amount : Z) : outcome Z :=
  if (0 <=? amount) && (amount <? 64) then Ret (Z.shiftr x amount) else Undef BadShift.

(** ** Construction and conversion *)
Definition MakeUint128 (high low : Z) : uint128 := mk high low.
Definition Uint128Low64 (v : uint128) : Z := v.(lo_).
Definition Uint128High64 (v : uint128) : Z := v.(hi_).
Definition Uint128Max : uint128 := mk (max uint64_t) (max uint64_t).

(** From a signed and from an unsigned type. *)
Definition of_signed (v : Z) : uint128 := mk (if v <? 0 then max uint64_t else 0) (u64 v).
Definition of_unsigned (v : Z) : uint128 := mk 0 v.

Definition to_bool (v : uint128) : bool := negb (v.(lo_) =? 0) || negb (v.(hi_) =? 0).
Definition to_integer (T : ity) (v : uint128) : Z := static_cast T v.(lo_).

(** ** Comparison *)
Definition eq (lhs rhs : uint128) : bool :=
  (Uint128Low64 lhs =? Uint128Low64 rhs) && (Uint128High64 lhs =? Uint128High64 rhs).
Definition ne (lhs rhs : uint128) : bool := negb (eq lhs rhs).
Definition lt (lhs rhs : uint128) : bool :=
  if Uint128High64 lhs =? Uint128High64 rhs then Uint128Low64 lhs <? Uint128Low64 rhs
  else Uint128High64 lhs <? Uint128High64 rhs.
Definition gt (lhs rhs : uint128) : bool := lt rhs lhs.
Definition le (lhs rhs : uint128) : bool := negb (lt rhs lhs).
Definition ge (lhs rhs : uint128) : bool := negb (lt lhs rhs).

(** ** Arithmetic *)
Definition neg (val : uint128) : uint128 :=
  let hi := not64 (Uint128High64 val) in
  let lo := u64 (not64 (Uint128Low64 val) + 1) in
  let hi := if lo =? 0 then u64 (hi + 1) else hi in
  MakeUint128 hi lo.

Definition lnot (val : uint128) : bool := (Uint128High64 val =? 0) && (Uint128Low64 val =? 0).

Definition bnot (val : uint128) : uint128 :=
  MakeUint128 (not64 (Uint128High64 val)) (not64 (Uint128Low64 val)).
Definition bor (lhs rhs : uint128) : uint128 :=
  MakeUint128 (Z.lor (Uint128High64 lhs) (Uint128High64 rhs)) (Z.lor (Uint128Low64 lhs) (Uint128Low64 rhs)).
Definition band (lhs rhs : uint128) : uint128 :=
  MakeUint128 (Z.land (Uint128High64 lhs) (Uint128High64 rhs)) (Z.land (Uint128Low64 lhs) (Uint128Low64 rhs)).
Definition bxor (lhs rhs : uint128) : uint128 :=
  MakeUint128 (Z.lxor (Uint128High64 lhs) (Uint128High64 rhs)) (Z.lxor (Uint128Low64 lhs) (Uint128Low64 rhs)).

Definition shl (lhs : uint128) (amount : Z) : outcome uint128 :=
  if amount <? 64 then
    if negb (amount =? 0) then
      h ← shl64 (Uint128High64 lhs) amount; l ← shr64 (Uint128Low64 lhs) (64 - amount);
      low ← shl64 (Uint128Low64 lhs) amount; Ret (MakeUint128 (Z.lor h l) low)
    else Ret lhs
  else h ← shl64 (Uint128Low64 lhs) (amount - 64); Ret (MakeUint128 h 0).

Definition shr (lhs : uint128) (amount : Z) : outcome uint128 :=
  if amount <? 64 then
    if negb (amount =? 0) then
      h ← shr64 (Uint128High64 lhs) amount; l ← shr64 (Uint128Low64 lhs) amount;
      m ← shl64 (Uint128High64 lhs) (64 - amount); Ret (MakeUint128 h (Z.lor l m))
    else Ret lhs
  else l ← shr64 (Uint128High64 lhs) (amount - 64); Ret (MakeUint128 0 l).

Definition add (lhs rhs : uint128) : uint128 :=
  let result := MakeUint128 (u64 (Uint128High64 lhs + Uint128High64 rhs)) (u64 (Uint128Low64 lhs + Uint128Low64 rhs)) in
  if Uint128Low64 result <? Uint128Low64 lhs
  then MakeUint128 (u64 (Uint128High64 result + 1)) (Uint128Low64 result)
  else result.

Definition sub (lhs rhs : uint128) : uint128 :=
  let result := MakeUint128 (u64 (Uint128High64 lhs - Uint128High64 rhs)) (u64 (Uint128Low64 lhs - Uint128Low64 rhs)) in
  if Uint128Low64 lhs <? Uint128Low64 rhs
  then MakeUint128 (u64 (Uint128High64 result - 1)) (Uint128Low64 result)
  else result.

Definition mul (lhs rhs : uint128) : outcome uint128 :=
  a32 ← shr64 (Uint128Low64 lhs) 32;
  let a00 := Z.land (Uint128Low64 lhs) 4294967295 in
  b32 ← shr64 (Uint128Low64 rhs) 32;
  let b00 := Z.land (Uint128Low64 rhs) 4294967295 in
  let result :=
    MakeUint128
      (u64 (u64 (u64 (Uint128High64 lhs * Uint128Low64 rhs) + u64 (Uint128Low64 lhs * Uint128High64 rhs)) +
            u64 (a32 * b32)))
      (u64 (a00 * b00)) in
  x ← shl (of_unsigned (u64 (a32 * b00))) 32;
  let result := add result x in
  y ← shl (of_unsigned (u64 (a00 * b32))) 32;
  Ret (add result y).

Definition incr (v : uint128) : uint128 := add v (of_signed 1).
Definition decr (v : uint128) : uint128 := sub v (of_signed 1).

(** ** The value *)
Definition value (v : uint128) : Z := v.(hi_) * 2 ^ 64 + v.(lo_).
Definition wf (v : uint128) : Prop := 0 ≤ v.(hi_) < 2 ^ 64 ∧ 0 ≤ v.(lo_) < 2 ^ 64.

(** [v] is the value [z] modulo 2^128. *)
Definition has (v : uint128) (z : Z) : Prop := wf v ∧ value v = z mod 2 ^ 128.

Lemma has_intro v z k : wf v → value v = z + k * 2 ^ 128 → has v z.
Proof.
  intros Hw Hv. split; [done|]. apply Z.mod_unique with (- k); [left|lia].
  unfold wf, value in *. lia.
Qed.

Lemma has_congr v z z' k : has v z → z' = z + k * 2 ^ 128 → has v z'.
Proof. intros [Hw Hv] ->. split; [done|]. by rewrite Z.mod_add by lia. Qed.

Lemma u64_split z : ∃ q, u64 z = z - q * 2 ^ 64 ∧ 0 ≤ u64 z < 2 ^ 64.
Proof.
  exists (z / 2 ^ 64). unfold u64. pose proof (Z.div_mod z (2 ^ 64)). pose proof (Z.mod_pos_bound z (2 ^ 64)). lia.
Qed.

(** Names the quotient of a wrapped value. *)
Ltac unwrap z := let q := fresh "q" in let E := fresh "E" in let B := fresh "B" in
  destruct (u64_split z) as (q & E & B).

Lemma value_range v : wf v → 0 ≤ value v < 2 ^ 128.
Proof. unfold wf, value. lia. Qed.

Lemma has_value v : wf v → has v (value v).
Proof. intros Hw. apply (has_intro v _ 0); [done|lia]. Qed.

Lemma add_has a b : wf a → wf b → has (add a b) (value a + value b).
Proof.
  intros [Ha1 Ha2] [Hb1 Hb2]. unfold add, MakeUint128, Uint128High64, Uint128Low64. simpl.
  unwrap (a.(hi_) + b.(hi_)). unwrap (a.(lo_) + b.(lo_)). destruct (Z.ltb_spec (u64 (a.(lo_) + b.(lo_))) a.(lo_)).
  - unwrap (u64 (a.(hi_) + b.(hi_)) + 1). apply (has_intro _ _ (- q - q1)); unfold wf, value; simpl; lia.
  - apply (has_intro _ _ (- q)); unfold wf, value; simpl; lia.
Qed.

Lemma sub_has a b : wf a → wf b → has (sub a b) (value a - value b).
Proof.
  intros [Ha1 Ha2] [Hb1 Hb2]. unfold sub, MakeUint128, Uint128High64, Uint128Low64. simpl.
  unwrap (a.(hi_) - b.(hi_)). unwrap (a.(lo_) - b.(lo_)). destruct (Z.ltb_spec a.(lo_) b.(lo_)).
  - unwrap (u64 (a.(hi_) - b.(hi_)) - 1). apply (has_intro _ _ (- q - q1)); unfold wf, value; simpl; lia.
  - apply (has_intro _ _ (- q)); unfold wf, value; simpl; lia.
Qed.

Lemma not64_eq x : 0 ≤ x < 2 ^ 64 → not64 x = 2 ^ 64 - 1 - x.
Proof. intros Hx. unfold not64, Z.lnot. unwrap (Z.pred (- x)). lia. Qed.

Lemma neg_has a : wf a → has (neg a) (- value a).
Proof.
  intros [Ha1 Ha2]. unfold neg, MakeUint128, Uint128High64, Uint128Low64. rewrite !not64_eq by done.
  unwrap (2 ^ 64 - 1 - a.(lo_) + 1). unwrap (2 ^ 64 - 1 - a.(hi_) + 1).
  destruct (Z.eqb_spec (u64 (2 ^ 64 - 1 - a.(lo_) + 1)) 0).
  - apply (has_intro _ _ (1 - q0)); unfold wf, value; simpl; lia.
  - apply (has_intro _ _ 1); unfold wf, value; simpl; lia.
Qed.

Lemma bnot_has a : wf a → has (bnot a) (2 ^ 128 - 1 - value a).
Proof.
  intros [Ha1 Ha2]. unfold bnot, MakeUint128, Uint128High64, Uint128Low64. rewrite !not64_eq by done.
  apply (has_intro _ _ 0); unfold wf, value; simpl; lia.
Qed.

Lemma lt_value a b : wf a → wf b → lt a b = (value a <? value b).
Proof.
  intros [Ha1 Ha2] [Hb1 Hb2]. unfold lt, Uint128High64, Uint128Low64, value. symmetry.
  destruct (Z.eqb_spec a.(hi_) b.(hi_)); [destruct (Z.ltb_spec a.(lo_) b.(lo_))|destruct (Z.ltb_spec a.(hi_) b.(hi_))];
    rewrite ?Z.ltb_lt, ?Z.ltb_ge; lia.
Qed.

Lemma eq_value a b : wf a → wf b → eq a b = (value a =? value b).
Proof.
  intros [Ha1 Ha2] [Hb1 Hb2]. unfold eq, Uint128High64, Uint128Low64, value. symmetry.
  destruct (Z.eqb_spec a.(lo_) b.(lo_)), (Z.eqb_spec a.(hi_) b.(hi_)); simpl;
    rewrite ?Z.eqb_eq, ?Z.eqb_neq; lia.
Qed.

(** ** Bits *)
Lemma testbit_value v n :
  wf v → 0 ≤ n → Z.testbit (value v) n = if n <? 64 then Z.testbit v.(lo_) n else Z.testbit v.(hi_) (n - 64).
Proof.
  intros [Hh Hl] Hn. unfold value. destruct (Z.ltb_spec n 64).
  - rewrite <- (Z.mod_pow2_bits_low _ 64) by lia. by rewrite Z.add_comm, Z.mod_add, Z.mod_small by lia.
  - replace (Z.testbit v.(hi_) (n - 64)) with (Z.testbit ((v.(hi_) * 2 ^ 64 + v.(lo_)) / 2 ^ 64) (n - 64)).
    + rewrite Z.div_pow2_bits by lia. f_equal. lia.
    + f_equal. rewrite Z.add_comm, Z.div_add, Z.div_small by lia. done.
Qed.

Lemma testbit_high x n : 0 ≤ x < 2 ^ 64 → 64 ≤ n → Z.testbit x n = false.
Proof. intros Hx Hn. rewrite <- (Z.mod_small x (2 ^ 64)) by done. apply Z.mod_pow2_bits_high. lia. Qed.

(** A bitwise operation on both halves. *)
Lemma bitwise_has (f : Z → Z → Z) (g : bool → bool → bool) a b :
  (∀ x y n, Z.testbit (f x y) n = g (Z.testbit x n) (Z.testbit y n)) → g false false = false →
  wf a → wf b → has (mk (f a.(hi_) b.(hi_)) (f a.(lo_) b.(lo_))) (f (value a) (value b)).
Proof.
  intros Hf Hg Ha Hb. pose proof Ha as [Ha1 Ha2]. pose proof Hb as [Hb1 Hb2].
  assert (∀ x y, 0 ≤ x < 2 ^ 64 → 0 ≤ y < 2 ^ 64 → 0 ≤ f x y < 2 ^ 64) as Hr.
  { intros x y Hx Hy. replace (f x y) with (f x y mod 2 ^ 64); [apply Z.mod_pos_bound; lia|].
    apply Z.bits_inj'. intros n Hn. destruct (Z.ltb_spec n 64); [by apply Z.mod_pow2_bits_low|].
    rewrite Z.mod_pow2_bits_high, Hf, !testbit_high by lia. done. }
  assert (wf (mk (f a.(hi_) b.(hi_)) (f a.(lo_) b.(lo_)))) as Hw by (split; simpl; by apply Hr).
  apply (has_intro _ _ 0); [done|]. rewrite Z.add_0_r. apply Z.bits_inj'. intros n Hn.
  rewrite testbit_value, Hf, !testbit_value by done. destruct (n <? 64); simpl; apply Hf.
Qed.

(** Where the bits are disjoint, or is a sum. *)
Lemma lor_disjoint a b k : 0 ≤ k → 0 ≤ b < 2 ^ k → Z.lor (a * 2 ^ k) b = a * 2 ^ k + b.
Proof.
  intros Hk Hb. rewrite <- Z.lxor_lor, <- Z.add_nocarry_lxor; [done|..].
  all: apply Z.bits_inj'; intros n Hn; rewrite Z.land_spec, Z.bits_0, <- (Z.mod_small b (2 ^ k)) by done.
  all: destruct (Z.ltb_spec n k); [rewrite Z.mul_pow2_bits_low by done; done|].
  all: rewrite Z.mod_pow2_bits_high by lia; apply andb_false_r.
Qed.

Lemma shl64_ok x k : 0 ≤ k < 64 → shl64 x k = Ret (u64 (x * 2 ^ k)).
Proof.
  intros Hk. unfold shl64. destruct (Z.leb_spec 0 k), (Z.ltb_spec k 64); try lia. simpl.
  by rewrite Z.shiftl_mul_pow2 by lia.
Qed.

Lemma shr64_ok x k : 0 ≤ k < 64 → shr64 x k = Ret (x / 2 ^ k).
Proof.
  intros Hk. unfold shr64. destruct (Z.leb_spec 0 k), (Z.ltb_spec k 64); try lia. simpl.
  by rewrite Z.shiftr_div_pow2 by lia.
Qed.

(** The two powers at which an amount cuts a half. *)
Lemma powers k : 0 ≤ k ≤ 64 → 0 < 2 ^ k ∧ 0 < 2 ^ (64 - k) ∧ 2 ^ k * 2 ^ (64 - k) = 2 ^ 64.
Proof. intros Hk. split_and!; try (apply Z.pow_pos_nonneg; lia). rewrite <- Z.pow_add_r by lia. f_equal. lia. Qed.

(** A half in two parts: multiplying by one power keeps the low part, dividing
    by the other takes the high one. *)
Lemma cut x k :
  0 ≤ k ≤ 64 → 0 ≤ x < 2 ^ 64 →
  ∃ h l, x = 2 ^ (64 - k) * h + l ∧ 0 ≤ h < 2 ^ k ∧ 0 ≤ l < 2 ^ (64 - k) ∧
    u64 (x * 2 ^ k) = l * 2 ^ k ∧ x / 2 ^ (64 - k) = h.
Proof.
  intros Hk Hx. destruct (powers k Hk) as (Hq & Hp & E). set (q := 2 ^ k) in *. set (p := 2 ^ (64 - k)) in *.
  pose proof (Z.div_mod x p ltac:(lia)) as Ed. pose proof (Z.mod_pos_bound x p Hp) as Hm.
  exists (x / p), (x mod p). split_and!; try done; try lia.
  - apply Z.div_pos; lia.
  - apply Z.div_lt_upper_bound; lia.
  - unfold u64. symmetry. apply Z.mod_unique with (x / p); [left; nia|]. rewrite Ed at 1. rewrite <- E. ring.
Qed.

Lemma shl_has a k : wf a → 0 ≤ k < 128 → ∃ r, shl a k = Ret r ∧ has r (value a * 2 ^ k).
Proof.
  intros Hw Hk. pose proof Hw as [Hh Hl]. unfold shl, MakeUint128, Uint128High64, Uint128Low64.
  destruct (Z.ltb_spec k 64).
  - destruct (Z.eqb_spec k 0) as [->|Hne]; simpl.
    + exists a. split; [done|]. rewrite Z.mul_1_r. by apply has_value.
    + rewrite !shl64_ok, shr64_ok by lia. simpl. eexists. split; [done|].
      destruct (cut a.(hi_) k) as (hh & hl & Eh & Bh1 & Bh2 & -> & _); [lia|done|].
      destruct (cut a.(lo_) k) as (lh & ll & El & Bl1 & Bl2 & -> & ->); [lia|done|].
      rewrite lor_disjoint by lia. destruct (powers k ltac:(lia)) as (Hq & Hp & E).
      apply (has_intro _ _ (- hh)); unfold wf, value; simpl (hi_ (mk _ _)); simpl (lo_ (mk _ _)); [nia|].
      rewrite Eh, El. change (2 ^ 128) with (2 ^ 64 * 2 ^ 64). rewrite <- E. ring.
  - rewrite shl64_ok by lia. simpl. eexists. split; [done|].
    replace (2 ^ k) with (2 ^ (k - 64) * 2 ^ 64) by (rewrite <- Z.pow_add_r by lia; f_equal; lia).
    unwrap (a.(lo_) * 2 ^ (k - 64)). apply (has_intro _ _ (- q - a.(hi_) * 2 ^ (k - 64))); unfold wf, value; simpl; [lia|].
    rewrite E. ring.
Qed.

Lemma shr_has a k : wf a → 0 ≤ k < 128 → ∃ r, shr a k = Ret r ∧ has r (value a / 2 ^ k).
Proof.
  intros Hw Hk. pose proof Hw as [Hh Hl]. unfold shr, MakeUint128, Uint128High64, Uint128Low64.
  destruct (Z.ltb_spec k 64).
  - destruct (Z.eqb_spec k 0) as [->|Hne]; simpl.
    + exists a. split; [done|]. rewrite Z.div_1_r. by apply has_value.
    + rewrite !shr64_ok, shl64_ok by lia. simpl. eexists. split; [done|].
      destruct (cut a.(hi_) (64 - k)) as (hh & hl & Eh & Bh1 & Bh2 & -> & Dh); [lia|done|].
      destruct (cut a.(lo_) (64 - k)) as (lh & ll & El & Bl1 & Bl2 & _ & Dl); [lia|done|].
      replace (64 - (64 - k)) with k in * by lia. rewrite Dh, Dl, Z.lor_comm, lor_disjoint by lia.
      destruct (powers k ltac:(lia)) as (Hq & Hp & E).
      apply (has_intro _ _ 0); unfold wf, value; simpl (hi_ (mk _ _)); simpl (lo_ (mk _ _)); [nia|].
      rewrite Z.add_0_r. apply Z.div_unique with ll; [lia|]. rewrite Eh, El. rewrite <- E. ring.
  - rewrite shr64_ok by lia. simpl. eexists. split; [done|].
    apply (has_intro _ _ 0); unfold wf, value; simpl.
    + split; [lia|]. split; [apply Z.div_pos; lia|]. apply Z.div_lt_upper_bound; nia.
    + replace (2 ^ k) with (2 ^ 64 * 2 ^ (k - 64)) by (rewrite <- Z.pow_add_r by lia; f_equal; lia).
      pose proof (Z.pow_pos_nonneg 2 (k - 64) ltac:(lia) ltac:(lia)).
      rewrite <- Z.div_div, Z.div_add_l, (Z.div_small a.(lo_)), (Z.add_0_r a.(hi_)) by lia. ring.
Qed.

(** The product of the halves, in 32-bit parts. *)
Lemma land32 x : Z.land x 4294967295 = x mod 2 ^ 32.
Proof. change 4294967295 with (Z.ones 32). by rewrite Z.land_ones. Qed.

Lemma of_unsigned_wf z : 0 ≤ z < 2 ^ 64 → wf (of_unsigned z) ∧ value (of_unsigned z) = z.
Proof. unfold wf, value. simpl. lia. Qed.

(** A half is its two 32-bit parts. *)
Lemma halves x : 0 ≤ x < 2 ^ 64 →
  0 ≤ x / 2 ^ 32 < 2 ^ 32 ∧ 0 ≤ x mod 2 ^ 32 < 2 ^ 32 ∧ x = 2 ^ 32 * (x / 2 ^ 32) + x mod 2 ^ 32.
Proof.
  intros Hx. split_and!; try (apply Z.mod_pos_bound; lia); [apply Z.div_pos; lia|apply Z.div_lt_upper_bound; lia|].
  apply Z.div_mod. lia.
Qed.

Lemma u64_product x y : 0 ≤ x < 2 ^ 32 → 0 ≤ y < 2 ^ 32 → u64 (x * y) = x * y ∧ 0 ≤ x * y < 2 ^ 64.
Proof. intros Hx Hy. assert (0 ≤ x * y < 2 ^ 64) by nia. split; [|done]. apply Z.mod_small. lia. Qed.

(** The high half of the first partial result. *)
Lemma high_part x y z : ∃ q, u64 (u64 (u64 x + u64 y) + z) = x + y + z - q * 2 ^ 64 ∧
  0 ≤ u64 (u64 (u64 x + u64 y) + z) < 2 ^ 64.
Proof.
  unwrap x. unwrap y. unwrap (u64 x + u64 y). unwrap (u64 (u64 x + u64 y) + z).
  exists (q + q0 + q1 + q2). lia.
Qed.

Lemma mul_has a b : wf a → wf b → ∃ r, mul a b = Ret r ∧ has r (value a * value b).
Proof.
  intros [Ha1 Ha2] [Hb1 Hb2]. unfold mul, MakeUint128, Uint128High64, Uint128Low64.
  rewrite !shr64_ok, !land32 by lia. cbn [mbind outcome_bind].
  destruct (halves a.(lo_) Ha2) as (Ba & Ba' & Ea), (halves b.(lo_) Hb2) as (Bb & Bb' & Eb).
  set (a32 := a.(lo_) / 2 ^ 32) in *. set (a00 := a.(lo_) mod 2 ^ 32) in *.
  set (b32 := b.(lo_) / 2 ^ 32) in *. set (b00 := b.(lo_) mod 2 ^ 32) in *. clearbody a32 a00 b32 b00.
  destruct (u64_product a32 b00 Ba Bb') as [-> B1], (u64_product a00 b32 Ba' Bb) as [-> B2],
    (u64_product a00 b00 Ba' Bb') as [-> B3], (u64_product a32 b32 Ba Bb) as [-> B4].
  destruct (of_unsigned_wf _ B1) as [W1 V1], (of_unsigned_wf _ B2) as [W2 V2].
  destruct (shl_has _ 32 W1 ltac:(lia)) as (x & -> & Wx & Vx). cbn [mbind outcome_bind].
  destruct (shl_has _ 32 W2 ltac:(lia)) as (y & -> & Wy & Vy). cbn [mbind outcome_bind].
  eexists. split; [done|].
  destruct (high_part (a.(hi_) * b.(lo_)) (a.(lo_) * b.(hi_)) (a32 * b32)) as (q & Eq & Bq).
  set (r := mk _ _). assert (wf r) as Wr by (split; simpl; lia).
  destruct (add_has r x Wr Wx) as [W3 V3]. destruct (add_has _ y W3 Wy) as [W4 V4]. split; [done|].
  rewrite V4, V3, Vx, Vy, V1, V2, Zplus_mod_idemp_l, Zplus_mod_idemp_r, <- Z.add_assoc.
  rewrite (Z.mod_small (a32 * b00 * 2 ^ 32)) by lia.
  replace (value r + (a32 * b00 * 2 ^ 32 + a00 * b32 * 2 ^ 32))
    with (value a * value b + (- (a.(hi_) * b.(hi_)) - q) * 2 ^ 128); [by rewrite Z.mod_add by lia|].
  unfold value, r. simpl (hi_ (mk _ _)). simpl (lo_ (mk _ _)). rewrite Eq, Ea, Eb. ring.
Qed.

(** ** Theorems *)
Lemma of_signed_has z : - 2 ^ 63 ≤ z < 2 ^ 63 → has (of_signed z) z.
Proof.
  intros Hz. unfold of_signed. unwrap z. change (max uint64_t) with (2 ^ 64 - 1). destruct (Z.ltb_spec z 0).
  - apply (has_intro _ _ 1); unfold wf, value; simpl; lia.
  - apply (has_intro _ _ 0); unfold wf, value; simpl; lia.
Qed.

(** The low bits of a value are those of its low half. *)
Lemma mod_low x h w : 0 ≤ w ≤ 64 → (x + h * 2 ^ 64) mod 2 ^ w = x mod 2 ^ w.
Proof.
  intros Hw. destruct (powers w Hw) as (Hp & _ & E). rewrite <- E.
  replace (x + h * (2 ^ w * 2 ^ (64 - w))) with (x + h * 2 ^ (64 - w) * 2 ^ w) by ring. apply Z.mod_add. lia.
Qed.

Lemma to_integer_value T v : to_integer T v = static_cast T (value v).
Proof.
  unfold to_integer. assert (0 ≤ 8 * sizeof T ≤ 64) as Hw by (destruct T; simpl; lia).
  unfold static_cast, wrap_signed, value. rewrite (Z.add_comm (v.(hi_) * 2 ^ 64)). destruct (is_signed T).
  - replace (v.(lo_) + v.(hi_) * 2 ^ 64 + 2 ^ (8 * sizeof T - 1))
      with (v.(lo_) + 2 ^ (8 * sizeof T - 1) + v.(hi_) * 2 ^ 64) by ring. by rewrite mod_low.
  - by rewrite mod_low.
Qed.

Lemma to_bool_value v : wf v → to_bool v = negb (value v =? 0) ∧ lnot v = (value v =? 0).
Proof.
  intros [Hh Hl]. unfold to_bool, lnot, Uint128High64, Uint128Low64, value.
  destruct (Z.eqb_spec v.(lo_) 0), (Z.eqb_spec v.(hi_) 0), (Z.eqb_spec (v.(hi_) * 2 ^ 64 + v.(lo_)) 0);
    simpl; split; done || lia.
Qed.

(** C30: absl::uint128 implements the integers modulo 2^128 on two 64-bit
    halves: sum, difference, product, negation, the bitwise operations, both
    shifts by every amount below 128, the comparisons, and the conversions
    from and to built-in types are those of the value its halves stand for. *)
Theorem uint128_is_modular a b k T z :
  wf a → wf b → 0 ≤ k < 128 → - 2 ^ 63 ≤ z < 2 ^ 63 →
  (has (add a b) (value a + value b) ∧ has (sub a b) (value a - value b) ∧
   (∃ r, mul a b = Ret r ∧ has r (value a * value b)) ∧ has (neg a) (- value a)) ∧
  (has (band a b) (Z.land (value a) (value b)) ∧ has (bor a b) (Z.lor (value a) (value b)) ∧
   has (bxor a b) (Z.lxor (value a) (value b)) ∧ has (bnot a) (Z.lnot (value a))) ∧
  ((∃ r, shl a k = Ret r ∧ has r (value a * 2 ^ k)) ∧ (∃ r, shr a k = Ret r ∧ has r (value a / 2 ^ k))) ∧
  (lt a b = (value a <? value b) ∧ le a b = (value a <=? value b) ∧ eq a b = (value a =? value b)) ∧
  (has (of_signed z) z ∧ to_integer T a = static_cast T (value a) ∧ to_bool a = negb (value a =? 0)).
Proof.
  intros Ha Hb Hk Hz. split_and!; auto using add_has, sub_has, mul_has, neg_has, shl_has, shr_has, lt_value,
    eq_value, of_signed_has, to_integer_value.
  - by apply (bitwise_has Z.land andb); [apply Z.land_spec|..].
  - by apply (bitwise_has Z.lor orb); [apply Z.lor_spec|..].
  - by apply (bitwise_has Z.lxor xorb); [apply Z.lxor_spec|..].
  - apply (has_congr _ (2 ^ 128 - 1 - value a) _ (-1)); [by apply bnot_has|]. unfold Z.lnot. lia.
  - unfold le. rewrite lt_value by done. by rewrite Z.leb_antisym.
  - by apply to_bool_value.
Qed.

(** (2^64 + 5) * (2^64 + 3) = 8 * 2^64 + 15 modulo 2^128 *)
Lemma uint128_is_modular_witness :
  let a := mk 1 5 in let b := mk 1 3 in
  mul a b = Ret (mk 8 15) ∧ ∃ r, mul a b = Ret r ∧ has r (value a * value b).
Proof.
  intros a b. split; [vm_compute; reflexivity|].
  apply (uint128_is_modular a b 3 int32_t (-7)); unfold wf; simpl; lia.
Defined.

End U128.
