(* ===== verification/Buffer.v ===== *)
(** * rtc::BufferT

    [rtc_base/buffer.h]: a growable array of a trivial type. A cell that was
    allocated and not yet written is [None]. Blocks that go back to the
    allocator are recorded with the contents they have then, so that what
    [ZeroOnFree] promises can be stated. An allocation of more than [max_alloc]
    elements throws, and the state a buffer is left in by that exception is not
    tracked. ExplicitZeroMemory, which libwebrtc brings compiled, is a parameter.
    Sources of a copy do not overlap the buffer. *)

From stdpp Require Import base list.
From Stdlib Require Import ZArith Lia.
From S2P Require Import Prelude SafeNumerics.

Local Open Scope Z_scope.
Import Int SafeCmp Checks.

Module Buf.
Section Code.
Context `{Build} {T : Type} `{EqDecision T} (zero : T) (ZeroOnFree : bool) (max_alloc : Z).

Notation cell := (option T).
Notation block := (list cell).

Record BufferT := mkBuf { size_ : Z; capacity_ : Z; data_ : option block }.

(** A result and the blocks released on the way to it. *)
Definition result (A : Type) : Type := outcome (A * list block).

(** ** Memory *)
Definition new_array (n : Z) : outcome block :=
  if n <=? max_alloc then Ret (replicate (Z.to_nat n) None) else Throw BadAlloc.

(** Copying [src] to position [pos] of a block. *)
Definition memcpy (d : option block) (pos : Z) (src : list cell) : outcome (option block) :=
  match d with
  | None => if decide (src = []) then Ret None else Undef NullDeref
  | Some cells =>
      if pos + Z.of_nat (length src) <=? Z.of_nat (length cells)
      then Ret (Some (take (Z.to_nat pos) cells ++ src ++ drop (Z.to_nat pos + length src) cells))
      else Undef OutOfBounds
  end.

(** The first [n] cells. *)
Definition read (d : option block) (n : Z) : outcome (list cell) :=
  match d with
  | None => if n =? 0 then Ret [] else Undef NullDeref
  | Some cells => if n <=? Z.of_nat (length cells) then Ret (take (Z.to_nat n) cells) else Undef OutOfBounds
  end.

(** ExplicitZeroMemory of rtc_base/zero_memory.h, compiled into libwebrtc: it
    fills memory with zeros. *)
Context (ExplicitZeroMemory : option block → Z → Z → outcome (option block)).

Definition fills_with_zeros : Prop := ∀ d pos n d',
  memcpy d pos (replicate (Z.to_nat n) (Some zero)) = Ret d' → ExplicitZeroMemory d pos n = Ret d'.

(** The block a unique_ptr gives up. *)
Definition released (d : option block) : list block := option_list d.

(** ** Private members *)
Definition IsConsistent (b : BufferT) : bool :=
  (bool_decide (is_Some b.(data_)) || (b.(capacity_) =? 0)) && (b.(size_) <=? b.(capacity_)).

Definition MaybeZeroCompleteBuffer (b : BufferT) : outcome BufferT :=
  if ZeroOnFree && (0 <? b.(capacity_)) then
    d ← ExplicitZeroMemory b.(data_) 0 b.(capacity_); Ret (mkBuf b.(size_) b.(capacity_) d)
  else Ret b.

Definition ZeroTrailingData (count : Z) (b : BufferT) : outcome BufferT :=
  RTC_DCHECK (IsConsistent b);;
  RTC_DCHECK_OP Le (TV uint64_t count) (TV uint64_t (u64 (b.(capacity_) - b.(size_))));;
  d ← ExplicitZeroMemory b.(data_) b.(size_) count; Ret (mkBuf b.(size_) b.(capacity_) d).

(** The state a moved-from buffer is left in. *)
Definition OnMovedFrom (b : BufferT) : outcome BufferT :=
  RTC_DCHECK (bool_decide (b.(data_) = None));;
  Ret (mkBuf (if RTC_DCHECK_IS_ON then 1 else 0) 0 b.(data_)).

Definition EnsureCapacityWithHeadroom (capacity : Z) (extra_headroom : bool) (b : BufferT) : result BufferT :=
  RTC_DCHECK (IsConsistent b);;
  if capacity <=? b.(capacity_) then Ret (b, [])
  else
    let new_capacity :=
      if extra_headroom then Z.max capacity (u64 (b.(capacity_) + b.(capacity_) / 2)) else capacity in
    new_data ← new_array new_capacity;
    new_data ← (if b.(data_) then old ← read b.(data_) b.(size_); memcpy (Some new_data) 0 old
                else Ret (Some new_data));
    b ← MaybeZeroCompleteBuffer b;
    let b' := mkBuf b.(size_) new_capacity new_data in
    RTC_DCHECK (IsConsistent b');; Ret (b', released b.(data_)).

(** ** Construction and destruction *)
Definition empty_buffer : outcome BufferT :=
  let b := mkBuf 0 0 None in RTC_DCHECK (IsConsistent b);; Ret b.

Definition with_capacity (size capacity : Z) : outcome BufferT :=
  let c := Z.max size capacity in
  d ← (if 0 <? c then d ← new_array c; Ret (Some d) else Ret None);
  let b := mkBuf size c d in RTC_DCHECK (IsConsistent b);; Ret b.

Definition of_size (size : Z) : outcome BufferT := with_capacity size size.

Definition of_data_with_capacity (src : list T) (capacity : Z) : outcome BufferT :=
  b ← with_capacity (Z.of_nat (length src)) capacity;
  d ← memcpy b.(data_) 0 (Some <$> src); Ret (mkBuf b.(size_) b.(capacity_) d).

Definition of_data (src : list T) : outcome BufferT := of_data_with_capacity src (Z.of_nat (length src)).

(** The new buffer, and what is left of [buf]. *)
Definition move_construct (buf : BufferT) : outcome (BufferT * BufferT) :=
  RTC_DCHECK (IsConsistent buf);;
  let b := mkBuf buf.(size_) buf.(capacity_) buf.(data_) in
  RTC_DCHECK (IsConsistent b);;
  buf ← OnMovedFrom (mkBuf buf.(size_) buf.(capacity_) None); Ret (b, buf).

Definition move_assign (b buf : BufferT) : result (BufferT * BufferT) :=
  RTC_DCHECK (IsConsistent buf);;
  b ← MaybeZeroCompleteBuffer b;
  let b' := mkBuf buf.(size_) buf.(capacity_) buf.(data_) in
  buf ← OnMovedFrom (mkBuf buf.(size_) buf.(capacity_) None);
  Ret ((b', buf), released b.(data_)).

Definition destroy (b : BufferT) : outcome (list block) :=
  b ← MaybeZeroCompleteBuffer b; Ret (released b.(data_)).

Definition swap (a b : BufferT) : BufferT * BufferT := (b, a).

(** ** Access *)
Definition empty (b : BufferT) : outcome bool := RTC_DCHECK (IsConsistent b);; Ret (b.(size_) =? 0).
Definition size (b : BufferT) : outcome Z := RTC_DCHECK (IsConsistent b);; Ret b.(size_).
Definition capacity (b : BufferT) : outcome Z := RTC_DCHECK (IsConsistent b);; Ret b.(capacity_).

Definition value_of (c : cell) : outcome T :=
  match c with Some x => Ret x | None => Undef UninitRead end.

Definition at_index (b : BufferT) (index : Z) : outcome T :=
  RTC_DCHECK_OP Lt (TV uint64_t index) (TV uint64_t b.(size_));; RTC_DCHECK (IsConsistent b);;
  match b.(data_) with
  | None => Undef NullDeref
  | Some cells => match cells !! Z.to_nat index with Some c => value_of c | None => Undef OutOfBounds end
  end.

Definition set_index (index : Z) (x : T) (b : BufferT) : outcome BufferT :=
  RTC_DCHECK_OP Lt (TV uint64_t index) (TV uint64_t b.(size_));; RTC_DCHECK (IsConsistent b);;
  d ← memcpy b.(data_) index [Some x]; Ret (mkBuf b.(size_) b.(capacity_) d).

Definition buffer_eq (a b : BufferT) : outcome bool :=
  RTC_DCHECK (IsConsistent a);;
  if negb (a.(size_) =? b.(size_)) then Ret false
  else
    x ← read a.(data_) a.(size_); y ← read b.(data_) a.(size_);
    xs ← map_outcome value_of x; ys ← map_outcome value_of y; Ret (bool_decide (xs = ys)).

(** ** Modification *)
Definition AppendData (src : list T) (b : BufferT) : result BufferT :=
  RTC_DCHECK (IsConsistent b);;
  let new_size := u64 (b.(size_) + Z.of_nat (length src)) in
  '(b, freed) ← EnsureCapacityWithHeadroom new_size true b;
  d ← memcpy b.(data_) b.(size_) (Some <$> src);
  let b := mkBuf new_size b.(capacity_) d in
  RTC_DCHECK (IsConsistent b);; Ret (b, freed).

(** The bytes between the new size and the old one. *)
Definition zero_shrunk (old_size : Z) (b : BufferT) : outcome BufferT :=
  if ZeroOnFree && (b.(size_) <? old_size) then ZeroTrailingData (old_size - b.(size_)) b else Ret b.

Definition SetData (src : list T) (b : BufferT) : result BufferT :=
  RTC_DCHECK (IsConsistent b);;
  let old_size := b.(size_) in
  '(b, freed) ← AppendData src (mkBuf 0 b.(capacity_) b.(data_));
  b ← zero_shrunk old_size b; Ret (b, freed).

Definition SetSize (size : Z) (b : BufferT) : result BufferT :=
  let old_size := b.(size_) in
  '(b, freed) ← EnsureCapacityWithHeadroom size true b;
  b ← zero_shrunk old_size (mkBuf size b.(capacity_) b.(data_)); Ret (b, freed).

(** With a [setter] that fills a view of [max_elements] cells and returns how
    many it wrote. *)
Definition AppendData_setter (max_elements : Z) (setter : list cell → list cell * Z) (b : BufferT)
    : result (BufferT * Z) :=
  RTC_DCHECK (IsConsistent b);;
  let old_size := b.(size_) in
  '(b, freed) ← SetSize (u64 (old_size + max_elements)) b;
  RTC_DCHECK (IsConsistent b);;
  all ← read b.(data_) (old_size + max_elements);
  let '(view, written_elements) := setter (drop (Z.to_nat old_size) all) in
  d ← memcpy b.(data_) old_size view;
  RTC_CHECK_OP Le (TV uint64_t written_elements) (TV uint64_t max_elements);;
  let b := mkBuf (u64 (old_size + written_elements)) b.(capacity_) d in
  RTC_DCHECK (IsConsistent b);; Ret ((b, written_elements), freed).

Definition SetData_setter (max_elements : Z) (setter : list cell → list cell * Z) (b : BufferT)
    : result (BufferT * Z) :=
  RTC_DCHECK (IsConsistent b);;
  let old_size := b.(size_) in
  '(b, written, freed) ← AppendData_setter max_elements setter (mkBuf 0 b.(capacity_) b.(data_));
  b ← zero_shrunk old_size b; Ret ((b, written), freed).

Definition EnsureCapacity (capacity : Z) (b : BufferT) : result BufferT :=
  EnsureCapacityWithHeadroom capacity false b.

Definition Clear (b : BufferT) : outcome BufferT :=
  b ← MaybeZeroCompleteBuffer b;
  let b := mkBuf 0 b.(capacity_) b.(data_) in RTC_DCHECK (IsConsistent b);; Ret b.

#[local] Arguments memcpy : simpl never.
#[local] Arguments read : simpl never.
#[local] Arguments new_array : simpl never.
#[local] Arguments IsConsistent : simpl never.

(** ** The invariant *)

(** An unused cell holds nothing. *)
Definition blank (c : cell) : Prop := c = None ∨ c = Some zero.

(** The block is the capacity, the size is within it, and with [ZeroOnFree]
    the cells from [k] and from the size on are blank. *)
Definition inv (k : Z) (b : BufferT) : Prop :=
  let cells := default [] b.(data_) in
  (b.(data_) = None → b.(capacity_) = 0) ∧
  Z.of_nat (length cells) = b.(capacity_) ∧ 0 ≤ b.(size_) ≤ b.(capacity_) ∧ b.(capacity_) ≤ max_alloc ∧
  (ZeroOnFree = true → ∀ i c, Z.max k b.(size_) ≤ Z.of_nat i → cells !! i = Some c → blank c).

Definition contents (b : BufferT) : list cell := take (Z.to_nat b.(size_)) (default [] b.(data_)).

(** With [ZeroOnFree] only zeros are given back. *)
Definition clean (freed : list block) : Prop :=
  ZeroOnFree = true → Forall (Forall (λ c, c = Some zero)) freed.

(** [o] ends in a buffer with the contents [P] allows, or throws because
    [needed] elements are too many. *)
Definition ends (o : result BufferT) (k needed : Z) (P : list cell → Prop) : Prop :=
  (o = Throw BadAlloc ∧ max_alloc < needed) ∨
  ∃ b freed, o = Ret (b, freed) ∧ inv k b ∧ clean freed ∧ b.(capacity_) = needed ∧ P (contents b).

Context (Hmax : 0 ≤ max_alloc < 2 ^ 62) (Hzero : fills_with_zeros).

Lemma IsConsistent_ok k b : inv k b → IsConsistent b = true.
Proof.
  intros (Hd & Hl & Hs & _). unfold IsConsistent. rewrite andb_true_iff, orb_true_iff, Z.leb_le, Z.eqb_eq.
  split; [|lia]. destruct (b.(data_)); [left; by apply bool_decide_eq_true|right; auto].
Qed.

Lemma memcpy_ok cells pos src :
  0 ≤ pos → pos + Z.of_nat (length src) ≤ Z.of_nat (length cells) →
  memcpy (Some cells) pos src =
    Ret (Some (take (Z.to_nat pos) cells ++ src ++ drop (Z.to_nat pos + length src) cells)).
Proof. intros Hp Hl. unfold memcpy. by destruct (Z.leb_spec (pos + Z.of_nat (length src)) (Z.of_nat (length cells))); [|lia]. Qed.

Lemma memcpy_length cells (pos : nat) (src : list cell) :
  (pos + length src ≤ length cells)%nat →
  length (take pos cells ++ src ++ drop (pos + length src) cells) = length cells.
Proof. intros Hl. rewrite !length_app, length_take, length_drop. lia. Qed.

(** A buffer without a block. *)
Lemma inv_null k b : inv k b → b.(data_) = None → b.(size_) = 0 ∧ b.(capacity_) = 0.
Proof. intros (Hd & Hl & Hs & _) E. specialize (Hd E). lia. Qed.

Lemma MaybeZero_spec k b :
  inv k b → ∃ d, MaybeZeroCompleteBuffer b = Ret (mkBuf b.(size_) b.(capacity_) d) ∧
    (if ZeroOnFree then d = (λ cells, replicate (length cells) (Some zero)) <$> b.(data_) else d = b.(data_)).
Proof.
  intros (Hd & Hl & Hs & _). unfold MaybeZeroCompleteBuffer.
  destruct ZeroOnFree; simpl; [|exists b.(data_); by destruct b].
  destruct (Z.ltb_spec 0 b.(capacity_)).
  - destruct b as [sz cap [cells|]]; simpl in *; [|lia]. erewrite Hzero by (apply memcpy_ok; rewrite ?length_replicate; lia). simpl. eexists. split; [done|].
    rewrite length_replicate, drop_ge, app_nil_r by lia. do 2 f_equal. lia.
  - destruct b as [sz cap [[|c cells]|]]; simpl in *; [|lia|]; by eexists.
Qed.

(** The capacity asked for. *)
Definition grown (capacity : Z) (extra_headroom : bool) (b : BufferT) : Z :=
  if capacity <=? b.(capacity_) then b.(capacity_)
  else if extra_headroom then Z.max capacity (b.(capacity_) + b.(capacity_) / 2) else capacity.

Lemma clean_released k b d :
  inv k b →
  (if ZeroOnFree then d = (λ cells, replicate (length cells) (Some zero)) <$> b.(data_) else d = b.(data_)) →
  clean (released d).
Proof.
  intros _ E Hz. rewrite Hz in E. subst d. destruct (b.(data_)) as [cells|]; simpl; [|done].
  apply Forall_singleton. by apply Forall_replicate.
Qed.

Lemma clean_nil : clean [].
Proof. by intros _. Qed.

Lemma contents_length k b : inv k b → length (contents b) = Z.to_nat b.(size_).
Proof. intros (_ & Hl & Hs & _). unfold contents. rewrite length_take. lia. Qed.

(** The block that replaces the old one. *)
Lemma grown_data k b n :
  inv k b → b.(size_) ≤ n →
  (if b.(data_) then old ← read b.(data_) b.(size_); memcpy (Some (replicate (Z.to_nat n) None)) 0 old
   else Ret (Some (replicate (Z.to_nat n) None))) =
  Ret (Some (contents b ++ replicate (Z.to_nat (n - b.(size_))) None)).
Proof.
  intros Hi Hn. pose proof (contents_length k b Hi) as Hc. pose proof Hi as (Hd & Hl & Hs & _).
  destruct (b.(data_)) as [cells|] eqn:E.
  - unfold read. simpl in Hl. destruct (Z.leb_spec b.(size_) (Z.of_nat (length cells))); [|lia]. simpl.
    assert (take (Z.to_nat b.(size_)) cells = contents b) as -> by (unfold contents; by rewrite E).
    rewrite memcpy_ok by (rewrite ?length_replicate, ?Hc; lia). simpl. rewrite Hc, drop_replicate.
    do 4 f_equal. lia.
  - destruct (inv_null k b Hi E) as [Es _]. unfold contents. by rewrite E, Es, Z.sub_0_r.
Qed.

Lemma inv_grown k b n :
  inv k b → b.(size_) ≤ n ≤ max_alloc →
  inv k (mkBuf b.(size_) n (Some (contents b ++ replicate (Z.to_nat (n - b.(size_))) None))).
Proof.
  intros Hi Hn. pose proof (contents_length k b Hi) as Hc. pose proof Hi as (_ & _ & Hs & _).
  unfold inv. simpl. rewrite length_app, length_replicate, Hc. split_and!; try done; try lia.
  intros _ i c Hi' E. rewrite lookup_app_r, lookup_replicate, Hc in E by lia. left. by destruct E as [-> _].
Qed.

Lemma grown_ge c h b : 0 ≤ b.(capacity_) → b.(capacity_) ≤ grown c h b.
Proof.
  intros Hb. unfold grown. destruct (Z.leb_spec c b.(capacity_)); [done|]. destruct h; lia.
Qed.

(** Growing keeps the contents and adds cells that were never written. *)
Lemma ensure_spec k capacity headroom b :
  inv k b → 0 ≤ capacity →
  let n := grown capacity headroom b in
  (EnsureCapacityWithHeadroom capacity headroom b = Throw BadAlloc ∧ max_alloc < n) ∨
  ∃ b' freed, EnsureCapacityWithHeadroom capacity headroom b = Ret (b', freed) ∧ inv k b' ∧ clean freed ∧
    b'.(size_) = b.(size_) ∧ b'.(capacity_) = n ∧ capacity ≤ n ∧ contents b' = contents b.
Proof.
  intros Hi Hc n. unfold EnsureCapacityWithHeadroom.
  rewrite RTC_DCHECK_true by (by eapply IsConsistent_ok). simpl.
  unfold n, grown. destruct (Z.leb_spec capacity b.(capacity_)).
  { right. exists b, []. split_and!; try done; apply clean_nil. }
  pose proof Hi as (Hd & Hl & Hs & Hm & Hz).
  assert (0 ≤ b.(capacity_) / 2 ≤ b.(capacity_)) by (split; [apply Z.div_pos; lia|apply Z.div_le_upper_bound; lia]).
  rewrite u64_small by (unfold npos; lia).
  set (n' := if headroom then _ else _). assert (capacity ≤ n') by (unfold n'; destruct headroom; lia).
  unfold new_array. destruct (Z.leb_spec n' max_alloc); [|by left]. right. simpl.
  rewrite (grown_data k) by (done || lia). simpl.
  destruct (MaybeZero_spec k b Hi) as (d & -> & Hdz). simpl.
  pose proof (inv_grown k b n' Hi ltac:(lia)) as Hi'.
  rewrite RTC_DCHECK_true by (by eapply IsConsistent_ok). simpl.
  eexists _, _. split; [done|]. split_and!; try done; [exact (clean_released k b d Hi Hdz)|].
  unfold contents at 1. simpl. rewrite take_app_le, take_ge by (rewrite (contents_length k b Hi); lia). done.
Qed.

(** ** The operations *)

(** Writing at the end of the contents. *)
Lemma memcpy_append k b (src : list cell) :
  inv k b → b.(size_) + Z.of_nat (length src) ≤ b.(capacity_) →
  ∃ d, memcpy b.(data_) b.(size_) src = Ret d ∧
    let b' := mkBuf (b.(size_) + Z.of_nat (length src)) b.(capacity_) d in
    inv k b' ∧ contents b' = contents b ++ src.
Proof.
  intros Hi Hf. pose proof Hi as (Hd & Hl & Hs & Hm & Hz). destruct b as [sz cap [cells|]]; simpl in *.
  - rewrite memcpy_ok by lia. eexists. split; [done|]. cbv zeta. unfold inv, contents. simpl. split.
    + split_and!; try done; try lia.
      * rewrite memcpy_length by lia. done.
      * intros Z i c Hi' E. apply (Hz Z i); [lia|]. rewrite lookup_app_r, lookup_app_r, lookup_drop in E
          by (rewrite ?length_take; lia). rewrite <- E. f_equal. rewrite length_take. lia.
    + rewrite app_assoc, take_app_length'; [done|]. rewrite length_app, length_take. lia.
  - destruct src; [|simpl in *; lia]. exists None. split; [done|]. unfold inv, contents. simpl.
    rewrite Z.add_0_r, app_nil_r. done.
Qed.

Lemma AppendData_spec k src b :
  inv k b → Z.of_nat (length src) ≤ 2 ^ 62 →
  ends (AppendData src b) k (grown (b.(size_) + Z.of_nat (length src)) true b)
    (λ l, l = contents b ++ (Some <$> src)).
Proof.
  intros Hi Hl. pose proof Hi as (_ & _ & Hs & Hm & _). unfold AppendData.
  rewrite RTC_DCHECK_true by (by eapply IsConsistent_ok). simpl. rewrite u64_small by (unfold npos; lia).
  destruct (ensure_spec k (b.(size_) + Z.of_nat (length src)) true b Hi ltac:(lia))
    as [[-> Hn]|(b' & freed & -> & Hi' & Hcl & Es & Ec & Hn & Econ)]; [by left|]. right. simpl.
  destruct (memcpy_append k b' (Some <$> src)) as (d & Ed & Hi2 & Hc2); [done|rewrite length_fmap; lia|].
  rewrite length_fmap, Es in *. rewrite Ed. simpl.
  rewrite RTC_DCHECK_true by (by eapply IsConsistent_ok). simpl.
  eexists _, freed. split; [done|]. split_and!; try done. by rewrite Hc2, Econ.
Qed.

(** Shrinking clears what it leaves behind. *)
Lemma zero_shrunk_spec old b :
  inv old b → 0 ≤ old ≤ b.(capacity_) →
  ∃ b', zero_shrunk old b = Ret b' ∧ inv 0 b' ∧ b'.(capacity_) = b.(capacity_) ∧ b'.(size_) = b.(size_) ∧
    contents b' = contents b.
Proof.
  intros Hi Ho. pose proof Hi as (Hd & Hl & Hs & Hm & Hz). unfold zero_shrunk.
  destruct ZeroOnFree eqn:EZ; simpl.
  - destruct (Z.ltb_spec b.(size_) old).
    + unfold ZeroTrailingData. rewrite RTC_DCHECK_true by (by eapply IsConsistent_ok). simpl.
      rewrite u64_small by (unfold npos; lia).
      rewrite RTC_DCHECK_OP_ok; [|apply ok_u64; unfold npos; lia..|apply Z.leb_le; simpl; lia]. simpl.
      destruct b as [sz cap [cells|]]; simpl in *; [|lia]. erewrite Hzero by (apply memcpy_ok; rewrite ?length_replicate; lia). simpl. eexists. split; [done|].
      unfold inv, contents. simpl. split; [|split; [done|split; [done|]]].
      * rewrite memcpy_length by (rewrite length_replicate; lia). split_and!; try done; try lia.
        intros _ i c Hi' E. destruct (decide (Z.of_nat i < old)).
        -- right. rewrite lookup_app_r, lookup_app_l, lookup_replicate in E
             by (rewrite ?length_replicate, ?length_take; lia). by destruct E as [-> _].
        -- apply (Hz eq_refl i); [lia|]. rewrite lookup_app_r, lookup_app_r, lookup_drop in E
             by (rewrite ?length_replicate, ?length_take; lia). rewrite <- E. f_equal.
           rewrite length_replicate, length_take. lia.
      * rewrite take_app_length'; [done|]. rewrite length_take. lia.
    + exists b. split_and!; try done. unfold inv. split_and!; try done; try lia.
      intros E i c Hi' E'. apply (Hz eq_refl i); [lia|done].
  - exists b. split_and!; try done. unfold inv. split_and!; try done; try lia. by rewrite EZ.
Qed.

Lemma inv_mono k k' b : k ≤ k' → inv k b → inv k' b.
Proof.
  intros Hk (Hd & Hl & Hs & Hm & Hz). unfold inv. split_and!; try done; try lia.
  intros E i c Hi. apply (Hz E i). lia.
Qed.

(** Forgetting the contents. *)
Lemma inv_reset b : inv 0 b → inv b.(size_) (mkBuf 0 b.(capacity_) b.(data_)) .
Proof.
  intros (Hd & Hl & Hs & Hm & Hz). unfold inv. simpl. split_and!; try done; try lia.
  intros E i c Hi. apply (Hz E i). lia.
Qed.

Lemma SetData_spec src b :
  inv 0 b → Z.of_nat (length src) ≤ 2 ^ 62 →
  ends (SetData src b) 0 (grown (Z.of_nat (length src)) true b) (λ l, l = Some <$> src).
Proof.
  intros Hi Hl. pose proof Hi as (_ & _ & Hs & Hm & _). unfold SetData.
  rewrite RTC_DCHECK_true by (by eapply IsConsistent_ok). simpl.
  destruct (AppendData_spec _ src _ (inv_reset b Hi) Hl) as [[-> Hn]|(b' & freed & -> & Hi' & Hcl & Ec & Econ)].
  { left. split; [done|]. exact Hn. }
  right. simpl in *.
  assert (b.(capacity_) ≤ b'.(capacity_)) by (rewrite Ec; apply (grown_ge _ _ (mkBuf 0 b.(capacity_) b.(data_))); simpl; lia).
  destruct (zero_shrunk_spec b.(size_) b' Hi') as (b2 & E2 & Hi2 & Ec2 & _ & Hc2); [lia|].
  rewrite E2. simpl. exists b2, freed. split_and!; try done; [|congruence]. rewrite Ec2, Ec. done.
Qed.

(** Resizing keeps what fits; new cells are whatever the memory holds. *)
Lemma SetSize_spec n b :
  inv 0 b → 0 ≤ n →
  ends (SetSize n b) 0 (grown n true b)
    (λ l, length l = Z.to_nat n ∧ take (Z.to_nat b.(size_)) l = take (Z.to_nat n) (contents b) ∧
      (ZeroOnFree = true → Forall blank (drop (Z.to_nat b.(size_)) l))).
Proof.
  intros Hi Hn. pose proof Hi as (_ & _ & Hs & Hm & _). unfold SetSize.
  destruct (ensure_spec 0 n true b Hi Hn) as [[-> Hg]|(b' & freed & -> & Hi' & Hcl & Es & Ec & Hg & Econ)]; [by left|].
  right. simpl. pose proof Hi' as (Hd' & Hl' & Hs' & Hm' & Hz').
  assert (inv b.(size_) (mkBuf n b'.(capacity_) b'.(data_))) as Hi2.
  { unfold inv. simpl. split_and!; try done; try lia. intros E i c Hc. apply (Hz' E i). lia. }
  destruct (zero_shrunk_spec b.(size_) _ Hi2) as (b2 & -> & Hi3 & Ec3 & Es3 & Hc3); [simpl; lia|]. simpl in *.
  exists b2, freed. split_and!; try done; [congruence|..]; rewrite ?Hc3.
  - exact (contents_length _ _ Hi2).
  - rewrite <- Econ. unfold contents. simpl. rewrite Es, !take_take. f_equal. lia.
  - intros E. apply Forall_lookup. intros i c Hlk. rewrite lookup_drop in Hlk. unfold contents in Hlk. simpl in Hlk.
    apply lookup_take_Some in Hlk as [Hlk _]. apply (Hz' E _ c) in Hlk; [done|lia].
Qed.

Lemma EnsureCapacity_spec n b :
  inv 0 b → 0 ≤ n → ends (EnsureCapacity n b) 0 (grown n false b) (λ l, l = contents b).
Proof.
  intros Hi Hn. unfold EnsureCapacity.
  destruct (ensure_spec 0 n false b Hi Hn) as [[-> Hg]|(b' & freed & -> & Hi' & Hcl & Es & Ec & Hg & Econ)]; [by left|].
  right. exists b', freed. done.
Qed.

(** Zeroed or not, the block stays. *)
Lemma MaybeZero_inv k b d n :
  inv k b → 0 ≤ n ≤ b.(capacity_) →
  (if ZeroOnFree then d = (λ cells, replicate (length cells) (Some zero)) <$> b.(data_) else d = b.(data_)) →
  inv 0 (mkBuf n b.(capacity_) d).
Proof.
  intros (Hd & Hl & Hs & Hm & Hz) Hn E. unfold inv. simpl. destruct ZeroOnFree eqn:EZ; subst d.
  - destruct (b.(data_)) as [cells|]; simpl in *; [|split_and!; try done; lia].
    rewrite length_replicate. split_and!; try done; try lia.
    intros _ i c _ Hc. rewrite lookup_replicate in Hc. right. by destruct Hc as [-> _].
  - split_and!; try done; try lia.
Qed.

Lemma Clear_spec b :
  inv 0 b → ∃ b', Clear b = Ret b' ∧ inv 0 b' ∧ contents b' = [] ∧ b'.(capacity_) = b.(capacity_).
Proof.
  intros Hi. unfold Clear. destruct (MaybeZero_spec 0 b Hi) as (d & -> & Hd). simpl.
  assert (inv 0 (mkBuf 0 b.(capacity_) d)) as Hi2.
  { apply (MaybeZero_inv 0 b); try done. destruct Hi as (_ & _ & ? & _). lia. }
  rewrite RTC_DCHECK_true by (by eapply IsConsistent_ok). simpl. by eexists.
Qed.

Lemma destroy_spec k b : inv k b → ∃ freed, destroy b = Ret freed ∧ clean freed ∧ length freed = length (released b.(data_)).
Proof.
  intros Hi. unfold destroy. destruct (MaybeZero_spec k b Hi) as (d & -> & Hd). simpl.
  eexists. split_and!; [done|exact (clean_released k b d Hi Hd)|].
  destruct ZeroOnFree; subst d; [|done]. by destruct (b.(data_)).
Qed.

(** What a setter promises: it writes inside the view, says how much, and
    leaves the rest alone. *)
Definition setter_ok (setter : list cell → list cell * Z) : Prop :=
  ∀ v, let '(v', w) := setter v in
    length v' = length v ∧ 0 ≤ w ≤ Z.of_nat (length v) ∧ drop (Z.to_nat w) v' = drop (Z.to_nat w) v.

Lemma read_contents k b : inv k b → read b.(data_) b.(size_) = Ret (contents b).
Proof.
  intros Hi. pose proof Hi as (_ & Hl & Hs & _). unfold read, contents. destruct (b.(data_)) as [cells|] eqn:E.
  - simpl in *. by destruct (Z.leb_spec b.(size_) (Z.of_nat (length cells))); [|lia].
  - destruct (inv_null k b Hi E) as [-> _]. done.
Qed.

(** Taking back the end of the contents. *)
Lemma inv_shrink k b n :
  inv k b → k ≤ b.(size_) → 0 ≤ n ≤ b.(size_) →
  (ZeroOnFree = true → Forall blank (drop (Z.to_nat n) (contents b))) →
  let b' := mkBuf n b.(capacity_) b.(data_) in inv 0 b' ∧ contents b' = take (Z.to_nat n) (contents b).
Proof.
  intros (Hd & Hl & Hs & Hm & Hz) Hk Hn Hb b'. split.
  - unfold inv, b'. simpl. split_and!; try done; try lia. intros E i c Hi Hc.
    destruct (decide (Z.of_nat i < b.(size_))) as [Hlt|]; [|apply (Hz E i); [lia|done]].
    specialize (Hb E). rewrite Forall_lookup in Hb. apply (Hb (i - Z.to_nat n)%nat).
    unfold contents. rewrite lookup_drop, lookup_take_lt by lia. rewrite <- Hc. f_equal. lia.
  - unfold contents, b'. simpl. rewrite take_take. f_equal. lia.
Qed.

(** The cells from the old size on are what the setter sees. *)
Lemma AppendData_setter_spec max setter b :
  inv 0 b → 0 ≤ max ≤ 2 ^ 62 → setter_ok setter →
  let n := grown (b.(size_) + max) true b in
  (AppendData_setter max setter b = Throw BadAlloc ∧ max_alloc < n) ∨
  ∃ b' freed v, AppendData_setter max setter b = Ret ((b', (setter v).2), freed) ∧ inv 0 b' ∧ clean freed ∧
    b'.(capacity_) = n ∧ length v = Z.to_nat max ∧
    contents b' = contents b ++ take (Z.to_nat (setter v).2) (setter v).1.
Proof.
  intros Hi Hmx Hset n. pose proof Hi as (_ & _ & Hs & Hm & _). unfold AppendData_setter.
  rewrite RTC_DCHECK_true by (by eapply IsConsistent_ok). simpl. rewrite u64_small by (unfold npos; lia).
  destruct (SetSize_spec (b.(size_) + max) b Hi ltac:(lia))
    as [[-> Hg]|(b' & freed & -> & Hi' & Hcl & Ec & El & Et & Ez)]; [by left|]. right. simpl.
  rewrite RTC_DCHECK_true by (by eapply IsConsistent_ok). simpl.
  pose proof (contents_length 0 b' Hi') as El'. pose proof (contents_length 0 b Hi) as Elb.
  pose proof Hi' as (Hd' & Hl' & Hs' & Hm' & Hz').
  assert (b'.(size_) = b.(size_) + max) as Es by lia.
  rewrite <- Es, (read_contents 0) by done. simpl.
  set (v := drop (Z.to_nat b.(size_)) (contents b')). pose proof (Hset v) as Hv.
  assert (length v = Z.to_nat max) as Hlv by (unfold v; rewrite length_drop; lia).
  destruct (setter v) as [v' w] eqn:Esv. destruct Hv as (Hlen & Hw & Hdrop).
  set (bp := mkBuf b.(size_) b'.(capacity_) b'.(data_)).
  assert (inv b'.(size_) bp) as Hip.
  { unfold inv, bp. simpl. split_and!; try done; try lia. intros E i c Hc. apply (Hz' E i). lia. }
  assert (contents bp = contents b) as Hcp.
  { transitivity (take (Z.to_nat b.(size_)) (contents b')).
    - unfold contents, bp. simpl. rewrite take_take. f_equal. lia.
    - rewrite Et. apply take_ge. lia. }
  destruct (memcpy_append b'.(size_) bp v' Hip) as (d & Ed & Hi2 & Hc2); [unfold bp; simpl; lia|].
  unfold bp in Ed. simpl in Ed. rewrite Ed. simpl. unfold RTC_CHECK_OP, RTC_CHECK.
  rewrite Safe_exact by (apply ok_u64; unfold npos; lia). simpl.
  destruct (Z.leb_spec w max); [|lia]. simpl. rewrite u64_small by (unfold npos; lia).
  rewrite Hcp in Hc2. simpl in Hi2, Hc2.
  destruct (inv_shrink _ _ (b.(size_) + w) Hi2) as [Hi3 Hc3]; [simpl; lia..| |].
  { intros E. rewrite Hc2, drop_app_ge, Elb by lia.
    replace (Z.to_nat (b.(size_) + w) - Z.to_nat b.(size_))%nat with (Z.to_nat w) by lia.
    rewrite Hdrop. by apply Forall_drop, Ez. }
  simpl in Hi3, Hc3. rewrite RTC_DCHECK_true by (by eapply IsConsistent_ok). simpl.
  eexists _, freed, v. rewrite Esv. split; [done|]. split_and!; try done.
  rewrite Hc3, Hc2, take_app_ge, Elb by lia. do 2 f_equal. simpl. lia.
Qed.

(** ** Construction and moves *)
Lemma with_capacity_spec size cap :
  0 ≤ size →
  (with_capacity size cap = Throw BadAlloc ∧ max_alloc < Z.max size cap) ∨
  ∃ b, with_capacity size cap = Ret b ∧ inv 0 b ∧ b.(size_) = size ∧ b.(capacity_) = Z.max size cap ∧
    contents b = replicate (Z.to_nat size) None.
Proof.
  intros Hs. unfold with_capacity. destruct (Z.ltb_spec 0 (Z.max size cap)) as [Hp|Hp].
  - unfold new_array. destruct (Z.leb_spec (Z.max size cap) max_alloc); [right|by left]. simpl.
    assert (inv 0 (mkBuf size (Z.max size cap) (Some (replicate (Z.to_nat (Z.max size cap)) None)))) as Hi.
    { unfold inv. simpl. rewrite length_replicate. split_and!; try done; try lia.
      intros _ i c _ E. rewrite lookup_replicate in E. left. by destruct E as [-> _]. }
    rewrite RTC_DCHECK_true by (by eapply IsConsistent_ok). simpl. eexists. split; [done|].
    split_and!; try done. unfold contents. simpl. rewrite take_replicate. f_equal. lia.
  - right. simpl. assert (inv 0 (mkBuf size (Z.max size cap) None)) as Hi.
    { unfold inv. simpl. split_and!; try done; try lia. }
    rewrite RTC_DCHECK_true by (by eapply IsConsistent_ok). simpl. eexists. split; [done|].
    split_and!; try done. unfold contents. simpl. by replace size with 0 by lia.
Qed.

Lemma of_data_spec src cap :
  (of_data_with_capacity src cap = Throw BadAlloc ∧ max_alloc < Z.max (Z.of_nat (length src)) cap) ∨
  ∃ b, of_data_with_capacity src cap = Ret b ∧ inv 0 b ∧ contents b = Some <$> src.
Proof.
  unfold of_data_with_capacity.
  destruct (with_capacity_spec (Z.of_nat (length src)) cap ltac:(lia)) as [[-> Hm]|(b & -> & Hi & Es & Ec & Hcn)];
    [by left|]. right. simpl.
  destruct (inv_shrink 0 b 0 Hi) as [Hi0 Hc0]; [lia|lia| |].
  { intros _. rewrite Hcn. apply Forall_drop, Forall_replicate. by left. }
  destruct (memcpy_append 0 _ (Some <$> src) Hi0) as (d & Ed & Hi2 & Hc2); [simpl; rewrite length_fmap; lia|].
  simpl in Ed. rewrite Ed. simpl. eexists. split; [done|].
  simpl in Hi2, Hc2. rewrite length_fmap, <- Es, Z.add_0_l in Hi2, Hc2. split; [done|]. by rewrite Hc2.
Qed.

(** What is left of a buffer that was moved from: no block, and a size that
    checked builds make inconsistent. *)
Definition moved_from : BufferT := mkBuf (if RTC_DCHECK_IS_ON then 1 else 0) 0 None.

Lemma OnMovedFrom_ok n c : OnMovedFrom (mkBuf n c None) = Ret moved_from.
Proof. unfold OnMovedFrom. by rewrite RTC_DCHECK_true by (by apply bool_decide_eq_true). Qed.

Lemma move_construct_spec b : inv 0 b → move_construct b = Ret (b, moved_from).
Proof.
  intros Hi. unfold move_construct. rewrite !RTC_DCHECK_true by (eapply IsConsistent_ok; by destruct b). simpl.
  rewrite OnMovedFrom_ok. by destruct b.
Qed.

(** The target may itself have been moved from. *)
Lemma move_assign_spec b buf :
  inv 0 b ∨ b = moved_from → inv 0 buf →
  ∃ freed, move_assign b buf = Ret ((buf, moved_from), freed) ∧ clean freed.
Proof.
  intros Hb Hi. unfold move_assign. rewrite RTC_DCHECK_true by (by eapply IsConsistent_ok). simpl.
  destruct Hb as [Hb| ->].
  - destruct (MaybeZero_spec 0 b Hb) as (d & -> & Hd). simpl. rewrite OnMovedFrom_ok. simpl.
    eexists. split; [by destruct buf|]. exact (clean_released 0 b d Hb Hd).
  - unfold MaybeZeroCompleteBuffer, moved_from. simpl. rewrite andb_false_r. simpl. rewrite OnMovedFrom_ok. simpl.
    exists []. split; [by destruct buf|apply clean_nil].
Qed.

(** Clearing makes a moved-from buffer usable again. *)
Lemma Clear_moved_from : ∃ b, Clear moved_from = Ret b ∧ inv 0 b ∧ contents b = [].
Proof.
  unfold Clear, MaybeZeroCompleteBuffer, moved_from. simpl. rewrite andb_false_r. simpl.
  assert (inv 0 (mkBuf 0 0 None)) as Hi by (unfold inv; simpl; split_and!; try done; lia).
  rewrite RTC_DCHECK_true by (by eapply IsConsistent_ok). simpl. by eexists.
Qed.

(** ** Access *)
Lemma map_value_of xs : map_outcome value_of (Some <$> xs) = Ret xs.
Proof. induction xs as [|x xs IH]; [done|]. rewrite fmap_cons. simpl. by rewrite IH. Qed.

Lemma buffer_eq_spec a b xs ys :
  inv 0 a → inv 0 b → contents a = Some <$> xs → contents b = Some <$> ys →
  buffer_eq a b = Ret (bool_decide (xs = ys)).
Proof.
  intros Ha Hb Ea Eb. unfold buffer_eq. rewrite RTC_DCHECK_true by (by eapply IsConsistent_ok). simpl.
  pose proof (contents_length 0 a Ha) as La. pose proof (contents_length 0 b Hb) as Lb.
  rewrite Ea, length_fmap in La. rewrite Eb, length_fmap in Lb.
  destruct Ha as (Hda & Hla & Hsa & ?), Hb as (Hdb & Hlb & Hsb & ?).
  destruct (Z.eqb_spec a.(size_) b.(size_)) as [E|Hne]; simpl.
  - rewrite (read_contents 0 a) by done. rewrite E, (read_contents 0 b) by done. simpl.
    rewrite Ea, Eb, !map_value_of. done.
  - rewrite bool_decide_eq_false_2; [done|]. intros ->. lia.
Qed.

Lemma at_index_spec b i x :
  inv 0 b → contents b !! Z.to_nat i = Some (Some x) → 0 ≤ i → at_index b i = Ret x.
Proof.
  intros Hi Hx H0. pose proof Hi as (_ & Hl & Hs & Hm & _). unfold at_index.
  assert (Z.to_nat i < length (contents b))%nat as Hlt by (eapply lookup_lt_Some; exact Hx).
  rewrite (contents_length 0 b Hi) in Hlt.
  rewrite RTC_DCHECK_OP_ok; [|apply ok_u64; unfold npos; lia..|apply Z.ltb_lt; simpl; lia]. simpl.
  rewrite RTC_DCHECK_true by (by eapply IsConsistent_ok). simpl.
  unfold contents in Hx. apply lookup_take_Some in Hx as [Hx _].
  destruct (b.(data_)) as [cells|]; simpl in *; [by rewrite Hx|done].
Qed.

(** ** Any use of a buffer *)
Inductive op :=
  | OAppend (src : list T)
  | OSet (src : list T)
  | OResize (n : Z)
  | OReserve (n : Z)
  | OClear
  | OAppendWith (max : Z) (setter : list cell → list cell * Z).

Definition perform (o : op) (b : BufferT) : result BufferT :=
  match o with
  | OAppend src => AppendData src b
  | OSet src => SetData src b
  | OResize n => SetSize n b
  | OReserve n => EnsureCapacity n b
  | OClear => b ← Clear b; Ret (b, [])
  | OAppendWith max setter => '(b, _, freed) ← AppendData_setter max setter b; Ret (b, freed)
  end.

Fixpoint perform_all (os : list op) (b : BufferT) : result BufferT :=
  match os with
  | [] => Ret (b, [])
  | o :: os' =>
      '(b, freed) ← perform o b; '(b, freed') ← perform_all os' b; Ret (b, freed ++ freed')
  end.

(** What each operation does to the list of elements. *)
Definition op_spec (o : op) (l l' : list cell) : Prop :=
  match o with
  | OAppend src => l' = l ++ (Some <$> src)
  | OSet src => l' = Some <$> src
  | OResize n => length l' = Z.to_nat n ∧ take (length l) l' = take (Z.to_nat n) l
  | OReserve _ => l' = l
  | OClear => l' = []
  | OAppendWith max setter =>
      ∃ v, length v = Z.to_nat max ∧ l' = l ++ take (Z.to_nat (setter v).2) (setter v).1
  end.

Inductive ops_spec : list op → list cell → list cell → Prop :=
  | ops_nil l : ops_spec [] l l
  | ops_cons o os l l' l'' : op_spec o l l' → ops_spec os l' l'' → ops_spec (o :: os) l l''.

(** Arguments that exist in memory. *)
Definition op_ok (o : op) : Prop :=
  match o with
  | OAppend src | OSet src => Z.of_nat (length src) ≤ 2 ^ 62
  | OResize n | OReserve n => 0 ≤ n
  | OClear => True
  | OAppendWith max setter => 0 ≤ max ≤ 2 ^ 62 ∧ setter_ok setter
  end.

Definition op_needs (o : op) (b : BufferT) : Z :=
  match o with
  | OAppend src => grown (b.(size_) + Z.of_nat (length src)) true b
  | OSet src => grown (Z.of_nat (length src)) true b
  | OResize n => grown n true b
  | OReserve n => grown n false b
  | OClear => b.(capacity_)
  | OAppendWith max _ => grown (b.(size_) + max) true b
  end.

Lemma ends_mono o k n (P Q : list cell → Prop) : ends o k n P → (∀ l, P l → Q l) → ends o k n Q.
Proof. intros [?|(b & freed & ?)] HPQ; [by left|right]. naive_solver. Qed.

Lemma perform_spec o b :
  inv 0 b → op_ok o → ends (perform o b) 0 (op_needs o b) (op_spec o (contents b)).
Proof.
  intros Hi Ho. pose proof (contents_length 0 b Hi) as Hc.
  destruct o as [src|src|n|n| |mx setter]; simpl in *.
  - by apply AppendData_spec.
  - by apply SetData_spec.
  - eapply ends_mono; [by apply SetSize_spec|]. intros l (El & Et & _). split; [done|]. by rewrite Hc.
  - by apply EnsureCapacity_spec.
  - right. destruct (Clear_spec b Hi) as (b' & -> & Hi' & Ec & En). simpl. exists b', [].
    split_and!; try done; apply clean_nil.
  - destruct Ho as [Hmx Hset]. destruct (AppendData_setter_spec mx setter b Hi Hmx Hset)
      as [[-> Hn]|(b' & freed & v & -> & Hi' & Hcl & Ec & Hv & Hcon)]; [by left|right].
    simpl. exists b', freed. split_and!; try done. by exists v.
Qed.

Lemma clean_app x y : clean x → clean y → clean (x ++ y).
Proof. intros Hx Hy Hz. apply Forall_app. by split; [apply Hx|apply Hy]. Qed.

(** The blocks that a whole life of a buffer gives back. *)
Definition live (os : list op) : result BufferT :=
  b ← empty_buffer;
  '(b, freed) ← perform_all os b;
  last ← destroy b; Ret (b, freed ++ last).

(** Some operation asks for more than can be allocated. *)
Definition too_much (os : list op) (b : BufferT) : Prop :=
  ∃ os1 o os2 b' freed, os = os1 ++ o :: os2 ∧ perform_all os1 b = Ret (b', freed) ∧ max_alloc < op_needs o b'.

Lemma perform_all_spec os b :
  inv 0 b → Forall op_ok os →
  (perform_all os b = Throw BadAlloc ∧ too_much os b) ∨
  ∃ b' freed, perform_all os b = Ret (b', freed) ∧ inv 0 b' ∧ clean freed ∧ ops_spec os (contents b) (contents b').
Proof.
  intros Hi Hok. revert b Hi. induction Hok as [|o os Ho _ IH]; intros b Hi.
  { right. exists b, []. split_and!; try done; [apply clean_nil|constructor]. }
  simpl. destruct (perform_spec o b Hi Ho) as [[-> Hn]|(b1 & f1 & E1 & Hi1 & Hc1 & _ & Hs1)].
  { left. split; [done|]. by exists [], o, os, b, []. }
  rewrite E1. simpl. destruct (IH b1 Hi1) as [[-> Ht]|(b2 & f2 & -> & Hi2 & Hc2 & Hs2)]; simpl.
  - left. split; [done|]. destruct Ht as (os1 & o' & os2 & b' & f' & -> & E & Hn).
    exists (o :: os1), o', os2, b', (f1 ++ f'). split_and!; try done. simpl. by rewrite E1; simpl; rewrite E.
  - right. exists b2, (f1 ++ f2). split_and!; try done; [by apply clean_app|]. by econstructor.
Qed.

End Code.
End Buf.

Import Buf.


(** The library's function, for the examples. *)
Definition zero_memory (d : option (list (option Z))) (pos n : Z) : outcome (option (list (option Z))) :=
  memcpy d pos (replicate (Z.to_nat n) (Some 0)).


Lemma buffer_example :
  let _ := Build_Build true in
  live true 100 zero_memory [OAppend [7; 8; 9]; OAppend [10]; OResize 2] =
    Ret (mkBuf 2 4 (Some [Some 7; Some 8; Some 0; Some 0]),
         [[Some 0; Some 0; Some 0]; [Some 0; Some 0; Some 0; Some 0]]).
Proof. vm_compute. reflexivity. Qed.
