(* ===== verification/Statistics.v ===== *)
(** * Moving statistics

    [rtc_base/numerics/moving_max_counter.h], [percentile_filter.h] and
    [moving_median_filter.h]: the maximum over a window of time, a percentile of
    a changing set of observations, and the median of the last samples. Each
    keeps just enough to answer at once; the theorems compare the answers with
    those computed from the whole history. Samples are integers. *)

From stdpp Require Import base list sorting.
From Stdlib Require Import ZArith Lia.
From S2P Require Import Prelude SafeNumerics.

Local Open Scope Z_scope.
Import Int SafeCmp Checks.

(** The tail of a list from the first element that fails [p]. *)
Fixpoint drop_while {A} (p : A → bool) (l : list A) : list A :=
  match l with
  | [] => []
  | x :: l' => if p x then drop_while p l' else l
  end.

(** ** MovingMaxCounter *)
Module MovingMax.
Section Code.
Context `{Build}.

Record Counter := mkCounter
  { window_length_ms_ : Z; samples_ : list (Z * Z); last_call_time_ms_ : Z }.

Definition fresh (window_length_ms : Z) : Counter := mkCounter window_length_ms [] (lowest int64_t).

Definition RollWindow (new_time_ms : Z) (c : Counter) : outcome Counter :=
  last ← (if RTC_DCHECK_IS_ON then
            RTC_CHECK_OP Ge (TV int64_t new_time_ms) (TV int64_t c.(last_call_time_ms_));; Ret new_time_ms
          else Ret c.(last_call_time_ms_));
  window_begin_ms ← new_time_ms -! c.(window_length_ms_);
  Ret (mkCounter c.(window_length_ms_) (drop_while (λ p, p.1 <? window_begin_ms) c.(samples_)) last).

(** Popping from the back. *)
Definition pop_smaller (sample : Z) (l : list (Z * Z)) : list (Z * Z) :=
  reverse (drop_while (λ p, p.2 <=? sample) (reverse l)).

Definition Add (sample current_time_ms : Z) (c : Counter) : outcome Counter :=
  c ← RollWindow current_time_ms c;
  let samples := pop_smaller sample c.(samples_) in
  let samples :=
    match last samples with
    | None => samples ++ [(current_time_ms, sample)]
    | Some back => if back.1 <? current_time_ms then samples ++ [(current_time_ms, sample)] else samples
    end in
  Ret (mkCounter c.(window_length_ms_) samples c.(last_call_time_ms_)).

Definition Max (current_time_ms : Z) (c : Counter) : outcome (option Z * Counter) :=
  c ← RollWindow current_time_ms c; Ret (snd <$> head c.(samples_), c).

Definition Reset (c : Counter) : Counter := mkCounter c.(window_length_ms_) [] c.(last_call_time_ms_).

End Code.

(** *** Reference: the whole history *)

(** The larger of two possible samples. *)
Definition omax (x y : option Z) : option Z :=
  match x, y with
  | Some a, Some b => Some (Z.max a b)
  | Some a, None => Some a
  | None, _ => y
  end.

(** The maximum of the samples taken at [w] or later. *)
Fixpoint best (w : Z) (l : list (Z * Z)) : option Z :=
  match l with
  | [] => None
  | (t, s) :: l' => omax (if w <=? t then Some s else None) (best w l')
  end.

(** Times increase and samples decrease along the deque. *)
Fixpoint chain (l : list (Z * Z)) : Prop :=
  match l with
  | p :: ((q :: _) as l') => p.1 < q.1 ∧ q.2 < p.2 ∧ chain l'
  | _ => True
  end.

Lemma omax_assoc x y z : omax x (omax y z) = omax (omax x y) z.
Proof. destruct x, y, z; simpl; try done. f_equal. lia. Qed.

Lemma best_app w l1 l2 : best w (l1 ++ l2) = omax (best w l1) (best w l2).
Proof. induction l1 as [|[t s] l1 IH]; [done|]. simpl. by rewrite IH, omax_assoc. Qed.

Lemma best_old w l : Forall (λ p, p.1 < w) l → best w l = None.
Proof.
  induction 1 as [|[t s] l Ht _ IH]; [done|]. simpl in *. rewrite IH. by destruct (Z.leb_spec w t); [lia|].
Qed.

Lemma drop_while_split {A} (p : A → bool) l : ∃ l1, l = l1 ++ drop_while p l ∧ Forall (λ x, p x = true) l1.
Proof.
  induction l as [|x l (l1 & E & Hl)]; [by exists []|]. simpl. destruct (p x) eqn:Ep; [|by exists []].
  exists (x :: l1). split; [by rewrite E at 1|by constructor].
Qed.

(** Rolling drops only what later windows do not see. *)
Lemma best_roll w w' l : w ≤ w' → best w' (drop_while (λ p, p.1 <? w) l) = best w' l.
Proof.
  intros Hw. destruct (drop_while_split (λ p : Z * Z, p.1 <? w) l) as (l1 & E & Hl).
  transitivity (best w' (l1 ++ drop_while (λ p : Z * Z, p.1 <? w) l)); [|by rewrite <- E].
  rewrite best_app, (best_old w' l1); [done|].
  eapply Forall_impl; [exact Hl|]. intros p. simpl. rewrite Z.ltb_lt. lia.
Qed.

Lemma chain_app l1 l2 : chain (l1 ++ l2) → chain l1 ∧ chain l2.
Proof.
  induction l1 as [|p l1 IH]; [done|]. destruct l1 as [|q l1]; simpl.
  - destruct l2; [done|]. naive_solver.
  - intros (? & ? & Hc). destruct (IH Hc) as [? ?]. done.
Qed.

(** In a chain the first sample in the window is the maximum. *)
Lemma chain_bounds p l : chain (p :: l) → Forall (λ q, p.1 < q.1 ∧ q.2 < p.2) l.
Proof.
  revert p. induction l as [|q l IH]; intros p; [constructor|]. intros (H1 & H2 & Hc).
  constructor; [done|]. eapply Forall_impl; [by apply IH|]. simpl. lia.
Qed.

Lemma best_below w s l m : Forall (λ q, q.2 ≤ s) l → best w l = Some m → m ≤ s.
Proof.
  intros Hl. revert m. induction Hl as [|[t x] l Hx _ IH]; intros m; [done|]. simpl in *.
  destruct (w <=? t), (best w l) as [y|]; simpl; intros [= <-]; try specialize (IH y eq_refl); lia.
Qed.

Lemma omax_below w s l : Forall (λ q, q.2 ≤ s) l → omax (Some s) (best w l) = Some s.
Proof.
  intros Hl. destruct (best w l) as [m|] eqn:E; [|done]. apply (best_below _ s) in E; [|done].
  simpl. f_equal. lia.
Qed.

Lemma best_chain w l : chain l → best w l = snd <$> head (drop_while (λ p, p.1 <? w) l).
Proof.
  induction l as [|[t s] l IH]; [done|]. intros Hc. pose proof (chain_bounds _ _ Hc) as Hb. simpl.
  destruct (Z.leb_spec w t), (Z.ltb_spec t w); try lia; simpl.
  - apply omax_below. eapply Forall_impl; [done|]. simpl. lia.
  - apply IH. destruct l; [done|]. simpl in Hc. naive_solver.
Qed.

Lemma drop_while_head {A} (p : A → bool) l x : head (drop_while p l) = Some x → p x = false.
Proof. induction l as [|y l IH]; [done|]. simpl. destruct (p y) eqn:E; [done|]. by intros [= <-]. Qed.

(** What popping keeps, and what it pops. *)
Lemma pop_smaller_split s l :
  ∃ popped, l = pop_smaller s l ++ popped ∧ Forall (λ q, q.2 ≤ s) popped ∧
    ∀ back, last (pop_smaller s l) = Some back → s < back.2.
Proof.
  unfold pop_smaller. set (p := λ q : Z * Z, q.2 <=? s).
  destruct (drop_while_split p (reverse l)) as (l1 & E & Hl). exists (reverse l1). split_and!.
  - rewrite <- reverse_app, <- E. by rewrite reverse_involutive.
  - apply Forall_reverse. eapply Forall_impl; [exact Hl|]. unfold p. simpl. intros q. by rewrite Z.leb_le.
  - intros back. rewrite last_reverse. intros Hh. apply drop_while_head in Hh. unfold p in Hh.
    by rewrite Z.leb_gt in Hh.
Qed.

Lemma chain_snoc l back q : chain (l ++ [back]) → back.1 < q.1 → q.2 < back.2 → chain (l ++ [back; q]).
Proof.
  induction l as [|x l IH]; intros Hc H1 H2; [done|]. destruct l as [|y l]; simpl in *; naive_solver.
Qed.

(** A new sample hides the popped ones. *)
Lemma best_hides w now s popped :
  Forall (λ q, q.1 ≤ now) popped → Forall (λ q, q.2 ≤ s) popped →
  omax (best w popped) (best w [(now, s)]) = best w [(now, s)].
Proof.
  intros Ht Hs. simpl. destruct (Z.leb_spec w now).
  - simpl. destruct (best w popped) as [m|] eqn:E; [|done]. apply (best_below _ s) in E; [|done].
    simpl. f_equal. lia.
  - rewrite best_old; [done|]. eapply Forall_impl; [exact Ht|]. simpl. lia.
Qed.

(** An older sample at the same time is larger. *)
Lemma best_hidden w now s l back :
  back.1 = now → s < back.2 → omax (best w (l ++ [back])) (best w [(now, s)]) = best w (l ++ [back]).
Proof.
  intros Et Hs. rewrite best_app, <- omax_assoc. f_equal. destruct back as [t x]. simpl in *. subst t.
  destruct (w <=? now); [|done]. simpl. f_equal. lia.
Qed.

(** *** The invariant *)
Section Invariant.
Context `{Build}.

(** The deque answers for the history [h] up to the time [t]. *)
Definition tracks (c : Counter) (h : list (Z * Z)) (t : Z) : Prop :=
  chain c.(samples_) ∧ Forall (λ p, p.1 ≤ t) c.(samples_) ∧ Forall (λ p, p.1 ≤ t) h ∧
  lowest int64_t ≤ c.(last_call_time_ms_) ≤ t ∧
  ∀ w, t - c.(window_length_ms_) ≤ w → best w c.(samples_) = best w h.

Definition time_ok (t : Z) : Prop := - 2 ^ 62 < t < 2 ^ 62.

Lemma RollWindow_tracks c h t now :
  tracks c h t → t ≤ now → time_ok now → time_ok c.(window_length_ms_) →
  ∃ c', RollWindow now c = Ret c' ∧ tracks c' h now ∧ c'.(window_length_ms_) = c.(window_length_ms_) ∧
    c'.(samples_) = drop_while (λ p, p.1 <? now - c.(window_length_ms_)) c.(samples_).
Proof.
  intros (Hc & Hs & Hh & Hl & Hb) Ht Hn Hw. unfold RollWindow, time_ok in *.
  assert (∃ last, (if RTC_DCHECK_IS_ON then
      RTC_CHECK_OP Ge (TV int64_t now) (TV int64_t c.(last_call_time_ms_));; Ret now
      else Ret c.(last_call_time_ms_)) = Ret last ∧ lowest int64_t ≤ last ≤ now) as (last & -> & Hlast).
  { change (lowest int64_t) with (- 9223372036854775808) in *.
    destruct RTC_DCHECK_IS_ON; [|eexists; split; [done|lia]].
    unfold RTC_CHECK_OP, RTC_CHECK. rewrite Safe_exact by (apply i64_ok; lia). simpl.
    destruct (Z.leb_spec c.(last_call_time_ms_) now); [|lia]. eexists. split; [done|lia]. }
  simpl. rewrite chk64_ok by lia. simpl. eexists. split; [done|]. split; [|done].
  destruct (drop_while_split (λ p : Z * Z, p.1 <? now - c.(window_length_ms_)) c.(samples_)) as (l1 & E & _).
  unfold tracks. simpl. rewrite E in Hc, Hs. split_and!.
  - by apply chain_app in Hc as [_ ?].
  - apply Forall_app in Hs as [_ Hs]. eapply Forall_impl; [exact Hs|]. simpl. lia.
  - eapply Forall_impl; [exact Hh|]. simpl. lia.
  - lia.
  - lia.
  - intros w Hle. rewrite best_roll by done. apply Hb. lia.
Qed.

Lemma Add_tracks c h t s now :
  tracks c h t → t ≤ now → time_ok now → time_ok c.(window_length_ms_) →
  ∃ c', Add s now c = Ret c' ∧ tracks c' (h ++ [(now, s)]) now ∧ c'.(window_length_ms_) = c.(window_length_ms_).
Proof.
  intros Htr Ht Hn Hw. unfold Add.
  destruct (RollWindow_tracks c h t now Htr Ht Hn Hw) as (c' & -> & (Hc & Hs & Hh & Hl & Hb) & Ew & _).
  simpl. eexists. split; [done|]. split; [|done]. unfold tracks. simpl.
  destruct (pop_smaller_split s c'.(samples_)) as (popped & E & Hp & Hback).
  set (kept := pop_smaller s c'.(samples_)) in *. rewrite E in Hc, Hs, Hb. clearbody kept.
  apply chain_app in Hc as [Hc _]. apply Forall_app in Hs as [Hk Hpt].
  assert (Forall (λ p, p.1 ≤ now) (h ++ [(now, s)])) as Hh'.
  { apply Forall_app. split; [done|]. apply Forall_singleton. simpl. lia. }
  assert (∀ w, now - c'.(window_length_ms_) ≤ w →
    omax (best w kept) (best w [(now, s)]) = best w (h ++ [(now, s)])) as Hbest.
  { intros w Hle. rewrite best_app, <- Hb, best_app, <- omax_assoc, (best_hides w now s popped) by done. done. }
  induction kept as [|back k _] using rev_ind; simpl.
  { split_and!; try done; try apply Hl. by apply Forall_singleton. }
  rewrite last_snoc in *. specialize (Hback back eq_refl). pose proof Hk as Hk'.
  rewrite Forall_app, Forall_singleton in Hk'. destruct Hk' as [_ Hk']. destruct (Z.ltb_spec back.1 now).
  - split_and!; try done; try apply Hl.
    + rewrite <- app_assoc. by apply chain_snoc.
    + apply Forall_app. split; [done|]. apply Forall_singleton. simpl. lia.
    + intros w Hle. rewrite best_app. by apply Hbest.
  - split_and!; try done; try apply Hl. intros w Hle. rewrite <- Hbest by done. symmetry. apply best_hidden; [lia|done].
Qed.

(** *** Any use of a counter *)
Inductive call := CAdd (sample time : Z) | CMax (time : Z) | CReset.

Fixpoint run (cs : list call) (c : Counter) : outcome (list (option Z)) :=
  match cs with
  | [] => Ret []
  | CAdd s t :: cs' => c ← Add s t c; run cs' c
  | CMax t :: cs' => '(m, c) ← Max t c; ms ← run cs' c; Ret (m :: ms)
  | CReset :: cs' => run cs' (Reset c)
  end.

(** The answers from the whole history. *)
Fixpoint answers (window : Z) (h : list (Z * Z)) (cs : list call) : list (option Z) :=
  match cs with
  | [] => []
  | CAdd s t :: cs' => answers window (h ++ [(t, s)]) cs'
  | CMax t :: cs' => best (t - window) h :: answers window h cs'
  | CReset :: cs' => answers window [] cs'
  end.

(** Times never decrease. *)
Fixpoint in_order (t : Z) (cs : list call) : Prop :=
  match cs with
  | [] => True
  | (CAdd _ t' | CMax t') :: cs' => t ≤ t' ∧ time_ok t' ∧ in_order t' cs'
  | CReset :: cs' => in_order t cs'
  end.

Lemma run_tracks cs c h t :
  tracks c h t → time_ok c.(window_length_ms_) → in_order t cs →
  run cs c = Ret (answers c.(window_length_ms_) h cs).
Proof.
  revert c h t. induction cs as [|[s now|now|] cs IH]; intros c h t Htr Hw Ho; simpl in *; [done|..].
  - destruct Ho as (Ht & Hn & Ho). destruct (Add_tracks c h t s now) as (c' & -> & Htr' & Ew); [done..|].
    simpl. rewrite <- Ew in *. by eapply IH.
  - destruct Ho as (Ht & Hn & Ho). unfold Max.
    destruct (RollWindow_tracks c h t now) as (c' & -> & Htr' & Ew & Es); [done..|]. simpl.
    rewrite (IH c' h now) by (done || by rewrite Ew). simpl. rewrite Ew. do 2 f_equal.
    destruct Htr as (Hc & _ & _ & _ & Hb). rewrite Es, <- best_chain by done. apply Hb. lia.
  - apply (IH (Reset c) [] t); try done. destruct Htr as (_ & _ & _ & Hl & _). by unfold tracks, Reset; simpl.
Qed.

End Invariant.
End MovingMax.

(** C34: For every sequence of Add, Max and Reset calls in time order, the
    answers of MovingMaxCounter are those of the definition that keeps all
    samples and takes the maximum of those in the window. *)
Theorem moving_max_exact `{Build} window t cs :
  MovingMax.time_ok window → lowest int64_t ≤ t → MovingMax.in_order t cs →
  MovingMax.run cs (MovingMax.fresh window) = Ret (MovingMax.answers window [] cs).
Proof.
  intros Hw Ht Ho. apply (MovingMax.run_tracks cs (MovingMax.fresh window) [] t); try done.
Qed.

Lemma moving_max_exact_witness :
  let _ := Build_Build true in
  MovingMax.run
    [MovingMax.CAdd 5 0; MovingMax.CAdd 3 4; MovingMax.CAdd 4 6; MovingMax.CMax 9; MovingMax.CMax 12;
     MovingMax.CMax 20] (MovingMax.fresh 10) = Ret [Some 5; Some 4; None].
Proof.
  intros B. apply (moving_max_exact 10 0); vm_compute; intuition congruence.
Defined.

(** ** PercentileFilter *)
Module Percentile.
Section Code.

(** [static_cast<int64_t>(percentile_ * (size - 1))], computed in [float]. *)
Variable target : Z → Z.

(** The multiset is a sorted list and an iterator a position in it: inserting
    or erasing before the position moves it along. *)
Record Filter := mkFilter { set_ : list Z; percentile_it_ : nat; percentile_index_ : Z }.

Definition fresh : Filter := mkFilter [] 0 0.

Fixpoint upper_bound (v : Z) (l : list Z) : nat :=
  match l with
  | x :: l' => if x <=? v then S (upper_bound v l') else 0
  | [] => 0
  end.

Fixpoint lower_bound (v : Z) (l : list Z) : nat :=
  match l with
  | x :: l' => if x <? v then S (lower_bound v l') else 0
  | [] => 0
  end.

Definition deref (l : list Z) (it : nat) : outcome Z :=
  match l !! it with Some x => Ret x | None => Undef OutOfBounds end.

(** std::advance *)
Definition advance (l : list Z) (it : nat) (n : Z) : outcome nat :=
  let k := Z.of_nat it + n in
  if (0 <=? k) && (k <=? Z.of_nat (length l)) then Ret (Z.to_nat k) else Undef OutOfBounds.

Definition UpdatePercentileIterator (f : Filter) : outcome Filter :=
  match f.(set_) with
  | [] => Ret f
  | _ =>
      let index := target (Z.of_nat (length f.(set_))) in
      n ← index -! f.(percentile_index_);
      it ← advance f.(set_) f.(percentile_it_) n;
      Ret (mkFilter f.(set_) it index)
  end.

Definition Insert (value : Z) (f : Filter) : outcome Filter :=
  let p := upper_bound value f.(set_) in
  let set := take p f.(set_) ++ value :: drop p f.(set_) in
  let it := if (p <=? f.(percentile_it_))%nat then S f.(percentile_it_) else f.(percentile_it_) in
  f ← (if (length set =? 1)%nat then Ret (mkFilter set 0 0)
       else
         x ← deref set it;
         if value <? x then i ← f.(percentile_index_) +! 1; Ret (mkFilter set it i)
         else Ret (mkFilter set it f.(percentile_index_)));
  UpdatePercentileIterator f.

Definition Erase (value : Z) (f : Filter) : outcome (bool * Filter) :=
  let p := lower_bound value f.(set_) in
  match f.(set_) !! p with
  | None => Ret (false, f)
  | Some x =>
      if negb (x =? value) then Ret (false, f)
      else
        let set := delete p f.(set_) in
        f ← (if (p =? f.(percentile_it_))%nat then Ret (mkFilter set p f.(percentile_index_))
             else
               let it := if (p <? f.(percentile_it_))%nat then pred f.(percentile_it_) else f.(percentile_it_) in
               y ← deref set it;
               if value <=? y then i ← f.(percentile_index_) -! 1; Ret (mkFilter set it i)
               else Ret (mkFilter set it f.(percentile_index_)));
        f ← UpdatePercentileIterator f; Ret (true, f)
  end.

Definition GetPercentileValue (f : Filter) : outcome Z :=
  match f.(set_) with [] => Ret 0 | _ => deref f.(set_) f.(percentile_it_) end.

Definition Reset (f : Filter) : Filter := mkFilter [] 0 0.

(** *** The invariant *)
Variable limit : Z.
Hypothesis Hlimit : limit < 2 ^ 62.
Hypothesis Htarget : ∀ n, 0 < n ≤ limit → 0 ≤ target n < n.

Notation sorted := (StronglySorted Z.le).

Definition good (f : Filter) : Prop :=
  sorted f.(set_) ∧
  (f.(set_) ≠ [] → Z.of_nat f.(percentile_it_) = f.(percentile_index_) ∧
     f.(percentile_index_) = target (Z.of_nat (length f.(set_)))) ∧
  Z.of_nat (length f.(set_)) ≤ limit.

(** Everything before the upper bound is at most [v], everything after it is
    more. *)
Lemma upper_bound_spec v l i x :
  sorted l → l !! i = Some x → ((upper_bound v l <= i)%nat ↔ v < x).
Proof.
  intros Hs. revert i. induction Hs as [|y l Hs IH Hy]; intros i; [done|]. simpl.
  destruct (Z.leb_spec y v).
  - destruct i as [|i]; simpl; [intros [= <-]; lia|]. intros Hx. rewrite <- (IH i Hx). lia.
  - intros Hx. split; [intros _|lia]. destruct i as [|i]; simpl in Hx; [by injection Hx as <-|].
    rewrite Forall_lookup in Hy. specialize (Hy i x Hx). lia.
Qed.

Lemma lower_bound_spec v l i x :
  sorted l → l !! i = Some x → ((lower_bound v l <= i)%nat ↔ v ≤ x).
Proof.
  intros Hs. revert i. induction Hs as [|y l Hs IH Hy]; intros i; [done|]. simpl.
  destruct (Z.ltb_spec y v).
  - destruct i as [|i]; simpl; [intros [= <-]; lia|]. intros Hx. rewrite <- (IH i Hx). lia.
  - intros Hx. split; [intros _|lia]. destruct i as [|i]; simpl in Hx; [by injection Hx as <-|].
    rewrite Forall_lookup in Hy. specialize (Hy i x Hx). lia.
Qed.

Lemma upper_bound_length v l : (upper_bound v l <= length l)%nat.
Proof. induction l as [|x l IH]; simpl; [lia|]. destruct (x <=? v); lia. Qed.

(** Inserting at the upper bound keeps the order. *)
Lemma insert_sorted v l : sorted l → sorted (take (upper_bound v l) l ++ v :: drop (upper_bound v l) l).
Proof.
  induction 1 as [|x l Hs IH Hx]; simpl; [by repeat constructor|]. destruct (Z.leb_spec x v); simpl.
  - constructor; [done|]. apply Forall_app. split; [by apply Forall_take|]. constructor; [done|by apply Forall_drop].
  - constructor; [by constructor|]. constructor; [lia|]. eapply Forall_impl; [done|]. simpl. lia.
Qed.

Lemma delete_sorted i l : sorted l → sorted (delete i l).
Proof.
  intros Hs. revert i. induction Hs as [|x l Hs IH Hx]; intros i; [constructor|].
  destruct i as [|i]; simpl; [done|]. constructor; [by apply IH|]. by apply Forall_delete.
Qed.

Lemma Update_good set it :
  sorted set → (it <= length set)%nat → Z.of_nat (length set) ≤ limit →
  ∃ f, UpdatePercentileIterator (mkFilter set it (Z.of_nat it)) = Ret f ∧ good f ∧ f.(set_) = set.
Proof.
  intros Hs Hit Hlen. unfold UpdatePercentileIterator. simpl.
  destruct set as [|x l] eqn:E; [eexists; split; [done|]; by unfold good|]. rewrite <- E in *.
  assert (0 < Z.of_nat (length set)) as Hl by (rewrite E; simpl; lia).
  pose proof (Htarget (Z.of_nat (length set)) ltac:(lia)) as Ht. rewrite chk64_ok by lia. simpl.
  unfold advance. rewrite Zplus_minus.
  destruct (Z.leb_spec 0 (target (Z.of_nat (length set)))), (Z.leb_spec (target (Z.of_nat (length set)))
    (Z.of_nat (length set))); try lia. simpl.
  eexists. split; [done|]. split; [|done]. unfold good. simpl. split_and!; try done. intros _. lia.
Qed.

(** The iterator stays on its element. *)
Lemma insert_lookup (v : Z) (l : list Z) p it :
  (p <= length l)%nat → (it < length l)%nat →
  (take p l ++ v :: drop p l) !! (if (p <=? it)%nat then S it else it) = l !! it.
Proof.
  intros Hp Hit. destruct (Nat.leb_spec p it).
  - rewrite lookup_app_r by (rewrite length_take; lia). rewrite length_take, Nat.min_l by lia.
    replace (S it - p)%nat with (S (it - p)) by lia. simpl. rewrite lookup_drop. f_equal. lia.
  - rewrite lookup_app_l by (rewrite length_take; lia). by rewrite lookup_take_lt.
Qed.

Lemma good_position f :
  good f → f.(set_) ≠ [] → (f.(percentile_it_) < length f.(set_))%nat ∧
    f.(percentile_index_) = Z.of_nat f.(percentile_it_).
Proof.
  intros (_ & Hi & Hl) Hne. destruct (Hi Hne) as [E1 E2].
  assert (0 < Z.of_nat (length f.(set_))) by (destruct (f.(set_)); [done|simpl; lia]).
  pose proof (Htarget (Z.of_nat (length f.(set_))) ltac:(lia)). lia.
Qed.

Lemma Insert_good v f :
  good f → Z.of_nat (length f.(set_)) < limit →
  ∃ f', Insert v f = Ret f' ∧ good f' ∧ f'.(set_) ≡ₚ v :: f.(set_).
Proof.
  intros Hg Hl. pose proof Hg as (Hs & _ & _). unfold Insert. cbv zeta.
  set (p := upper_bound v f.(set_)). pose proof (upper_bound_length v f.(set_)) as Hp. fold p in Hp.
  set (l' := take p f.(set_) ++ v :: drop p f.(set_)).
  assert (l' ≡ₚ v :: f.(set_)) as Hperm.
  { unfold l'. rewrite <- Permutation_middle. by rewrite take_drop. }
  assert (sorted l') as Hs' by (by apply insert_sorted).
  assert (length l' = S (length f.(set_))) as Hlen by (by rewrite Hperm).
  set (it := if (p <=? f.(percentile_it_))%nat then _ else _).
  assert (∃ it', (if (length l' =? 1)%nat then Ret (mkFilter l' 0 0)
     else x ← deref l' it; if v <? x then i ← f.(percentile_index_) +! 1; Ret (mkFilter l' it i)
       else Ret (mkFilter l' it f.(percentile_index_))) = Ret (mkFilter l' it' (Z.of_nat it')) ∧
     (it' <= length l')%nat) as (it' & -> & Hit').
  { destruct (Nat.eqb_spec (length l') 1); [exists 0%nat; split; [done|lia]|].
    assert (f.(set_) ≠ []) as Hne by (destruct (f.(set_)); simpl in *; [lia|done]).
    destruct (good_position f Hg Hne) as [Hlt Hidx].
    destruct (lookup_lt_is_Some_2 f.(set_) f.(percentile_it_) Hlt) as [x Hx].
    assert (l' !! it = Some x) as Hlk by (unfold l', it; by rewrite insert_lookup).
    unfold deref. rewrite Hlk. simpl.
    pose proof (upper_bound_spec v f.(set_) f.(percentile_it_) x Hs Hx) as Hub. fold p in Hub.
    exists it. unfold it. destruct (Z.ltb_spec v x), (Nat.leb_spec p f.(percentile_it_)); try lia.
    - rewrite chk64_ok by lia. simpl. split; [do 2 f_equal; lia|lia].
    - split; [by rewrite Hidx|lia]. }
  simpl. destruct (Update_good l' it') as (f' & -> & Hg' & Es); [done|done|lia|].
  exists f'. split_and!; try done. by rewrite Es.
Qed.

Lemma delete_lookup (l : list Z) p it :
  p ≠ it → delete p l !! (if (p <? it)%nat then pred it else it) = l !! it.
Proof.
  intros Hne. destruct (Nat.ltb_spec p it).
  - rewrite list_lookup_delete_ge by lia. f_equal. lia.
  - by rewrite list_lookup_delete_lt by lia.
Qed.

(** An observation that is not there, and one that is. *)
Lemma Erase_absent v f : good f → v ∉ f.(set_) → Erase v f = Ret (false, f).
Proof.
  intros _ Hv. unfold Erase. cbv zeta. destruct (f.(set_) !! _) as [x|] eqn:E; [|done].
  destruct (Z.eqb_spec x v) as [->|]; [|done]. by apply list_elem_of_lookup_2 in E.
Qed.

Lemma lower_bound_found v l : sorted l → v ∈ l → l !! lower_bound v l = Some v.
Proof.
  induction 1 as [|x l Hs IH Hx]; [by rewrite elem_of_nil|]. intros Hv. simpl.
  destruct (Z.ltb_spec x v).
  - apply IH. apply elem_of_cons in Hv as [->|]; [lia|done].
  - apply elem_of_cons in Hv as [->|Hv]; [done|]. rewrite Forall_forall in Hx. specialize (Hx v Hv).
    simpl. f_equal. lia.
Qed.

Lemma Erase_present v f :
  good f → v ∈ f.(set_) →
  ∃ f', Erase v f = Ret (true, f') ∧ good f' ∧ f.(set_) ≡ₚ v :: f'.(set_).
Proof.
  intros Hg Hv. pose proof Hg as (Hs & _ & Hlim). unfold Erase. cbv zeta.
  pose proof (lower_bound_found v f.(set_) Hs Hv) as Hp. set (p := lower_bound v f.(set_)) in *.
  rewrite Hp, Z.eqb_refl. simpl. set (l' := delete p f.(set_)).
  assert (f.(set_) ≡ₚ v :: l') as Hperm by (by apply delete_Permutation).
  assert (length f.(set_) = S (length l')) as Hlen by (by rewrite Hperm).
  assert (f.(set_) ≠ []) as Hne by (intros E; rewrite E in Hlen; done).
  destruct (good_position f Hg Hne) as [Hlt Hidx].
  set (it := if (p <? f.(percentile_it_))%nat then _ else _).
  assert (∃ it', (if (p =? f.(percentile_it_))%nat then Ret (mkFilter l' p f.(percentile_index_))
     else y ← deref l' it; if v <=? y then i ← f.(percentile_index_) -! 1; Ret (mkFilter l' it i)
       else Ret (mkFilter l' it f.(percentile_index_))) = Ret (mkFilter l' it' (Z.of_nat it')) ∧
     (it' <= length l')%nat) as (it' & -> & Hit').
  { destruct (Nat.eqb_spec p f.(percentile_it_)) as [Ep|Hn].
    { exists p. rewrite Hidx, <- Ep. split; [done|lia]. }
    destruct (lookup_lt_is_Some_2 f.(set_) f.(percentile_it_) Hlt) as [x Hx].
    assert (l' !! it = Some x) as Hlk by (unfold l', it; by rewrite delete_lookup).
    unfold deref. rewrite Hlk. simpl. exists it.
    pose proof (lower_bound_spec v f.(set_) f.(percentile_it_) x Hs Hx) as Hlb. fold p in Hlb.
    unfold it. destruct (Z.leb_spec v x), (Nat.ltb_spec p f.(percentile_it_)); try lia.
    - rewrite chk64_ok by lia. simpl. split; [do 2 f_equal; lia|lia].
    - split; [by rewrite Hidx|lia]. }
  simpl. destruct (Update_good l' it') as (f' & -> & Hg' & Es); [by apply delete_sorted|done|lia|].
  exists f'. simpl. split_and!; try done. by rewrite Es.
Qed.

(** *** Any use of a filter *)
Inductive call := CInsert (v : Z) | CErase (v : Z) | CGet | CReset.
Inductive answer := AErased (b : bool) | AValue (v : Z).

Fixpoint run (cs : list call) (f : Filter) : outcome (list answer) :=
  match cs with
  | [] => Ret []
  | CInsert v :: cs' => f ← Insert v f; run cs' f
  | CErase v :: cs' => '(b, f) ← Erase v f; l ← run cs' f; Ret (AErased b :: l)
  | CGet :: cs' => v ← GetPercentileValue f; l ← run cs' f; Ret (AValue v :: l)
  | CReset :: cs' => run cs' (Reset f)
  end.

(** The observation at the target position, in order. *)
Definition percentile (m : list Z) : Z :=
  default 0 (merge_sort Z.le m !! Z.to_nat (target (Z.of_nat (length m)))).

(** The same from the bag of observations. *)
Fixpoint answers (cs : list call) (m : list Z) : list answer :=
  match cs with
  | [] => []
  | CInsert v :: cs' => answers cs' (v :: m)
  | CErase v :: cs' =>
      match list_find (λ x, x = v) m with
      | Some (i, _) => AErased true :: answers cs' (delete i m)
      | None => AErased false :: answers cs' m
      end
  | CGet :: cs' => AValue (percentile m) :: answers cs' m
  | CReset :: cs' => answers cs' []
  end.

Lemma sorted_merge_sort l m : sorted l → l ≡ₚ m → merge_sort Z.le m = l.
Proof.
  intros Hs Hp. apply (StronglySorted_unique Z.le).
  - apply Sorted_StronglySorted; [apply _|]. apply Sorted_merge_sort. apply _.
  - done.
  - by rewrite merge_sort_Permutation, Hp.
Qed.

Lemma GetPercentileValue_good f m :
  good f → f.(set_) ≡ₚ m → GetPercentileValue f = Ret (percentile m).
Proof.
  intros Hg Hp. pose proof Hg as (Hs & Hi & _). unfold GetPercentileValue, percentile.
  rewrite (sorted_merge_sort _ _ Hs Hp), <- (Permutation_length Hp).
  destruct (f.(set_)) as [|x l] eqn:E; [by destruct (Z.to_nat _)|]. rewrite <- E in *.
  destruct (good_position f Hg) as [Hlt Hidx]; [by rewrite E|]. destruct Hi as [E1 E2]; [by rewrite E|].
  unfold deref. rewrite <- E2, Hidx, Nat2Z.id.
  destruct (lookup_lt_is_Some_2 f.(set_) f.(percentile_it_) Hlt) as [y ->]. done.
Qed.

Lemma good_fresh : 0 ≤ limit → good fresh.
Proof. intros Hl. unfold good. simpl. split_and!; [constructor|done|lia]. Qed.

Lemma run_good cs f m :
  good f → f.(set_) ≡ₚ m → Z.of_nat (length m) + Z.of_nat (length cs) ≤ limit →
  run cs f = Ret (answers cs m).
Proof.
  revert f m. induction cs as [|[v|v| |] cs IH]; intros f m Hg Hp Hl; [done|..]; simpl in *.
  - destruct (Insert_good v f Hg) as (f' & -> & Hg' & Hp'); [rewrite Hp; lia|]. simpl.
    apply IH; [done| |simpl; lia]. by rewrite Hp', Hp.
  - destruct (list_find (λ x, x = v) m) as [[i x]|] eqn:E.
    + apply list_find_Some in E as (Hi & -> & _). assert (v ∈ m) as Hv by (by eapply list_elem_of_lookup_2).
      destruct (Erase_present v f Hg) as (f' & -> & Hg' & Hp'); [by rewrite Hp|]. simpl.
      pose proof (delete_Permutation m i v Hi) as Hd.
      rewrite (IH f' (delete i m)); [done|done| |].
      * apply (Permutation_cons_inv (a := v)). by rewrite <- Hp', Hp.
      * rewrite Hd in Hl. simpl in Hl. lia.
    + apply list_find_None in E. rewrite Erase_absent; [|done|].
      * simpl. rewrite (IH f m) by (done || lia). done.
      * rewrite Hp. intros Hv. rewrite Forall_forall in E. by apply (E v Hv).
  - rewrite (GetPercentileValue_good f m) by done. simpl. rewrite (IH f m) by (done || lia). done.
  - apply IH; [|done|simpl; lia]. apply good_fresh. lia.
Qed.

End Code.
End Percentile.

(** ** MovingMedianFilter *)
Module Median.
Import Percentile.

(** [0.5f * (size - 1)], exact up to [2^24]. *)
Definition half_of (n : Z) : Z := (n - 1) / 2.

Record MovingMedian := mkMedian
  { percentile_filter_ : Filter; samples_ : list Z; samples_stored_ : Z; window_size_ : Z }.

Definition make (window_size : Z) : outcome MovingMedian :=
  RTC_CHECK_OP Gt (TV uint64_t window_size) (int 0);;
  Ret (mkMedian Percentile.fresh [] 0 window_size).

Definition Insert (value : Z) (c : MovingMedian) : outcome MovingMedian :=
  f ← Percentile.Insert half_of value c.(percentile_filter_);
  let samples := c.(samples_) ++ [value] in
  let stored := u64 (c.(samples_stored_) + 1) in
  if c.(window_size_) <? stored then
    match samples with
    | [] => Undef EmptyFront
    | front :: rest =>
        '(_, f) ← Percentile.Erase half_of front f;
        Ret (mkMedian f rest (u64 (stored - 1)) c.(window_size_))
    end
  else Ret (mkMedian f samples stored c.(window_size_)).

Definition GetFilteredValue (c : MovingMedian) : outcome Z := GetPercentileValue c.(percentile_filter_).

Definition Reset (c : MovingMedian) : MovingMedian :=
  mkMedian (Percentile.Reset c.(percentile_filter_)) [] 0 c.(window_size_).

Definition GetNumberOfSamplesStored (c : MovingMedian) : Z := c.(samples_stored_).

Fixpoint InsertAll (xs : list Z) (c : MovingMedian) : outcome MovingMedian :=
  match xs with
  | [] => Ret c
  | x :: xs' => c ← Insert x c; InsertAll xs' c
  end.

Lemma half_of_target n : 0 < n → 0 ≤ half_of n < n.
Proof.
  intros Hn. unfold half_of. split; [apply Z.div_pos; lia|]. apply Z.div_lt_upper_bound; lia.
Qed.

(** The last [w] elements. *)
Definition window (w : Z) (xs : list Z) : list Z := drop (length xs - Z.to_nat w) xs.

Definition holds_window (w : Z) (xs : list Z) (c : MovingMedian) : Prop :=
  good half_of (2 ^ 24) c.(percentile_filter_) ∧ c.(percentile_filter_).(set_) ≡ₚ c.(samples_) ∧
  c.(samples_) = window w xs ∧ c.(samples_stored_) = Z.of_nat (length c.(samples_)) ∧ c.(window_size_) = w.

Lemma Insert_window w xs x c :
  0 < w < 2 ^ 24 → holds_window w xs c →
  ∃ c', Insert x c = Ret c' ∧ holds_window w (xs ++ [x]) c'.
Proof.
  intros Hw (Hg & Hp & Hs & Hst & Ew). unfold Insert.
  assert (Z.of_nat (length c.(samples_)) ≤ w) as Hlen by (rewrite Hs; unfold window; rewrite length_drop; lia).
  destruct (Insert_good half_of (2 ^ 24) ltac:(lia) ltac:(intros; apply half_of_target; lia) x c.(percentile_filter_))
    as (f & -> & Hgf & Hpf); [done|rewrite Hp; lia|]. simpl.
  rewrite u64_small by (unfold npos; lia). rewrite Ew.
  assert (c.(samples_) ++ [x] = drop (length xs - Z.to_nat w) (xs ++ [x])) as Hd.
  { rewrite Hs, drop_app_le by lia. done. }
  assert (f.(set_) ≡ₚ c.(samples_) ++ [x]) as Hpf' by (rewrite Hpf, Hp; by rewrite Permutation_app_comm).
  assert (length c.(samples_) = length xs - (length xs - Z.to_nat w))%nat as Hl2
    by (rewrite Hs; unfold window; by rewrite length_drop).
  destruct (Z.ltb_spec w (c.(samples_stored_) + 1)).
  - destruct (c.(samples_) ++ [x]) as [|front rest] eqn:E; [by destruct (c.(samples_))|].
    destruct (Erase_present half_of (2 ^ 24) ltac:(lia) ltac:(intros; apply half_of_target; lia) front f Hgf)
      as (f' & -> & Hgf' & Hpf2); [rewrite Hpf'; by left|]. simpl.
    rewrite u64_small by (unfold npos; lia). eexists. split; [done|]. unfold holds_window. simpl.
    assert (length (c.(samples_) ++ [x]) = S (length rest)) as Hl3 by (by rewrite E).
    rewrite length_app in Hl3. simpl in Hl3. split_and!; try done; [|..|lia].
    + apply (Permutation_cons_inv (a := front)). by rewrite <- Hpf2, Hpf'.
    + unfold window. rewrite length_app. simpl.
      replace (length xs + 1 - Z.to_nat w)%nat with (S (length xs - Z.to_nat w)) by lia.
      transitivity (drop 1 (front :: rest)); [done|]. rewrite Hd, drop_drop. f_equal. lia.
  - eexists. split; [done|]. unfold holds_window. simpl. rewrite length_app. simpl. split_and!; try done; [|lia].
    rewrite Hd. unfold window. rewrite length_app. simpl. f_equal. lia.
Qed.

Lemma InsertAll_window w xs ys c :
  0 < w < 2 ^ 24 → holds_window w xs c →
  ∃ c', InsertAll ys c = Ret c' ∧ holds_window w (xs ++ ys) c'.
Proof.
  intros Hw. revert xs c. induction ys as [|y ys IH]; intros xs c Hc; [exists c; by rewrite app_nil_r|]. simpl.
  destruct (Insert_window w xs y c Hw Hc) as (c' & -> & Hc'). simpl.
  destruct (IH _ _ Hc') as (c2 & E & Hc2). exists c2. by rewrite <- app_assoc in Hc2.
Qed.

End Median.



(** After any insertions the filter answers with the median of the last
    [w] samples. *)
Lemma moving_median_exact w xs :
  0 < w < 2 ^ 24 →
  ∃ c c', Median.make w = Ret c ∧ Median.InsertAll xs c = Ret c' ∧
    Median.GetNumberOfSamplesStored c' = Z.min w (Z.of_nat (length xs)) ∧
    Median.GetFilteredValue c' = Ret (Percentile.percentile Median.half_of (Median.window w xs)).
Proof.
  intros Hw. eexists _. unfold Median.make, RTC_CHECK_OP, RTC_CHECK.
  rewrite Safe_exact by (done || (apply ok_u64; unfold npos; lia)). simpl.
  destruct (Z.ltb_spec 0 w); [|lia]. simpl.
  destruct (Median.InsertAll_window w [] xs (Median.mkMedian Percentile.fresh [] 0 w)) as (c' & E & Hc'); [done| |].
  { split; [by apply Percentile.good_fresh|done]. }
  exists c'. destruct Hc' as (Hg & Hp & Hs & Hst & _). split_and!; try done.
  - unfold Median.GetNumberOfSamplesStored. rewrite Hst, Hs. unfold Median.window. rewrite length_drop. simpl. lia.
  - unfold Median.GetFilteredValue.
    apply (Percentile.GetPercentileValue_good _ (2 ^ 24)); [|done|by rewrite Hp, Hs].
    intros n Hn. apply Median.half_of_target. lia.
Qed.

Lemma moving_median_exact_witness :
  ∃ c c', Median.make 3 = Ret c ∧ Median.InsertAll [9; 1; 7; 5; 6] c = Ret c' ∧
    Median.GetNumberOfSamplesStored c' = 3 ∧ Median.GetFilteredValue c' = Ret 6.
Proof. apply (moving_median_exact 3 [9; 1; 7; 5; 6]). lia. Defined.
