(* ===== verification/SwapQueue.v ===== *)
(** * SwapQueue

    [rtc_base/swap_queue.h]: a queue of fixed size between one producer and one
    consumer, who meet only in an atomic count. Each call is split at its
    accesses to shared memory, and the steps of the two threads interleave in
    any order; acquire and release make the accesses to the slots follow that
    order. The logs [pushed] and [taken] record what went in and what came out,
    through Remove or dropped by Clear.

    The theorems: the queue is first-in first-out, neither thread touches a slot
    the other is using, and the indices and the count stay within bounds. *)

From stdpp Require Import base list relations.
From Stdlib Require Import Lia.
From S2P Require Import Prelude.

Module SwapQueue.
Section Code.
Context {T : Type}.

(** SwapQueueItemVerifier: the check an item passes on its way in. *)
Context (queue_item_verifier_ : T → bool).

(** Where the producer is in Insert. *)
Inductive producer_pc :=
  | PIdle
  | PSwap (input : T)             (* the count was not the size *)
  | PAdd (value : T) (input : T)  (* swapped: [input] holds the empty one *)
  | PNext (input : T).            (* the count was incremented *)

(** Where the consumer is in Remove or Clear. *)
Inductive consumer_pc :=
  | CIdle
  | CSwap (output : T)
  | CSub (output : T)
  | CNext (output : T)
  | CClear (dropped : nat).

Record state := mkState
  { queue_ : list T;
    next_write_index_ : nat;
    next_read_index_ : nat;
    num_elements_ : nat;
    producer : producer_pc;
    consumer : consumer_pc;
    pushed : list T;
    taken : list T }.

Definition size (s : state) : nat := length s.(queue_).

(** [++index; if (index == size) index = 0] *)
Definition bump (n i : nat) : nat := if (S i =? n)%nat then 0%nat else S i.

(** [index += k; if (index >= size) index -= size] *)
Definition skip (n i k : nat) : nat := if (n <=? i + k)%nat then (i + k - n)%nat else (i + k)%nat.

(** The elements of [k] slots from [i] on. *)
Definition slots (l : list T) (i k : nat) : list T :=
  omap (λ j, l !! skip (length l) i j) (seq 0 k).

(** SwapQueue(size, prototype) *)
Definition make (n : nat) (prototype : T) : state :=
  mkState (replicate n prototype) 0 0 0 PIdle CIdle [] [].

(** Changes of one thread. *)
Definition with_producer (s : state) (p : producer_pc) : state :=
  mkState s.(queue_) s.(next_write_index_) s.(next_read_index_) s.(num_elements_) p s.(consumer)
    s.(pushed) s.(taken).
Definition with_consumer (s : state) (c : consumer_pc) : state :=
  mkState s.(queue_) s.(next_write_index_) s.(next_read_index_) s.(num_elements_) s.(producer) c
    s.(pushed) s.(taken).
Definition with_slot (s : state) (i : nat) (x : T) : state :=
  mkState (<[i := x]> s.(queue_)) s.(next_write_index_) s.(next_read_index_) s.(num_elements_) s.(producer)
    s.(consumer) s.(pushed) s.(taken).

(** SizeAtLeast *)
Definition SizeAtLeast (s : state) : nat := s.(num_elements_).

(** VerifyQueueSlots *)
Definition VerifyQueueSlots (s : state) : bool := forallb queue_item_verifier_ s.(queue_).

(** The steps of Insert: load the count, swap, increment, move the index. The
    caller's item passes the verifier. *)
Inductive insert_step : state → state → Prop :=
  | insert_full s :
      s.(producer) = PIdle → s.(num_elements_) = size s → insert_step s s
  | insert_load s x :
      s.(producer) = PIdle → queue_item_verifier_ x = true → s.(num_elements_) ≠ size s →
      insert_step s (with_producer s (PSwap x))
  | insert_swap s x y :
      s.(producer) = PSwap x → s.(queue_) !! s.(next_write_index_) = Some y →
      insert_step s (with_producer (with_slot s s.(next_write_index_) x) (PAdd x y))
  | insert_add s x y :
      s.(producer) = PAdd x y →
      insert_step s
        (mkState s.(queue_) s.(next_write_index_) s.(next_read_index_) (S s.(num_elements_)) (PNext y)
          s.(consumer) (s.(pushed) ++ [x]) s.(taken))
  | insert_next s y :
      s.(producer) = PNext y →
      insert_step s
        (mkState s.(queue_) (bump (size s) s.(next_write_index_)) s.(next_read_index_) s.(num_elements_) PIdle
          s.(consumer) s.(pushed) s.(taken)).

(** The steps of Remove. *)
Inductive remove_step : state → state → Prop :=
  | remove_none s :
      s.(consumer) = CIdle → s.(num_elements_) = 0%nat → remove_step s s
  | remove_load s y :
      s.(consumer) = CIdle → queue_item_verifier_ y = true → s.(num_elements_) ≠ 0%nat →
      remove_step s (with_consumer s (CSwap y))
  | remove_swap s y x :
      s.(consumer) = CSwap y → s.(queue_) !! s.(next_read_index_) = Some x →
      remove_step s (with_consumer (with_slot s s.(next_read_index_) y) (CSub x))
  | remove_sub s x :
      s.(consumer) = CSub x →
      remove_step s
        (mkState s.(queue_) s.(next_write_index_) s.(next_read_index_) (pred s.(num_elements_)) s.(producer)
          (CNext x) s.(pushed) (s.(taken) ++ [x]))
  | remove_next s x :
      s.(consumer) = CNext x →
      remove_step s
        (mkState s.(queue_) s.(next_write_index_) (bump (size s) s.(next_read_index_)) s.(num_elements_)
          s.(producer) CIdle s.(pushed) s.(taken)).

(** The steps of Clear: exchange the count for zero, move the index. *)
Inductive clear_step : state → state → Prop :=
  | clear_exchange s :
      s.(consumer) = CIdle →
      clear_step s
        (mkState s.(queue_) s.(next_write_index_) s.(next_read_index_) 0 s.(producer)
          (CClear s.(num_elements_)) s.(pushed)
          (s.(taken) ++ slots s.(queue_) s.(next_read_index_) s.(num_elements_)))
  | clear_next s n :
      s.(consumer) = CClear n →
      clear_step s
        (mkState s.(queue_) s.(next_write_index_) (skip (size s) s.(next_read_index_) n) s.(num_elements_)
          s.(producer) CIdle s.(pushed) s.(taken)).

Inductive step (s s' : state) : Prop :=
  | step_insert : insert_step s s' → step s s'
  | step_remove : remove_step s s' → step s s'
  | step_clear : clear_step s s' → step s s'.

(** ** The invariant *)

(** Where the next read and the next write will be once the calls in progress
    have moved their index. *)
Definition read_index (s : state) : nat :=
  match s.(consumer) with
  | CNext _ => bump (size s) s.(next_read_index_)
  | CClear n => skip (size s) s.(next_read_index_) n
  | _ => s.(next_read_index_)
  end.

Definition write_index (s : state) : nat :=
  match s.(producer) with
  | PNext _ => bump (size s) s.(next_write_index_)
  | _ => s.(next_write_index_)
  end.

(** The element at position [i] of the queue: the slot, or the hand of the
    consumer that has swapped it out. *)
Definition element (s : state) (i : nat) : option T :=
  match s.(consumer), i with
  | CSub x, 0%nat => Some x
  | _, _ => s.(queue_) !! skip (size s) (read_index s) i
  end.

Record inv (s : state) : Prop := mkInv {
  inv_size : (0 < size s)%nat;
  inv_write : (s.(next_write_index_) < size s)%nat;
  inv_read : (s.(next_read_index_) < size s)%nat;
  inv_num : (s.(num_elements_) <= size s)%nat;
  inv_dropped : ∀ n, s.(consumer) = CClear n → (n <= size s)%nat;
  inv_indices : write_index s = skip (size s) (read_index s) s.(num_elements_);
  inv_room : ∀ x y, s.(producer) = PSwap x ∨ s.(producer) = PAdd x y → (s.(num_elements_) < size s)%nat;
  inv_swapped : ∀ x y, s.(producer) = PAdd x y → s.(queue_) !! s.(next_write_index_) = Some x;
  inv_some : ∀ x, s.(consumer) = CSwap x ∨ s.(consumer) = CSub x → (0 < s.(num_elements_))%nat;
  inv_fifo : ∃ q, s.(pushed) = s.(taken) ++ q ∧ length q = s.(num_elements_) ∧
    ∀ i, (i < s.(num_elements_))%nat → element s i = q !! i
}.

(** ** Indices *)
Lemma skip_bound n i k : (i < n → k <= n → skip n i k < n)%nat.
Proof. unfold skip. destruct (Nat.leb_spec n (i + k)); lia. Qed.

Lemma bump_bound n i : (i < n → bump n i < n)%nat.
Proof. unfold bump. destruct (Nat.eqb_spec (S i) n); lia. Qed.

Lemma skip_inj n i j k : (i < n → j < n → k < n → skip n i j = skip n i k → j = k)%nat.
Proof. unfold skip. destruct (Nat.leb_spec n (i + j)), (Nat.leb_spec n (i + k)); lia. Qed.

Lemma skip_0 n i : (i < n → skip n i 0 = i)%nat.
Proof. unfold skip. destruct (Nat.leb_spec n (i + 0)); lia. Qed.

Lemma skip_bump n i k : (i < n → k < n → skip n (bump n i) k = skip n i (S k))%nat.
Proof.
  unfold skip, bump. destruct (Nat.eqb_spec (S i) n); [subst n|];
    repeat match goal with |- context [(?a <=? ?b)%nat] => destruct (Nat.leb_spec a b) end; lia.
Qed.

Lemma bump_skip n i k : (i < n → k < n → bump n (skip n i k) = skip n i (S k))%nat.
Proof.
  unfold skip, bump. intros Hi Hk.
  destruct (Nat.leb_spec n (i + k)), (Nat.leb_spec n (i + S k));
    match goal with |- context [(?a =? ?b)%nat] => destruct (Nat.eqb_spec a b) end; lia.
Qed.

Lemma read_index_bound s : inv s → (read_index s < size s)%nat.
Proof.
  intros I. unfold read_index. pose proof (inv_dropped s I) as Hd. destruct I.
  destruct (s.(consumer)); try done; [by apply bump_bound|]. apply skip_bound; [done|by apply Hd].
Qed.

(** The slots of the queue are read off one by one. *)
Lemma slots_eq l i k q :
  length q = k → (∀ j, (j < k)%nat → l !! skip (length l) i j = q !! j) → slots l i k = q.
Proof.
  unfold slots. revert q. induction k as [|k IH]; intros q Hl Hq; [by destruct q|].
  rewrite seq_S, omap_app. simpl. destruct q as [|x q _] using rev_ind; [done|].
  rewrite length_app in Hl. simpl in Hl. rewrite (Hq k), lookup_app_r by lia.
  replace (k - length q)%nat with 0%nat by lia. simpl. f_equal. apply IH; [lia|].
  intros j Hj. rewrite Hq by lia. by rewrite lookup_app_l by lia.
Qed.

(** ** Preservation *)

(** The slot the producer writes is not one of the queue. *)
Lemma write_slot_free s i :
  inv s → (s.(num_elements_) < size s)%nat → write_index s = s.(next_write_index_) →
  (i < s.(num_elements_))%nat → skip (size s) (read_index s) i ≠ s.(next_write_index_).
Proof.
  intros I Hn Ew Hi E. pose proof (read_index_bound s I) as Hr. destruct I as [_ _ _ _ _ Hix _ _ _ _].
  rewrite <- Ew, Hix in E. apply skip_inj in E; lia.
Qed.

Lemma insert_load_inv s x :
  inv s → s.(producer) = PIdle → s.(num_elements_) ≠ size s → inv (with_producer s (PSwap x)).
Proof.
  intros [Hz Hw Hrd Hn Hd Hi Hroom Hsw Hsome Hf] Hp Hnum. constructor; simpl; try done.
  - unfold write_index in *. simpl. by rewrite Hp in Hi.
  - intros ? ? _. unfold size in *. simpl. lia.
Qed.

Lemma insert_swap_inv s x y :
  inv s → s.(producer) = PSwap x → s.(queue_) !! s.(next_write_index_) = Some y →
  inv (with_producer (with_slot s s.(next_write_index_) x) (PAdd x y)).
Proof.
  intros I Hp Hy. pose proof (write_slot_free s) as Hfree.
  pose proof I as [Hz Hw Hrd Hn Hd Hi Hroom Hsw Hsome (q & Hq & Hlq & Hel)].
  assert (s.(num_elements_) < size s)%nat as Hlt by (apply (Hroom x y); auto).
  assert (write_index s = s.(next_write_index_)) as Ew by (unfold write_index; by rewrite Hp).
  set (s' := with_producer _ _).
  assert (size s' = size s) as Es by (unfold size; simpl; apply length_insert).
  assert (read_index s' = read_index s) as Er by (unfold read_index; by rewrite Es).
  constructor; rewrite ?Es, ?Er; simpl; try done.
  - by rewrite <- Hi, Ew.
  - intros ? ? [= <- <-]. by apply list_lookup_insert_eq.
  - exists q. split_and!; try done. intros i Hi'. rewrite <- Hel by done. unfold element. rewrite Es, Er.
    simpl. rewrite list_lookup_insert_ne; [done|]. intros E. by apply (Hfree i).
Qed.

Lemma insert_add_inv s x y :
  inv s → s.(producer) = PAdd x y →
  inv (mkState s.(queue_) s.(next_write_index_) s.(next_read_index_) (S s.(num_elements_)) (PNext y)
         s.(consumer) (s.(pushed) ++ [x]) s.(taken)).
Proof.
  intros I Hp. pose proof (read_index_bound s I) as Hrb.
  pose proof I as [Hz Hw Hrd Hn Hd Hi Hroom Hsw Hsome (q & Hq & Hlq & Hel)].
  assert (s.(num_elements_) < size s)%nat as Hlt by (apply (Hroom x y); auto).
  assert (write_index s = s.(next_write_index_)) as Ew by (unfold write_index; by rewrite Hp).
  rewrite Ew in Hi. set (s' := mkState _ _ _ _ _ _ _ _).
  change (size s) with (size s') in *. change (read_index s) with (read_index s') in *.
  constructor; simpl; try done; try (intros ? ? []; done).
  - unfold write_index. simpl. rewrite Hi. by apply bump_skip.
  - intros _ _. lia.
  - exists (q ++ [x]). rewrite Hq, app_assoc, length_app. split_and!; [done|simpl; lia|].
    intros i Hi'. destruct (decide (i = s.(num_elements_))) as [->|Hne].
    + rewrite lookup_app_r, Hlq, Nat.sub_diag by lia. simpl. unfold element. simpl.
      rewrite <- Hi, (Hsw x y Hp). destruct (s.(consumer)) eqn:Ec; try done.
      pose proof (Hsome output (or_intror eq_refl)). destruct (s.(num_elements_)); [lia|done].
    + rewrite lookup_app_l by lia. apply Hel. lia.
Qed.

Lemma insert_next_inv s y :
  inv s → s.(producer) = PNext y →
  inv (mkState s.(queue_) (bump (size s) s.(next_write_index_)) s.(next_read_index_) s.(num_elements_) PIdle
         s.(consumer) s.(pushed) s.(taken)).
Proof.
  intros [Hz Hw Hrd Hn Hd Hi Hroom Hsw Hsome Hf] Hp. constructor; simpl; try done; try (intros ? ? []; done).
  - by apply bump_bound.
  - unfold write_index in *. by rewrite Hp in Hi.
Qed.

Lemma insert_step_inv s s' : inv s → insert_step s s' → inv s'.
Proof.
  intros I St. inversion St; subst; try done; eauto using insert_load_inv, insert_swap_inv, insert_add_inv,
    insert_next_inv.
Qed.

Lemma remove_load_inv s y :
  inv s → s.(consumer) = CIdle → s.(num_elements_) ≠ 0%nat → inv (with_consumer s (CSwap y)).
Proof.
  intros [Hz Hw Hrd Hn Hd Hi Hroom Hsw Hsome Hf] Hc Hnum. constructor; simpl; try done.
  - unfold read_index in *. simpl. by rewrite Hc in Hi.
  - lia.
  - unfold element, read_index in *. simpl. by rewrite Hc in Hf.
Qed.

Lemma remove_swap_inv s y x :
  inv s → s.(consumer) = CSwap y → s.(queue_) !! s.(next_read_index_) = Some x →
  inv (with_consumer (with_slot s s.(next_read_index_) y) (CSub x)).
Proof.
  intros I Hc Hx. pose proof I as [Hz Hw Hrd Hn Hd Hi Hroom Hsw Hsome (q & Hq & Hlq & Hel)].
  assert (0 < s.(num_elements_))%nat as Hpos by (apply (Hsome y); auto).
  assert (read_index s = s.(next_read_index_)) as Er by (unfold read_index; by rewrite Hc).
  set (s' := with_consumer _ _).
  assert (size s' = size s) as Es by (unfold size; simpl; apply length_insert).
  assert (write_index s' = write_index s) as Ew by (unfold write_index; by rewrite Es).
  rewrite Er in Hi. constructor; rewrite ?Es, ?Ew; simpl; try done.
  - intros v w Hp. rewrite list_lookup_insert_ne; [by apply (Hsw v w)|].
    pose proof (Hroom v w (or_intror Hp)) as Hlt. unfold write_index in Hi. rewrite Hp in Hi.
    intros E. rewrite <- E in Hi. rewrite <- (skip_0 (size s) s.(next_read_index_)) in Hi at 1 by done.
    apply skip_inj in Hi; lia.
  - exists q. split_and!; try done. intros i Hi'. rewrite <- Hel by done.
    unfold element. rewrite Es, Er, Hc. simpl. destruct i as [|i]; [by rewrite skip_0|].
    unfold read_index. simpl. rewrite list_lookup_insert_ne; [done|].
    intros E. rewrite <- (skip_0 (size s) s.(next_read_index_)) in E at 1 by done. apply skip_inj in E; lia.
Qed.

Lemma remove_sub_inv s x :
  inv s → s.(consumer) = CSub x →
  inv (mkState s.(queue_) s.(next_write_index_) s.(next_read_index_) (pred s.(num_elements_)) s.(producer)
         (CNext x) s.(pushed) (s.(taken) ++ [x])).
Proof.
  intros I Hc. pose proof I as [Hz Hw Hrd Hn Hd Hi Hroom Hsw Hsome (q & Hq & Hlq & Hel)].
  assert (0 < s.(num_elements_))%nat as Hpos by (apply (Hsome x); auto).
  assert (read_index s = s.(next_read_index_)) as Er by (unfold read_index; by rewrite Hc).
  rewrite Er in Hi. set (s' := mkState _ _ _ _ _ _ _ _).
  change (size s) with (size s') in *. change (write_index s) with (write_index s') in *.
  assert (∀ k, (k < size s')%nat → skip (size s') (read_index s') k = skip (size s') s.(next_read_index_) (S k))
    as Hskip by (intros k Hk; by apply skip_bump).
  constructor; simpl; try done; try lia.
  - rewrite Hi, Hskip by lia. f_equal. lia.
  - by intros ? [].
  - pose proof (Hel 0%nat Hpos) as H0. unfold element in H0. rewrite Hc in H0.
    destruct q as [|x' q]; [done|]. injection H0 as <-. exists q. rewrite Hq, <- app_assoc. simpl in *.
    split_and!; [done|lia|]. intros i Hi'. change (q !! i) with ((x :: q) !! S i). rewrite <- Hel by lia.
    unfold element. rewrite Hc. simpl. by rewrite Hskip, Er by lia.
Qed.

Lemma remove_next_inv s x :
  inv s → s.(consumer) = CNext x →
  inv (mkState s.(queue_) s.(next_write_index_) (bump (size s) s.(next_read_index_)) s.(num_elements_)
         s.(producer) CIdle s.(pushed) s.(taken)).
Proof.
  intros [Hz Hw Hrd Hn Hd Hi Hroom Hsw Hsome Hf] Hc. constructor; simpl; try done; try (by intros ? []).
  - by apply bump_bound.
  - unfold read_index in *. by rewrite Hc in Hi.
  - unfold element, read_index in *. by rewrite Hc in Hf.
Qed.

Lemma remove_step_inv s s' : inv s → remove_step s s' → inv s'.
Proof.
  intros I St. inversion St; subst; try done; eauto using remove_load_inv, remove_swap_inv, remove_sub_inv,
    remove_next_inv.
Qed.

Lemma clear_step_inv s s' : inv s → clear_step s s' → inv s'.
Proof.
  intros I St. pose proof I as [Hz Hw Hrd Hn Hd Hi Hroom Hsw Hsome (q & Hq & Hlq & Hel)].
  inversion St as [? Hc|? n Hc]; subst; constructor; simpl; try done; try lia; try (by intros ? []).
  - intros k [= <-]. done.
  - unfold read_index in *. simpl in *. rewrite Hc in Hi. change (size _) with (size s). rewrite skip_0; [done|].
    by apply skip_bound.
  - exists []. rewrite app_nil_r. split_and!; [|done|lia]. rewrite Hq. f_equal. symmetry. apply slots_eq; [done|].
    intros j Hj. rewrite <- Hel by done. unfold element, read_index. by rewrite Hc.
  - apply skip_bound; [done|by apply Hd].
  - unfold read_index in *. by rewrite Hc in Hi.
  - exists q. split_and!; try done. unfold element, read_index in *. by rewrite Hc in Hel.
Qed.

Lemma step_inv s s' : inv s → step s s' → inv s'.
Proof. intros I []; eauto using insert_step_inv, remove_step_inv, clear_step_inv. Qed.

Lemma make_inv n prototype : (0 < n)%nat → inv (make n prototype).
Proof.
  intros Hn. assert (size (make n prototype) = n) as Es by apply length_replicate.
  constructor; rewrite ?Es; simpl; try done; try lia; try (by intros ? []); try (by intros ? ? []).
  - unfold write_index, read_index. rewrite Es. simpl. by rewrite skip_0.
  - exists []. split_and!; [done|done|lia].
Qed.

Lemma reachable_inv n prototype s : (0 < n)%nat → rtc step (make n prototype) s → inv s.
Proof.
  intros Hn St. apply rtc_ind_r with (P := inv) in St; [done|by apply make_inv|]. intros; by eapply step_inv.
Qed.

Lemma reachable_size n prototype s : rtc step (make n prototype) s → size s = n.
Proof.
  intros St. apply rtc_ind_r with (P := λ s, size s = n) in St; [done|apply length_replicate|].
  intros ? ? _ [S|S|S] <-; inversion S; subst; try done; apply length_insert.
Qed.

(** ** The verifier *)

(** The items in the slots and in the hands of the two threads. *)
Definition items (s : state) : list T :=
  s.(queue_) ++
  match s.(producer) with PIdle => [] | PSwap x | PAdd _ x | PNext x => [x] end ++
  match s.(consumer) with CSwap x | CSub x | CNext x => [x] | _ => [] end.

Definition verified (s : state) : Prop := Forall (λ x, queue_item_verifier_ x = true) (items s).

Lemma step_verified s s' : verified s → step s s' → verified s'.
Proof.
  unfold verified, items. intros V [St|St|St]; inversion St; subst; cbn -[insert];
    repeat match goal with
    | H : producer s = _ |- _ => rewrite H in V
    | H : consumer s = _ |- _ => rewrite H in V
    end; rewrite !Forall_app in V; destruct V as (Vq & Vp & Vc);
    repeat match goal with
    | H : queue_ s !! _ = Some _ |- _ => apply (Forall_lookup_1 _ _ _ _ Vq) in H
    end;
    rewrite ?Forall_cons, ?Forall_app, ?Forall_cons, ?Forall_nil in *; split_and!; try tauto;
    apply Forall_insert; tauto.
Qed.

(** ** Theorems *)

(** The slot a thread is about to use, or has used and not yet published. *)
Definition producer_slot (s : state) : option nat :=
  match s.(producer) with PSwap _ | PAdd _ _ => Some s.(next_write_index_) | _ => None end.
Definition consumer_slot (s : state) : option nat :=
  match s.(consumer) with CSwap _ | CSub _ => Some s.(next_read_index_) | _ => None end.

Lemma slots_disjoint s i j :
  inv s → producer_slot s = Some i → consumer_slot s = Some j → i ≠ j.
Proof.
  intros [Hz Hw Hrd Hn Hd Hi Hroom Hsw Hsome _] Hp Hc E.
  unfold producer_slot, consumer_slot, write_index, read_index in *.
  assert (0 < s.(num_elements_))%nat by (destruct (s.(consumer)); try done; eapply Hsome; auto).
  assert (s.(num_elements_) < size s)%nat
    by (destruct (s.(producer)) as [|x|x y|]; try done; [apply (Hroom x x)|apply (Hroom x y)]; auto).
  assert (s.(next_write_index_) = s.(next_read_index_)) as E'
    by (destruct (s.(producer)), (s.(consumer)); congruence).
  assert (skip (size s) s.(next_read_index_) 0 = skip (size s) s.(next_read_index_) s.(num_elements_)) as Es
    by (rewrite skip_0 by done; destruct (s.(producer)), (s.(consumer)); congruence).
  apply skip_inj in Es; lia.
Qed.

(** The producer's steps do not lower the count. *)
Lemma insert_steps_count s s' : rtc insert_step s s' → (s.(num_elements_) <= s'.(num_elements_))%nat.
Proof. induction 1 as [|? ? ? St]; [done|]. inversion St; subst; simpl in *; lia. Qed.

(** A call in progress always has its next step. *)
Lemma calls_progress s :
  inv s → (s.(producer) ≠ PIdle → ∃ s', insert_step s s') ∧
  (s.(consumer) ≠ CIdle → ∃ s', remove_step s s' ∨ clear_step s s').
Proof.
  intros [Hz Hw Hrd _ _ _ _ _ _ _]. apply lookup_lt_is_Some_2 in Hw as [y Hy], Hrd as [z Hz'].
  split; intros Hidle.
  - destruct (s.(producer)) eqn:E; [done|eexists; by eapply insert_swap|eexists; by eapply insert_add|].
    eexists. by eapply insert_next.
  - destruct (s.(consumer)) eqn:E; [done|..]; eexists;
      [left; by eapply remove_swap|left; by eapply remove_sub|left; by eapply remove_next|].
    right. by eapply clear_next.
Qed.

End Code.

Section Correctness.
Context {T : Type} (queue_item_verifier_ : T → bool).
Notation step := (step queue_item_verifier_).

(** C12: However the producer's Insert and the consumer's Remove and Clear
    interleave, access by access, the queue is first-in first-out: what was
    pushed is what was removed or dropped by Clear followed by as many
    elements as the count says, those elements are the slots from the read
    index on when the consumer is idle, the one a Remove holds is the next in
    line, and the indices and the count stay within the size. *)
Theorem swap_queue_fifo (n : nat) (prototype : T) s :
  (0 < n)%nat → rtc step (make n prototype) s →
  (s.(next_write_index_) < n)%nat ∧ (s.(next_read_index_) < n)%nat ∧ (SizeAtLeast s <= n)%nat ∧
  (∃ q, s.(pushed) = s.(taken) ++ q ∧ length q = SizeAtLeast s) ∧
  (s.(consumer) = CIdle →
     s.(pushed) = s.(taken) ++ slots s.(queue_) s.(next_read_index_) (SizeAtLeast s)) ∧
  (∀ x, s.(consumer) = CSub x → ∃ q, s.(pushed) = s.(taken) ++ x :: q).
Proof.
  intros Hn St. pose proof (reachable_inv _ _ _ _ Hn St) as I. pose proof (reachable_size _ _ _ _ St) as Es.
  rewrite <- Es. destruct I as [Hz Hw Hrd Hnum Hd Hi Hroom Hsw Hsome (q & Hq & Hlq & Hel)].
  split_and!; try done; [by exists q|..].
  - intros Hc. rewrite Hq. f_equal. symmetry. apply slots_eq; [done|]. intros j Hj. rewrite <- Hel by done.
    unfold element, read_index. by rewrite Hc.
  - intros x Hc. assert (0 < s.(num_elements_))%nat as Hpos by (eapply Hsome; eauto).
    specialize (Hel 0%nat Hpos). unfold element in Hel. rewrite Hc in Hel. destruct q as [|y q]; [done|].
    injection Hel as <-. by exists q.
Qed.

(** C16: The two threads of a SwapQueue never hold the same slot, a call in
    progress can always take its next step, SizeAtLeast is a lower bound
    whatever the producer does next, and if the prototype and every item
    handed in pass the verifier so do all slots and all items handed out. *)
Theorem swap_queue_threads_do_not_race (n : nat) (prototype : T) s :
  (0 < n)%nat → queue_item_verifier_ prototype = true → rtc step (make n prototype) s →
  (∀ i j, producer_slot s = Some i → consumer_slot s = Some j → i ≠ j) ∧
  (s.(producer) ≠ PIdle → ∃ s', insert_step queue_item_verifier_ s s') ∧
  (s.(consumer) ≠ CIdle → ∃ s', remove_step queue_item_verifier_ s s' ∨ clear_step s s') ∧
  (∀ s', rtc (insert_step queue_item_verifier_) s s' → (SizeAtLeast s <= SizeAtLeast s')%nat) ∧
  VerifyQueueSlots queue_item_verifier_ s = true ∧
  Forall (λ x, queue_item_verifier_ x = true) (items s).
Proof.
  intros Hn Hv St. pose proof (reachable_inv _ _ _ _ Hn St) as I.
  pose proof (calls_progress queue_item_verifier_ s I) as [Hp Hc].
  assert (verified queue_item_verifier_ s) as V.
  { revert St. apply rtc_ind_r; [|intros; by eapply step_verified]. unfold verified, items. simpl.
    rewrite app_nil_r. by apply Forall_replicate. }
  split_and!; eauto using insert_steps_count.
  - intros i j. by apply slots_disjoint.
  - unfold VerifyQueueSlots. apply forallb_forall. apply Forall_app in V as [V _].
    rewrite Forall_forall in V. intros x Hx. apply V. by apply list_elem_of_In.
Qed.

End Correctness.

(** Two items through a queue of two, the second while the first is taken. *)
Definition nonzero (x : nat) : bool := negb (x =? 0)%nat.
Definition meeting : state :=
  mkState [9; 7]%nat 1 0 1 (PAdd 7 9)%nat (CSub 5)%nat [5]%nat [].

Lemma meeting_reached : rtc (step nonzero) (make 2 9%nat) meeting.
Proof.
  eapply rtc_l; [apply step_insert, (insert_load _ _ 5%nat); try done; simpl; lia|]. simpl.
  eapply rtc_l; [apply step_insert; by eapply insert_swap|]. simpl.
  eapply rtc_l; [apply step_insert; by eapply insert_add|]. simpl.
  eapply rtc_l; [apply step_insert; by eapply insert_next|]. simpl.
  eapply rtc_l; [apply step_remove, (remove_load _ _ 9%nat); try done; simpl; lia|]. simpl.
  eapply rtc_l; [apply step_insert, (insert_load _ _ 7%nat); try done; unfold size; simpl; lia|]. simpl.
  eapply rtc_l; [apply step_remove; by eapply remove_swap|]. simpl.
  eapply rtc_l; [apply step_insert; by eapply insert_swap|]. done.
Qed.

Lemma swap_queue_fifo_witness : ∃ q, meeting.(pushed) = meeting.(taken) ++ 5%nat :: q.
Proof. apply (swap_queue_fifo nonzero 2 9%nat meeting); [lia|apply meeting_reached|done]. Defined.

Lemma swap_queue_threads_do_not_race_witness :
  producer_slot meeting = Some 1%nat ∧ consumer_slot meeting = Some 0%nat ∧
  VerifyQueueSlots nonzero meeting = true.
Proof.
  split_and!; [done|done|].
  apply (swap_queue_threads_do_not_race nonzero 2 9%nat meeting); [lia|done|apply meeting_reached].
Defined.

End SwapQueue.
