(* ===== verification/Sigslot.v ===== *)
(** * Signals and slots

    [rtc_base/third_party/sigslot/sigslot.h], through which libwebrtc's objects
    notify each other. A signal keeps the list of its connections and an
    iterator for the emission in progress; an object with slots keeps the set of
    signals that may call it, so that either side can go first. Objects live in
    a store, and reaching one that is gone is undefined; a node of a std::list
    is known by a number that is never used again. The lock of the default
    policy does nothing.

    An emission is a frame on a stack: between two turns of its loop the slot
    that was called may do anything, so a run is a list of events in which
    [Next] is the return of the innermost slot. *)

From stdpp Require Import base list gmap.
From Stdlib Require Import Lia.
From S2P Require Import Prelude.

Module Sig.

Notation signal_id := nat (only parsing).
Notation slots_id := nat (only parsing).

(** _opaque_connection: the object, its method, and the list node it is in. *)
Record connection := Conn { node : nat; pdest : slots_id; pmethod : nat }.

#[global] Instance connection_eq_dec : EqDecision connection.
Proof. solve_decision. Defined.

(** _signal_base; [None] is [m_connected_slots.end()]. *)
Record signal := mkSignal { m_connected_slots : list connection; m_current_iterator : option nat }.

(** An emission: its signal, the nodes there were when it began, and those it
    has called. *)
Record frame := Frame { fires : signal_id; began_with : list nat; called : list nat }.

Record world := mkWorld
  { signals : gmap signal_id signal;
    m_senders : gmap slots_id (gset signal_id);
    next_node : nat;
    frames : list frame }.

Definition start : world := mkWorld ∅ ∅ 0 [].

Definition set_signals (f : gmap signal_id signal → gmap signal_id signal) (w : world) : world :=
  mkWorld (f w.(signals)) w.(m_senders) w.(next_node) w.(frames).
Definition set_senders (f : gmap slots_id (gset signal_id) → gmap slots_id (gset signal_id)) (w : world) : world :=
  mkWorld w.(signals) (f w.(m_senders)) w.(next_node) w.(frames).
Definition set_frames (f : list frame → list frame) (w : world) : world :=
  mkWorld w.(signals) w.(m_senders) w.(next_node) (f w.(frames)).

(** Dereferencing a pointer to a signal, and to an object with slots. *)
Definition get_signal (s : signal_id) (w : world) : outcome signal :=
  match w.(signals) !! s with Some sg => Ret sg | None => Undef UseAfterFree end.
Definition get_senders (o : slots_id) (w : world) : outcome (gset signal_id) :=
  match w.(m_senders) !! o with Some ss => Ret ss | None => Undef UseAfterFree end.
Definition put_signal (s : signal_id) (sg : signal) : world → world := set_signals <[s := sg]>.
Definition put_senders (o : slots_id) (ss : gset signal_id) : world → world := set_senders <[o := ss]>.

(** [push_back] of a connection in a new node. *)
Definition push_back (s : signal_id) (o : slots_id) (method : nat) (w : world) : outcome world :=
  sg ← get_signal s w;
  let c := Conn w.(next_node) o method in
  Ret (mkWorld (<[s := mkSignal (sg.(m_connected_slots) ++ [c]) sg.(m_current_iterator)]> w.(signals))
         w.(m_senders) (S w.(next_node)) w.(frames)).

(** ** has_slots *)
Definition do_signal_connect (o : slots_id) (sender : signal_id) (w : world) : outcome world :=
  ss ← get_senders o w; Ret (put_senders o ({[sender]} ∪ ss) w).

Definition do_signal_disconnect (o : slots_id) (sender : signal_id) (w : world) : outcome world :=
  ss ← get_senders o w; Ret (put_senders o (ss ∖ {[sender]}) w).

(** ** _signal_base *)

(** The node after [n], or the end. *)
Definition first_node (l : list connection) : option nat := node <$> head l.

(** The loop of do_slot_disconnect: every connection to [pslot] is erased, and
    the iterator of the emission is moved past each one it stands at. *)
Fixpoint erase_slot (pslot : slots_id) (l : list connection) (it : option nat) : list connection * option nat :=
  match l with
  | [] => ([], it)
  | c :: l' =>
      if decide (c.(pdest) = pslot)
      then erase_slot pslot l' (if decide (it = Some c.(node)) then first_node l' else it)
      else let '(l'', it') := erase_slot pslot l' it in (c :: l'', it')
  end.

Definition do_slot_disconnect (s : signal_id) (pslot : slots_id) (w : world) : outcome world :=
  sg ← get_signal s w;
  let '(l, it) := erase_slot pslot sg.(m_connected_slots) sg.(m_current_iterator) in
  Ret (put_signal s (mkSignal l it) w).

(** The loop of do_slot_duplicate, which also comes to the connections it has
    pushed back; those are to the new object. *)
Fixpoint duplicate_loop (fuel : nat) (s : signal_id) (oldtarget newtarget : slots_id) (i : nat) (w : world)
    : outcome world :=
  match fuel with
  | O => Ret w
  | S f =>
      sg ← get_signal s w;
      match sg.(m_connected_slots) !! i with
      | None => Ret w
      | Some c =>
          w ← (if decide (c.(pdest) = oldtarget) then push_back s newtarget c.(pmethod) w else Ret w);
          duplicate_loop f s oldtarget newtarget (S i) w
      end
  end.

Definition do_slot_duplicate (s : signal_id) (oldtarget newtarget : slots_id) (w : world) : outcome world :=
  sg ← get_signal s w;
  duplicate_loop (S (2 * length sg.(m_connected_slots))) s oldtarget newtarget 0 w.

Definition is_empty (s : signal_id) (w : world) : outcome bool :=
  sg ← get_signal s w; Ret (bool_decide (sg.(m_connected_slots) = [])).

Definition connected (s : signal_id) (pclass : slots_id) (w : world) : outcome bool :=
  sg ← get_signal s w; Ret (existsb (λ c, bool_decide (c.(pdest) = pclass)) sg.(m_connected_slots)).

(** disconnect: the first connection to the object. *)
Fixpoint erase_first (pclass : slots_id) (l : list connection) (it : option nat)
    : option (list connection * option nat) :=
  match l with
  | [] => None
  | c :: l' =>
      if decide (c.(pdest) = pclass)
      then Some (l', if decide (it = Some c.(node)) then first_node l' else it)
      else '(l'', it') ← erase_first pclass l' it; Some (c :: l'', it')
  end.

Definition disconnect (s : signal_id) (pclass : slots_id) (w : world) : outcome world :=
  sg ← get_signal s w;
  match erase_first pclass sg.(m_connected_slots) sg.(m_current_iterator) with
  | None => Ret w
  | Some (l, it) => do_signal_disconnect pclass s (put_signal s (mkSignal l it) w)
  end.

(** The loop of disconnect_all pops the front and tells its object. *)
Fixpoint pop_all (s : signal_id) (l : list connection) (w : world) : outcome world :=
  match l with
  | [] => Ret w
  | c :: l' => w ← do_signal_disconnect c.(pdest) s w; pop_all s l' w
  end.

Definition disconnect_all (s : signal_id) (w : world) : outcome world :=
  sg ← get_signal s w;
  w ← pop_all s sg.(m_connected_slots) w;
  Ret (put_signal s (mkSignal [] None) w).

(** ** Construction and destruction *)
Definition new_signal (s : signal_id) (w : world) : world := put_signal s (mkSignal [] None) w.

Fixpoint copy_connections (s : signal_id) (l : list connection) (w : world) : outcome world :=
  match l with
  | [] => Ret w
  | c :: l' =>
      w ← do_signal_connect c.(pdest) s w; w ← push_back s c.(pdest) c.(pmethod) w; copy_connections s l' w
  end.

Definition copy_signal (from s : signal_id) (w : world) : outcome world :=
  sg ← get_signal from w; copy_connections s sg.(m_connected_slots) (new_signal s w).

Definition delete_signal (s : signal_id) (w : world) : outcome world :=
  w ← disconnect_all s w; Ret (set_signals (delete s) w).

Definition new_slots (o : slots_id) (w : world) : world := put_senders o ∅ w.

Fixpoint duplicate_all (from o : slots_id) (senders : list signal_id) (w : world) : outcome world :=
  match senders with
  | [] => Ret w
  | s :: ss =>
      w ← do_slot_duplicate s from o w; w ← do_signal_connect o s w; duplicate_all from o ss w
  end.

(** The order of a set of pointers is that of their addresses; here it is that
    of [elements]. *)
Definition copy_slots (from o : slots_id) (w : world) : outcome world :=
  ss ← get_senders from w; duplicate_all from o (elements ss) (new_slots o w).

Fixpoint slot_disconnect_each (o : slots_id) (senders : list signal_id) (w : world) : outcome world :=
  match senders with
  | [] => Ret w
  | s :: ss => w ← do_slot_disconnect s o w; slot_disconnect_each o ss w
  end.

(** do_disconnect_all: the set is swapped out and its signals told, until it
    is empty. *)
Fixpoint do_disconnect_all (fuel : nat) (o : slots_id) (w : world) : outcome world :=
  match fuel with
  | O => Ret w
  | S f =>
      senders ← get_senders o w;
      if decide (senders = ∅) then Ret w
      else w ← slot_disconnect_each o (elements senders) (put_senders o ∅ w); do_disconnect_all f o w
  end.

Definition delete_slots (o : slots_id) (w : world) : outcome world :=
  w ← do_disconnect_all 2 o w; Ret (set_senders (delete o) w).

(** ** signal_with_thread_policy *)
Definition connect (s : signal_id) (pclass : slots_id) (pmemfun : nat) (w : world) : outcome world :=
  w ← push_back s pclass pmemfun w; do_signal_connect pclass s w.

(** emit, up to its loop. *)
Definition emit (s : signal_id) (w : world) : outcome world :=
  sg ← get_signal s w;
  Ret (set_frames (cons (Frame s (node <$> sg.(m_connected_slots)) []))
         (put_signal s (mkSignal sg.(m_connected_slots) (first_node sg.(m_connected_slots))) w)).

(** What follows the node [n], with the connection in it. *)
Fixpoint at_node (n : nat) (l : list connection) : option (connection * list connection) :=
  match l with
  | [] => None
  | c :: l' => if decide (c.(node) = n) then Some (c, l') else at_node n l'
  end.

(** A turn of the loop: leave it, or move on and call the slot, which needs its
    object. *)
Definition turn (w : world) : outcome world :=
  match w.(frames) with
  | [] => Ret w
  | f :: fs =>
      sg ← get_signal f.(fires) w;
      match sg.(m_current_iterator) with
      | None => Ret (set_frames (λ _, fs) w)
      | Some n =>
          match at_node n sg.(m_connected_slots) with
          | None => Undef UseAfterFree
          | Some (conn, rest) =>
              _ ← get_senders conn.(pdest) w;
              Ret (set_frames (λ _, Frame f.(fires) f.(began_with) (f.(called) ++ [n]) :: fs)
                     (put_signal f.(fires) (mkSignal sg.(m_connected_slots) (first_node rest)) w))
          end
      end
  end.

(** ** Runs *)
Inductive event :=
  | NewSignal (s : signal_id) | CopySignal (from s : signal_id) | DeleteSignal (s : signal_id)
  | NewSlots (o : slots_id) | CopySlots (from o : slots_id) | DeleteSlots (o : slots_id)
  | Connect (s : signal_id) (o : slots_id) (method : nat)
  | Disconnect (s : signal_id) (o : slots_id)
  | DisconnectAll (s : signal_id)
  | Emit (s : signal_id)
  | Next.

Definition perform (e : event) (w : world) : outcome world :=
  match e with
  | NewSignal s => Ret (new_signal s w)
  | CopySignal from s => copy_signal from s w
  | DeleteSignal s => delete_signal s w
  | NewSlots o => Ret (new_slots o w)
  | CopySlots from o => copy_slots from o w
  | DeleteSlots o => delete_slots o w
  | Connect s o method => connect s o method w
  | Disconnect s o => disconnect s o w
  | DisconnectAll s => disconnect_all s w
  | Emit s => emit s w
  | Next => turn w
  end.

Fixpoint perform_all (es : list event) (w : world) : outcome world :=
  match es with [] => Ret w | e :: es' => w ← perform e w; perform_all es' w end.

(** What a program may do: use objects that exist, not delete or fire a signal
    that is firing, and not disconnect an object that is connected twice. *)
Definition connections_to (o : slots_id) (l : list connection) : list connection :=
  filter (λ c, c.(pdest) = o) l.

Definition allowed (e : event) (w : world) : Prop :=
  match e with
  | NewSignal s => w.(signals) !! s = None
  | CopySignal from s => is_Some (w.(signals) !! from) ∧ w.(signals) !! s = None
  | DeleteSignal s | Emit s => is_Some (w.(signals) !! s) ∧ s ∉ fires <$> w.(frames)
  | NewSlots o => w.(m_senders) !! o = None
  | CopySlots from o => is_Some (w.(m_senders) !! from) ∧ w.(m_senders) !! o = None
  | DeleteSlots o => is_Some (w.(m_senders) !! o)
  | Connect s o _ => is_Some (w.(signals) !! s) ∧ is_Some (w.(m_senders) !! o)
  | Disconnect s o =>
      match w.(signals) !! s with
      | Some sg => (length (connections_to o sg.(m_connected_slots)) <= 1)%nat
      | None => False
      end
  | DisconnectAll s => is_Some (w.(signals) !! s)
  | Next => w.(frames) ≠ []
  end.

#[global] Instance allowed_dec e w : Decision (allowed e w).
Proof.
  destruct e; simpl; try (destruct (w.(signals) !! _)); try (destruct (w.(m_senders) !! _)); apply _.
Defined.

(** A run in which every event is allowed when it comes. *)
Fixpoint run (es : list event) (w : world) : option world :=
  match es with
  | [] => Some w
  | e :: es' =>
      if decide (allowed e w) then match perform e w with Ret w' => run es' w' | _ => None end else None
  end.

(** ** The invariant *)

(** Signal [s] has a connection to [o]; [o] knows of [s]. *)
Definition linked (w : world) (s : signal_id) (o : slots_id) : Prop :=
  ∃ sg, w.(signals) !! s = Some sg ∧ o ∈ pdest <$> sg.(m_connected_slots).
Definition registered (w : world) (s : signal_id) (o : slots_id) : Prop :=
  ∃ ss, w.(m_senders) !! o = Some ss ∧ s ∈ ss.

(** The iterator stands where [pend] begins. *)
Definition splits (sg : signal) (done pend : list connection) : Prop :=
  sg.(m_connected_slots) = done ++ pend ∧ sg.(m_current_iterator) = first_node pend.

Definition signal_ok (next : nat) (sg : signal) : Prop :=
  NoDup (node <$> sg.(m_connected_slots)) ∧ Forall (λ c, c.(node) < next)%nat sg.(m_connected_slots) ∧
  ∃ done pend, splits sg done pend.

(** Of the connections there were at the beginning, those before the iterator
    have been called, in order; those behind it have not. *)
Definition frame_ok (next : nat) (sg : signal) (f : frame) : Prop :=
  NoDup f.(called) ∧ Forall (λ n, n < next)%nat f.(called) ∧ Forall (λ n, n < next)%nat f.(began_with) ∧
  ∃ done pend, splits sg done pend ∧
    filter (λ n, n ∈ f.(began_with)) (node <$> done) `sublist_of` f.(called) ∧
    ∀ n, n ∈ f.(called) → n ∉ node <$> pend.

Record wf (w : world) : Prop := mkWf {
  wf_signals : ∀ s sg, w.(signals) !! s = Some sg → signal_ok w.(next_node) sg;
  wf_links : ∀ s o, linked w s o ↔ registered w s o;
  wf_frames : ∀ f, f ∈ w.(frames) → ∃ sg, w.(signals) !! f.(fires) = Some sg ∧ frame_ok w.(next_node) sg f;
  wf_distinct : NoDup (fires <$> w.(frames))
}.

(** ** Changes of one signal *)
Definition sstep (next next' : nat) (sg sg' : signal) : Prop :=
  signal_ok next sg → signal_ok next' sg' ∧ ∀ f, frame_ok next sg f → frame_ok next' sg' f.

Lemma sstep_trans n1 n2 n3 a b c : sstep n1 n2 a b → sstep n2 n3 b c → sstep n1 n3 a c.
Proof. intros H1 H2 Ha. destruct (H1 Ha) as [Hb F1], (H2 Hb) as [Hc F2]. auto. Qed.

Lemma Forall_lt_mono (next next' : nat) (l : list nat) :
  (next <= next')%nat → Forall (λ n, n < next)%nat l → Forall (λ n, n < next')%nat l.
Proof. intros Hn Hl. eapply Forall_impl; [done|]. simpl. lia. Qed.

Lemma sstep_mono next next' sg : (next <= next')%nat → sstep next next' sg sg.
Proof.
  intros Hn (Hd & Hl & Hs). split; [split; [done|split; [|done]]|].
  - eapply Forall_impl; [done|]. simpl. lia.
  - intros f (H1 & H2 & H3 & H4). split_and!; eauto using Forall_lt_mono.
Qed.

Lemma filter_mono {A} (P : A → Prop) `{∀ x, Decision (P x)} (l k : list A) :
  l `sublist_of` k → filter P l `sublist_of` filter P k.
Proof.
  induction 1 as [|x l k _ IH|x l k _ IH]; [done|..]; rewrite ?filter_cons;
    destruct (decide (P x)); try done; by constructor.
Qed.

(** Connections leave, and the iterator is moved past those that do. *)
Lemma sstep_shrink next sg sg' :
  (∀ done pend, splits sg done pend → NoDup (node <$> done ++ pend) →
     ∃ done' pend', splits sg' done' pend' ∧ done' `sublist_of` done ∧ pend' `sublist_of` pend) →
  sstep next next sg sg'.
Proof.
  intros Hs (Hd & Hl & done & pend & [E1 E2]). split.
  - rewrite E1 in Hd, Hl. destruct (Hs done pend) as (done' & pend' & [E1' E2'] & S1 & S2); [done|done|].
    assert (done' ++ pend' `sublist_of` done ++ pend) as S3 by (by apply sublist_app).
    split_and!; rewrite ?E1'; [eapply sublist_NoDup; [done|by apply fmap_sublist]| |by exists done', pend'].
    rewrite Forall_forall in *. intros c Hc. apply Hl. by eapply elem_of_sublist.
  - intros f (H1 & H2 & H3 & d & p & [F1 F2] & S & C). rewrite F1 in Hd.
    destruct (Hs d p) as (done' & pend' & [E1' E2'] & S1 & S2); [done|done|].
    split_and!; try done. exists done', pend'. split_and!; [done| |].
    + etrans; [|done]. by apply filter_mono, fmap_sublist.
    + intros n Hn Hin. apply (C n Hn). eapply elem_of_sublist; [done|]. by apply fmap_sublist.
Qed.

(** A connection in a new node joins the end: behind the iterator, unless that
    is at the end already. *)
Lemma splits_push sg c done pend :
  splits sg done pend →
  ∃ done' pend', splits (mkSignal (sg.(m_connected_slots) ++ [c]) sg.(m_current_iterator)) done' pend' ∧
    ((done' = done ∧ pend' = pend ++ [c]) ∨ (done' = done ++ [c] ∧ pend' = [])).
Proof.
  intros [E1 E2]. unfold splits. simpl. rewrite E1, E2, <- app_assoc. destruct pend as [|c' pend].
  - exists (done ++ [c]), []. rewrite app_nil_r. auto.
  - exists done, ((c' :: pend) ++ [c]). auto.
Qed.

Lemma sstep_push next sg o method :
  sstep next (S next) sg
    (mkSignal (sg.(m_connected_slots) ++ [Conn next o method]) sg.(m_current_iterator)).
Proof.
  intros (Hd & Hl & done & pend & Hs). split; [split_and!|]; simpl.
  - rewrite fmap_app. apply NoDup_app. split_and!; [done| |apply NoDup_singleton].
    intros n (c & -> & Hc)%list_elem_of_fmap E%list_elem_of_singleton.
    rewrite Forall_forall in Hl. apply Hl in Hc. simpl in *. lia.
  - apply Forall_app. split; [|repeat constructor; simpl; lia]. eapply Forall_impl; [done|]. simpl. lia.
  - destruct (splits_push _ (Conn next o method) _ _ Hs) as (d & p & ? & _). by exists d, p.
  - intros f (H1 & H2 & H3 & d & p & Hs' & S & C).
    destruct (splits_push _ (Conn next o method) _ _ Hs') as (d' & p' & Hs'' & Hcase).
    split_and!; eauto using Forall_lt_mono. exists d', p'. split; [done|].
    rewrite Forall_forall in H2, H3.
    destruct Hcase as [[-> ->]|[-> ->]]; rewrite ?fmap_app; (split; [|intros n Hn]).
    + done.
    + rewrite elem_of_app. intros [?|E%list_elem_of_singleton]; [by apply (C n)|]. apply H2 in Hn. simpl in *. lia.
    + rewrite filter_app. simpl. rewrite filter_cons_False, filter_nil, app_nil_r; [done|].
      intros Hin%H3. simpl in Hin. lia.
    + by intros ?%elem_of_nil.
Qed.

Lemma sstep_clear next sg : sstep next next sg (mkSignal [] None).
Proof.
  apply sstep_shrink. intros done pend _ _. exists [], []. split_and!; try apply sublist_nil_l. done.
Qed.

(** *** Erasing *)
Lemma erase_slot_other o l it :
  (∀ n, it = Some n → n ∉ node <$> l) → erase_slot o l it = (filter (λ c, c.(pdest) ≠ o) l, it).
Proof.
  induction l as [|c l IH]; intros Hit; simpl; [done|]. rewrite fmap_cons in Hit.
  assert (∀ n, it = Some n → n ∉ node <$> l) as Hit' by (intros n E; specialize (Hit n E); set_solver).
  rewrite filter_cons. destruct (decide (c.(pdest) = o)) as [E|E].
  - rewrite decide_False by (intros ->; by apply (Hit c.(node)); [|left]). rewrite IH by done.
    by rewrite decide_False by (intros Hn; by apply Hn).
  - rewrite IH by done. by rewrite decide_True.
Qed.

Lemma erase_slot_split o done pend :
  NoDup (node <$> done ++ pend) →
  erase_slot o (done ++ pend) (first_node pend) =
    (filter (λ c, c.(pdest) ≠ o) done ++ filter (λ c, c.(pdest) ≠ o) pend,
     first_node (filter (λ c, c.(pdest) ≠ o) pend)).
Proof.
  induction done as [|c done IH]; simpl; intros Hd.
  - induction pend as [|c pend IH]; simpl; [done|]. apply NoDup_cons in Hd as [Hc Hd].
    rewrite filter_cons. unfold first_node at 1 2. simpl. destruct (decide (c.(pdest) = o)) as [E|E].
    + rewrite decide_True by done. rewrite decide_False by (intros Hn; by apply Hn). by apply IH.
    + rewrite decide_True by done. rewrite erase_slot_other by (by intros n [= <-]). done.
  - apply NoDup_cons in Hd as [Hc Hd]. rewrite filter_cons. destruct (decide (c.(pdest) = o)) as [E|E].
    + rewrite decide_False; [rewrite decide_False by (intros Hn; by apply Hn); by apply IH|].
      destruct pend as [|c' pend]; [done|]. intros [= E']. apply Hc. rewrite <- E', fmap_app. set_solver.
    + rewrite decide_True by done. by rewrite IH.
Qed.

Lemma sstep_erase next o sg :
  sstep next next sg
    (let '(l, it) := erase_slot o sg.(m_connected_slots) sg.(m_current_iterator) in mkSignal l it).
Proof.
  apply sstep_shrink. intros done pend [E1 E2] Hd. rewrite E1, E2, erase_slot_split by done.
  eexists _, _. split; [done|]. split; apply sublist_filter.
Qed.

Lemma erase_slot_dests o l it :
  (erase_slot o l it).1 = filter (λ c, c.(pdest) ≠ o) l.
Proof.
  revert it. induction l as [|c l IH]; intros it; simpl; [done|]. rewrite filter_cons.
  destruct (decide (c.(pdest) = o)) as [E|E].
  - rewrite IH. by rewrite decide_False by (intros Hn; by apply Hn).
  - rewrite decide_True by done. specialize (IH it). destruct (erase_slot o l it). simpl in *. by rewrite IH.
Qed.

(** Where there is one connection at most, the first is all of them. *)
Lemma erase_first_single o l it :
  (length (connections_to o l) <= 1)%nat →
  erase_first o l it = if decide (o ∈ pdest <$> l) then Some (erase_slot o l it) else None.
Proof.
  unfold connections_to. revert it. induction l as [|c l IH]; intros it Hl; simpl; [done|].
  rewrite filter_cons in Hl. destruct (decide (c.(pdest) = o)) as [E|E].
  - clear IH. destruct (decide (o ∈ _)) as [_|[]]; [|apply elem_of_cons; auto]. f_equal. simpl in Hl.
    assert (∀ l it, length (filter (λ c, c.(pdest) = o) l) = 0%nat → erase_slot o l it = (l, it)) as Hnone.
    { clear. induction l as [|c l IH]; intros it H; simpl; [done|]. rewrite filter_cons in H.
      destruct (decide (c.(pdest) = o)); [done|]. by rewrite IH. }
    rewrite Hnone by lia. done.
  - rewrite IH by done. simpl. destruct (decide (o ∈ pdest <$> l)) as [Hin|Hin].
    + rewrite decide_True by (apply elem_of_cons; auto). simpl. by destruct (erase_slot o l it).
    + rewrite decide_False; [done|]. intros [?|?]%elem_of_cons; [by apply E|done].
Qed.

(** ** Changes of the world between two events *)
Record evolves (w w' : world) : Prop := mkEvolves {
  ev_frames : w'.(frames) = w.(frames);
  ev_next : (w.(next_node) <= w'.(next_node))%nat;
  ev_signals : ∀ s, option_Forall2 (sstep w.(next_node) w'.(next_node)) (w.(signals) !! s) (w'.(signals) !! s);
  ev_slots : ∀ o, is_Some (w'.(m_senders) !! o) ↔ is_Some (w.(m_senders) !! o)
}.

Lemma evolves_refl w : evolves w w.
Proof.
  constructor; [done|done| |done]. intros s. destruct (w.(signals) !! s); constructor. by apply sstep_mono.
Qed.

Lemma evolves_trans w1 w2 w3 : evolves w1 w2 → evolves w2 w3 → evolves w1 w3.
Proof.
  intros [F1 N1 S1 D1] [F2 N2 S2 D2]. constructor; [congruence|lia| |intros o; by rewrite D2].
  intros s. specialize (S1 s). specialize (S2 s). destruct S1; inversion S2; subst; constructor.
  eauto using sstep_trans.
Qed.

Lemma evolves_lookup w w' s sg :
  evolves w w' → w.(signals) !! s = Some sg →
  ∃ sg', w'.(signals) !! s = Some sg' ∧ sstep w.(next_node) w'.(next_node) sg sg'.
Proof. intros [_ _ S _] E. specialize (S s). rewrite E in S. inversion S; subst; eauto. Qed.

Lemma evolves_lookup_r w w' s sg' :
  evolves w w' → w'.(signals) !! s = Some sg' →
  ∃ sg, w.(signals) !! s = Some sg ∧ sstep w.(next_node) w'.(next_node) sg sg'.
Proof. intros [_ _ S _] E. specialize (S s). rewrite E in S. inversion S; subst; eauto. Qed.

Lemma evolves_alive w w' s : evolves w w' → is_Some (w'.(signals) !! s) ↔ is_Some (w.(signals) !! s).
Proof. intros [_ _ S _]. specialize (S s). destruct S; naive_solver. Qed.

Lemma evolves_wf w w' :
  evolves w w' → wf w → (∀ s o, linked w' s o ↔ registered w' s o) → wf w'.
Proof.
  intros Ev [Ws _ Wf Wd] Wl. pose proof (ev_frames _ _ Ev) as F. constructor; try done; rewrite ?F; try done.
  - intros s sg' E. destruct (evolves_lookup_r _ _ _ _ Ev E) as (sg & E' & St). by apply St, Ws with s.
  - intros f Hf. destruct (Wf f Hf) as (sg & E & Hok). destruct (evolves_lookup _ _ _ _ Ev E) as (sg' & E' & St).
    exists sg'. split; [done|]. apply St; [by apply Ws with f.(fires)|done].
Qed.

(** The links and the registrations after a change. *)
Definition moves (w w' : world) (L R : signal_id → slots_id → Prop) : Prop :=
  evolves w w' ∧ (∀ s o, linked w' s o ↔ L s o) ∧ (∀ s o, registered w' s o ↔ R s o).

Lemma put_signal_moves w s sg sg' (L : slots_id → Prop) :
  w.(signals) !! s = Some sg → sstep w.(next_node) w.(next_node) sg sg' →
  (∀ o, o ∈ pdest <$> sg'.(m_connected_slots) ↔ L o) →
  moves w (put_signal s sg' w) (λ s' o, if decide (s' = s) then L o else linked w s' o) (registered w).
Proof.
  intros E St HL. split_and!.
  - constructor; try done. intros s'. simpl. destruct (decide (s' = s)) as [->|Hne].
    + rewrite E, lookup_insert_eq. by constructor.
    + rewrite lookup_insert_ne by done. destruct (w.(signals) !! s'); constructor. by apply sstep_mono.
  - intros s' o. unfold linked. simpl. destruct (decide (s' = s)) as [->|Hne].
    + rewrite lookup_insert_eq, <- HL. split; [by intros (? & [= <-] & ?)|eauto].
    + by rewrite lookup_insert_ne.
  - done.
Qed.

Lemma push_back_moves w s o method :
  is_Some (w.(signals) !! s) →
  ∃ w', push_back s o method w = Ret w' ∧ m_senders w' = m_senders w ∧
    moves w w' (λ s' o', linked w s' o' ∨ (s' = s ∧ o' = o)) (registered w).
Proof.
  intros [sg E]. unfold push_back, get_signal. rewrite E. simpl. eexists. split; [done|]. split; [done|]. split_and!.
  - constructor; simpl; [done|lia| |done]. intros s'. destruct (decide (s' = s)) as [->|Hne].
    + rewrite E, lookup_insert_eq. constructor. apply sstep_push.
    + rewrite lookup_insert_ne by done. destruct (w.(signals) !! s'); constructor. apply sstep_mono. lia.
  - intros s' o'. unfold linked. simpl. destruct (decide (s' = s)) as [->|Hne].
    + rewrite lookup_insert_eq, E. split.
      * intros (? & [= <-] & Hin). simpl in Hin. rewrite fmap_app, elem_of_app in Hin.
        destruct Hin as [?| ->%list_elem_of_singleton]; [left; eauto|by right].
      * intros H. eexists. split; [done|]. simpl. rewrite fmap_app, elem_of_app.
        destruct H as [(? & [= <-] & ?)|[_ ->]]; [by left|right; by left].
    + rewrite lookup_insert_ne by done. naive_solver.
  - done.
Qed.

(** The registration of one object changes. *)
Lemma put_senders_moves w o ss ss' :
  w.(m_senders) !! o = Some ss →
  moves w (put_senders o ss' w) (linked w) (λ s o', if decide (o' = o) then s ∈ ss' else registered w s o').
Proof.
  intros E. split_and!.
  - constructor; simpl; try done; [intros s; destruct (w.(signals) !! s); constructor; by apply sstep_mono|].
    intros o'. destruct (decide (o' = o)) as [->|Hne]; [rewrite lookup_insert_eq, E|rewrite lookup_insert_ne by done];
      naive_solver.
  - done.
  - intros s o'. unfold registered. simpl. destruct (decide (o' = o)) as [->|Hne].
    + rewrite lookup_insert_eq. split; [by intros (? & [= <-] & ?)|eauto].
    + by rewrite lookup_insert_ne.
Qed.

Lemma do_signal_connect_moves w o s :
  is_Some (w.(m_senders) !! o) →
  ∃ w', do_signal_connect o s w = Ret w' ∧ signals w' = signals w ∧
    moves w w' (linked w) (λ s' o', registered w s' o' ∨ (s' = s ∧ o' = o)).
Proof.
  intros [ss E]. unfold do_signal_connect, get_senders. rewrite E. simpl. eexists. split; [done|]. split; [done|].
  destruct (put_senders_moves w o ss ({[s]} ∪ ss) E) as (Ev & Lk & Rg). split_and!; [done|done|].
  intros s' o'. rewrite Rg. destruct (decide (o' = o)) as [->|Hne]; [|naive_solver].
  unfold registered. rewrite E. set_solver.
Qed.

Lemma do_signal_disconnect_moves w o s :
  is_Some (w.(m_senders) !! o) →
  ∃ w', do_signal_disconnect o s w = Ret w' ∧ signals w' = signals w ∧
    moves w w' (linked w) (λ s' o', registered w s' o' ∧ ¬ (s' = s ∧ o' = o)).
Proof.
  intros [ss E]. unfold do_signal_disconnect, get_senders. rewrite E. simpl. eexists. split; [done|]. split; [done|].
  destruct (put_senders_moves w o ss (ss ∖ {[s]}) E) as (Ev & Lk & Rg). split_and!; [done|done|].
  intros s' o'. rewrite Rg. destruct (decide (o' = o)) as [->|Hne]; [|naive_solver].
  unfold registered. rewrite E. set_solver.
Qed.

Lemma do_slot_disconnect_moves w s o :
  is_Some (w.(signals) !! s) →
  ∃ w', do_slot_disconnect s o w = Ret w' ∧ m_senders w' = m_senders w ∧
    moves w w' (λ s' o', linked w s' o' ∧ ¬ (s' = s ∧ o' = o)) (registered w).
Proof.
  intros [sg E]. unfold do_slot_disconnect, get_signal. rewrite E. simpl.
  pose proof (sstep_erase w.(next_node) o sg) as St. pose proof (erase_slot_dests o sg.(m_connected_slots) sg.(m_current_iterator)) as Hd.
  destruct (erase_slot o _ _) as [l it]. simpl in Hd. eexists. split; [done|]. split; [done|].
  destruct (put_signal_moves w s sg (mkSignal l it) (λ o', o' ∈ pdest <$> sg.(m_connected_slots) ∧ o' ≠ o) E St)
    as (Ev & Lk & Rg).
  { intros o'. simpl. rewrite Hd, !list_elem_of_fmap. setoid_rewrite list_elem_of_filter. naive_solver. }
  split_and!; [done| |done]. intros s' o'. rewrite Lk. destruct (decide (s' = s)) as [->|Hne]; [|naive_solver].
  unfold linked. rewrite E. naive_solver.
Qed.

(** *** The loops *)
Lemma moves_refl w : moves w w (linked w) (registered w).
Proof. split; [apply evolves_refl|done]. Qed.

Lemma pop_all_moves s l : ∀ w,
  (∀ o, o ∈ pdest <$> l → is_Some (w.(m_senders) !! o)) →
  ∃ w', pop_all s l w = Ret w' ∧ signals w' = signals w ∧
    moves w w' (linked w) (λ s' o', registered w s' o' ∧ ¬ (s' = s ∧ o' ∈ pdest <$> l)).
Proof.
  induction l as [|c l IH]; intros w Ho; simpl.
  - exists w. split; [done|]. split; [done|]. split_and!; [apply evolves_refl|done|set_solver].
  - destruct (do_signal_disconnect_moves w c.(pdest) s) as (w1 & -> & S1 & Ev1 & L1 & R1); [set_solver|]. simpl.
    destruct (IH w1) as (w2 & -> & S2 & Ev2 & L2 & R2); [intros o Hin; apply (ev_slots _ _ Ev1); set_solver|].
    exists w2. split; [done|]. split; [congruence|]. split_and!; [by eapply evolves_trans| |].
    + intros s' o'. by rewrite L2, L1.
    + intros s' o'. rewrite R2, R1, ?fmap_cons, elem_of_cons. naive_solver.
Qed.

Lemma copy_connections_moves s l : ∀ w,
  is_Some (w.(signals) !! s) → (∀ o, o ∈ pdest <$> l → is_Some (w.(m_senders) !! o)) →
  ∃ w', copy_connections s l w = Ret w' ∧
    moves w w' (λ s' o', linked w s' o' ∨ (s' = s ∧ o' ∈ pdest <$> l))
      (λ s' o', registered w s' o' ∨ (s' = s ∧ o' ∈ pdest <$> l)).
Proof.
  induction l as [|c l IH]; intros w Hs Ho; simpl.
  - exists w. split; [done|]. split_and!; [apply evolves_refl|set_solver|set_solver].
  - destruct (do_signal_connect_moves w c.(pdest) s) as (w1 & -> & _ & Ev1 & L1 & R1); [set_solver|]. simpl.
    destruct (push_back_moves w1 s c.(pdest) c.(pmethod)) as (w2 & -> & _ & Ev2 & L2 & R2);
      [by apply (evolves_alive _ _ _ Ev1)|]. simpl.
    assert (evolves w w2) as Ev by (by eapply evolves_trans).
    destruct (IH w2) as (w3 & -> & Ev3 & L3 & R3);
      [by apply (evolves_alive _ _ _ Ev)|intros o Hin; apply (ev_slots _ _ Ev); set_solver|].
    exists w3. split; [done|]. split_and!; [by eapply evolves_trans| |]; intros s' o'.
    + rewrite L3, L2, L1, ?fmap_cons, elem_of_cons. naive_solver.
    + rewrite R3, R2, R1, ?fmap_cons, elem_of_cons. naive_solver.
Qed.

Lemma slot_disconnect_each_moves o ss : ∀ w,
  (∀ s, s ∈ ss → is_Some (w.(signals) !! s)) →
  ∃ w', slot_disconnect_each o ss w = Ret w' ∧ m_senders w' = m_senders w ∧
    moves w w' (λ s' o', linked w s' o' ∧ ¬ (o' = o ∧ s' ∈ ss)) (registered w).
Proof.
  induction ss as [|s ss IH]; intros w Hs; simpl.
  - exists w. split; [done|]. split; [done|]. split_and!; [apply evolves_refl|set_solver|done].
  - destruct (do_slot_disconnect_moves w s o) as (w1 & -> & S1 & Ev1 & L1 & R1); [apply Hs; by left|]. simpl.
    destruct (IH w1) as (w2 & -> & S2 & Ev2 & L2 & R2);
      [intros s' Hin; apply (evolves_alive _ _ _ Ev1), Hs; by right|].
    exists w2. split; [done|]. split; [congruence|]. split_and!; [by eapply evolves_trans| |]; intros s' o'.
    + rewrite L2, L1, elem_of_cons. naive_solver.
    + by rewrite R2, R1.
Qed.

(** The fuel of the duplicating loop lasts: a turn passes one connection, and
    one to the old object adds one that is not. *)
Lemma duplicate_loop_moves fuel s old new : ∀ i w sg,
  old ≠ new → w.(signals) !! s = Some sg →
  (length (drop i sg.(m_connected_slots)) + length (connections_to old (drop i sg.(m_connected_slots))) < fuel)%nat →
  ∃ w', duplicate_loop fuel s old new i w = Ret w' ∧ m_senders w' = m_senders w ∧
    moves w w' (λ s' o', linked w s' o' ∨ (s' = s ∧ o' = new ∧ old ∈ pdest <$> drop i sg.(m_connected_slots)))
      (registered w).
Proof.
  induction fuel as [|fuel IH]; intros i w sg Hne E Hf; [lia|]. simpl. unfold get_signal at 1. rewrite E. simpl.
  destruct (sg.(m_connected_slots) !! i) as [c|] eqn:Ec.
  2:{ exists w. split; [done|]. split; [done|]. apply lookup_ge_None in Ec. rewrite drop_ge by done.
      split_and!; [apply evolves_refl|set_solver|done]. }
  rewrite (drop_S _ _ _ Ec) in Hf |- *. unfold connections_to in *. rewrite filter_cons in Hf. simpl in Hf.
  destruct (decide (c.(pdest) = old)) as [Ed|Ed].
  - destruct (push_back_moves w s new c.(pmethod)) as (w1 & E1 & S1 & Ev1 & L1 & R1); [by eexists|].
    rewrite E1. simpl.
    assert (w1.(signals) !! s = Some (mkSignal (sg.(m_connected_slots) ++ [Conn w.(next_node) new c.(pmethod)])
      sg.(m_current_iterator))) as E2.
    { unfold push_back, get_signal in E1. rewrite E in E1. injection E1 as <-. apply lookup_insert_eq. }
    pose proof (lookup_lt_Some _ _ _ Ec) as Hi.
    destruct (IH (S i) w1 _ Hne E2) as (w2 & -> & S2 & Ev2 & L2 & R2); simpl in *.
    { rewrite drop_app_le, filter_app, !length_app, filter_cons_False, filter_nil by (simpl; congruence || lia).
      simpl. lia. }
    exists w2. split; [done|]. split; [congruence|]. rewrite drop_app_le in L2 by lia.
    split_and!; [by eapply evolves_trans| |intros; by rewrite R2, R1]. intros s' o'.
    rewrite L2, L1, fmap_app, elem_of_app, ?fmap_cons, elem_of_cons. set_solver.
  - simpl. destruct (IH (S i) w sg Hne E) as (w' & -> & S' & Ev' & L' & R'); [lia|].
    exists w'. split; [done|]. split; [done|]. split_and!; [done| |done]. intros s' o'.
    rewrite L', ?fmap_cons, elem_of_cons. naive_solver.
Qed.

Lemma do_slot_duplicate_moves w s old new :
  old ≠ new → is_Some (w.(signals) !! s) →
  ∃ w', do_slot_duplicate s old new w = Ret w' ∧ m_senders w' = m_senders w ∧
    moves w w' (λ s' o', linked w s' o' ∨ (s' = s ∧ o' = new ∧ linked w s old)) (registered w).
Proof.
  intros Hne [sg E]. unfold do_slot_duplicate, get_signal. rewrite E. simpl (outcome_bind _ _).
  destruct (duplicate_loop_moves (S (2 * length sg.(m_connected_slots))) s old new 0 w sg Hne E)
    as (w' & Ew & S' & Ev & L & R).
  { rewrite drop_0. pose proof (length_filter (λ c, c.(pdest) = old) sg.(m_connected_slots)).
    unfold connections_to. lia. }
  exists w'. split; [done|]. split; [done|]. split_and!; [done| |done]. intros s' o'. rewrite L, drop_0.
  unfold linked. rewrite E. naive_solver.
Qed.

Lemma duplicate_all_moves from o ss : ∀ w,
  from ≠ o → (∀ s, s ∈ ss → linked w s from) → is_Some (w.(m_senders) !! o) →
  ∃ w', duplicate_all from o ss w = Ret w' ∧
    moves w w' (λ s' o', linked w s' o' ∨ (o' = o ∧ s' ∈ ss)) (λ s' o', registered w s' o' ∨ (o' = o ∧ s' ∈ ss)).
Proof.
  induction ss as [|s ss IH]; intros w Hne Hs Ho; simpl.
  - exists w. split; [done|]. split_and!; [apply evolves_refl|set_solver|set_solver].
  - assert (linked w s from) as Hl by (apply Hs; by left).
    destruct (do_slot_duplicate_moves w s from o Hne) as (w1 & -> & _ & Ev1 & L1 & R1);
      [destruct Hl as (? & ? & _); eauto|]. simpl.
    destruct (do_signal_connect_moves w1 o s) as (w2 & -> & _ & Ev2 & L2 & R2); [by apply (ev_slots _ _ Ev1)|]. simpl.
    assert (evolves w w2) as Ev by (by eapply evolves_trans).
    destruct (IH w2 Hne) as (w3 & -> & Ev3 & L3 & R3); [|by apply (ev_slots _ _ Ev)|].
    { intros s' Hin. rewrite L2, L1. left. apply Hs. by right. }
    exists w3. split; [done|]. split_and!; [by eapply evolves_trans| |]; intros s' o'.
    + rewrite L3, L2, L1, elem_of_cons. naive_solver.
    + rewrite R3, R2, R1, elem_of_cons. naive_solver.
Qed.

(** ** Events *)
Lemma linked_alive w s o : wf w → linked w s o → is_Some (w.(signals) !! s) ∧ is_Some (w.(m_senders) !! o).
Proof. intros W Hl. pose proof Hl as (sg & ? & _). apply W in Hl as (ss & ? & _). eauto. Qed.

(** A change that treats links and registrations alike. *)
Lemma moves_wf w w' (X : signal_id → slots_id → Prop) :
  wf w → moves w w' X X → wf w'.
Proof. intros W (Ev & L & R). apply (evolves_wf w); [done|done|]. intros s o. by rewrite L, R. Qed.

Lemma new_signal_wf w s :
  wf w → w.(signals) !! s = None →
  wf (new_signal s w) ∧ (∀ s' o, linked (new_signal s w) s' o ↔ linked w s' o).
Proof.
  intros [Ws Wl Wf Wd] E.
  assert (∀ s' o, linked (new_signal s w) s' o ↔ linked w s' o) as L.
  { intros s' o. unfold linked. simpl. destruct (decide (s' = s)) as [->|Hne]; [|by rewrite lookup_insert_ne].
    rewrite lookup_insert_eq, E. split; [intros (? & [= <-] & Hin); by apply elem_of_nil in Hin|naive_solver]. }
  split; [|done]. constructor; simpl; try done.
  - intros s' sg. destruct (decide (s' = s)) as [->|Hne]; [|rewrite lookup_insert_ne by done; apply Ws].
    rewrite lookup_insert_eq. intros [= <-]. split_and!; [apply NoDup_nil_2|done|by exists [], []].
  - intros s' o. rewrite L. apply Wl.
  - intros f Hf. destruct (Wf f Hf) as (sg & E' & Hok). exists sg. rewrite lookup_insert_ne by congruence. done.
Qed.

Lemma copy_signal_wf w from s :
  wf w → is_Some (w.(signals) !! from) → w.(signals) !! s = None → ∃ w', copy_signal from s w = Ret w' ∧ wf w'.
Proof.
  intros W [sg E] Hs. destruct (new_signal_wf w s W Hs) as [W' L].
  destruct (copy_connections_moves s sg.(m_connected_slots) (new_signal s w)) as (w' & Ew & Ev & L' & R').
  - simpl. rewrite lookup_insert_eq. eauto.
  - intros o Ho. simpl. by apply (linked_alive w from o W); exists sg.
  - exists w'. unfold copy_signal, get_signal. rewrite E. split; [done|]. apply (evolves_wf (new_signal s w)); try done.
    intros s' o. rewrite L', R', (wf_links _ W' s' o). done.
Qed.

Lemma disconnect_all_moves w s :
  wf w → is_Some (w.(signals) !! s) →
  ∃ w', disconnect_all s w = Ret w' ∧
    moves w w' (λ s' o, linked w s' o ∧ s' ≠ s) (λ s' o, registered w s' o ∧ s' ≠ s).
Proof.
  intros W [sg E]. unfold disconnect_all, get_signal. rewrite E. simpl.
  destruct (pop_all_moves s sg.(m_connected_slots) w) as (w1 & -> & S1 & Ev1 & L1 & R1).
  { intros o Ho. by apply (linked_alive w s o W); exists sg. }
  simpl. eexists. split; [done|]. assert (w1.(signals) !! s = Some sg) as E1 by congruence.
  destruct (put_signal_moves w1 s sg (mkSignal [] None) (λ _, False) E1 (sstep_clear _ _)) as (Ev2 & L2 & R2);
    [simpl; set_solver|]. split_and!; [by eapply evolves_trans| |]; intros s' o.
  - rewrite L2. destruct (decide (s' = s)); rewrite ?L1; naive_solver.
  - rewrite R2, R1. rewrite <- (wf_links _ W s' o). unfold linked. naive_solver.
Qed.

Lemma delete_signal_wf w s :
  wf w → is_Some (w.(signals) !! s) → s ∉ fires <$> w.(frames) → ∃ w', delete_signal s w = Ret w' ∧ wf w'.
Proof.
  intros W Hs Hf. destruct (disconnect_all_moves w s W Hs) as (w1 & E1 & Ev & L & R).
  unfold delete_signal. rewrite E1. simpl. eexists. split; [done|].
  assert (wf w1) as [Ws Wl Wf Wd].
  { apply (evolves_wf w); [done|done|]. intros s' o. rewrite L, R, (wf_links _ W s' o). done. }
  constructor; simpl; try done.
  - intros s' sg (? & E)%lookup_delete_Some. by apply Ws with s'.
  - intros s' o. transitivity (registered w1 s' o); [|done]. rewrite <- Wl. unfold linked. simpl.
    destruct (decide (s' = s)) as [->|Hne]; [|by rewrite lookup_delete_ne].
    rewrite lookup_delete_eq. split; [naive_solver|]. intros Hl. by apply L in Hl as [_ ?].
  - intros f Hin. destruct (Wf f Hin) as (sg & E & Hok). exists sg. rewrite lookup_delete_ne; [done|].
    intros ->. apply Hf. rewrite <- (ev_frames _ _ Ev). apply list_elem_of_fmap. eauto.
Qed.

Lemma new_slots_wf w o :
  wf w → w.(m_senders) !! o = None →
  wf (new_slots o w) ∧ (∀ s o', registered (new_slots o w) s o' ↔ registered w s o').
Proof.
  intros [Ws Wl Wf Wd] E.
  assert (∀ s o', registered (new_slots o w) s o' ↔ registered w s o') as R.
  { intros s o'. unfold registered. simpl. destruct (decide (o' = o)) as [->|Hne]; [|by rewrite lookup_insert_ne].
    rewrite lookup_insert_eq, E. split; [intros (? & [= <-] & Hin); by apply elem_of_empty in Hin|naive_solver]. }
  split; [|done]. constructor; simpl; try done. intros s o'. rewrite R. apply Wl.
Qed.

Lemma copy_slots_wf w from o :
  wf w → is_Some (w.(m_senders) !! from) → w.(m_senders) !! o = None → ∃ w', copy_slots from o w = Ret w' ∧ wf w'.
Proof.
  intros W [ss E] Ho. destruct (new_slots_wf w o W Ho) as [W' R].
  destruct (duplicate_all_moves from o (elements ss) (new_slots o w)) as (w' & Ew & Ev & L' & R').
  - congruence.
  - intros s Hs%elem_of_elements. apply (wf_links _ W'), R. by exists ss.
  - simpl. rewrite lookup_insert_eq. eauto.
  - exists w'. unfold copy_slots, get_senders. rewrite E. split; [done|]. apply (evolves_wf (new_slots o w)); try done.
    intros s' o'. rewrite L', R', (wf_links _ W' s' o'). done.
Qed.

Lemma get_senders_ok w o ss : w.(m_senders) !! o = Some ss → get_senders o w = Ret ss.
Proof. intros E. unfold get_senders. by rewrite E. Qed.

(** One round empties the set, the second finds it empty. *)
Lemma do_disconnect_all_moves w o :
  wf w → is_Some (w.(m_senders) !! o) →
  ∃ w', do_disconnect_all 2 o w = Ret w' ∧
    moves w w' (λ s o', linked w s o' ∧ o' ≠ o) (λ s o', registered w s o' ∧ o' ≠ o).
Proof.
  intros W [ss E]. simpl. rewrite (get_senders_ok w o ss E). simpl. destruct (decide (ss = ∅)) as [->|Hss].
  - exists w. split; [done|]. assert (∀ s, ¬ registered w s o) as Hno.
    { intros s (ss' & E' & Hin). rewrite E in E'. injection E' as <-. set_solver. }
    split_and!; [apply evolves_refl| |]; intros s o'; rewrite ?(wf_links _ W s o'); (split; [|naive_solver]);
      intros Hr; (split; [done|intros ->; by apply (Hno s)]).
  - destruct (put_senders_moves w o ss ∅ E) as (Ev1 & L1 & R1).
    destruct (slot_disconnect_each_moves o (elements ss) (put_senders o ∅ w)) as (w2 & -> & S2 & Ev2 & L2 & R2).
    { intros s Hs%elem_of_elements. apply (linked_alive w s o W), (wf_links _ W). by exists ss. }
    simpl. rewrite (get_senders_ok w2 o ∅) by (rewrite S2; apply lookup_insert_eq). simpl.
    rewrite decide_True by done.
    exists w2. split; [done|]. split_and!; [by eapply evolves_trans| |]; intros s o'.
    + rewrite L2, L1, elem_of_elements. split; [|naive_solver]. intros [Hl Hn]. split; [done|]. intros ->.
      apply Hn. split; [done|]. apply (wf_links _ W) in Hl as (ss' & E' & ?). congruence.
    + rewrite R2, R1. destruct (decide (o' = o)) as [->|Hne]; [|naive_solver].
      split; [intros Hin; by apply elem_of_empty in Hin|by intros [_ []]].
Qed.

Lemma delete_slots_wf w o :
  wf w → is_Some (w.(m_senders) !! o) → ∃ w', delete_slots o w = Ret w' ∧ wf w'.
Proof.
  intros W Ho. destruct (do_disconnect_all_moves w o W Ho) as (w1 & E1 & Ev & L & R).
  unfold delete_slots. rewrite E1. simpl. eexists. split; [done|].
  assert (wf w1) as [Ws Wl Wf Wd].
  { apply (evolves_wf w); [done|done|]. intros s o'. rewrite L, R, (wf_links _ W s o'). done. }
  constructor; simpl; try done. intros s o'. transitivity (linked w1 s o'); [done|]. rewrite Wl. unfold registered. simpl.
  destruct (decide (o' = o)) as [->|Hne]; [|by rewrite lookup_delete_ne].
  rewrite lookup_delete_eq. split; [|naive_solver]. intros Hr. by apply R in Hr as [_ ?].
Qed.

Lemma connect_wf w s o method :
  wf w → is_Some (w.(signals) !! s) → is_Some (w.(m_senders) !! o) → ∃ w', connect s o method w = Ret w' ∧ wf w'.
Proof.
  intros W Hs Ho. unfold connect. destruct (push_back_moves w s o method Hs) as (w1 & -> & _ & Ev1 & L1 & R1). simpl.
  destruct (do_signal_connect_moves w1 o s) as (w2 & E2 & _ & Ev2 & L2 & R2); [by apply (ev_slots _ _ Ev1)|].
  exists w2. split; [done|]. apply (evolves_wf w); [by eapply evolves_trans|done|]. intros s' o'.
  by rewrite L2, L1, R2, R1, (wf_links _ W s' o').
Qed.

Lemma disconnect_wf w s o sg :
  wf w → w.(signals) !! s = Some sg → (length (connections_to o sg.(m_connected_slots)) <= 1)%nat →
  ∃ w', disconnect s o w = Ret w' ∧ wf w'.
Proof.
  intros W E Hone. unfold disconnect, get_signal. rewrite E. simpl. rewrite erase_first_single by done.
  destruct (decide _) as [Hin|Hin]; [|by exists w].
  destruct (do_slot_disconnect_moves w s o) as (w1 & E1 & S1 & Ev1 & L1 & R1); [by eexists|].
  unfold do_slot_disconnect, get_signal in E1. rewrite E in E1. simpl in E1. destruct (erase_slot o _ _) as [l it].
  injection E1 as E1. rewrite E1.
  destruct (do_signal_disconnect_moves w1 o s) as (w2 & E2 & _ & Ev2 & L2 & R2).
  { apply (ev_slots _ _ Ev1). by apply (linked_alive w s o W); exists sg. }
  exists w2. split; [done|]. apply (evolves_wf w); [by eapply evolves_trans|done|]. intros s' o'.
  by rewrite L2, L1, R2, R1, (wf_links _ W s' o').
Qed.

Lemma emit_wf w s :
  wf w → is_Some (w.(signals) !! s) → s ∉ fires <$> w.(frames) → ∃ w', emit s w = Ret w' ∧ wf w'.
Proof.
  intros [Ws Wl Wf Wd] [sg E] Hs. unfold emit, get_signal. rewrite E. simpl. eexists. split; [done|].
  destruct (Ws s sg E) as (Hd & Hlt & _). constructor; simpl.
  - intros s' sg'. destruct (decide (s' = s)) as [->|Hne]; [|rewrite lookup_insert_ne by done; apply Ws].
    rewrite lookup_insert_eq. intros [= <-]. split_and!; [done|done|]. by exists [], sg.(m_connected_slots).
  - intros s' o. rewrite <- (Wl s' o). unfold linked. simpl.
    destruct (decide (s' = s)) as [->|Hne]; [|by rewrite lookup_insert_ne]. rewrite lookup_insert_eq, E. naive_solver.
  - intros f [->|Hf]%elem_of_cons.
    + exists (mkSignal sg.(m_connected_slots) (first_node sg.(m_connected_slots))). simpl.
      rewrite lookup_insert_eq. split; [done|]. split_and!; simpl; [apply NoDup_nil_2|done|by apply Forall_fmap|].
      exists [], sg.(m_connected_slots). split_and!; [done|done|set_solver].
    + destruct (Wf f Hf) as (sg' & E' & Hok). exists sg'. rewrite lookup_insert_ne; [done|].
      intros ->. apply Hs, list_elem_of_fmap. eauto.
  - by apply NoDup_cons.
Qed.

Lemma at_node_split done c rest :
  NoDup (node <$> done ++ c :: rest) → at_node c.(node) (done ++ c :: rest) = Some (c, rest).
Proof.
  induction done as [|d done IH]; simpl; intros Hd; [by rewrite decide_True|].
  apply NoDup_cons in Hd as [Hn Hd]. rewrite decide_False; [by apply IH|].
  intros E. apply Hn. rewrite E, fmap_app. set_solver.
Qed.

(** The call moves its connection to the other side of the iterator. *)
Lemma call_frame_ok next sg f done c rest :
  NoDup (node <$> sg.(m_connected_slots)) → (c.(node) < next)%nat → splits sg done (c :: rest) →
  frame_ok next sg f →
  frame_ok next (mkSignal sg.(m_connected_slots) (first_node rest))
    (Frame f.(fires) f.(began_with) (f.(called) ++ [c.(node)])).
Proof.
  intros Hd Hc [E1 E2] (H1 & H2 & H3 & d & p & [F1 F2] & Hsub & Hnot).
  assert (d = done ∧ p = c :: rest) as [-> ->].
  { rewrite E2 in F2. destruct p as [|c' p]; [done|]. injection F2 as F2. rewrite E1 in Hd, F1.
    assert (at_node c.(node) (done ++ c :: rest) = at_node c'.(node) (d ++ c' :: p)) as Hat by congruence.
    rewrite !at_node_split in Hat by congruence. injection Hat as <- <-. by apply app_inj_2 in F1 as [-> _]. }
  assert (c.(node) ∉ f.(called)) as Hnew by (intros Hin; apply (Hnot _ Hin); by left).
  split_and!; simpl.
  - apply NoDup_app. split_and!; [done|set_solver|apply NoDup_singleton].
  - apply Forall_app. auto.
  - done.
  - exists (done ++ [c]), rest. split_and!.
    + split; [|done]. simpl. by rewrite E1, <- app_assoc.
    + rewrite fmap_app, filter_app. apply sublist_app; [done|]. apply sublist_filter.
    + intros n [Hn|Hn%list_elem_of_singleton]%elem_of_app Hin; [by apply (Hnot n Hn); right|]. subst n.
      rewrite E1, fmap_app, fmap_cons in Hd. apply NoDup_app in Hd as (_ & _ & [? _]%NoDup_cons). done.
Qed.

Lemma turn_wf w : wf w → ∃ w', turn w = Ret w' ∧ wf w'.
Proof.
  intros W. pose proof W as [Ws Wl Wf Wd]. unfold turn. destruct w.(frames) as [|f fs] eqn:Ef; [by exists w|].
  destruct (Wf f) as (sg & E & Hok); [by left|]. unfold get_signal. rewrite E. simpl.
  pose proof Hok as (_ & _ & _ & done & pend & Hs & _ & _). pose proof Hs as [E1 E2]. rewrite E2.
  destruct (Ws _ _ E) as (Hd & Hlt & _). rewrite fmap_cons in Wd. apply NoDup_cons in Wd as [Hf Wd].
  destruct pend as [|c rest]; simpl.
  - eexists. split; [done|]. constructor; simpl; try done. intros f' Hf'. apply Wf. by right.
  - pose proof Hd as Hd'. rewrite E1 in Hd'. rewrite E1, at_node_split by done. simpl.
    destruct (linked_alive w f.(fires) c.(pdest) W) as [_ [ss Ess]].
    { exists sg. split; [done|]. rewrite E1, fmap_app. set_solver. }
    rewrite (get_senders_ok _ _ _ Ess). simpl. eexists. split; [done|]. rewrite <- E1.
    assert (splits (mkSignal sg.(m_connected_slots) (first_node rest)) (done ++ [c]) rest) as Hs'
      by (split; [simpl; by rewrite E1, <- app_assoc|done]).
    constructor; simpl.
    + intros s sg'. destruct (decide (s = f.(fires))) as [->|Hne]; [|rewrite lookup_insert_ne by done; apply Ws].
      rewrite lookup_insert_eq. intros [= <-]. split_and!; [done|done|eauto].
    + intros s o. rewrite <- (Wl s o). unfold linked. simpl.
      destruct (decide (s = f.(fires))) as [->|Hne]; [|by rewrite lookup_insert_ne].
      rewrite lookup_insert_eq, E. naive_solver.
    + intros f' [->|Hf']%elem_of_cons.
      * eexists. simpl. rewrite lookup_insert_eq. split; [done|]. eapply call_frame_ok; try done.
        rewrite E1 in Hlt. apply Forall_app in Hlt as [_ ?%Forall_cons]. tauto.
      * destruct (Wf f') as (sg' & E' & Hok'); [by right|]. exists sg'. rewrite lookup_insert_ne; [done|].
        intros Heq. apply Hf. rewrite Heq. apply list_elem_of_fmap. eauto.
    + by apply NoDup_cons.
Qed.

Lemma perform_wf e w : wf w → allowed e w → ∃ w', perform e w = Ret w' ∧ wf w'.
Proof.
  intros W. destruct e; simpl; intros Ha.
  - eexists. split; [done|]. by apply new_signal_wf.
  - destruct Ha. by apply copy_signal_wf.
  - destruct Ha. by apply delete_signal_wf.
  - eexists. split; [done|]. by apply new_slots_wf.
  - destruct Ha. by apply copy_slots_wf.
  - by apply delete_slots_wf.
  - destruct Ha. by apply connect_wf.
  - destruct (w.(signals) !! s) as [sg|] eqn:E; [|done]. by eapply disconnect_wf.
  - destruct (disconnect_all_moves w s W Ha) as (w' & Ew & Ev & L & R). exists w'. split; [done|].
    apply (evolves_wf w); try done. intros s' o. by rewrite L, R, (wf_links _ W s' o).
  - destruct Ha. by apply emit_wf.
  - by apply turn_wf.
Qed.

Lemma start_wf : wf start.
Proof.
  constructor; simpl; try done.
  - intros s o. unfold linked, registered. simpl. setoid_rewrite lookup_empty. naive_solver.
  - intros f Hf. by apply elem_of_nil in Hf.
  - apply NoDup_nil_2.
Qed.

(** Runs in which every event is allowed when it comes. *)
Inductive reaches : world → world → Prop :=
  | reaches_refl w : reaches w w
  | reaches_step w e w' w'' : allowed e w → perform e w = Ret w' → reaches w' w'' → reaches w w''.

Lemma reaches_wf w w' : reaches w w' → wf w → wf w'.
Proof.
  induction 1 as [|w e w' w'' Ha E _ IH]; intros W; [done|]. apply IH.
  destruct (perform_wf e w W Ha) as (w1 & E1 & W1). congruence.
Qed.

(** ** Theorems *)

(** C11: However signals and objects with slots are made, copied, connected,
    disconnected and destroyed, also from inside the slots of emissions in
    progress (a firing signal is neither destroyed nor fired again, and an
    object connected twice is not disconnected singly), the next such step
    never reaches a destroyed object or a stale list iterator, a signal has a
    connection to an object exactly when the object has the signal among its
    senders, and both are alive then. *)
Theorem signals_and_slots_are_safe w e :
  reaches start w → allowed e w →
  (∃ w', perform e w = Ret w') ∧
  (∀ s o, linked w s o ↔ registered w s o) ∧
  (∀ s o, linked w s o → is_Some (w.(signals) !! s) ∧ is_Some (w.(m_senders) !! o)).
Proof.
  intros Hr Ha. pose proof (reaches_wf _ _ Hr start_wf) as W. split_and!.
  - destruct (perform_wf e w W Ha) as (w' & E & _). eauto.
  - apply W.
  - intros s o. by apply linked_alive.
Qed.


(** *** Examples *)
Lemma run_reaches es w w' : run es w = Some w' → reaches w w'.
Proof.
  revert w. induction es as [|e es IH]; simpl; intros w E; [injection E as <-; constructor|].
  destruct (decide _) as [Ha|]; [|done]. destruct (perform e w) as [w1| |] eqn:E1; try done.
  eapply reaches_step; eauto.
Qed.

(** Three objects are connected; the slot of the first deletes the second. *)
Definition first_deletes_second : list event :=
  [NewSignal 0; NewSlots 1; NewSlots 2; NewSlots 3; Connect 0 1 10; Connect 0 2 10; Connect 0 3 10;
   Emit 0; Next; DeleteSlots 2; Next].

Definition after_deletion : world := default start (run first_deletes_second start).

Lemma after_deletion_reached : reaches start after_deletion.
Proof. apply (run_reaches first_deletes_second). vm_compute. reflexivity. Qed.

Lemma signals_and_slots_are_safe_witness : ∃ w', perform (DeleteSlots 1) after_deletion = Ret w'.
Proof. apply signals_and_slots_are_safe; [apply after_deletion_reached|]. by eexists. Defined.


(** An object connected twice and disconnected once is no longer registered,
    and the connection that is left outlives it. *)
Lemma disconnect_of_two_dangles :
  perform_all [NewSignal 0; NewSlots 1; Connect 0 1 10; Connect 0 1 20; Disconnect 0 1; DeleteSlots 1;
               Emit 0; Next] start = Undef UseAfterFree.
Proof. vm_compute. reflexivity. Qed.

(** A slot that fires its signal again ends the emission it is called from:
    the second object is not called by it. *)
Lemma nested_emission_ends_the_outer :
  ∃ w, perform_all [NewSignal 0; NewSlots 1; NewSlots 2; Connect 0 1 10; Connect 0 2 10; Emit 0; Next;
                    Emit 0; Next; Next; Next] start = Ret w ∧
    w.(frames) = [Frame 0 [0; 1] [0]]%nat ∧ m_current_iterator <$> w.(signals) !! 0%nat = Some None.
Proof. eexists. split; [vm_compute; reflexivity|]. done. Qed.

End Sig.
