(* ===== verification/CivilTime.v ===== *)
(** * Civil time (third_party/abseil-cpp/absl/time/internal/cctz/include/cctz/civil_time_detail.h)

    Calendar arithmetic on the proleptic Gregorian calendar: normalisation of
    fields, stepping, differences, alignment, comparison and weekdays. Division
    and remainder truncate; years, months and differences are 64-bit and their
    overflow is undefined, so the functions return an [outcome]. *)

From stdpp Require Import base list strings.
From Stdlib Require Import ZArith Lia.
From S2P Require Import Prelude.

Local Open Scope Z_scope.


Module Civil.

(** Normalised fields. *)
Record fields := mkFields { y : Z; m : Z; d : Z; hh : Z; mm : Z; ss : Z }.

#[global] Instance fields_eq_dec : EqDecision fields.
Proof. solve_decision. Defined.

Inductive tag := second_tag | minute_tag | hour_tag | day_tag | month_tag | year_tag.

(** ** Field normalisation *)
Definition b2z (b : bool) : Z := if b then 1 else 0.

Definition is_leap_year (y : Z) : bool :=
  (y %% 4 =? 0) && (negb (y %% 100 =? 0) || (y %% 400 =? 0)).

(** The years these are applied to stay far from the limits of 64 bits, so
    nothing here overflows. *)
Definition year_index (y m : Z) : Z := ((y + b2z (2 <? m)) %% 400 + 400) %% 400.

Definition days_per_century (y m : Z) : Z :=
  let yi := year_index y m in 36524 + b2z ((yi =? 0) || (300 <? yi)).

Definition days_per_4years (y m : Z) : Z :=
  let yi := year_index y m in
  1460 + b2z ((yi =? 0) || (300 <? yi) || ((yi - 1) %% 100 <? 96)).

Definition days_per_year (y m : Z) : Z :=
  if is_leap_year (y + b2z (2 <? m)) then 366 else 365.

Definition k_days_per_month : list Z := [-1; 31; 28; 31; 30; 31; 30; 31; 31; 30; 31; 30; 31].

Definition days_per_month (y m : Z) : Z :=
  nth (Z.to_nat m) k_days_per_month (-1) + b2z ((m =? 2) && is_leap_year y).

(** [for (;;) { int n = len(ey, m); if (d <= n) break; d -= n; ey += step; }] *)
Fixpoint skip_years (fuel : nat) (len : Z → Z → Z) (step m ey d : Z) : outcome (Z * Z) :=
  match fuel with
  | O => Ret (ey, d)
  | S f =>
      let n := len ey m in
      if d <=? n then Ret (ey, d)
      else
        d ← d -! n;
        ey ← ey +! step;
        skip_years f len step m ey d
  end.

(** The loop over months. *)
Fixpoint skip_months (fuel : nat) (ey m d : Z) : outcome (Z * Z * Z) :=
  match fuel with
  | O => Ret (ey, m, d)
  | S f =>
      let n := days_per_month ey m in
      if d <=? n then Ret (ey, m, d)
      else
        d ← d -! n;
        if 12 <? m + 1 then ey ← ey +! 1; skip_months f ey 1 d
        else skip_months f ey (m + 1) d
  end.

(** At most 4, 25, 4 and 13 turns are made. *)
Definition n_day (y m d cd hh mm ss : Z) : outcome fields :=
  let oey := y %% 400 in
  eras ← (cd ÷ 146097) *! 400;
  ey ← oey +! eras;
  let cd := cd %% 146097 in
  '(ey, cd) ← (if cd <? 0 then ey ← ey -! 400; cd ← cd +! 146097; Ret (ey, cd) else Ret (ey, cd));
  eras ← (d ÷ 146097) *! 400;
  ey ← ey +! eras;
  d ← d %% 146097 +! cd;
  '(ey, d) ←
    (if 0 <? d then
       if 146097 <? d then ey ← ey +! 400; d ← d -! 146097; Ret (ey, d) else Ret (ey, d)
     else if -365 <? d then ey ← ey -! 1; d ← d +! days_per_year ey m; Ret (ey, d)
     else ey ← ey -! 400; d ← d +! 146097; Ret (ey, d));
  '(ey, d) ←
    (if 365 <? d then
       '(ey, d) ← skip_years 5 days_per_century 100 m ey d;
       '(ey, d) ← skip_years 26 days_per_4years 4 m ey d;
       skip_years 5 days_per_year 1 m ey d
     else Ret (ey, d));
  '(ey, m, d) ← (if 28 <? d then skip_months 14 ey m d else Ret (ey, m, d));
  shift ← ey -! oey;
  y ← y +! shift;
  Ret (mkFields y m (i8 d) hh mm ss).

Definition n_mon (y m d cd hh mm ss : Z) : outcome fields :=
  '(y, m) ←
    (if negb (m =? 12) then
       y ← y +! m ÷ 12;
       let m := m %% 12 in
       if m <=? 0 then y ← y -! 1; m ← m +! 12; Ret (y, m) else Ret (y, m)
     else Ret (y, m));
  n_day y (i8 m) d cd hh mm ss.

Definition n_hour (y m d cd hh mm ss : Z) : outcome fields :=
  cd ← cd +! hh ÷ 24;
  let hh := hh %% 24 in
  '(cd, hh) ← (if hh <? 0 then cd ← cd -! 1; hh ← hh +! 24; Ret (cd, hh) else Ret (cd, hh));
  n_mon y m d cd (i8 hh) mm ss.

Definition n_min (y m d hh ch mm ss : Z) : outcome fields :=
  ch ← ch +! mm ÷ 60;
  let mm := mm %% 60 in
  '(ch, mm) ← (if mm <? 0 then ch ← ch -! 1; mm ← mm +! 60; Ret (ch, mm) else Ret (ch, mm));
  cd ← hh ÷ 24 +! ch ÷ 24;
  h ← hh %% 24 +! ch %% 24;
  n_hour y m d cd h (i8 mm) ss.

Definition n_sec (y m d hh mm ss : Z) : outcome fields :=
  if (0 <=? ss) && (ss <? 60) then
    let nss := i8 ss in
    if (0 <=? mm) && (mm <? 60) then
      let nmm := i8 mm in
      if (0 <=? hh) && (hh <? 24) then
        let nhh := i8 hh in
        if (1 <=? d) && (d <=? 28) && (1 <=? m) && (m <=? 12) then
          Ret (mkFields y (i8 m) (i8 d) nhh nmm nss)
        else n_mon y m d 0 nhh nmm nss
      else n_hour y m d (hh ÷ 24) (hh %% 24) nmm nss
    else n_min y m d hh (mm ÷ 60) (mm %% 60) nss
  else
    let cm := ss ÷ 60 in
    let ss := ss %% 60 in
    '(cm, ss) ← (if ss <? 0 then cm ← cm -! 1; ss ← ss +! 60; Ret (cm, ss) else Ret (cm, ss));
    ch ← mm ÷ 60 +! cm ÷ 60;
    mm ← mm %% 60 +! cm %% 60;
    n_min y m d hh ch mm (i8 ss).

(** ** Stepping *)
Definition step (t : tag) (f : fields) (n : Z) : outcome fields :=
  match t with
  | second_tag =>
      mm ← f.(mm) +! n ÷ 60; ss ← f.(ss) +! n %% 60;
      n_sec f.(y) f.(m) f.(d) f.(hh) mm ss
  | minute_tag =>
      hh ← f.(hh) +! n ÷ 60; mm ← f.(mm) +! n %% 60;
      n_min f.(y) f.(m) f.(d) hh 0 mm f.(ss)
  | hour_tag =>
      d ← f.(d) +! n ÷ 24; hh ← f.(hh) +! n %% 24;
      n_hour f.(y) f.(m) d 0 hh f.(mm) f.(ss)
  | day_tag => n_day f.(y) f.(m) f.(d) n f.(hh) f.(mm) f.(ss)
  | month_tag =>
      y ← f.(y) +! n ÷ 12; m ← f.(m) +! n %% 12;
      n_mon y m f.(d) 0 f.(hh) f.(mm) f.(ss)
  | year_tag => y ← f.(y) +! n; Ret (mkFields y f.(m) f.(d) f.(hh) f.(mm) f.(ss))
  end.

(** ** Differences *)

(** [v * f + a] *)
Definition scale_add (v f a : Z) : outcome Z :=
  if v <? 0 then
    v ← v +! 1; p ← v *! f; s ← p +! a; s -! f
  else
    v ← v -! 1; p ← v *! f; s ← p +! a; s +! f.

(** The number of days after 1970-01-01. *)
Definition ymd_ord (y m d : Z) : outcome Z :=
  eyear ← (if m <=? 2 then y -! 1 else Ret y);
  e ← (if 0 <=? eyear then Ret eyear else eyear -! 399);
  let era := e ÷ 400 in
  eras ← era *! 400;
  yoe ← eyear -! eras;
  let doy := (153 * (m + (if 2 <? m then -3 else 9)) + 2) ÷ 5 + d - 1 in
  let doe := yoe * 365 + yoe ÷ 4 - yoe ÷ 100 + doy in
  days ← era *! 146097;
  s ← days +! doe;
  s -! 719468.

Definition day_difference (y1 m1 d1 y2 m2 d2 : Z) : outcome Z :=
  let a_c4_off := y1 %% 400 in
  let b_c4_off := y2 %% 400 in
  a ← y1 -! a_c4_off;
  b ← y2 -! b_c4_off;
  c4_diff ← a -! b;
  o1 ← ymd_ord a_c4_off m1 d1;
  o2 ← ymd_ord b_c4_off m2 d2;
  delta ← o1 -! o2;
  '(c4_diff, delta) ←
    (if (0 <? c4_diff) && (delta <? 0) then
       delta ← delta +! 2 * 146097; c4_diff ← c4_diff -! 2 * 400; Ret (c4_diff, delta)
     else if (c4_diff <? 0) && (0 <? delta) then
       delta ← delta -! 2 * 146097; c4_diff ← c4_diff +! 2 * 400; Ret (c4_diff, delta)
     else Ret (c4_diff, delta));
  days ← (c4_diff ÷ 400) *! 146097;
  days +! delta.

Fixpoint difference_from (ts : list (Z * Z)) (v : outcome Z) : outcome Z :=
  match ts with
  | [] => v
  | (f, a) :: ts' => difference_from ts' (v ← v; scale_add v f a)
  end.

Definition difference (t : tag) (f1 f2 : fields) : outcome Z :=
  let year := f1.(y) -! f2.(y) in
  let day := day_difference f1.(y) f1.(m) f1.(d) f2.(y) f2.(m) f2.(d) in
  let hours := (24, f1.(hh) - f2.(hh)) in
  let minutes := (60, f1.(mm) - f2.(mm)) in
  let seconds := (60, f1.(ss) - f2.(ss)) in
  match t with
  | year_tag => year
  | month_tag => difference_from [(12, f1.(m) - f2.(m))] year
  | day_tag => day
  | hour_tag => difference_from [hours] day
  | minute_tag => difference_from [hours; minutes] day
  | second_tag => difference_from [hours; minutes; seconds] day
  end.

(** ** Alignment *)
Definition align (t : tag) (f : fields) : fields :=
  match t with
  | second_tag => f
  | minute_tag => mkFields f.(y) f.(m) f.(d) f.(hh) f.(mm) 0
  | hour_tag => mkFields f.(y) f.(m) f.(d) f.(hh) 0 0
  | day_tag => mkFields f.(y) f.(m) f.(d) 0 0 0
  | month_tag => mkFields f.(y) f.(m) 1 0 0 0
  | year_tag => mkFields f.(y) 1 1 0 0 0
  end.

(** ** civil_time<T>: the fields, aligned *)
Definition civil_time (t : tag) (y m d hh mm ss : Z) : outcome fields :=
  f ← n_sec y m d hh mm ss; Ret (align t f).

Definition epoch : fields := mkFields 1970 1 1 0 0 0.

(** Conversion between alignments. *)
Definition convert (t : tag) (f : fields) : fields := align t f.

Definition civil_max (t : tag) : outcome fields := civil_time t (2 ^ 63 - 1) 12 31 23 59 59.
Definition civil_min (t : tag) : outcome fields := civil_time t (- 2 ^ 63) 1 1 0 0 0.

(** [a += n], [a -= n], [++a], [--a] and [a - b] *)
Definition plus (t : tag) (f : fields) (n : Z) : outcome fields := step t f n.

Definition minus (t : tag) (f : fields) (n : Z) : outcome fields :=
  if negb (n =? - 2 ^ 63) then n' ← 0 -! n; step t f n'
  else n' ← n +! 1; n' ← 0 -! n'; g ← step t f n'; step t g 1.

Definition incr (t : tag) (f : fields) : outcome fields := plus t f 1.
Definition decr (t : tag) (f : fields) : outcome fields := minus t f 1.

(** ** Comparison of all six fields *)
Definition civil_lt (l r : fields) : bool :=
  (l.(y) <? r.(y)) || ((l.(y) =? r.(y)) &&
    ((l.(m) <? r.(m)) || ((l.(m) =? r.(m)) &&
      ((l.(d) <? r.(d)) || ((l.(d) =? r.(d)) &&
        ((l.(hh) <? r.(hh)) || ((l.(hh) =? r.(hh)) &&
          ((l.(mm) <? r.(mm)) || ((l.(mm) =? r.(mm)) &&
            (l.(ss) <? r.(ss))))))))))).

Definition civil_le (l r : fields) : bool := negb (civil_lt r l).
Definition civil_ge (l r : fields) : bool := negb (civil_lt l r).
Definition civil_gt (l r : fields) : bool := civil_lt r l.

Definition civil_eq (l r : fields) : bool :=
  (l.(y) =? r.(y)) && (l.(m) =? r.(m)) && (l.(d) =? r.(d)) &&
  (l.(hh) =? r.(hh)) && (l.(mm) =? r.(mm)) && (l.(ss) =? r.(ss)).

Definition civil_ne (l r : fields) : bool := negb (civil_eq l r).

(** ** Weekdays *)
Inductive weekday := monday | tuesday | wednesday | thursday | friday | saturday | sunday.

#[global] Instance weekday_eq_dec : EqDecision weekday.
Proof. solve_decision. Defined.

Definition k_weekday_by_mon_off : list weekday :=
  [monday; tuesday; wednesday; thursday; friday; saturday; sunday;
   monday; tuesday; wednesday; thursday; friday; saturday].

Definition k_weekday_offsets : list Z := [-1; 0; 3; 2; 5; 0; 3; 5; 1; 4; 6; 2; 4].

Definition get_weekday (cs : fields) : weekday :=
  let wd := 2400 + cs.(y) %% 400 - b2z (cs.(m) <? 3) in
  let wd := wd + (wd ÷ 4 - wd ÷ 100 + wd ÷ 400) in
  let wd := wd + (nth (Z.to_nat cs.(m)) k_weekday_offsets (-1) + cs.(d)) in
  nth (Z.to_nat (wd %% 7 + 6)) k_weekday_by_mon_off monday.

Definition k_weekdays_forw : list weekday :=
  [monday; tuesday; wednesday; thursday; friday; saturday; sunday;
   monday; tuesday; wednesday; thursday; friday; saturday; sunday].

Definition k_weekdays_back : list weekday :=
  [sunday; saturday; friday; thursday; wednesday; tuesday; monday;
   sunday; saturday; friday; thursday; wednesday; tuesday; monday].

(** [for (int i = from;; ++i) if (wd == table[i]) ...]: the index found. *)
Definition seek (wd : weekday) (table : list weekday) (from : nat) : outcome nat :=
  match list_find (eq wd) (drop from table) with
  | Some (i, _) => Ret (from + i)%nat
  | None => Undef OutOfBounds
  end.

Definition next_weekday (cd : fields) (wd : weekday) : outcome fields :=
  i ← seek (get_weekday cd) k_weekdays_forw 0;
  j ← seek wd k_weekdays_forw (S i);
  plus day_tag cd (Z.of_nat j - Z.of_nat i).

Definition prev_weekday (cd : fields) (wd : weekday) : outcome fields :=
  i ← seek (get_weekday cd) k_weekdays_back 0;
  j ← seek wd k_weekdays_back (S i);
  minus day_tag cd (Z.of_nat j - Z.of_nat i).

Definition k_month_offsets : list Z := [-1; 0; 31; 59; 90; 120; 151; 181; 212; 243; 273; 304; 334].

Definition get_yearday (cs : fields) : Z :=
  let feb29 := b2z ((2 <? cs.(m)) && is_leap_year cs.(y)) in
  nth (Z.to_nat cs.(m)) k_month_offsets (-1) + feb29 + cs.(d).

End Civil.
