(* ===== verification/CivilTimeProps.v ===== *)
(** * Correctness of civil time

    The reference is the calendar itself: the number of days before a year and
    a month, summed from the lengths of years and months. Normalisation keeps
    the instant its arguments denote and produces valid fields, which determine
    the instant uniquely; differences are exact whenever they can be
    represented; comparison is comparison of instants; weekdays follow from the
    number of days. *)

From stdpp Require Import base list strings.
From Stdlib Require Import ZArith Lia.
From S2P Require Import Prelude CivilTime.

Local Open Scope Z_scope.
Import Civil.

#[local] Ltac Zify.zify_post_hook ::= Z.to_euclidean_division_equations.

(** ** The calendar *)
Definition leap (y : Z) : bool :=
  (y mod 4 =? 0) && (negb (y mod 100 =? 0) || (y mod 400 =? 0)).

Definition days_in_month (y m : Z) : Z :=
  match m with
  | 2 => if leap y then 29 else 28
  | 4 | 6 | 9 | 11 => 30
  | _ => 31
  end.

(** The days of the years 1 to [y - 1], and their leap days. *)
Definition leaps (y : Z) : Z := y / 4 - y / 100 + y / 400.
Definition days_before_year (y : Z) : Z := 365 * (y - 1) + leaps (y - 1).

(** The days of the months before [m]. *)
Definition days_before_month (y m : Z) : Z :=
  foldr Z.add 0 (days_in_month y <$> seqZ 1 (m - 1)).

(** Day 1 is the first of January of the year 1. *)
Definition day_number (y m d : Z) : Z := days_before_year y + days_before_month y m + d.

Definition second_number (f : fields) : Z :=
  ((day_number f.(y) f.(m) f.(d) * 24 + f.(hh)) * 60 + f.(mm)) * 60 + f.(ss).

Definition valid_day (y m d : Z) : Prop := 1 ≤ m ≤ 12 ∧ 1 ≤ d ≤ days_in_month y m.

Definition valid (f : fields) : Prop :=
  valid_day f.(y) f.(m) f.(d) ∧ 0 ≤ f.(hh) < 24 ∧ 0 ≤ f.(mm) < 60 ∧ 0 ≤ f.(ss) < 60.

(** ** The calendar, from March to February *)
Ltac months m :=
  let H := fresh in
  assert (m = 1 ∨ m = 2 ∨ m = 3 ∨ m = 4 ∨ m = 5 ∨ m = 6 ∨ m = 7 ∨ m = 8 ∨ m = 9 ∨ m = 10 ∨
          m = 11 ∨ m = 12) as H by lia;
  destruct_or! H; subst m.

Lemma leap_days y : b2z (leap y) = leaps y - leaps (y - 1).
Proof.
  unfold leap, leaps, b2z.
  destruct (Z.eqb_spec (y mod 4) 0), (Z.eqb_spec (y mod 100) 0), (Z.eqb_spec (y mod 400) 0);
    simpl; lia.
Qed.

Lemma is_leap_year_spec y : is_leap_year y = leap y.
Proof.
  unfold is_leap_year, leap.
  assert (∀ k, 0 < k → (Z.rem y k =? 0) = (y mod k =? 0)) as E.
  { intros k Hk. apply eq_true_iff_eq. rewrite !Z.eqb_eq, Z.rem_divide, Z.mod_divide by lia. done. }
  by rewrite !E by lia.
Qed.

Lemma year_length y : days_before_year (y + 1) = days_before_year y + 365 + b2z (leap y).
Proof. rewrite leap_days. unfold days_before_year. rewrite Z.add_simpl_r. lia. Qed.

(** The year that a month shares its February with. *)
Definition march_year (y m : Z) : Z := y + b2z (2 <? m).

Lemma day_number_march y m d :
  1 ≤ m ≤ 12 →
  day_number y m d =
    days_before_year (march_year y m) - 365 * b2z (2 <? m) + nth (Z.to_nat m) k_month_offsets 0 + d.
Proof.
  intros Hm. unfold day_number, march_year.
  assert (days_before_month y m =
    nth (Z.to_nat m) k_month_offsets 0 + b2z (2 <? m) * b2z (leap y)) as ->.
  { unfold days_before_month. months m; cbv [Z.sub Z.add Z.opp Z.pos_sub Pos.pred_double Z.ltb Z.compare];
      vm_compute (seqZ _ _); simpl; destruct (leap y); reflexivity. }
  pose proof (year_length y). destruct (2 <? m), (leap y); simpl b2z in *; rewrite ?Z.add_0_r; lia.
Qed.

(** ** Lengths of runs of years *)
Lemma march_shift y m d k :
  1 ≤ m ≤ 12 →
  day_number (y + k) m d =
    day_number y m d + (days_before_year (march_year y m + k) - days_before_year (march_year y m)).
Proof.
  intros Hm. rewrite !day_number_march by done. unfold march_year.
  replace (y + k + b2z (2 <? m)) with (y + b2z (2 <? m) + k) by lia. lia.
Qed.

Lemma day_number_400 y m d k :
  1 ≤ m ≤ 12 → day_number (y + 400 * k) m d = day_number y m d + 146097 * k.
Proof.
  intros Hm. rewrite march_shift by done. unfold days_before_year, leaps.
  generalize (march_year y m). intros z. lia.
Qed.

Lemma day_number_1 y m d :
  1 ≤ m ≤ 12 → day_number (y + 1) m d = day_number y m d + days_per_year y m.
Proof.
  intros Hm. rewrite march_shift, year_length by done. unfold days_per_year.
  rewrite is_leap_year_spec. fold (march_year y m). destruct (leap _); simpl; lia.
Qed.

Lemma year_index_spec y m : year_index y m = march_year y m mod 400.
Proof. unfold year_index. fold (march_year y m). generalize (march_year y m). intros z. lia. Qed.

Lemma day_number_100 y m d :
  1 ≤ m ≤ 12 → day_number (y + 100) m d = day_number y m d + days_per_century y m.
Proof.
  intros Hm. rewrite march_shift by done. unfold days_per_century. rewrite year_index_spec.
  unfold days_before_year, leaps. generalize (march_year y m). intros z.
  destruct (Z.eqb_spec (z mod 400) 0), (Z.ltb_spec 300 (z mod 400)); simpl; lia.
Qed.

Lemma day_number_4 y m d :
  1 ≤ m ≤ 12 → day_number (y + 4) m d = day_number y m d + days_per_4years y m.
Proof.
  intros Hm. rewrite march_shift by done. unfold days_per_4years. rewrite year_index_spec.
  unfold days_before_year, leaps. generalize (march_year y m). intros z.
  destruct (Z.eqb_spec (z mod 400) 0), (Z.ltb_spec 300 (z mod 400)),
    (Z.ltb_spec (Z.rem (z mod 400 - 1) 100) 96); simpl; lia.
Qed.

(** ** Months *)
Lemma days_per_month_spec y m : 1 ≤ m ≤ 12 → days_per_month y m = days_in_month y m.
Proof.
  intros Hm. unfold days_per_month. rewrite is_leap_year_spec.
  months m; simpl; by destruct (leap y).
Qed.

Lemma days_in_month_bounds y m : 28 ≤ days_in_month y m ≤ 31.
Proof. unfold days_in_month. destruct (leap y); repeat case_match; lia. Qed.

Lemma day_number_month y m d :
  1 ≤ m < 12 → day_number y (m + 1) d = day_number y m d + days_in_month y m.
Proof.
  intros Hm. pose proof (year_length y). rewrite !day_number_march by lia. unfold march_year.
  assert (m ≠ 12) by lia. assert (1 ≤ m ≤ 12) as Hm' by lia. clear Hm.
  months m; try done; simpl; rewrite ?Z.add_0_r; destruct (leap y); simpl in *; lia.
Qed.

Lemma day_number_december y d : day_number (y + 1) 1 d = day_number y 12 d + 31.
Proof.
  pose proof (year_length y). rewrite !day_number_march by lia. unfold march_year. simpl.
  rewrite ?Z.add_0_r. lia.
Qed.

(** ** The loops *)

(** Arithmetic that stays within 64 bits. *)
Ltac ov := simpl; repeat (rewrite chk64_ok by lia; simpl).

(** [len] is the number of days in [step] years, at least [lo]. *)
Definition run_length (len : Z → Z → Z) (step lo : Z) : Prop :=
  ∀ y m d, 1 ≤ m ≤ 12 →
    day_number (y + step) m d = day_number y m d + len y m ∧ lo ≤ len y m ≤ 40000.

(** Far from the limits of 64 bits. *)
Definition small (z : Z) : Prop := - 1000000000000000000 ≤ z ≤ 1000000000000000000.

Lemma skip_years_spec fuel len step lo m ey d :
  run_length len step lo → 0 < lo → 0 < step ≤ 100 → 1 ≤ m ≤ 12 → small (ey + 100 * Z.of_nat fuel) →
  small ey → 1 ≤ d ≤ lo * Z.of_nat fuel → d ≤ 200000 →
  ∃ ey' d', skip_years fuel len step m ey d = Ret (ey', d') ∧
    day_number ey' m d' = day_number ey m d ∧ ey ≤ ey' ≤ ey + 100 * Z.of_nat fuel ∧
    1 ≤ d' ≤ len ey' m.
Proof.
  intros Hlen Hlo Hstep Hm. unfold small. revert ey d.
  induction fuel as [|f IH]; intros ey d He He' Hd Hd'; simpl; [lia|].
  destruct (Hlen ey m d Hm) as [_ Hn].
  destruct (Z.leb_spec d (len ey m)); [exists ey, d; split_and!; try done; lia|]. ov.
  destruct (IH (ey + step) (d - len ey m)) as (ey' & d' & -> & Hnum & Hey & Hres); [lia..|].
  exists ey', d'. split_and!; try done; try lia. rewrite Hnum.
  destruct (Hlen ey m (d - len ey m) Hm) as [-> _]. unfold day_number. lia.
Qed.

Lemma skip_months_spec fuel ey m d :
  1 ≤ m ≤ 12 → small ey → small (ey + Z.of_nat fuel) → 1 ≤ d ≤ 28 * Z.of_nat fuel → d ≤ 1000 →
  ∃ ey' m' d', skip_months fuel ey m d = Ret (ey', m', d') ∧
    day_number ey' m' d' = day_number ey m d ∧ ey ≤ ey' ≤ ey + Z.of_nat fuel ∧
    valid_day ey' m' d'.
Proof.
  unfold small. revert ey m d. induction fuel as [|f IH]; intros ey m d Hm He He' Hd Hd'; simpl; [lia|].
  rewrite days_per_month_spec by done. pose proof (days_in_month_bounds ey m) as Hb.
  destruct (Z.leb_spec d (days_in_month ey m)).
  { exists ey, m, d. unfold valid_day. split_and!; try done; lia. }
  ov. destruct (Z.ltb_spec 12 (m + 1)); ov.
  - assert (m = 12) as -> by lia. change (days_in_month ey 12) with 31 in *.
    destruct (IH (ey + 1) 1 (d - 31)) as (ey' & m' & d' & -> & Hnum & Hey & Hv); [lia..|].
    exists ey', m', d'. split_and!; try done; try lia.
    rewrite Hnum, day_number_december. unfold day_number. lia.
  - destruct (IH ey (m + 1) (d - days_in_month ey m)) as (ey' & m' & d' & -> & Hnum & Hey & Hv); [lia..|].
    exists ey', m', d'. split_and!; try done; try lia.
    rewrite Hnum, day_number_month by lia. unfold day_number. lia.
Qed.

#[local] Arguments skip_years : simpl never.
#[local] Arguments skip_months : simpl never.

Lemma century_run : run_length days_per_century 100 36524.
Proof.
  intros y m d Hm. split; [by apply day_number_100|]. unfold days_per_century. destruct (_ || _); simpl; lia.
Qed.

Lemma four_year_run : run_length days_per_4years 4 1460.
Proof.
  intros y m d Hm. split; [by apply day_number_4|]. unfold days_per_4years. destruct (_ || _); simpl; lia.
Qed.

Lemma year_run : run_length days_per_year 1 365.
Proof.
  intros y m d Hm. split; [by apply day_number_1|]. unfold days_per_year. destruct (is_leap_year _); lia.
Qed.

(** From a day within a 400-year cycle to a day within a year. *)
Lemma to_year m ey d :
  1 ≤ m ≤ 12 → small ey → small (ey + 4000) → 1 ≤ d ≤ 146097 →
  ∃ ey' d',
    (if 365 <? d then
       '(ey, d) ← skip_years 5 days_per_century 100 m ey d;
       '(ey, d) ← skip_years 26 days_per_4years 4 m ey d;
       skip_years 5 days_per_year 1 m ey d
     else Ret (ey, d)) = Ret (ey', d') ∧
    day_number ey' m d' = day_number ey m d ∧ ey ≤ ey' ≤ ey + 3600 ∧ 1 ≤ d' ≤ 366.
Proof.
  unfold small. intros Hm He He' Hd. destruct (Z.ltb_spec 365 d); [|exists ey, d; split_and!; try done; lia].
  destruct (skip_years_spec 5 _ _ _ m ey d century_run) as (e1 & d1 & -> & N1 & B1 & L1);
    unfold small; try lia. simpl.
  assert (days_per_century e1 m ≤ 36525) by (unfold days_per_century; destruct (_ || _); simpl; lia).
  destruct (skip_years_spec 26 _ _ _ m e1 d1 four_year_run) as (e2 & d2 & -> & N2 & B2 & L2);
    unfold small; try lia. simpl.
  assert (days_per_4years e2 m ≤ 1461) by (unfold days_per_4years; destruct (_ || _); simpl; lia).
  destruct (skip_years_spec 5 _ _ _ m e2 d2 year_run) as (e3 & d3 & -> & N3 & B3 & L3);
    unfold small; try lia.
  assert (days_per_year e3 m ≤ 366) by (unfold days_per_year; destruct (is_leap_year _); lia).
  exists e3, d3. split_and!; [done|congruence|lia..].
Qed.

(** ** Days *)
Lemma i8_day y m d : valid_day y m d → i8 d = d.
Proof. intros [_ Hd]. pose proof (days_in_month_bounds y m). apply i8_id. lia. Qed.

Lemma to_month ey m d :
  1 ≤ m ≤ 12 → small ey → small (ey + 14) → 1 ≤ d ≤ 366 →
  ∃ ey' m' d',
    (if 28 <? d then skip_months 14 ey m d else Ret (ey, m, d)) = Ret (ey', m', d') ∧
    day_number ey' m' d' = day_number ey m d ∧ ey ≤ ey' ≤ ey + 14 ∧ valid_day ey' m' d'.
Proof.
  intros Hm He He' Hd. destruct (Z.ltb_spec 28 d).
  - apply skip_months_spec; try done; lia.
  - exists ey, m, d. pose proof (days_in_month_bounds ey m). unfold valid_day. split_and!; try done; lia.
Qed.

Lemma day_number_day y m d k : day_number y m (d + k) = day_number y m d + k.
Proof. unfold day_number. lia. Qed.

Lemma leap_400 y k : leap (y + 400 * k) = leap y.
Proof.
  unfold leap. replace ((y + 400 * k) mod 4) with (y mod 4) by lia.
  replace ((y + 400 * k) mod 100) with (y mod 100) by lia.
  by replace ((y + 400 * k) mod 400) with (y mod 400) by lia.
Qed.

Lemma valid_day_400 y m d k : valid_day (y + 400 * k) m d ↔ valid_day y m d.
Proof. unfold valid_day, days_in_month. by rewrite leap_400. Qed.

(** [o] is the date with the day number [n]. *)
Definition date_of (o : outcome fields) (n hh mm ss : Z) : Prop :=
  ∃ y m d, o = Ret (mkFields y m d hh mm ss) ∧ valid_day y m d ∧
    day_number y m d = n ∧ - 2 ^ 63 ≤ y < 2 ^ 63.

(** From a day within a 400-year cycle to the date. *)
Lemma n_day_tail y m d0 cd ey d hh mm ss :
  1 ≤ m ≤ 12 → - 2 ^ 62 - 2 ^ 60 ≤ y ≤ 2 ^ 62 + 2 ^ 60 →
  day_number ey m d = day_number (y %% 400) m d0 + cd →
  - 100000000000000000 ≤ ey ≤ 100000000000000000 → 1 ≤ d ≤ 146097 →
  date_of
    ('(ey, d) ←
       (if 365 <? d then
          '(ey, d) ← skip_years 5 days_per_century 100 m ey d;
          '(ey, d) ← skip_years 26 days_per_4years 4 m ey d;
          skip_years 5 days_per_year 1 m ey d
        else Ret (ey, d));
     '(ey, m, d) ← (if 28 <? d then skip_months 14 ey m d else Ret (ey, m, d));
     shift ← ey -! y %% 400; y ← y +! shift; Ret (mkFields y m (i8 d) hh mm ss))
    (day_number y m d0 + cd) hh mm ss.
Proof.
  intros Hm Hy N He Hd.
  destruct (to_year m ey d) as (e1 & d1 & -> & N1 & B1 & L1); unfold small; try lia. simpl.
  destruct (to_month e1 m d1) as (e2 & m2 & d2 & -> & N2 & B2 & V2); unfold small; try lia. simpl.
  quot_rem y 400. ov.
  exists (y + (e2 - r)), m2, d2. rewrite (i8_day _ _ _ V2).
  assert (y + (e2 - r) = e2 + 400 * q) as -> by lia.
  rewrite valid_day_400. destruct V2 as [Hm2 V2].
  assert (day_number y m d0 = day_number r m d0 + 146097 * q) as ->.
  { rewrite <- day_number_400 by done. f_equal. lia. }
  rewrite day_number_400 by done. unfold valid_day. split_and!; try done; lia.
Qed.

Lemma n_day_spec y m d cd hh mm ss :
  1 ≤ m ≤ 12 → - 2 ^ 62 - 2 ^ 60 ≤ y ≤ 2 ^ 62 + 2 ^ 60 → - 2 ^ 63 ≤ d < 2 ^ 63 → - 2 ^ 63 ≤ cd < 2 ^ 63 →
  date_of (n_day y m d cd hh mm ss) (day_number y m d + cd) hh mm ss.
Proof.
  intros Hm Hy Hd Hcd. unfold n_day. cbv zeta.
  assert (- 400 < y %% 400 < 400) as Hr by lia.
  pose proof (λ ey d', n_day_tail y m d cd ey d' hh mm ss Hm Hy) as tail. clear Hy.
  revert tail Hr. generalize (y %% 400). intros oey tail Hr.
  assert (∀ ey a f, ey = oey + 400 * a → f + 146097 * a = d + cd →
    day_number ey m f = day_number oey m d + cd) as num.
  { intros ey a f -> E. rewrite day_number_400 by done. unfold day_number. lia. }
  quot_rem cd 146097. quot_rem d 146097. ov.
  destruct (Z.ltb_spec r 0); ov.
  all: match goal with |- context [0 <? ?x] => destruct (Z.ltb_spec 0 x) end.
  all: try match goal with |- context [146097 <? ?x] => destruct (Z.ltb_spec 146097 x) end.
  all: try match goal with |- context [- 365 <? ?x] => destruct (Z.ltb_spec (- 365) x) end.
  all: ov; try match goal with |- context [?f +! days_per_year ?e ?k] =>
    pose proof (year_run e k f Hm) as [Hnext ?]; ov end.
  all: apply tail; try lia.
  all: first [apply (num _ (q + q0)); lia | apply (num _ (q + q0 - 1)); lia
    | apply (num _ (q + q0 + 1)); lia | apply (num _ (q + q0 - 2)); lia
    | rewrite day_number_day, <- Hnext, Z.sub_add].
  all: first [apply (num _ (q + q0)); lia | apply (num _ (q + q0 - 1)); lia].
Qed.

(** ** Normalisation *)

(** The number of the day that a day, month and year out of range denote. *)
Definition raw_day (y m d : Z) : Z := day_number (y + (m - 1) / 12) ((m - 1) mod 12 + 1) d.

Definition raw_second (y m d hh mm ss : Z) : Z :=
  ((raw_day y m d * 24 + hh) * 60 + mm) * 60 + ss.

(** 64 bits, and half of them. *)
Definition i64 (z : Z) : Prop := - 2 ^ 63 ≤ z < 2 ^ 63.
Definition half (z : Z) : Prop := - 2 ^ 62 ≤ z ≤ 2 ^ 62.

Lemma n_mon_spec y m d cd hh mm ss :
  half y → i64 m → i64 d → i64 cd →
  date_of (n_mon y m d cd hh mm ss) (raw_day y m d + cd) hh mm ss.
Proof.
  unfold half, i64. intros Hy Hm Hd Hcd. unfold n_mon, raw_day.
  destruct (Z.eqb_spec m 12) as [->|Hne].
  { change ((12 - 1) / 12) with 0. rewrite Z.add_0_r. simpl. apply n_day_spec; lia. }
  assert ((m - 1) / 12 = m ÷ 12 - b2z (m %% 12 <=? 0) ∧
    (m - 1) mod 12 + 1 = m %% 12 + 12 * b2z (m %% 12 <=? 0)) as [-> ->].
  { unfold b2z. destruct (Z.leb_spec (m %% 12) 0); lia. }
  cbv zeta. quot_rem m 12. ov. destruct (Z.leb_spec r 0); ov; rewrite i8_id by lia.
  - replace (y + (q - 1)) with (y + q - 1) by lia. apply n_day_spec; lia.
  - rewrite Z.sub_0_r, Z.add_0_r. apply n_day_spec; lia.
Qed.

(** [o] is the civil time of the instant [n]. *)
Definition instant_of (o : outcome fields) (n : Z) : Prop :=
  ∃ f, o = Ret f ∧ valid f ∧ second_number f = n ∧ i64 f.(y).

Lemma instant_eq o n n' : instant_of o n → n = n' → instant_of o n'.
Proof. by intros ? <-. Qed.

Lemma date_instant o n hh mm ss :
  date_of o n hh mm ss → 0 ≤ hh < 24 → 0 ≤ mm < 60 → 0 ≤ ss < 60 →
  instant_of o (((n * 24 + hh) * 60 + mm) * 60 + ss).
Proof.
  intros (y & m & d & -> & V & N & B) Hh Hm Hs. eexists. split; [done|].
  unfold valid, second_number. simpl. rewrite N. done.
Qed.

Lemma n_hour_spec y m d cd hh mm ss :
  half y → i64 m → i64 d → half cd → i64 hh → 0 ≤ mm < 60 → 0 ≤ ss < 60 →
  instant_of (n_hour y m d cd hh mm ss) ((((raw_day y m d + cd) * 24 + hh) * 60 + mm) * 60 + ss).
Proof.
  intros Hy Hm Hd Hcd Hh Hmm Hss. unfold n_hour. cbv zeta.
  pose proof (λ cd hh Hcd, date_instant _ _ hh mm ss (n_mon_spec y m d cd hh mm ss Hy Hm Hd Hcd)) as fin.
  unfold half, i64 in *. quot_rem hh 24. ov. destruct (Z.ltb_spec r 0); ov; rewrite i8_id by lia.
  all: eapply instant_eq; [apply fin; lia|lia].
Qed.

Lemma n_min_spec y m d hh ch mm ss :
  half y → i64 m → i64 d → i64 hh → half ch → i64 mm → 0 ≤ ss < 60 →
  instant_of (n_min y m d hh ch mm ss) (((raw_day y m d * 24 + hh + ch) * 60 + mm) * 60 + ss).
Proof.
  intros Hy Hm Hd Hh Hch Hmm Hss. unfold n_min. cbv zeta.
  pose proof (λ cd hh mm, n_hour_spec y m d cd hh mm ss Hy Hm Hd) as fin.
  unfold half, i64 in *. quot_rem mm 60. quot_rem hh 24. ov.
  destruct (Z.ltb_spec r 0); ov.
  - quot_rem (ch + q - 1) 24. ov. rewrite i8_id by lia.
    eapply instant_eq; [apply fin; lia|lia].
  - quot_rem (ch + q) 24. ov. rewrite i8_id by lia.
    eapply instant_eq; [apply fin; lia|lia].
Qed.

Lemma raw_day_valid y m d : 1 ≤ m ≤ 12 → raw_day y m d = day_number y m d.
Proof. intros Hm. unfold raw_day. f_equal; lia. Qed.

Lemma n_sec_fast y m d hh mm ss :
  half y → 1 ≤ m ≤ 12 → 1 ≤ d ≤ 28 → 0 ≤ hh < 24 → 0 ≤ mm < 60 → 0 ≤ ss < 60 →
  instant_of (Ret (mkFields y (i8 m) (i8 d) (i8 hh) (i8 mm) (i8 ss))) (raw_second y m d hh mm ss).
Proof.
  intros Hy Hm Hd Hh Hmm Hss. rewrite !i8_id by lia. unfold raw_second. rewrite raw_day_valid by done.
  pose proof (days_in_month_bounds y m). eexists. split; [done|].
  unfold valid, valid_day, second_number, half, i64 in *. simpl. split_and!; lia.
Qed.

Lemma n_sec_carry y m d hh mm ss :
  half y → i64 m → i64 d → i64 hh → i64 mm → i64 ss →
  instant_of
    ('(cm, ss) ← (if ss %% 60 <? 0 then cm ← ss ÷ 60 -! 1; ss ← ss %% 60 +! 60; Ret (cm, ss)
                  else Ret (ss ÷ 60, ss %% 60));
     ch ← mm ÷ 60 +! cm ÷ 60; mm ← mm %% 60 +! cm %% 60; n_min y m d hh ch mm (i8 ss))
    (raw_second y m d hh mm ss).
Proof.
  intros Hy Hm Hd Hh Hmm Hss. unfold raw_second.
  pose proof (λ ch mm ss, n_min_spec y m d hh ch mm ss Hy Hm Hd Hh) as fin.
  unfold half, i64 in *. quot_rem ss 60. quot_rem mm 60.
  destruct (Z.ltb_spec r 0); ov.
  - quot_rem (q - 1) 60. ov. rewrite i8_id by lia. eapply instant_eq; [apply fin; lia|lia].
  - quot_rem q 60. ov. rewrite i8_id by lia. eapply instant_eq; [apply fin; lia|lia].
Qed.

Lemma n_sec_spec y m d hh mm ss :
  half y → i64 m → i64 d → i64 hh → i64 mm → i64 ss →
  instant_of (n_sec y m d hh mm ss) (raw_second y m d hh mm ss).
Proof.
  intros Hy Hm Hd Hh Hmm Hss. unfold n_sec. cbv zeta.
  destruct (Z.leb_spec 0 ss), (Z.ltb_spec ss 60); simpl; try by apply n_sec_carry.
  rewrite (i8_id ss) by lia.
  assert (instant_of (n_min y m d hh (mm ÷ 60) (mm %% 60) ss) (raw_second y m d hh mm ss)).
  { eapply instant_eq; [apply n_min_spec; try done; unfold half, i64 in *; lia|]. unfold raw_second. lia. }
  destruct (Z.leb_spec 0 mm), (Z.ltb_spec mm 60); simpl; try done.
  rewrite (i8_id mm) by lia.
  assert (instant_of (n_hour y m d (hh ÷ 24) (hh %% 24) mm ss) (raw_second y m d hh mm ss)).
  { eapply instant_eq; [apply n_hour_spec; try done; unfold half, i64 in *; lia|]. unfold raw_second. lia. }
  destruct (Z.leb_spec 0 hh), (Z.ltb_spec hh 24); simpl; try done.
  assert (instant_of (n_mon y m d 0 (i8 hh) mm ss) (raw_second y m d hh mm ss)).
  { rewrite i8_id by lia. eapply instant_eq; [apply date_instant; [by apply n_mon_spec|lia..]|].
    unfold raw_second. lia. }
  destruct (Z.leb_spec 1 d), (Z.leb_spec d 28), (Z.leb_spec 1 m), (Z.leb_spec m 12); simpl; try done.
  pose proof (n_sec_fast y m d hh mm ss) as F. rewrite (i8_id mm), (i8_id ss) in F by lia.
  by apply F.
Qed.

(** ** Order *)
Lemma days_before_year_mono y1 y2 : y1 < y2 → days_before_year (y1 + 1) ≤ days_before_year y2.
Proof. unfold days_before_year, leaps. lia. Qed.

Lemma days_before_month_step y m :
  1 ≤ m < 12 → days_before_month y (m + 1) = days_before_month y m + days_in_month y m.
Proof. intros Hm. pose proof (day_number_month y m 0 Hm). unfold day_number in *. lia. Qed.

Lemma days_before_month_mono y m1 m2 :
  1 ≤ m1 → m1 < m2 ≤ 12 → days_before_month y m1 + days_in_month y m1 ≤ days_before_month y m2.
Proof.
  intros Hm1 Hm2. assert (∃ k, m2 = m1 + 1 + Z.of_nat k) as [k ->] by (exists (Z.to_nat (m2 - m1 - 1)); lia).
  induction k as [|k IH].
  - rewrite Z.add_0_r, days_before_month_step; lia.
  - replace (m1 + 1 + Z.of_nat (S k)) with (m1 + 1 + Z.of_nat k + 1) by lia.
    rewrite days_before_month_step by lia.
    pose proof (days_in_month_bounds y (m1 + 1 + Z.of_nat k)). lia.
Qed.

Lemma day_number_bounds y m d :
  valid_day y m d → days_before_year y < day_number y m d ≤ days_before_year (y + 1).
Proof.
  intros [Hm Hd]. pose proof (day_number_december y 0) as E. unfold day_number in *.
  assert (∀ y, days_before_month y 1 = 0) as F by done. rewrite F in E.
  assert (0 ≤ days_before_month y m).
  { destruct (decide (m = 1)) as [->|]; [by rewrite F|].
    pose proof (days_before_month_mono y 1 m). pose proof (days_in_month_bounds y 1). rewrite F in *. lia. }
  assert (days_before_month y m + days_in_month y m ≤ days_before_month y 12 + 31).
  { destruct (decide (m = 12)) as [->|]; [done|]. pose proof (days_before_month_mono y m 12). lia. }
  lia.
Qed.

Definition day_lt (y1 m1 d1 y2 m2 d2 : Z) : Prop :=
  y1 < y2 ∨ y1 = y2 ∧ (m1 < m2 ∨ m1 = m2 ∧ d1 < d2).

Lemma day_number_lt y1 m1 d1 y2 m2 d2 :
  valid_day y1 m1 d1 → valid_day y2 m2 d2 → day_lt y1 m1 d1 y2 m2 d2 →
  day_number y1 m1 d1 < day_number y2 m2 d2.
Proof.
  intros V1 V2 [Hy|[-> [Hm|[-> Hd]]]].
  - pose proof (day_number_bounds _ _ _ V1). pose proof (day_number_bounds _ _ _ V2).
    pose proof (days_before_year_mono y1 y2 Hy). lia.
  - destruct V1, V2. pose proof (days_before_month_mono y2 m1 m2). unfold day_number. lia.
  - unfold day_number. lia.
Qed.

Definition lex_lt (f g : fields) : Prop :=
  day_lt f.(y) f.(m) f.(d) g.(y) g.(m) g.(d) ∨
  (f.(y) = g.(y) ∧ f.(m) = g.(m) ∧ f.(d) = g.(d)) ∧
    (f.(hh) < g.(hh) ∨ f.(hh) = g.(hh) ∧ (f.(mm) < g.(mm) ∨ f.(mm) = g.(mm) ∧ f.(ss) < g.(ss))).

Lemma second_number_lt f g : valid f → valid g → lex_lt f g → second_number f < second_number g.
Proof.
  intros (V1 & ? & ? & ?) (V2 & ? & ? & ?) L. unfold second_number. destruct L as [L|[(-> & -> & ->) L]].
  - pose proof (day_number_lt _ _ _ _ _ _ V1 V2 L). lia.
  - lia.
Qed.

Lemma lex_total f g : lex_lt f g ∨ f = g ∨ lex_lt g f.
Proof.
  destruct f as [y1 m1 d1 h1 n1 s1], g as [y2 m2 d2 h2 n2 s2]. unfold lex_lt, day_lt. simpl.
  destruct (Z.lt_total y1 y2) as [|[->|]]; [lia| |lia]. destruct (Z.lt_total m1 m2) as [|[->|]]; [lia| |lia].
  destruct (Z.lt_total d1 d2) as [|[->|]]; [lia| |lia]. destruct (Z.lt_total h1 h2) as [|[->|]]; [lia| |lia].
  destruct (Z.lt_total n1 n2) as [|[->|]]; [lia| |lia]. destruct (Z.lt_total s1 s2) as [|[->|]]; [lia| |lia].
  auto.
Qed.

(** Valid fields are determined by their instant. *)
Lemma second_number_inj f g : valid f → valid g → second_number f = second_number g → f = g.
Proof.
  intros Vf Vg E. destruct (lex_total f g) as [L|[->|L]]; [|done|].
  all: apply second_number_lt in L; [lia|done..].
Qed.

Lemma civil_lt_spec f g : civil_lt f g ↔ lex_lt f g.
Proof.
  unfold civil_lt, lex_lt, day_lt.
  rewrite !orb_True, !andb_True, !orb_True, !andb_True, !orb_True, !andb_True, !orb_True, !andb_True,
    !orb_True, !andb_True, !Is_true_true, !Z.ltb_lt, !Z.eqb_eq. lia.
Qed.

(** C14: Whatever 64-bit month, day, hour, minute and second are given (and a
    year of at most half the range), normalisation overflows nowhere and
    returns the valid date and time that is as many seconds from the epoch as
    the given fields say, the only one there is. *)
Theorem civil_normalisation_exact y m d hh mm ss :
  half y → i64 m → i64 d → i64 hh → i64 mm → i64 ss →
  ∃ f, n_sec y m d hh mm ss = Ret f ∧ valid f ∧ second_number f = raw_second y m d hh mm ss ∧
    ∀ g, valid g → second_number g = raw_second y m d hh mm ss → g = f.
Proof.
  intros Hy Hm Hd Hh Hmm Hss.
  destruct (n_sec_spec y m d hh mm ss) as (f & R & V & N & _); try done.
  exists f. split_and!; try done. intros g Vg Ng. apply second_number_inj; congruence.
Qed.

Lemma civil_normalisation_exact_witness :
  ∃ f, n_sec 2026 14 (- 400) 50 (- 3000000000) 90 = Ret f ∧ valid f ∧
    second_number f = raw_second 2026 14 (- 400) 50 (- 3000000000) 90 ∧
    ∀ g, valid g → second_number g = raw_second 2026 14 (- 400) 50 (- 3000000000) 90 → g = f.
Proof. apply civil_normalisation_exact; unfold half, i64; lia. Defined.

(** The comparisons of all six fields order valid times as their distance from
    the epoch does. *)
Lemma civil_order_is_time_order f g :
  valid f → valid g →
  (civil_lt f g ↔ second_number f < second_number g) ∧
  (civil_le f g ↔ second_number f ≤ second_number g) ∧
  (civil_eq f g ↔ second_number f = second_number g).
Proof.
  intros Vf Vg.
  assert (∀ a b, valid a → valid b → civil_lt a b ↔ second_number a < second_number b) as lt.
  { intros a b Va Vb. rewrite civil_lt_spec. split; [by apply second_number_lt|].
    intros H. destruct (lex_total a b) as [L|[->|L]]; [done|lia|]. apply second_number_lt in L; [lia|done..]. }
  split_and!; [by apply lt| |].
  - unfold civil_le. rewrite negb_True, lt by done. lia.
  - unfold civil_eq. rewrite !andb_True, !Is_true_true, !Z.eqb_eq. split.
    + destruct f, g; simpl. by intros (((((-> & ->) & ->) & ->) & ->) & ->).
    + intros E. by rewrite (second_number_inj f g Vf Vg E).
Qed.

Lemma civil_order_is_time_order_witness :
  let f := mkFields 2026 12 31 23 59 59 in let g := mkFields 2027 1 1 0 0 0 in
  (civil_lt f g ↔ second_number f < second_number g) ∧
  (civil_le f g ↔ second_number f ≤ second_number g) ∧
  (civil_eq f g ↔ second_number f = second_number g).
Proof. apply civil_order_is_time_order; vm_compute; intuition congruence. Defined.

(** ** Differences *)
(** The shifted year [e], from March, and the day [doy] of it. *)
Lemma ymd_ord_march e doy :
  - 1000 < e < 1000 → 0 ≤ doy < 400 →
  (e' ← (if 0 <=? e then Ret e else e -! 399);
   let era := e' ÷ 400 in
   eras ← era *! 400; yoe ← e -! eras;
   let doe := yoe * 365 + yoe ÷ 4 - yoe ÷ 100 + doy in
   days ← era *! 146097; s ← days +! doe; s -! 719468) =
  Ret (days_before_year (e + 1) + doy - 719468).
Proof.
  intros He Hd. replace (days_before_year (e + 1)) with (365 * e + (e / 4 - e / 100 + e / 400))
    by (unfold days_before_year, leaps; rewrite Z.add_simpl_r; lia).
  destruct (Z.leb_spec 0 e); ov; f_equal.
  - replace (e ÷ 400) with (e / 400) by lia. lia.
  - replace ((e - 399) ÷ 400) with (e / 400) by lia. lia.
Qed.

Lemma ymd_ord_spec y m d :
  - 400 < y < 400 → valid_day y m d → ymd_ord y m d = Ret (day_number y m d - 719163).
Proof.
  intros Hy [Hm Hd]. pose proof (days_in_month_bounds y m). unfold ymd_ord.
  rewrite day_number_march by done. unfold march_year.
  months m; simpl; rewrite ?(chk64_ok (y - 1)) by lia; simpl.
  all: (etransitivity; [apply ymd_ord_march; lia|]); f_equal; rewrite ?Z.add_0_r, ?Z.sub_add; lia.
Qed.

Lemma valid_day_rem y m d : valid_day y m d → valid_day (y %% 400) m d.
Proof.
  rewrite <- (valid_day_400 (y %% 400) m d (y ÷ 400)).
  replace (y %% 400 + 400 * (y ÷ 400)) with y by (pose proof (Z.quot_rem' y 400); lia). done.
Qed.

Lemma day_number_rem y m d :
  valid_day y m d → day_number y m d = day_number (y %% 400) m d + 146097 * (y ÷ 400).
Proof.
  intros [Hm _]. rewrite <- day_number_400 by done. f_equal. pose proof (Z.quot_rem' y 400). lia.
Qed.

Lemma day_number_cycle y m d : valid_day y m d → - 146097 < day_number (y %% 400) m d ≤ 145731.
Proof.
  intros V%valid_day_rem. apply day_number_bounds in V.
  assert (- 400 < y %% 400 < 400) as Hr by lia. revert V Hr. generalize (y %% 400). intros r V Hr.
  unfold days_before_year, leaps in V. rewrite Z.add_simpl_r in V. lia.
Qed.

(** A day difference that fits 64 bits is computed without overflow. *)
Lemma day_difference_spec y1 m1 d1 y2 m2 d2 :
  valid_day y1 m1 d1 → valid_day y2 m2 d2 → i64 y1 → i64 y2 →
  i64 (day_number y1 m1 d1 - day_number y2 m2 d2) →
  day_difference y1 m1 d1 y2 m2 d2 = Ret (day_number y1 m1 d1 - day_number y2 m2 d2).
Proof.
  intros V1 V2 Hy1 Hy2 Hd. unfold day_difference. cbv zeta. unfold i64 in *.
  rewrite (day_number_rem _ _ _ V1), (day_number_rem _ _ _ V2) in *.
  rewrite !ymd_ord_spec by (try apply valid_day_rem; try done; lia).
  pose proof (day_number_cycle _ _ _ V1) as B1. pose proof (day_number_cycle _ _ _ V2) as B2.
  revert B1 B2 Hd. generalize (day_number (y1 %% 400) m1 d1) (day_number (y2 %% 400) m2 d2). intros N1 N2 B1 B2 Hd.
  quot_rem y1 400. quot_rem y2 400. ov.
  destruct (Z.ltb_spec 0 (y1 - r - (y2 - r0))), (Z.ltb_spec (N1 - 719163 - (N2 - 719163)) 0); ov.
  { f_equal. lia. }
  all: destruct (Z.ltb_spec (y1 - r - (y2 - r0)) 0), (Z.ltb_spec 0 (N1 - 719163 - (N2 - 719163))); ov; try lia.
  all: f_equal; lia.
Qed.

Lemma scale_add_spec v f a :
  0 < f ≤ 60 → - f < a < f → i64 (v * f + a) → i64 v ∧ scale_add v f a = Ret (v * f + a).
Proof.
  unfold i64, scale_add. intros Hf Ha Hr. assert (- 2 ^ 63 ≤ v < 2 ^ 63) as Hv by nia.
  split; [done|]. destruct (Z.ltb_spec v 0).
  - rewrite chk64_ok by lia. simpl. rewrite chk64_ok by nia. simpl. rewrite chk64_ok by nia. simpl.
    rewrite chk64_ok by nia. f_equal. lia.
  - rewrite chk64_ok by lia. simpl. rewrite chk64_ok by nia. simpl. rewrite chk64_ok by nia. simpl.
    rewrite chk64_ok by nia. f_equal. lia.
Qed.

(** The number of the unit [t] that a civil time lies in. *)
Definition unit_number (t : tag) (f : fields) : Z :=
  let day := day_number f.(y) f.(m) f.(d) in
  match t with
  | year_tag => f.(y)
  | month_tag => f.(y) * 12 + f.(m)
  | day_tag => day
  | hour_tag => day * 24 + f.(hh)
  | minute_tag => (day * 24 + f.(hh)) * 60 + f.(mm)
  | second_tag => second_number f
  end.

(** One more unit of the chain. *)
Lemma difference_from_spec v0 v k f a ts r :
  v = Ret v0 → 0 < f ≤ 60 → - f < a < f → k = v0 * f + a → i64 k →
  difference_from ts (Ret k) = r → difference_from ((f, a) :: ts) v = r.
Proof.
  intros -> Hf Ha -> Hk <-. simpl. by destruct (scale_add_spec v0 f a) as [_ ->].
Qed.

Lemma difference_spec t f g :
  valid f → valid g → i64 f.(y) → i64 g.(y) → i64 (unit_number t f - unit_number t g) →
  difference t f g = Ret (unit_number t f - unit_number t g).
Proof.
  intros (Vf & Hhf & Hmf & Hsf) (Vg & Hhg & Hmg & Hsg) Hy Hy' Hn. unfold difference, i64 in *.
  pose proof (day_difference_spec _ _ _ _ _ _ Vf Vg Hy Hy') as day. unfold i64 in day.
  pose proof (proj1 Vf). pose proof (proj1 Vg).
  destruct t; unfold unit_number, second_number in *; cbv zeta in *.
  - eapply difference_from_spec; [apply day; lia|lia|lia|reflexivity|unfold i64; lia|].
    eapply difference_from_spec; [reflexivity|lia|lia|reflexivity|unfold i64; lia|].
    eapply difference_from_spec; [reflexivity|lia|lia|reflexivity|unfold i64; lia|].
    simpl. f_equal. lia.
  - eapply difference_from_spec; [apply day; lia|lia|lia|reflexivity|unfold i64; lia|].
    eapply difference_from_spec; [reflexivity|lia|lia|reflexivity|unfold i64; lia|].
    simpl. f_equal. lia.
  - eapply difference_from_spec; [apply day; lia|lia|lia|reflexivity|unfold i64; lia|].
    simpl. f_equal. lia.
  - by apply day.
  - eapply difference_from_spec; [apply chk64_ok; lia|lia|lia|reflexivity|unfold i64; lia|].
    simpl. f_equal. lia.
  - by rewrite chk64_ok by lia.
Qed.

(** The difference of two civil times in any unit is exact whenever it fits 64
    bits. *)
Lemma civil_difference_exact t f g :
  valid f → valid g → i64 f.(y) → i64 g.(y) → i64 (unit_number t f - unit_number t g) →
  difference t f g = Ret (unit_number t f - unit_number t g).
Proof. apply difference_spec. Qed.

Lemma civil_difference_exact_witness :
  difference second_tag (mkFields 2026 11 16 8 30 0) (mkFields 1970 1 1 0 0 0) = Ret 1794817800.
Proof.
  rewrite civil_difference_exact; [vm_compute; reflexivity|..]; apply (bool_decide_unpack _); by vm_compute.
Defined.

(** ** Stepping *)
Definition aligned (t : tag) (f : fields) : Prop := align t f = f.

(** [o] is the aligned civil time in the unit [n]. *)
Definition unit_of (o : outcome fields) (t : tag) (n : Z) : Prop :=
  ∃ f, o = Ret f ∧ valid f ∧ aligned t f ∧ unit_number t f = n ∧ i64 f.(y).

Lemma unit_number_inj t f g :
  valid f → valid g → aligned t f → aligned t g → unit_number t f = unit_number t g → f = g.
Proof.
  intros Vf Vg Af Ag E. pose proof (proj1 (proj1 Vf)). pose proof (proj1 (proj1 Vg)).
  destruct t.
  1-4: apply second_number_inj; [done..|].
  1-4: rewrite <- Af, <- Ag; unfold second_number; simpl in *; unfold second_number in *; lia.
  - rewrite <- Af, <- Ag. simpl in *. f_equal; lia.
  - rewrite <- Af, <- Ag. simpl in *. f_equal; lia.
Qed.

Lemma instant_minute o n : instant_of o (n * 60) → unit_of o minute_tag n.
Proof.
  intros (f & -> & V & N & B). pose proof V as (_ & ? & ? & ?). exists f. unfold aligned, second_number in *.
  destruct f as [y m d h n0 s]; simpl in *. split_and!; try done; [f_equal; lia|lia].
Qed.

Lemma instant_hour o n : instant_of o (n * 60 * 60) → unit_of o hour_tag n.
Proof.
  intros (f & -> & V & N & B). pose proof V as (_ & ? & ? & ?). exists f. unfold aligned, second_number in *.
  destruct f as [y m d h n0 s]; simpl in *. split_and!; try done; [f_equal; lia|lia].
Qed.

Lemma instant_second o n : instant_of o n → unit_of o second_tag n.
Proof. intros (f & -> & V & N & B). by exists f. Qed.

Lemma date_day o n : date_of o n 0 0 0 → unit_of o day_tag n.
Proof.
  intros (y & m & d & -> & V & N & B). eexists. split; [done|]. unfold valid. simpl.
  split_and!; try done; apply V.
Qed.

Lemma date_month o y m :
  date_of o (raw_day y m 1) 0 0 0 → unit_of o month_tag (y * 12 + m).
Proof.
  intros (y' & m' & d' & -> & V & N & B). set (M := (m - 1) mod 12 + 1).
  assert (1 ≤ M ≤ 12) by (unfold M; lia).
  assert (valid_day (y + (m - 1) / 12) M 1) as V1.
  { pose proof (days_in_month_bounds (y + (m - 1) / 12) M). unfold valid_day. lia. }
  assert (∀ y m d, valid_day y m d → valid (mkFields y m d 0 0 0)) as lift.
  { intros ? ? ? ?. unfold valid. simpl. split_and!; try done; lia. }
  pose proof (second_number_inj _ _ (lift _ _ _ V) (lift _ _ _ V1)) as E.
  unfold second_number in E. simpl in E. unfold raw_day in N. fold M in N. rewrite N in E.
  specialize (E eq_refl) as [= -> -> ->]. eexists. split; [done|]. unfold aligned. simpl.
  split_and!; try done. unfold M. lia.
Qed.

(** Within [b] of zero. *)
Definition within (b z : Z) : Prop := - b ≤ z ≤ b.

Lemma unit_eq o t n n' : unit_of o t n → n = n' → unit_of o t n'.
Proof. by intros ? <-. Qed.

Lemma step_spec t f n :
  valid f → aligned t f → within (2 ^ 61 + 2 ^ 60) f.(y) → within (2 ^ 61) n →
  unit_of (step t f n) t (unit_number t f + n).
Proof.
  intros V A Hy Hn. pose proof V as ((Hm & Hd) & Hh & Hmm & Hs).
  pose proof (days_in_month_bounds f.(y) f.(m)). destruct f as [y m d hh mm ss]. unfold aligned, within in *.
  pose proof (raw_day_valid y m d Hm) as Hraw. unfold raw_second in *.
  destruct t; simpl in *; try injection A as <-; subst; cbv zeta.
  - quot_rem n 60. ov. eapply unit_eq; [apply instant_second, n_sec_spec; unfold half, i64; lia|].
    unfold raw_second, second_number. simpl. rewrite Hraw. lia.
  - quot_rem n 60. ov. apply instant_minute. eapply instant_eq; [apply n_min_spec; unfold half, i64; lia|].
    rewrite Hraw. lia.
  - quot_rem n 24. ov. apply instant_hour. eapply instant_eq; [apply n_hour_spec; unfold half, i64; lia|].
    unfold raw_day. rewrite day_number_day. fold (raw_day y m d). rewrite Hraw. lia.
  - apply date_day, n_day_spec; lia.
  - quot_rem n 12. ov. eapply unit_eq.
    + apply date_month. rewrite <- (Z.add_0_r (raw_day _ _ _)). apply n_mon_spec; unfold half, i64; lia.
    + lia.
  - ov. eexists. split; [done|]. unfold valid, valid_day, aligned, i64, days_in_month. simpl.
    split_and!; try done; lia.
Qed.

Lemma unit_number_year t f g :
  valid f → valid g → within (2 ^ 60) (unit_number t g - unit_number t f) →
  within (2 ^ 60 + 1) (g.(y) - f.(y)).
Proof.
  intros ((Hm & Hd) & Hh & Hmm & Hs) ((Hm' & Hd') & Hh' & Hmm' & Hs') Hn. unfold within in *.
  pose proof (day_number_bounds f.(y) f.(m) f.(d) (conj Hm Hd)) as Bf.
  pose proof (day_number_bounds g.(y) g.(m) g.(d) (conj Hm' Hd')) as Bg.
  unfold days_before_year, leaps in Bf, Bg.
  destruct t; unfold unit_number, second_number in Hn; cbv zeta in Hn; lia.
Qed.

(** C29: Stepping a civil time by n of its units lands on the aligned valid
    time n units away, from which the difference reads n and stepping back
    returns to the start (years and n within 2^60). *)
Theorem civil_steps_round_trip t f n :
  valid f → aligned t f → within (2 ^ 60) f.(y) → within (2 ^ 60) n →
  ∃ g, plus t f n = Ret g ∧ valid g ∧ aligned t g ∧ unit_number t g = unit_number t f + n ∧
    difference t g f = Ret n ∧ minus t g n = Ret f.
Proof.
  intros V A Hy Hn. destruct (step_spec t f n) as (g & R & Vg & Ag & Ng & Bg);
    [done..|unfold within in *; lia|unfold within in *; lia|].
  assert (within (2 ^ 60 + 1) (g.(y) - f.(y))) as Hg.
  { apply (unit_number_year t); [done..|]. rewrite Ng. unfold within in *. lia. }
  destruct (step_spec t g (0 - n)) as (h & R' & Vh & Ah & Nh & Bh);
    [done..|unfold within in *; lia|unfold within in *; lia|].
  exists g. split_and!; try done.
  - rewrite difference_spec; rewrite ?Ng; try done; [f_equal; lia|unfold i64, within in *; lia..].
  - unfold minus. destruct (Z.eqb_spec n (- 2 ^ 63)); [unfold within in *; lia|].
    simpl. rewrite chk64_ok by (unfold within in *; lia). simpl. rewrite R'. f_equal.
    apply (unit_number_inj t); try done. lia.
Qed.

Lemma civil_steps_round_trip_witness :
  ∃ g, plus month_tag (mkFields 2026 11 1 0 0 0) 15 = Ret g ∧ valid g ∧ aligned month_tag g ∧
    unit_number month_tag g = unit_number month_tag (mkFields 2026 11 1 0 0 0) + 15 ∧
    difference month_tag g (mkFields 2026 11 1 0 0 0) = Ret 15 ∧
    minus month_tag g 15 = Ret (mkFields 2026 11 1 0 0 0).
Proof. apply civil_steps_round_trip; vm_compute; intuition congruence. Defined.

(** ** Weekdays *)
Definition weekday_number (w : weekday) : Z :=
  match w with
  | monday => 0 | tuesday => 1 | wednesday => 2 | thursday => 3 | friday => 4 | saturday => 5 | sunday => 6
  end.

Lemma weekday_number_inj v w : weekday_number v = weekday_number w → v = w.
Proof. by destruct v, w. Qed.

Lemma by_mon_off_number r :
  0 ≤ r < 7 → weekday_number (nth (Z.to_nat (r + 6)) k_weekday_by_mon_off monday) = (r + 6) mod 7.
Proof.
  intros Hr. assert (r = 0 ∨ r = 1 ∨ r = 2 ∨ r = 3 ∨ r = 4 ∨ r = 5 ∨ r = 6) as H by lia.
  by destruct_or! H; subst r.
Qed.

(** The years are shifted by 2400 to be positive. *)
Lemma weekday_leaps z :
  - 1000 < z →
  (2400 + z) ÷ 4 - (2400 + z) ÷ 100 + (2400 + z) ÷ 400 = 582 + leaps z.
Proof. intros Hz. rewrite !Z.quot_div_nonneg by lia. unfold leaps. lia. Qed.

(** Day 1 is a Monday. *)
Lemma get_weekday_spec f :
  valid f → weekday_number (get_weekday f) = (day_number f.(y) f.(m) f.(d) + 6) mod 7.
Proof.
  intros (V & _). rewrite (day_number_rem _ _ _ V). unfold get_weekday.
  destruct V as [Hm Hd]. pose proof (days_in_month_bounds f.(y) f.(m)).
  rewrite day_number_march by done. unfold march_year, days_before_year.
  destruct f as [y m d h n s]; cbv zeta; cbn [Civil.y Civil.m Civil.d] in *.
  assert (- 400 < y %% 400 < 400) as Hr by lia. revert Hr. generalize (y %% 400) (y ÷ 400). intros r q Hr.
  assert (∃ z, 2400 + r - b2z (m <? 3) = 2400 + z ∧ r + b2z (2 <? m) - 1 = z ∧ - 401 ≤ z ≤ 400)
    as (z & -> & -> & Hz).
  { exists (r - b2z (m <? 3)). unfold b2z. destruct (Z.ltb_spec m 3), (Z.ltb_spec 2 m); lia. }
  rewrite weekday_leaps by lia. assert (- 200 ≤ leaps z) as HL by (unfold leaps; lia).
  revert HL. generalize (leaps z). intros L HL.
  rewrite by_mon_off_number; months m; simpl; lia.
Qed.

Lemma seek_forw v w :
  ∃ i j, seek v k_weekdays_forw 0 = Ret i ∧ seek w k_weekdays_forw (S i) = Ret j ∧
    1 ≤ Z.of_nat j - Z.of_nat i ≤ 7 ∧
    (weekday_number v + (Z.of_nat j - Z.of_nat i)) mod 7 = weekday_number w.
Proof.
  destruct v, w; eexists _, _; (split; [cbv; reflexivity|]); (split; [cbv; reflexivity|]);
    vm_compute; intuition congruence.
Qed.

Lemma seek_back v w :
  ∃ i j, seek v k_weekdays_back 0 = Ret i ∧ seek w k_weekdays_back (S i) = Ret j ∧
    1 ≤ Z.of_nat j - Z.of_nat i ≤ 7 ∧
    (weekday_number v - (Z.of_nat j - Z.of_nat i)) mod 7 = weekday_number w.
Proof.
  destruct v, w; eexists _, _; (split; [cbv; reflexivity|]); (split; [cbv; reflexivity|]);
    vm_compute; intuition congruence.
Qed.

Lemma weekday_after f g k :
  valid f → valid g → unit_number day_tag g = unit_number day_tag f + k →
  weekday_number (get_weekday g) = (weekday_number (get_weekday f) + k) mod 7.
Proof. intros Vf Vg E. rewrite !get_weekday_spec by done. simpl in E. rewrite E. lia. Qed.

(** [get_weekday] counts days modulo seven; [next_weekday] and [prev_weekday]
    find the wanted day within the week that follows or precedes. *)
Lemma civil_weekdays f w :
  valid f → aligned day_tag f → within (2 ^ 60) f.(y) →
  weekday_number (get_weekday f) = (unit_number day_tag f - 1) mod 7 ∧
  (∃ g, next_weekday f w = Ret g ∧ valid g ∧ get_weekday g = w ∧
     1 ≤ unit_number day_tag g - unit_number day_tag f ≤ 7) ∧
  (∃ g, prev_weekday f w = Ret g ∧ valid g ∧ get_weekday g = w ∧
     1 ≤ unit_number day_tag f - unit_number day_tag g ≤ 7).
Proof.
  intros V A Hy. split_and!.
  - rewrite get_weekday_spec by done. simpl. lia.
  - unfold next_weekday. destruct (seek_forw (get_weekday f) w) as (i & j & -> & E & Hk & Hw).
    simpl. rewrite E. simpl.
    destruct (step_spec day_tag f (Z.of_nat j - Z.of_nat i)) as (g & R & Vg & Ag & Ng & _);
      [done..|unfold within in *; lia|unfold within; lia|].
    exists g. pose proof Ng as Ng'. simpl in Ng'. split_and!; try done; try lia.
    apply weekday_number_inj. by rewrite (weekday_after f g _ V Vg Ng).
  - unfold prev_weekday. destruct (seek_back (get_weekday f) w) as (i & j & -> & E & Hk & Hw).
    simpl. rewrite E. simpl. unfold minus.
    destruct (Z.eqb_spec (Z.of_nat j - Z.of_nat i) (- 2 ^ 63)); [lia|]. simpl.
    rewrite chk64_ok by lia. simpl.
    destruct (step_spec day_tag f (0 - (Z.of_nat j - Z.of_nat i))) as (g & R & Vg & Ag & Ng & _);
      [done..|unfold within in *; lia|unfold within; lia|].
    exists g. pose proof Ng as Ng'. simpl in Ng'. split_and!; try done; try lia.
    apply weekday_number_inj. rewrite (weekday_after f g _ V Vg Ng), <- Hw.
    f_equal.
Qed.

Lemma civil_weekdays_witness :
  let f := mkFields 2026 11 16 0 0 0 in
  weekday_number (get_weekday f) = (unit_number day_tag f - 1) mod 7 ∧
  (∃ g, next_weekday f monday = Ret g ∧ valid g ∧ get_weekday g = monday ∧
     1 ≤ unit_number day_tag g - unit_number day_tag f ≤ 7) ∧
  (∃ g, prev_weekday f monday = Ret g ∧ valid g ∧ get_weekday g = monday ∧
     1 ≤ unit_number day_tag f - unit_number day_tag g ≤ 7).
Proof. apply civil_weekdays; vm_compute; intuition congruence. Defined.

Lemma get_yearday_spec f :
  valid f → get_yearday f = day_number f.(y) f.(m) f.(d) - days_before_year f.(y).
Proof.
  intros ((Hm & _) & _). rewrite day_number_march by done. unfold get_yearday, march_year.
  rewrite is_leap_year_spec. pose proof (year_length f.(y)). destruct f as [y m d h n s]; simpl in *.
  months m; simpl; rewrite ?Z.add_0_r; lia.
Qed.
