(* ===== verification/RtcData.v ===== *)
(** * The data of libwebrtc's interface

    The enumerations and structures of the library's headers that the client's
    code names or fills in: api/peer_connection_interface.h, api/jsep.h,
    api/rtc_error.h, api/crypto/crypto_options.h, api/transport/enums.h,
    media/base/media_config.h, rtc_base/logging.h and
    rtc_base/network_constants.h, with the member functions the headers
    define. Pointers to library objects are numbers. *)

From stdpp Require Import base list strings gmap.
From Stdlib Require Import Ascii ZArith Lia.
From S2P Require Import Prelude CppString.

Local Open Scope Z_scope.

Module Rtc.

(** ** Enumerations *)
Inductive SdpSemantics := kPlanB | kUnifiedPlan.
Inductive SignalingState :=
  | kStable | kHaveLocalOffer | kHaveLocalPrAnswer | kHaveRemoteOffer | kHaveRemotePrAnswer
  | kSignalingClosed.
Inductive IceGatheringState :=
  | kIceGatheringNew | kIceGatheringGathering | kIceGatheringComplete.
Inductive PeerConnectionState :=
  | kNew | kConnecting | kConnected | kDisconnected | kFailed | kClosed.
Inductive IceConnectionState :=
  | kIceConnectionNew | kIceConnectionChecking | kIceConnectionConnected
  | kIceConnectionCompleted | kIceConnectionFailed | kIceConnectionDisconnected
  | kIceConnectionClosed | kIceConnectionMax.
Inductive TlsCertPolicy := kTlsCertPolicySecure | kTlsCertPolicyInsecureNoCheck.
Inductive IceTransportsType := kNone | kRelay | kNoHost | kAll.
Inductive BundlePolicy := kBundlePolicyBalanced | kBundlePolicyMaxBundle | kBundlePolicyMaxCompat.
Inductive RtcpMuxPolicy := kRtcpMuxPolicyNegotiate | kRtcpMuxPolicyRequire.
Inductive TcpCandidatePolicy := kTcpCandidatePolicyEnabled | kTcpCandidatePolicyDisabled.
Inductive CandidateNetworkPolicy := kCandidateNetworkPolicyAll | kCandidateNetworkPolicyLowCost.
Inductive ContinualGatheringPolicy := GATHER_ONCE | GATHER_CONTINUALLY.
Inductive PortPrunePolicy := NO_PRUNE | PRUNE_BASED_ON_PRIORITY | KEEP_FIRST_READY.
Inductive SdpType := kOffer | kPrAnswer | kAnswer | kRollback.
Inductive LoggingSeverity := LS_VERBOSE | LS_INFO | LS_WARNING | LS_ERROR | LS_NONE.
Inductive AdapterType :=
  | ADAPTER_TYPE_UNKNOWN | ADAPTER_TYPE_ETHERNET | ADAPTER_TYPE_WIFI | ADAPTER_TYPE_CELLULAR
  | ADAPTER_TYPE_VPN | ADAPTER_TYPE_LOOPBACK | ADAPTER_TYPE_ANY | ADAPTER_TYPE_CELLULAR_2G
  | ADAPTER_TYPE_CELLULAR_3G | ADAPTER_TYPE_CELLULAR_4G | ADAPTER_TYPE_CELLULAR_5G.
Inductive RTCErrorType :=
  | NONE | UNSUPPORTED_OPERATION | UNSUPPORTED_PARAMETER | INVALID_PARAMETER | INVALID_RANGE
  | SYNTAX_ERROR | INVALID_STATE | INVALID_MODIFICATION | NETWORK_ERROR | RESOURCE_EXHAUSTED
  | INTERNAL_ERROR | OPERATION_ERROR_WITH_DATA.
Inductive RTCErrorDetailType :=
  | DETAIL_NONE | DATA_CHANNEL_FAILURE | DTLS_FAILURE | FINGERPRINT_FAILURE | SCTP_FAILURE
  | SDP_SYNTAX_ERROR | HARDWARE_ENCODER_NOT_AVAILABLE | HARDWARE_ENCODER_ERROR.

#[global] Instance pc_state_eq_dec : EqDecision PeerConnectionState.
Proof. solve_decision. Defined.
#[global] Instance tls_eq_dec : EqDecision TlsCertPolicy.
Proof. solve_decision. Defined.
#[global] Instance error_type_eq_dec : EqDecision RTCErrorType.
Proof. solve_decision. Defined.

(** The values of the enumerators. *)
Definition signaling_state_int (s : SignalingState) : Z :=
  match s with
  | kStable => 0 | kHaveLocalOffer => 1 | kHaveLocalPrAnswer => 2 | kHaveRemoteOffer => 3
  | kHaveRemotePrAnswer => 4 | kSignalingClosed => 5
  end.
Definition ice_gathering_int (s : IceGatheringState) : Z :=
  match s with kIceGatheringNew => 0 | kIceGatheringGathering => 1 | kIceGatheringComplete => 2 end.
Definition pc_state_int (s : PeerConnectionState) : Z :=
  match s with
  | kNew => 0 | kConnecting => 1 | kConnected => 2 | kDisconnected => 3 | kFailed => 4 | kClosed => 5
  end.
Definition ice_connection_int (s : IceConnectionState) : Z :=
  match s with
  | kIceConnectionNew => 0 | kIceConnectionChecking => 1 | kIceConnectionConnected => 2
  | kIceConnectionCompleted => 3 | kIceConnectionFailed => 4 | kIceConnectionDisconnected => 5
  | kIceConnectionClosed => 6 | kIceConnectionMax => 7
  end.

(** ** RTCError *)
Record RTCError := mkError {
  type_ : RTCErrorType;
  message_ : str;
  error_detail_ : RTCErrorDetailType;
  sctp_cause_code_ : option Z
}.

Definition no_error : RTCError := mkError NONE [] DETAIL_NONE None.
Definition error_of (type : RTCErrorType) (message : str) : RTCError :=
  mkError type message DETAIL_NONE None.
Definition error_ok (e : RTCError) : bool := bool_decide (e.(type_) = NONE).

(** ** IceServer *)
Record IceServer := mkServer {
  uri : str;
  urls : list str;
  username : str;
  password : str;
  tls_cert_policy : TlsCertPolicy;
  hostname : str;
  tls_alpn_protocols : list str;
  tls_elliptic_curves : list str
}.

Definition new_server : IceServer := mkServer [] [] [] [] kTlsCertPolicySecure [] [] [].

(** [IceServer::operator==] *)
Definition server_eq (a o : IceServer) : bool :=
  bool_decide (a.(uri) = o.(uri)) && bool_decide (a.(urls) = o.(urls)) &&
  bool_decide (a.(username) = o.(username)) && bool_decide (a.(password) = o.(password)) &&
  bool_decide (a.(tls_cert_policy) = o.(tls_cert_policy)) &&
  bool_decide (a.(hostname) = o.(hostname)) &&
  bool_decide (a.(tls_alpn_protocols) = o.(tls_alpn_protocols)) &&
  bool_decide (a.(tls_elliptic_curves) = o.(tls_elliptic_curves)).

(** ** MediaConfig and CryptoOptions *)
Record MediaConfig := mkMedia {
  enable_dscp : bool;
  enable_cpu_adaptation : bool;
  suspend_below_min_bitrate_ : bool;
  enable_prerenderer_smoothing : bool;
  periodic_alr_bandwidth_probing : bool;
  experiment_cpu_load_estimator_ : bool;
  video_rtcp_report_interval : Z;
  audio_rtcp_report_interval : Z
}.

Definition new_media : MediaConfig := mkMedia false true false true false false 1000 5000.

(** [MediaConfig::operator==] *)
Definition media_eq (a o : MediaConfig) : bool :=
  Bool.eqb a.(enable_dscp) o.(enable_dscp) &&
  Bool.eqb a.(enable_cpu_adaptation) o.(enable_cpu_adaptation) &&
  Bool.eqb a.(suspend_below_min_bitrate_) o.(suspend_below_min_bitrate_) &&
  Bool.eqb a.(enable_prerenderer_smoothing) o.(enable_prerenderer_smoothing) &&
  Bool.eqb a.(periodic_alr_bandwidth_probing) o.(periodic_alr_bandwidth_probing) &&
  Bool.eqb a.(experiment_cpu_load_estimator_) o.(experiment_cpu_load_estimator_) &&
  (a.(video_rtcp_report_interval) =? o.(video_rtcp_report_interval)) &&
  (a.(audio_rtcp_report_interval) =? o.(audio_rtcp_report_interval)).

Record CryptoOptions := mkCrypto {
  enable_gcm_crypto_suites : bool;
  enable_aes128_sha1_32_crypto_cipher : bool;
  enable_aes128_sha1_80_crypto_cipher : bool;
  enable_encrypted_rtp_header_extensions : bool;
  require_frame_encryption : bool
}.

(** ** RTCConfiguration *)
Definition kUndefined : Z := -1.
Definition kAudioJitterBufferMaxPackets : Z := 200.
Definition kDefaultMaxIPv6Networks : Z := 5.

Record RTCConfiguration := mkConfig {
  servers : list IceServer;
  transports : IceTransportsType;
  bundle_policy : BundlePolicy;
  rtcp_mux_policy : RtcpMuxPolicy;
  certificates : list nat;
  ice_candidate_pool_size : Z;
  disable_ipv6 : bool;
  disable_ipv6_on_wifi : bool;
  max_ipv6_networks : Z;
  disable_link_local_networks : bool;
  enable_rtp_data_channel : bool;
  screencast_min_bitrate : option Z;
  combined_audio_video_bwe : option bool;
  enable_dtls_srtp : option bool;
  tcp_candidate_policy : TcpCandidatePolicy;
  candidate_network_policy : CandidateNetworkPolicy;
  audio_jitter_buffer_max_packets : Z;
  audio_jitter_buffer_fast_accelerate : bool;
  audio_jitter_buffer_min_delay_ms : Z;
  audio_jitter_buffer_enable_rtx_handling : bool;
  ice_connection_receiving_timeout : Z;
  ice_backup_candidate_pair_ping_interval : Z;
  continual_gathering_policy : ContinualGatheringPolicy;
  prioritize_most_likely_ice_candidate_pairs : bool;
  media_config : MediaConfig;
  prune_turn_ports : bool;
  turn_port_prune_policy : PortPrunePolicy;
  presume_writable_when_fully_relayed : bool;
  enable_ice_renomination : bool;
  redetermine_role_on_ice_restart : bool;
  surface_ice_candidates_on_ice_transport_type_changed : bool;
  ice_check_interval_strong_connectivity : option Z;
  ice_check_interval_weak_connectivity : option Z;
  ice_check_min_interval : option Z;
  ice_unwritable_timeout : option Z;
  ice_unwritable_min_checks : option Z;
  ice_inactive_timeout : option Z;
  stun_candidate_keepalive_interval : option Z;
  turn_customizer : option nat;
  network_preference : option AdapterType;
  sdp_semantics : SdpSemantics;
  active_reset_srtp_params : bool;
  crypto_options : option CryptoOptions;
  offer_extmap_allow_mixed : bool;
  turn_logging_id : str;
  enable_implicit_rollback : bool;
  allow_codec_switching : option bool
}.

(** The default configuration with other servers, transports, DTLS-SRTP and
    semantics: the four settings the client assigns. *)
Definition config_with (ss : list IceServer) (ty : IceTransportsType) (dtls : option bool)
    (sem : SdpSemantics) : RTCConfiguration := {|
  servers := ss;
  transports := ty;
  bundle_policy := kBundlePolicyBalanced;
  rtcp_mux_policy := kRtcpMuxPolicyRequire;
  certificates := [];
  ice_candidate_pool_size := 0;
  disable_ipv6 := false;
  disable_ipv6_on_wifi := false;
  max_ipv6_networks := kDefaultMaxIPv6Networks;
  disable_link_local_networks := false;
  enable_rtp_data_channel := false;
  screencast_min_bitrate := None;
  combined_audio_video_bwe := None;
  enable_dtls_srtp := dtls;
  tcp_candidate_policy := kTcpCandidatePolicyEnabled;
  candidate_network_policy := kCandidateNetworkPolicyAll;
  audio_jitter_buffer_max_packets := kAudioJitterBufferMaxPackets;
  audio_jitter_buffer_fast_accelerate := false;
  audio_jitter_buffer_min_delay_ms := 0;
  audio_jitter_buffer_enable_rtx_handling := false;
  ice_connection_receiving_timeout := kUndefined;
  ice_backup_candidate_pair_ping_interval := kUndefined;
  continual_gathering_policy := GATHER_ONCE;
  prioritize_most_likely_ice_candidate_pairs := false;
  media_config := new_media;
  prune_turn_ports := false;
  turn_port_prune_policy := NO_PRUNE;
  presume_writable_when_fully_relayed := false;
  enable_ice_renomination := false;
  redetermine_role_on_ice_restart := true;
  surface_ice_candidates_on_ice_transport_type_changed := false;
  ice_check_interval_strong_connectivity := None;
  ice_check_interval_weak_connectivity := None;
  ice_check_min_interval := None;
  ice_unwritable_timeout := None;
  ice_unwritable_min_checks := None;
  ice_inactive_timeout := None;
  stun_candidate_keepalive_interval := None;
  turn_customizer := None;
  network_preference := None;
  sdp_semantics := sem;
  active_reset_srtp_params := false;
  crypto_options := None;
  offer_extmap_allow_mixed := false;
  turn_logging_id := [];
  enable_implicit_rollback := false;
  allow_codec_switching := None
|}.

(** [RTCConfiguration()] *)
Definition new_config : RTCConfiguration := config_with [] kAll None kPlanB.

(** The accessors of the media settings. *)
Definition dscp (c : RTCConfiguration) : bool := c.(media_config).(enable_dscp).
Definition cpu_adaptation (c : RTCConfiguration) : bool := c.(media_config).(enable_cpu_adaptation).
Definition suspend_below_min_bitrate (c : RTCConfiguration) : bool :=
  c.(media_config).(suspend_below_min_bitrate_).
Definition prerenderer_smoothing (c : RTCConfiguration) : bool :=
  c.(media_config).(enable_prerenderer_smoothing).
Definition experiment_cpu_load_estimator (c : RTCConfiguration) : bool :=
  c.(media_config).(experiment_cpu_load_estimator_).
Definition audio_rtcp_report_interval_ms (c : RTCConfiguration) : Z :=
  c.(media_config).(audio_rtcp_report_interval).
Definition video_rtcp_report_interval_ms (c : RTCConfiguration) : Z :=
  c.(media_config).(video_rtcp_report_interval).

Definition GetTurnPortPrunePolicy (c : RTCConfiguration) : PortPrunePolicy :=
  if c.(prune_turn_ports) then PRUNE_BASED_ON_PRIORITY else c.(turn_port_prune_policy).

(** ** RTCOfferAnswerOptions *)
Record RTCOfferAnswerOptions := mkOptions {
  offer_to_receive_video : Z;
  offer_to_receive_audio : Z;
  voice_activity_detection : bool;
  ice_restart : bool;
  use_rtp_mux : bool;
  raw_packetization_for_video : bool;
  num_simulcast_layers : Z;
  use_obsolete_sctp_sdp : bool
}.

(** The constructor with five arguments; the default one. *)
Definition options_of (video audio : Z) (vad restart mux : bool) : RTCOfferAnswerOptions :=
  mkOptions video audio vad restart mux false 1 false.
Definition default_options : RTCOfferAnswerOptions :=
  options_of kUndefined kUndefined true false true.

(** ** What the client reads of an IceCandidateInterface and of a track *)
Record IceCandidate := mkCandidate { cand_text : str; sdp_mid : str; sdp_mline_index : Z }.
Record Track := mkTrack { track_id : str; track_kind : str }.

Definition kVideoKind : str := $"video".
Definition kAudioKind : str := $"audio".

(** A parsed session description. *)
Record SessionDescription := mkDesc { desc_type : SdpType; desc_text : str }.

End Rtc.

(** ** Equality is structural *)
Lemma server_eq_spec a b : Rtc.server_eq a b = true ↔ a = b.
Proof.
  unfold Rtc.server_eq. rewrite !andb_true_iff, !bool_decide_eq_true.
  destruct a, b; simpl. split; [intuition congruence|intros [= -> -> -> -> -> -> -> ->]; tauto].
Qed.

Lemma media_eq_spec a b : Rtc.media_eq a b = true ↔ a = b.
Proof.
  unfold Rtc.media_eq. rewrite !andb_true_iff, !eqb_true_iff, !Z.eqb_eq.
  destruct a, b; simpl. split; [intuition congruence|intros [= -> -> -> -> -> -> -> ->]; tauto].
Qed.

(** A fresh configuration does not prune, and has the defaults of its media
    settings. *)
Lemma new_config_defaults :
  Rtc.GetTurnPortPrunePolicy Rtc.new_config = Rtc.NO_PRUNE ∧
  Rtc.cpu_adaptation Rtc.new_config = true ∧ Rtc.dscp Rtc.new_config = false ∧
  Rtc.audio_rtcp_report_interval_ms Rtc.new_config = 5000.
Proof. done. Qed.
