(* ===== verification/Webrtc.v ===== *)
(** * core/webrtc_wrapper.{h,cc}, core/webrtc_connection.{h,cc} and
    core/webrtc_peer_connection_observer.h

    The client's layer over libwebrtc. The library is present only as headers:
    its data is RtcData.v, its calls are the operations of the class [RtcLib],
    and its callbacks are the handlers below, called by the library when it
    pleases. *)

From stdpp Require Import base list strings gmap.
From Stdlib Require Import Ascii ZArith Lia.
From S2P Require Import Prelude CppString RtcData.

Local Open Scope Z_scope.

(** ** The library's calls, over a state [W] *)
Class RtcLib (W : Type) := {
  (* rtc::LogMessage and rtc::Thread *)
  rtc_log_timestamps : bool → ST W unit;
  rtc_log_to_stderr : bool → ST W unit;
  rtc_log_threads : bool → ST W unit;
  rtc_log_to_debug : Rtc.LoggingSeverity → ST W unit;
  rtc_thread_create : ST W nat;
  rtc_thread_start : nat → ST W unit;
  (* webrtc::CreatePeerConnectionFactory, PeerConnectionFactoryInterface *)
  rtc_create_factory : option nat → ST W (option nat);
  rtc_create_pc : nat → Rtc.RTCConfiguration → ST W (option nat);
  (* PeerConnectionInterface *)
  rtc_set_remote : nat → Rtc.SessionDescription → ST W unit;
  rtc_set_local : nat → Rtc.SessionDescription → ST W unit;
  rtc_create_answer : nat → Rtc.RTCOfferAnswerOptions → ST W unit;
  (* VideoTrackInterface::AddOrUpdateSink, with a new VideoRender *)
  rtc_add_sink : Rtc.Track → ST W unit;
  (* webrtc::CreateSessionDescription, null when the text does not parse *)
  rtc_parse_sdp : Rtc.SdpType → str → option Rtc.SessionDescription
}.

(** ** WebrtcWrapper *)
Module Wrapper.

Inductive WebrtcLogLevel := kVerbose | kInfo | kWarning | kError | kNone.

Record WebrtcWrapper := mkWrapper {
  init_ : bool;
  signaling_thread_ : option nat
}.

(** The static instance before the first call. *)
Definition INSTANCE : WebrtcWrapper := mkWrapper false None.

(** Where the process keeps the instance. *)
Class WrapperStore (W : Type) := {
  wrap_get : W → WebrtcWrapper;
  wrap_put : WebrtcWrapper → W → W
}.

Section wrapper.
Context {W : Type} {L : RtcLib W} {S : WrapperStore W}.

Definition Init : ST W unit :=
  i ← gets wrap_get;
  if i.(init_) then mret tt
  else
    modify (λ w, wrap_put (mkWrapper true (wrap_get w).(signaling_thread_)) w) ;;
    rtc_log_timestamps true ;;
    rtc_log_to_stderr true ;;
    rtc_log_threads true ;;
    t ← rtc_thread_create;
    modify (λ w, wrap_put (mkWrapper (wrap_get w).(init_) (Some t)) w) ;;
    rtc_thread_start t.

Definition SetWebrtcLogLevel (level : WebrtcLogLevel) : ST W unit :=
  match level with
  | kVerbose => rtc_log_to_debug Rtc.LS_VERBOSE
  | kInfo => rtc_log_to_debug Rtc.LS_INFO
  | kWarning => rtc_log_to_debug Rtc.LS_WARNING
  | kError => rtc_log_to_debug Rtc.LS_ERROR
  | kNone => rtc_log_to_debug Rtc.LS_NONE
  end.

Definition SignalingThread : ST W (option nat) :=
  gets (λ w, (wrap_get w).(signaling_thread_)).

Definition CreatePCFactory : ST W (option nat) :=
  i ← gets wrap_get;
  if i.(init_) then t ← SignalingThread; rtc_create_factory t else mret None.

Definition CreateSessionDescription (type : Rtc.SdpType) (sdp : str)
    : option Rtc.SessionDescription :=
  rtc_parse_sdp type sdp.

End wrapper.

(** The state names, for any [int]. *)
Definition SignalingStateToString (state : Z) : str :=
  if decide (state = Rtc.signaling_state_int Rtc.kStable) then $"Stable"
  else if decide (state = Rtc.signaling_state_int Rtc.kHaveLocalOffer) then $"HaveLocalOffer"
  else if decide (state = Rtc.signaling_state_int Rtc.kHaveLocalPrAnswer) then $"HaveLocalPrAnswer"
  else if decide (state = Rtc.signaling_state_int Rtc.kHaveRemoteOffer) then $"HaveRemoteOffer"
  else if decide (state = Rtc.signaling_state_int Rtc.kHaveRemotePrAnswer) then $"HaveRemotePrAnswer"
  else if decide (state = Rtc.signaling_state_int Rtc.kSignalingClosed) then $"Closed"
  else $"Unknown".

Definition IceGatheringStateToString (state : Z) : str :=
  if decide (state = Rtc.ice_gathering_int Rtc.kIceGatheringNew) then $"IceGatheringNew"
  else if decide (state = Rtc.ice_gathering_int Rtc.kIceGatheringGathering) then $"IceGatheringGathering"
  else if decide (state = Rtc.ice_gathering_int Rtc.kIceGatheringComplete) then $"IceGatheringComplete"
  else $"Unknown".

Definition IceConnectionStateToString (state : Z) : str :=
  if decide (state = Rtc.ice_connection_int Rtc.kIceConnectionNew) then $"IceConnectionNew"
  else if decide (state = Rtc.ice_connection_int Rtc.kIceConnectionChecking) then $"IceConnectionChecking"
  else if decide (state = Rtc.ice_connection_int Rtc.kIceConnectionConnected) then $"IceConnectionConnected"
  else if decide (state = Rtc.ice_connection_int Rtc.kIceConnectionCompleted) then $"IceConnectionConnected"
  else if decide (state = Rtc.ice_connection_int Rtc.kIceConnectionFailed) then $"IceConnectionFailed"
  else if decide (state = Rtc.ice_connection_int Rtc.kIceConnectionDisconnected)
    then $"IceConnectionDisconnected"
  else if decide (state = Rtc.ice_connection_int Rtc.kIceConnectionClosed) then $"IceConnectionClosed"
  else $"Unknown".

Definition PeerConnectionStateToString (state : Z) : str :=
  if decide (state = Rtc.pc_state_int Rtc.kNew) then $"New"
  else if decide (state = Rtc.pc_state_int Rtc.kConnecting) then $"Connecting"
  else if decide (state = Rtc.pc_state_int Rtc.kConnected) then $"Connected"
  else if decide (state = Rtc.pc_state_int Rtc.kDisconnected) then $"Disconnected"
  else if decide (state = Rtc.pc_state_int Rtc.kFailed) then $"Failed"
  else if decide (state = Rtc.pc_state_int Rtc.kClosed) then $"Closed"
  else $"Unknown".

End Wrapper.

(** ** WebrtcConnection *)
Module Connection.

Record WebrtcConnection := mkConn {
  id_ : Z;
  (** whether [webrtc_observer_] is not null *)
  webrtc_observer_ : bool;
  rtc_config_ : Rtc.RTCConfiguration;
  pc_ : option nat
}.

Definition Id (c : WebrtcConnection) : Z := c.(id_).

(** WebrtcPeerConnectionObserver: the pure virtual methods and those with an
    empty default. *)
Class PcObserver (W : Type) := {
  obs_OnSdpCreateSuccess : WebrtcConnection → Rtc.SdpType → str → ST W unit;
  obs_OnSdpCreateFailure : WebrtcConnection → Rtc.RTCError → ST W unit;
  obs_OnIceCandidate : WebrtcConnection → Rtc.IceCandidate → ST W unit;
  obs_OnPeerConnect : WebrtcConnection → ST W unit;
  obs_OnPeerDisconnect : WebrtcConnection → ST W unit;
  obs_OnAddRemoteVideoTrack : WebrtcConnection → Rtc.Track → ST W unit;
  obs_OnRemoveRemoteVideoTrack : WebrtcConnection → Rtc.Track → ST W unit;
  obs_OnAddRemoteAudioTrack : WebrtcConnection → Rtc.Track → ST W unit;
  obs_OnRemoveRemoteAudioTrack : WebrtcConnection → Rtc.Track → ST W unit;
  obs_OnDataChannel : WebrtcConnection → str → ST W unit
}.

Section connection.
Context {W : Type} {L : RtcLib W} {S : Wrapper.WrapperStore W}.

(** Using a null [scoped_refptr]. *)
Definition deref_pc (p : option nat) : ST W nat :=
  match p with Some a => mret a | None => lift (Undef NullDeref) end.

(** The constructor. The factory is null before [Init]. *)
Definition new_connection (id : Z) (observer : bool) (config : Rtc.RTCConfiguration)
    : ST W WebrtcConnection :=
  pcFactory ← Wrapper.CreatePCFactory;
  f ← deref_pc pcFactory;
  pc ← rtc_create_pc f config;
  mret (mkConn id observer config pc).

Definition SetRemoteDescription (c : WebrtcConnection) (desc : Rtc.SessionDescription) : ST W unit :=
  pc ← deref_pc c.(pc_); rtc_set_remote pc desc.
Definition SetLocalDescription (c : WebrtcConnection) (desc : Rtc.SessionDescription) : ST W unit :=
  pc ← deref_pc c.(pc_); rtc_set_local pc desc.
Definition CreateOffer (c : WebrtcConnection) (options : Rtc.RTCOfferAnswerOptions) : ST W unit :=
  pc ← deref_pc c.(pc_); rtc_create_answer pc options.
Definition CreateAnswer (c : WebrtcConnection) (options : Rtc.RTCOfferAnswerOptions) : ST W unit :=
  pc ← deref_pc c.(pc_); rtc_create_answer pc options.

Context {O : PcObserver W}.

(** CreateSdpObserver, made with a connection that is not null. *)
Definition CreateSdp_OnSuccess (peer : WebrtcConnection) (desc : Rtc.SessionDescription) : ST W unit :=
  if peer.(webrtc_observer_)
  then obs_OnSdpCreateSuccess peer desc.(Rtc.desc_type) desc.(Rtc.desc_text) else mret tt.
Definition CreateSdp_OnFailure (peer : WebrtcConnection) (error : Rtc.RTCError) : ST W unit :=
  if peer.(webrtc_observer_) then obs_OnSdpCreateFailure peer error else mret tt.

(** DummySetSessionDescriptionObserver, made with [remote_]: it only logs. *)
Definition Dummy_OnSuccess (remote_ : bool) : ST W unit := mret tt.
Definition Dummy_OnFailure (remote_ : bool) (error : Rtc.RTCError) : ST W unit := mret tt.

(** The callbacks that only log. *)
Definition OnSignalingChange (c : WebrtcConnection) (new_state : Rtc.SignalingState) : ST W unit := mret tt.
Definition OnDataChannel (c : WebrtcConnection) (label : str) : ST W unit := mret tt.
Definition OnIceGatheringChange (c : WebrtcConnection) (new_state : Rtc.IceGatheringState) : ST W unit := mret tt.
Definition OnRenegotiationNeeded (c : WebrtcConnection) : ST W unit := mret tt.
Definition OnIceConnectionChange (c : WebrtcConnection) (new_state : Rtc.IceConnectionState) : ST W unit := mret tt.
Definition OnIceConnectionReceivingChange (c : WebrtcConnection) (receiving : bool) : ST W unit := mret tt.
Definition OnTrack (c : WebrtcConnection) : ST W unit := mret tt.

Definition OnIceCandidate (c : WebrtcConnection) (candidate : Rtc.IceCandidate) : ST W unit :=
  if c.(webrtc_observer_) then obs_OnIceCandidate c candidate else mret tt.

(** [if (connected)] on the [std::optional<bool>] asks whether it has a value. *)
Definition OnConnectionChange (c : WebrtcConnection) (new_state : Rtc.PeerConnectionState) : ST W unit :=
  let connected : option bool :=
    if decide (new_state = Rtc.kConnected) then Some true
    else if decide (new_state = Rtc.kDisconnected) then Some false else None in
  if bool_decide (is_Some connected) && c.(webrtc_observer_) then
    if bool_decide (is_Some connected) then obs_OnPeerConnect c else obs_OnPeerDisconnect c
  else mret tt.

Definition OnAddTrack (c : WebrtcConnection) (track : Rtc.Track) : ST W unit :=
  if decide (track.(Rtc.track_kind) = Rtc.kVideoKind) then
    if c.(webrtc_observer_) then obs_OnAddRemoteVideoTrack c track else mret tt
  else if decide (track.(Rtc.track_kind) = Rtc.kAudioKind) then
    if c.(webrtc_observer_) then obs_OnAddRemoteAudioTrack c track else mret tt
  else mret tt.

Definition OnRemoveTrack (c : WebrtcConnection) (track : Rtc.Track) : ST W unit :=
  if decide (track.(Rtc.track_kind) = Rtc.kVideoKind) then
    if c.(webrtc_observer_) then obs_OnRemoveRemoteVideoTrack c track else mret tt
  else if decide (track.(Rtc.track_kind) = Rtc.kAudioKind) then
    if c.(webrtc_observer_) then obs_OnRemoveRemoteAudioTrack c track else mret tt
  else mret tt.

(** What the library may call on a connection: the methods of
    webrtc::PeerConnectionObserver, and the observers of descriptions. *)
Inductive callback :=
  | SignalingChange (s : Rtc.SignalingState)
  | AddStream
  | RemoveStream
  | DataChannel (label : str)
  | RenegotiationNeeded
  | NegotiationNeededEvent (event_id : Z)
  | IceConnectionChange (s : Rtc.IceConnectionState)
  | StandardizedIceConnectionChange (s : Rtc.IceConnectionState)
  | ConnectionChange (s : Rtc.PeerConnectionState)
  | IceGatheringChange (s : Rtc.IceGatheringState)
  | Candidate (candidate : Rtc.IceCandidate)
  | CandidateError (host_candidate url : str) (error_code : Z) (error_text : str)
  | CandidateErrorAt (address : str) (port : Z) (url : str) (error_code : Z) (error_text : str)
  | CandidatesRemoved
  | IceReceivingChange (receiving : bool)
  | SelectedCandidatePairChanged
  | AddTrack (track : Rtc.Track)
  | TrackAdded
  | RemoveTrack (track : Rtc.Track)
  | InterestingUsage (usage_pattern : Z)
  | SdpSuccess (desc : Rtc.SessionDescription)
  | SdpFailure (error : Rtc.RTCError)
  | SetSdpSuccess (remote_ : bool)
  | SetSdpFailure (remote_ : bool) (error : Rtc.RTCError).

(** The methods the connection does not override do nothing. *)
Definition on_callback (c : WebrtcConnection) (cb : callback) : ST W unit :=
  match cb with
  | SignalingChange s => OnSignalingChange c s
  | DataChannel l => OnDataChannel c l
  | RenegotiationNeeded => OnRenegotiationNeeded c
  | IceConnectionChange s => OnIceConnectionChange c s
  | ConnectionChange s => OnConnectionChange c s
  | IceGatheringChange s => OnIceGatheringChange c s
  | Candidate x => OnIceCandidate c x
  | IceReceivingChange b => OnIceConnectionReceivingChange c b
  | AddTrack t => OnAddTrack c t
  | TrackAdded => OnTrack c
  | RemoveTrack t => OnRemoveTrack c t
  | SdpSuccess d => CreateSdp_OnSuccess c d
  | SdpFailure e => CreateSdp_OnFailure c e
  | SetSdpSuccess r => Dummy_OnSuccess r
  | SetSdpFailure r e => Dummy_OnFailure r e
  | _ => mret tt
  end.

End connection.
End Connection.

(** ** Names *)

(** The names tell the states apart, except that a completed ICE connection is
    named as a connected one. *)
Lemma ice_state_names s s' :
  Wrapper.IceConnectionStateToString (Rtc.ice_connection_int s) =
  Wrapper.IceConnectionStateToString (Rtc.ice_connection_int s') →
  s = s' ∨ (s = Rtc.kIceConnectionConnected ∧ s' = Rtc.kIceConnectionCompleted) ∨
  (s = Rtc.kIceConnectionCompleted ∧ s' = Rtc.kIceConnectionConnected).
Proof. destruct s, s'; intros H; vm_compute in H; auto; discriminate H. Qed.

Lemma pc_state_names s s' :
  Wrapper.PeerConnectionStateToString (Rtc.pc_state_int s) =
  Wrapper.PeerConnectionStateToString (Rtc.pc_state_int s') → s = s'.
Proof. destruct s, s'; intros H; vm_compute in H; auto; discriminate H. Qed.

Lemma signaling_state_names s s' :
  Wrapper.SignalingStateToString (Rtc.signaling_state_int s) =
  Wrapper.SignalingStateToString (Rtc.signaling_state_int s') → s = s'.
Proof. destruct s, s'; intros H; vm_compute in H; auto; discriminate H. Qed.
