(* ===== verification/Signaling.v ===== *)
(** * LicodeSignaling (core/licode_signaling.h, .cc)

    The socket.io dialogue on top of a WebsocketSession. The methods are
    computations over a world that holds the signaling object, the sessions it
    has created and the worker it schedules its pings on ([SigHost]); the five
    callbacks run the owner's code. A session is referred to by its index; the
    null pointer is [None]. *)

From stdpp Require Import base list strings gmap.
From Stdlib Require Import Ascii ZArith Lia.
From S2P Require Import Prelude CppString Json PktBuilder LicodeData Scheduler Worker.
From S2P Require Import WebsocketSession.

Local Open Scope Z_scope.

(** ** socket.io packet types *)
Definition SOCKET_IO_OPEN : str := $"0".
Definition SOCKET_IO_CLOSE : str := $"1".
Definition SOCKET_IO_PING : str := $"2".
Definition SOCKET_IO_PONG : str := $"3".
Definition SOCKET_IO_MESSAGE : str := $"4".
Definition SOCKET_IO_NOOP : str := $"6".

Definition SOCKET_IO_PACKET_CONNECT : str := $"0".
Definition SOCKET_IO_PACKET_DISCONNECT : str := $"1".
Definition SOCKET_IO_PACKET_EVENT : str := $"2".
Definition SOCKET_IO_PACKET_ACK : str := $"3".
Definition SOCKET_IO_PACKET_ERROR : str := $"4".
Definition SOCKET_IO_PACKET_BINARY_EVENT : str := $"5".
Definition SOCKET_IO_PACKET_BINARY_ACK : str := $"6".

Definition SOCKET_IO_WEBSOCKET_CONNECT : str := SOCKET_IO_MESSAGE ++ SOCKET_IO_PACKET_CONNECT.
Definition SOCKET_IO_WEBSOCKET_DISCONNECT : str := SOCKET_IO_MESSAGE ++ SOCKET_IO_PACKET_DISCONNECT.
Definition SOCKET_IO_WEBSOCKET_EVENT : str := SOCKET_IO_MESSAGE ++ SOCKET_IO_PACKET_EVENT.

Definition INIT_TOKEN_TRANS_ID : Z := 111.
Definition TOKEN_INIT_RESPONSE : str :=
  SOCKET_IO_MESSAGE ++ SOCKET_IO_PACKET_ACK ++ to_string INIT_TOKEN_TRANS_ID.

Definition SUBSCRIBE_STREAM_TRANS_IS : Z := 222.
Definition SUBSCRIBE_STREAM_RESPONSE : str :=
  SOCKET_IO_MESSAGE ++ SOCKET_IO_PACKET_ACK ++ to_string SUBSCRIBE_STREAM_TRANS_IS.

Definition PUBLISH_STREAM_TRANS_IS : Z := 333.
Definition PUBLISH_STREAM_RESPONSE : str :=
  SOCKET_IO_MESSAGE ++ SOCKET_IO_PACKET_ACK ++ to_string PUBLISH_STREAM_TRANS_IS.

Definition SubscribeStreamMsgHeader : str :=
  SOCKET_IO_MESSAGE ++ SOCKET_IO_PACKET_EVENT ++ to_string SUBSCRIBE_STREAM_TRANS_IS.
Definition PublishStreamMsgHeader : str :=
  SOCKET_IO_MESSAGE ++ SOCKET_IO_PACKET_EVENT ++ to_string PUBLISH_STREAM_TRANS_IS.
Definition EventHeader : str := SOCKET_IO_WEBSOCKET_EVENT.

(** ** State *)
Inductive State := kDisconnect | kConnecting | kConnected.

#[global] Instance State_eq_dec : EqDecision State.
Proof. solve_decision. Defined.

(** Of a callback the record keeps whether it is set. *)
Record Signaling := mkSig {
  state_ : State;
  token_ : Token.LicodeToken;
  signaling_url_ : str;
  sid_ : str;
  ping_interval_ms_ : Z;
  ping_timeout_ms_ : Z;
  websocket_ : option nat;
  init_token_callback_ : bool;
  disconnect_callback_ : bool;
  event_callback_ : bool;
  subscribe_stream_callback_ : bool;
  publish_stream_callback_ : bool
}.

Definition no_token : Token.LicodeToken := Token.mkToken [] [] false [].

Definition new_signaling : Signaling :=
  mkSig kDisconnect no_token [] [] 25000 60000 None false false false false false.

Definition set_state v s := mkSig v s.(token_) s.(signaling_url_) s.(sid_) s.(ping_interval_ms_)
  s.(ping_timeout_ms_) s.(websocket_) s.(init_token_callback_) s.(disconnect_callback_)
  s.(event_callback_) s.(subscribe_stream_callback_) s.(publish_stream_callback_).
Definition set_token v s := mkSig s.(state_) v s.(signaling_url_) s.(sid_) s.(ping_interval_ms_)
  s.(ping_timeout_ms_) s.(websocket_) s.(init_token_callback_) s.(disconnect_callback_)
  s.(event_callback_) s.(subscribe_stream_callback_) s.(publish_stream_callback_).
Definition set_url v s := mkSig s.(state_) s.(token_) v s.(sid_) s.(ping_interval_ms_)
  s.(ping_timeout_ms_) s.(websocket_) s.(init_token_callback_) s.(disconnect_callback_)
  s.(event_callback_) s.(subscribe_stream_callback_) s.(publish_stream_callback_).
Definition set_open (o : open_out) s := mkSig s.(state_) s.(token_) s.(signaling_url_) o.(o_sid)
  o.(o_pingInterval) o.(o_pingTimeout) s.(websocket_) s.(init_token_callback_)
  s.(disconnect_callback_) s.(event_callback_) s.(subscribe_stream_callback_)
  s.(publish_stream_callback_).
Definition set_websocket v s := mkSig s.(state_) s.(token_) s.(signaling_url_) s.(sid_)
  s.(ping_interval_ms_) s.(ping_timeout_ms_) v s.(init_token_callback_) s.(disconnect_callback_)
  s.(event_callback_) s.(subscribe_stream_callback_) s.(publish_stream_callback_).
Definition set_callbacks i d e b p s := mkSig s.(state_) s.(token_) s.(signaling_url_) s.(sid_)
  s.(ping_interval_ms_) s.(ping_timeout_ms_) s.(websocket_) i d e b p.

(** The periodic task of [KeepAlive]. *)
Inductive PingTask := SendPing.

(** ** The world of a signaling object *)
Class SigStore (W T : Type) := {
  sig_get : W → Signaling;
  sig_set : Signaling → W → W;
  session : nat → WsStore W;                 (* the session at an index *)
  make_session : Ws → ST W nat;              (* make_shared *)
  sig_worker :: WorkerStore W T PingTask     (* worker_ *)
}.

Class SigHost (W T : Type) := {
  sig_store :: SigStore W T;
  on_init_token : str → ST W unit;
  on_disconnect : ST W unit;
  on_event : str → str → ST W unit;
  on_subscribe : str → ST W unit;
  on_publish : str → ST W unit
}.

(** ** Methods the owner calls *)
Section interface.
Context {J : JsonLib} {W T : Type} {St : SigStore W T}.

Definition sig_rd {A} (f : Signaling → A) : ST W A := gets (λ w, f (sig_get w)).
Definition sig_upd (f : Signaling → Signaling) : ST W unit :=
  modify (λ w, sig_set (f (sig_get w)) w).

(** [websocket_->m()] *)
Definition on_websocket {A} (m : WsStore W → ST W A) : ST W A :=
  p ← sig_rd websocket_;
  match p with
  | Some l => m (session l)
  | None => lift (Undef NullDeref)
  end.

Definition CurrentState : ST W State := sig_rd state_.
Definition UpdateState (s : State) : ST W unit := sig_upd (set_state s).

Definition SetOnInitTokenCallback (cb : bool) : ST W unit :=
  sig_upd (λ s, set_callbacks cb s.(disconnect_callback_) s.(event_callback_)
    s.(subscribe_stream_callback_) s.(publish_stream_callback_) s).
Definition SetOnSignalingDisconnectCallback (cb : bool) : ST W unit :=
  sig_upd (λ s, set_callbacks s.(init_token_callback_) cb s.(event_callback_)
    s.(subscribe_stream_callback_) s.(publish_stream_callback_) s).
Definition SetOnEventCallback (cb : bool) : ST W unit :=
  sig_upd (λ s, set_callbacks s.(init_token_callback_) s.(disconnect_callback_) cb
    s.(subscribe_stream_callback_) s.(publish_stream_callback_) s).
Definition SetOnSubscribeCallback (cb : bool) : ST W unit :=
  sig_upd (λ s, set_callbacks s.(init_token_callback_) s.(disconnect_callback_)
    s.(event_callback_) cb s.(publish_stream_callback_) s).
Definition SetOnPublishCallback (cb : bool) : ST W unit :=
  sig_upd (λ s, set_callbacks s.(init_token_callback_) s.(disconnect_callback_)
    s.(event_callback_) s.(subscribe_stream_callback_) cb s).

Definition signaling_url (host : str) : str :=
  $"ws://" ++ host ++ $"/socket.io/?EIO=3&transport=websocket".

Definition Init (token : Token.LicodeToken) : ST W bool :=
  st ← CurrentState;
  if negb (bool_decide (st = kDisconnect)) then mret false
  else
    sig_upd (set_token token) ;;
    sig_upd (λ s, set_url (signaling_url s.(token_).(Token.host)) s) ;;
    url ← sig_rd signaling_url_;
    ws ← lift (new_session url);
    l ← make_session ws;
    sig_upd (set_websocket (Some l)) ;;
    on_websocket (λ s, WebsocketSession.SetOnReadyCallback (St := s) true) ;;
    on_websocket (λ s, WebsocketSession.SetOnReceiveMsgCallback (St := s) true) ;;
    on_websocket (λ s, WebsocketSession.SetOnAbnormalDisconnectCallback (St := s) true) ;;
    UpdateState kConnecting ;;
    on_websocket (λ s, WebsocketSession.Connect (St := s)) ;;
    mret true.

Definition Dispose : ST W unit :=
  connected ← on_websocket (λ s, WebsocketSession.IsConnected (St := s));
  if connected : bool then on_websocket (λ s, WebsocketSession.Disconnect (St := s))
  else mret tt.

Definition SendMsg (msg : str) : ST W unit :=
  st ← CurrentState;
  if bool_decide (st = kConnected)
  then on_websocket (λ s, WebsocketSession.SendMsg (St := s) msg)
  else mret tt.

(** The destructor. *)
Definition destroy_signaling : ST W unit :=
  on_websocket (λ s, WebsocketSession.SetOnReadyCallback (St := s) false) ;;
  on_websocket (λ s, WebsocketSession.SetOnReceiveMsgCallback (St := s) false) ;;
  on_websocket (λ s, WebsocketSession.SetOnAbnormalDisconnectCallback (St := s) false).

Definition InitToken (singlePC : bool) : ST W unit :=
  token ← sig_rd token_;
  let builder := token_SetSinglePC singlePC
    (token_SetSignature token.(Token.signature)
      (token_SetSecure token.(Token.secure)
        (token_SetHost token.(Token.host)
          (token_SetTokenId token.(Token.tokenId) token_new)))) in
  pkt ← lift (token_Build builder);
  on_websocket (λ s, WebsocketSession.SendMsg (St := s)
    (SOCKET_IO_MESSAGE ++ SOCKET_IO_PACKET_EVENT ++ to_string INIT_TOKEN_TRANS_ID ++ pkt)).

Definition KeepAlive : ST W unit :=
  ms ← sig_rd ping_interval_ms_;
  ScheduleEvery SendPing (ms * 1000000).

Definition SocketIoPing : ST W bool :=
  st ← CurrentState;
  if bool_decide (st = kConnected) then
    on_websocket (λ s, WebsocketSession.SendMsg (St := s) SOCKET_IO_PING) ;;
    mret true
  else mret false.

Definition OnWebsocketConnectCallback : ST W unit := mret tt.

Definition OnWebsocketDisconnect (reason : str) : ST W unit := UpdateState kDisconnect.

Definition ProcessSocketIOOpen (msg : str) : ST W unit := λ w,
  let s := sig_get w in
  let r := ParseOpenMsg msg (mkOpen s.(sid_) s.(ping_interval_ms_) s.(ping_timeout_ms_)) in
  (r.1, sig_set (set_open r.2 s) w).

Definition ProcessPong : ST W unit := mret tt.

End interface.

(** ** Messages from the server *)
Section handlers.
Context {J : JsonLib} {W T : Type} {H : SigHost W T}.

Definition ProcessInitTokenResponse (msg : str) : ST W unit :=
  cb ← sig_rd init_token_callback_;
  if cb : bool then on_init_token msg else mret tt.

Definition ProcessSubscribeStream (msg : str) : ST W unit :=
  cb ← sig_rd subscribe_stream_callback_;
  if cb : bool then on_subscribe msg else mret tt.

Definition ProcessPublishStream (msg : str) : ST W unit :=
  cb ← sig_rd publish_stream_callback_;
  if cb : bool then on_publish msg else mret tt.

(** Calling an empty [std::function] throws. *)
Definition ProcessDisconnect : ST W unit :=
  st ← CurrentState;
  let needCallback := bool_decide (st = kConnected) in
  UpdateState kDisconnect ;;
  Dispose ;;
  if needCallback then
    cb ← sig_rd disconnect_callback_;
    if cb : bool then on_disconnect else lift (Throw BadFunctionCall)
  else mret tt.

(** [event_callback_(event[0], event[1].dump())]: both subscripts are on a
    non-const value. *)
Definition event_args (event : json) : outcome (str * str) :=
  '(e0, event) ← j_at event 0;
  name ← get_string e0;
  '(e1, _) ← j_at event 1;
  body ← j_dump e1;
  Ret (name, body).

Definition ProcessEvent (msg : str) : ST W unit :=
  try_catch
    (event ← lift (j_parse msg);
     cb ← sig_rd event_callback_;
     if cb : bool then
       args ← lift (event_args event);
       on_event args.1 args.2
     else mret tt)
    (λ _, mret tt).

(** [msg.substr(header.length())] *)
Definition body_after (header msg : str) : ST W str := lift (substr_from msg (size header)).

Definition OnWebsocketMsg (msg : str) : ST W unit :=
  let number := leading_digits msg in
  if decide (number = SOCKET_IO_OPEN) then
    body ← body_after SOCKET_IO_OPEN msg; ProcessSocketIOOpen body
  else if decide (number = SOCKET_IO_PONG) then ProcessPong
  else if decide (number = SOCKET_IO_WEBSOCKET_CONNECT) then
    UpdateState kConnected ;; KeepAlive ;; InitToken false
  else if decide (number = TOKEN_INIT_RESPONSE) then
    body ← body_after TOKEN_INIT_RESPONSE msg; ProcessInitTokenResponse body
  else if decide (number = SOCKET_IO_WEBSOCKET_DISCONNECT) then ProcessDisconnect
  else if decide (number = SUBSCRIBE_STREAM_RESPONSE) then
    body ← body_after SUBSCRIBE_STREAM_RESPONSE msg; ProcessSubscribeStream body
  else if decide (number = PUBLISH_STREAM_RESPONSE) then
    body ← body_after PUBLISH_STREAM_RESPONSE msg; ProcessPublishStream body
  else if decide (number = SOCKET_IO_WEBSOCKET_EVENT) then
    body ← body_after SOCKET_IO_WEBSOCKET_EVENT msg; ProcessEvent body
  else mret tt.

(** The session at [l] as its owner sees it: the callbacks [Init] installs.
    [close] is what closing the stream gives. *)
Definition session_host (close : outcome unit) (l : nat) : WsHost W := {|
  ws_store := session l;
  on_ready := OnWebsocketConnectCallback;
  on_receive := OnWebsocketMsg;
  on_abnormal := OnWebsocketDisconnect;
  stream_close _ := close
|}.

End handlers.
