(* ===== verification/SignalingProps.v ===== *)
(** * Correctness of LicodeSignaling

    Against the interface of the world ([SigLaws]): which message does what, the
    connection state machine, what is sent when, and where [Init] connects to.
    [SigClient] is what the owner of the callbacks promises. *)

From stdpp Require Import base list strings gmap.
From Stdlib Require Import Ascii ZArith Lia.
From S2P Require Import Prelude CppString Json JsonModel PktBuilder LicodeData Scheduler.
From S2P Require Import Worker WebsocketSession WebsocketProps Signaling.

Local Open Scope Z_scope.

(** ** The world's laws *)
Class SigLaws (W T : Type) `{St : SigStore W T} := {
  sig_get_set s w : sig_get (sig_set s w) = s;
  sig_ws_set l s w : sig_get (ws_set (WsStore := session l) s w) = sig_get w;
  ws_get_set_at l s w : ws_get (WsStore := session l) (ws_set (WsStore := session l) s w) = s;
  ws_sig_set l s w : ws_get (WsStore := session l) (sig_set s w) = ws_get (WsStore := session l) w;
  make_session_spec s w : ∃ l w', make_session s w = (Ret l, w') ∧ sig_get w' = sig_get w ∧
    ws_get (WsStore := session l) w' = s;
  (* the worker's calls do not reach the signaling object *)
  sig_wk_set k w : sig_get (wk_set k w) = sig_get w;
  ws_wk_set l k w : ws_get (WsStore := session l) (wk_set k w) = ws_get (WsStore := session l) w;
  sig_sched_set k w : sig_get (sched_set k w) = sig_get w;
  ws_sched_set l k w : ws_get (WsStore := session l) (sched_set k w) = ws_get (WsStore := session l) w;
  clock_reads w : ∃ t w', read_clock w = (Ret t, w') ∧ sig_get w' = sig_get w ∧
    ∀ l, ws_get (WsStore := session l) w' = ws_get (WsStore := session l) w
}.

(** The callbacks leave the connection state and the session pointer alone,
    also when they throw. *)
Class SigClient (W T : Type) `{H : SigHost W T} := {
  callbacks_keep (P : State → option nat → Prop) :
    let I := λ w : W, P (sig_get w).(state_) (sig_get w).(websocket_) in
    (∀ m, preserves I (on_init_token m)) ∧ preserves I on_disconnect ∧
    (∀ e m, preserves I (on_event e m)) ∧ (∀ m, preserves I (on_subscribe m)) ∧
    (∀ m, preserves I (on_publish m))
}.

(** ** Dispatch *)
Section dispatch.
Context {J : JsonLib} {W T : Type} {H : SigHost W T}.

(** What the protocol assigns to each packet header; the argument is the rest
    of the message. *)
Definition dispatch_table : list (str * (str → ST W unit)) :=
  [($"0", ProcessSocketIOOpen);
   ($"3", λ _, mret tt);
   ($"40", λ _, UpdateState kConnected ;; KeepAlive ;; InitToken false);
   ($"41", λ _, ProcessDisconnect);
   ($"42", ProcessEvent);
   ($"43111", ProcessInitTokenResponse);
   ($"43222", ProcessSubscribeStream);
   ($"43333", ProcessPublishStream)].

Definition headers : list str := dispatch_table.*1.

Lemma header_digits h : h ∈ headers → Forall (λ c, is_digit c = true) h.
Proof.
  intros Hh. assert (Forall (Forall (λ c, is_digit c = true)) headers) as Hf.
  { apply (bool_decide_unpack _). by vm_compute. }
  rewrite Forall_forall in Hf. by apply Hf.
Qed.

Lemma body_after_app h r (w : W) : size (h ++ r) ≤ npos → body_after h (h ++ r) w = (Ret r, w).
Proof.
  intros Hsz. unfold body_after, lift, substr_from. rewrite substr_tail; [done|].
  rewrite size_app in Hsz. pose proof (size_nonneg h). lia.
Qed.

Lemma OnWebsocketMsg_known h act r (w : W) :
  (h, act) ∈ dispatch_table → no_digit_head r → size (h ++ r) ≤ npos →
  OnWebsocketMsg (h ++ r) w = act r w.
Proof.
  intros Hin Hr Hsz. unfold OnWebsocketMsg.
  assert (h ∈ headers) as Hh by (apply list_elem_of_fmap; by exists (h, act)).
  rewrite leading_digits_app; [|by apply header_digits|done]. clear Hh.
  unfold dispatch_table in Hin. rewrite !elem_of_cons, elem_of_nil in Hin.
  destruct_or! Hin; simplify_eq; try done;
    repeat first [rewrite decide_True by done | rewrite decide_False by done];
    (eapply ST_bind_Ret; by apply body_after_app).
Qed.

End dispatch.

(** C10: The chain of comparisons in OnWebsocketMsg is a table lookup: the
    leading digits of a message select at most one handler, which receives the
    rest of the message, and a message whose digits are not in the table is
    ignored. *)
Theorem sig_dispatch {J : JsonLib} {W T} {H : SigHost W T} msg (w : W) :
  size msg ≤ npos →
  ∃ r, msg = leading_digits msg ++ r ∧
  OnWebsocketMsg msg w =
    match list_find (λ e, e.1 = leading_digits msg) dispatch_table with
    | Some (_, (_, act)) => act r w
    | None => (Ret tt, w)
    end.
Proof.
  intros Hsz. destruct (leading_digits_prefix msg) as (r & Hm & Hr). exists r. split; [done|].
  destruct (list_find _ dispatch_table) as [[i [h act]]|] eqn:E.
  - apply list_find_Some in E as (Hi & Hh & _). simpl in Hh.
    rewrite Hm, <- Hh at 1. apply OnWebsocketMsg_known; [by eapply list_elem_of_lookup_2|done|].
    by rewrite Hh, <- Hm.
  - apply list_find_None in E. unfold dispatch_table in E. rewrite !Forall_cons in E. simpl in E.
    destruct_and! E. unfold OnWebsocketMsg.
    repeat (rewrite decide_False by (intros Heq; rewrite Heq in *; done)). done.
Qed.

Create HintDb sig discriminated.

(** ** What the calls keep *)
(** One layer of a method. *)
Ltac keep :=
  repeat first
    [ solve [auto with sig] | case_match
    | apply preserves_ret | apply preserves_lift | apply preserves_get | apply preserves_gets
    | apply preserves_bind; [|intros ?] | apply preserves_try; [|intros ?] ].

Section keeping.
Context {J : JsonLib} {W T : Type} {St : SigStore W T} {L : SigLaws W T}.
Context (P : State → option nat → Prop).

(** A property of the connection state and the session pointer. *)
Definition on_state (w : W) : Prop := P (sig_get w).(state_) (sig_get w).(websocket_).

Lemma keep_ws_upd l f : preserves on_state (upd (St := session l) f).
Proof. intros w Hw. unfold on_state. simpl. by rewrite sig_ws_set. Qed.
#[local] Hint Resolve keep_ws_upd : sig.

Lemma keep_sig_upd f :
  (∀ s, (f s).(state_) = s.(state_) ∧ (f s).(websocket_) = s.(websocket_)) →
  preserves on_state (sig_upd f).
Proof.
  intros Hf w Hw. unfold on_state. simpl. rewrite sig_get_set.
  destruct (Hf (sig_get w)) as [-> ->]. done.
Qed.

Lemma keep_on_websocket {A} (m : WsStore W → ST W A) :
  (∀ l, preserves on_state (m (session l))) → preserves on_state (on_websocket m).
Proof. intros Hm. unfold on_websocket, sig_rd. keep. Qed.
#[local] Hint Resolve keep_on_websocket : sig.

Lemma keep_wk f : preserves on_state (upd_worker f).
Proof. intros w Hw. unfold on_state. simpl. by rewrite sig_wk_set. Qed.
#[local] Hint Resolve keep_wk : sig.

Lemma keep_clock : preserves on_state read_clock.
Proof.
  intros w Hw. destruct (clock_reads w) as (t & w' & E & Hs & _). rewrite E.
  unfold on_state. simpl. by rewrite Hs.
Qed.
#[local] Hint Resolve keep_clock : sig.

Lemma keep_schedule p d : preserves on_state (ScheduleEvery p d).
Proof.
  unfold ScheduleEvery, ScheduleEvery_next, ScheduleFromNow. keep.
  intros w Hw. unfold on_state. simpl. by rewrite sig_sched_set.
Qed.
#[local] Hint Resolve keep_schedule : sig.

Lemma keep_ws_SendMsg l m : preserves on_state (WebsocketSession.SendMsg (St := session l) m).
Proof. unfold WebsocketSession.SendMsg, IsConnected, rd, post. keep. Qed.
#[local] Hint Resolve keep_ws_SendMsg : sig.

Lemma keep_ws_Disconnect l : preserves on_state (WebsocketSession.Disconnect (St := session l)).
Proof. unfold WebsocketSession.Disconnect, post. keep. Qed.
#[local] Hint Resolve keep_ws_Disconnect : sig.

Lemma keep_KeepAlive : preserves on_state KeepAlive.
Proof. unfold KeepAlive, sig_rd. keep. Qed.
#[local] Hint Resolve keep_KeepAlive : sig.

Lemma keep_InitToken b : preserves on_state (InitToken b).
Proof. unfold InitToken, sig_rd. keep. Qed.
#[local] Hint Resolve keep_InitToken : sig.

Lemma keep_SendMsg m : preserves on_state (SendMsg m).
Proof.
  unfold SendMsg, CurrentState, sig_rd. keep.
Qed.
#[local] Hint Resolve keep_SendMsg : sig.

Lemma keep_SocketIoPing : preserves on_state SocketIoPing.
Proof.
  unfold SocketIoPing, CurrentState, sig_rd. keep.
Qed.
#[local] Hint Resolve keep_SocketIoPing : sig.

Lemma keep_Dispose : preserves on_state Dispose.
Proof.
  unfold Dispose, IsConnected, rd. keep.
Qed.
#[local] Hint Resolve keep_Dispose : sig.

Lemma keep_open m : preserves on_state (ProcessSocketIOOpen m).
Proof. intros w Hw. unfold on_state, ProcessSocketIOOpen. simpl. by rewrite sig_get_set. Qed.
#[local] Hint Resolve keep_open : sig.

End keeping.

#[export] Hint Resolve keep_ws_upd keep_wk keep_clock keep_schedule keep_ws_SendMsg
  keep_ws_Disconnect keep_KeepAlive keep_InitToken keep_SendMsg keep_SocketIoPing keep_Dispose
  keep_open : sig.

(** ** The connection state machine *)
Inductive sig_event :=
  | EInit (token : Token.LicodeToken)       (* the owner calls Init *)
  | ERecv (msg : str)                       (* the session delivers a message *)
  | ELost (reason : str).                   (* the session reports an error *)

(** The abstract machine: what an event does to the connection state. *)
Definition sig_spec (e : sig_event) (s : State) : State :=
  match e with
  | EInit _ => match s with kDisconnect => kConnecting | _ => s end
  | ERecv msg =>
      if decide (leading_digits msg = $"40") then kConnected
      else if decide (leading_digits msg = $"41") then kDisconnect
      else s
  | ELost _ => kDisconnect
  end.

Section machine.
Context {J : JsonLib} {W T : Type} {H : SigHost W T}.

Definition run_event (e : sig_event) : ST W unit :=
  match e with
  | EInit token => Init token ;; mret tt
  | ERecv msg => OnWebsocketMsg msg
  | ELost reason => OnWebsocketDisconnect reason
  end.

Context {L : SigLaws W T} {C : SigClient W T}.
Context (P : State → option nat → Prop).

Lemma keep_callbacks :
  (∀ m, preserves (on_state P) (on_init_token m)) ∧ preserves (on_state P) on_disconnect ∧
  (∀ e m, preserves (on_state P) (on_event e m)) ∧ (∀ m, preserves (on_state P) (on_subscribe m)) ∧
  (∀ m, preserves (on_state P) (on_publish m)).
Proof. apply (callbacks_keep P). Qed.

(** Every message that is neither "40" nor "41". *)
Lemma keep_other msg :
  leading_digits msg ≠ $"40" → leading_digits msg ≠ $"41" →
  preserves (on_state P) (OnWebsocketMsg msg).
Proof.
  intros H0 H1. destruct keep_callbacks as (Hi & Hd & He & Hs & Hp).
  unfold OnWebsocketMsg, body_after, ProcessPong, ProcessInitTokenResponse,
    ProcessSubscribeStream, ProcessPublishStream, ProcessEvent, sig_rd.
  repeat (case_decide; try done); keep; auto.
Qed.

Lemma UpdateState_spec s w :
  sig_get (UpdateState s w).2 = set_state s (sig_get w).
Proof. unfold UpdateState, sig_upd, modify. simpl. by rewrite sig_get_set. Qed.

Lemma after_update s (m : ST W unit) w :
  preserves (on_state P) m → P s (sig_get w).(websocket_) →
  on_state P (((UpdateState s) ;; m) w).2.
Proof.
  intros Hm Hp. change ((UpdateState s ;; m) w) with (m (UpdateState s w).2).
  apply Hm. unfold on_state. by rewrite UpdateState_spec.
Qed.

End machine.

(** ** Init *)
Section init.
Context {J : JsonLib} {W T : Type} {St : SigStore W T} {L : SigLaws W T}.

(** The session as [Init] leaves it. *)
Definition connecting (ws : Ws) : Ws :=
  mkWs ws.(url_) ws.(scheme_) ws.(host_) ws.(port_) ws.(target_) false false ws.(posted)
    (ws.(pending) ++ [OpResolve ws.(host_) (to_string ws.(port_))]) ws.(is_open) ws.(buffer_)
    ws.(queue_) ws.(wire) true true true.

Lemma on_websocket_at {A} (m : WsStore W → ST W A) l w :
  (sig_get w).(websocket_) = Some l → on_websocket m w = m (session l) w.
Proof. intros E. unfold on_websocket, sig_rd, gets. unfold_st. by rewrite E. Qed.

Lemma on_websocket_bind {A B} (m : WsStore W → ST W A) (k : A → ST W B) l w :
  (sig_get w).(websocket_) = Some l → (on_websocket m ≫= k) w = (m (session l) ≫= k) w.
Proof. intros E. unfold mbind, ST_bind. by rewrite (on_websocket_at _ _ _ E). Qed.

Lemma Init_spec token w ws :
  (sig_get w).(state_) = kDisconnect →
  new_session (signaling_url token.(Token.host)) = Ret ws →
  ∃ l w', Init token w = (Ret true, w') ∧
    sig_get w' = set_state kConnecting (set_websocket (Some l)
      (set_url (signaling_url token.(Token.host)) (set_token token (sig_get w)))) ∧
    ws_get (WsStore := session l) w' = connecting ws.
Proof.
  intros Hs Hn.
  unfold Init, CurrentState, sig_rd, sig_upd, UpdateState. rewrite gets_bind, Hs.
  cbn [negb]. rewrite bool_decide_eq_true_2 by done. cbn [negb].
  rewrite !modify_bind, gets_bind, !sig_get_set. cbn [token_ set_token].
  rewrite (lift_bind _ _ _ ws) by exact Hn.
  edestruct (make_session_spec ws) as (l & w1 & E & Hsig & Hws).
  rewrite (ST_bind_Ret _ _ _ _ _ E). clear E. rewrite !sig_get_set in Hsig.
  exists l. rewrite modify_bind.
  do 3 (rewrite (on_websocket_bind _ _ l) by (by rewrite ?sig_ws_set, ?sig_get_set);
    unfold SetOnReadyCallback, SetOnReceiveMsgCallback, SetOnAbnormalDisconnectCallback, upd;
    rewrite ?bind_assoc, ?modify_bind).
  unfold sig_upd. rewrite modify_bind.
  rewrite (on_websocket_bind _ _ l) by (by rewrite ?sig_get_set, ?sig_ws_set, ?sig_get_set).
  unfold Connect, rd, upd. rewrite bind_assoc, gets_bind.
  repeat first [rewrite ws_sig_set | rewrite ws_get_set_at].
  cbn [connected_ WebsocketSession.set_callbacks set_connected].
  rewrite bind_assoc, modify_bind, bind_assoc, modify_bind, bind_assoc, gets_bind. unfold start, upd.
  rewrite modify_bind. eexists. split; [reflexivity|].
  repeat first [rewrite sig_get_set | rewrite sig_ws_set | rewrite ws_get_set_at | rewrite ws_sig_set].
  rewrite Hsig, Hws. done.
Qed.

End init.

Lemma Init_busy {J : JsonLib} {W T} {St : SigStore W T} token (w : W) :
  (sig_get w).(state_) ≠ kDisconnect → Init token w = (Ret false, w).
Proof.
  intros Hs. unfold Init, CurrentState, sig_rd. rewrite gets_bind.
  by rewrite bool_decide_eq_false_2.
Qed.

(** C4: The signaling client implements its three-state machine: on Init, on
    any message the session delivers and on its report of an error the state
    moves exactly as the abstract machine prescribes (connecting, connected on
    '40', disconnected on '41' or an error, unchanged otherwise), also when
    the handler throws, and a client that is not disconnected has a session.
    *)
Theorem sig_refines_state_machine {J : JsonLib} {W T} {H : SigHost W T} {L : SigLaws W T}
    {C : SigClient W T} e (w : W) :
  match e with
  | EInit token => (sig_get w).(state_) = kDisconnect →
      ∃ ws, new_session (signaling_url token.(Token.host)) = Ret ws
  | _ => is_Some (sig_get w).(websocket_)
  end →
  let w' := (run_event e w).2 in
  (sig_get w').(state_) = sig_spec e (sig_get w).(state_) ∧
  (((sig_get w).(state_) ≠ kDisconnect → is_Some (sig_get w).(websocket_)) →
   (sig_get w').(state_) ≠ kDisconnect → is_Some (sig_get w').(websocket_)).
Proof.
  intros Hpre w'. destruct e as [token|msg|reason]; simpl in Hpre.
  - subst w'. unfold run_event. destruct (decide ((sig_get w).(state_) = kDisconnect)) as [E|E].
    + destruct (Hpre E) as [ws Hws]. destruct (Init_spec token w ws E Hws) as (l & w1 & Hi & Hs & _).
      rewrite (ST_bind_Ret _ _ _ _ _ Hi). simpl. rewrite Hs, E. simpl. by eauto.
    + rewrite (ST_bind_Ret _ _ _ _ _ (Init_busy token w E)). simpl. split; [by destruct (state_ _)|auto].
  - assert (∀ P : State → option nat → Prop,
      P (sig_spec (ERecv msg) (sig_get w).(state_)) (sig_get w).(websocket_) → on_state P w') as HP.
    { intros P HP. subst w'. simpl in *. case_decide as E40; [|case_decide as E41].
      - unfold OnWebsocketMsg. rewrite E40. apply after_update; [|done]. keep.
      - unfold OnWebsocketMsg, ProcessDisconnect, CurrentState, sig_rd. rewrite E41.
        repeat (rewrite decide_False by done). rewrite decide_True by done. rewrite gets_bind.
        apply after_update; [|done]. pose proof (keep_callbacks P). keep; tauto.
      - by apply keep_other. }
    split; [by apply (HP (λ s _, s = sig_spec (ERecv msg) (sig_get w).(state_)))|].
    intros _ _. by apply (HP (λ _ p, is_Some p)).
  - subst w'. change (run_event (ELost reason) w) with (UpdateState kDisconnect w).
    by rewrite UpdateState_spec.
Qed.

(** C37: Init on a disconnected client, for a token whose host is a name and a
    port below 2^15, creates a session with both callbacks installed whose
    only pending operation resolves that host and port, with the socket.io
    target, and enters the connecting state. *)
Theorem sig_init_connects {J : JsonLib} {W T} {St : SigStore W T} {L : SigLaws W T}
    token h port (w : W) :
  (sig_get w).(state_) = kDisconnect →
  token.(Token.host) = h ++ $":" ++ dec port →
  ":"%char ∉ h → "/"%char ∉ h → 0 ≤ port → in_i16 port = true →
  size (signaling_url token.(Token.host)) ≤ npos →
  ∃ l w', Init token w = (Ret true, w') ∧
    (sig_get w').(state_) = kConnecting ∧ (sig_get w').(websocket_) = Some l ∧
    let ws := ws_get (WsStore := session l) w' in
    ws.(pending) = [OpResolve h (dec port)] ∧ ws.(host_) = h ∧ ws.(port_) = port ∧
    ws.(target_) = $"/socket.io/?EIO=3&transport=websocket" ∧
    ws.(connected_) = false ∧ ws.(do_disconnect_) = false ∧
    ws.(receive_msg_callback_) = true ∧ ws.(abnormal_disconnect_callback_) = true.
Proof.
  intros Hs Ht Hc Hsl Hp Hi Hsz.
  set (s0 := mkWs (signaling_url token.(Token.host)) [] [] (-1) [] false false [] [] false [] [] []
    false false false).
  assert (ParseUrl s0 = (Ret true, set_target ($"/" ++ $"socket.io/?EIO=3&transport=websocket")
    (set_port port (set_host h (set_scheme $"ws" s0))))) as Hparse.
  { apply (ParseUrl_port $"ws" h port $"socket.io/?EIO=3&transport=websocket"); try done.
    - by left.
    - apply (bool_decide_unpack _). by vm_compute.
    - unfold in_i16, in_i32 in *. lia.
    - simpl url_. unfold signaling_url. rewrite Ht. by rewrite <- !app_assoc. }
  destruct (Init_spec token w (set_target ($"/" ++ $"socket.io/?EIO=3&transport=websocket")
    (set_port port (set_host h (set_scheme $"ws" s0))))) as (l & w' & Hinit & Hsig & Hws); [done| |].
  { unfold new_session. fold s0. by rewrite Hparse. }
  exists l, w'. rewrite Hsig, Hws. simpl. rewrite (i16_id port Hi), to_string_nonneg by done.
  split_and!; done.
Qed.

(** ** Sending *)
Section sending.
Context {J : JsonLib} {W T : Type} {St : SigStore W T} {L : SigLaws W T}.

Definition accepts (ws : Ws) (msg : str) : list Posted :=
  if ws.(connected_) then [PSend msg] else [].

Lemma ws_send_spec l msg w :
  ∃ w', WebsocketSession.SendMsg (St := session l) msg w = (Ret tt, w') ∧
    sig_get w' = sig_get w ∧
    ws_get (WsStore := session l) w' =
      (let ws := ws_get (WsStore := session l) w in
       set_posted (ws.(posted) ++ accepts ws msg) ws).
Proof.
  unfold WebsocketSession.SendMsg, IsConnected, rd, post, upd, accepts. rewrite gets_bind.
  destruct (ws_get w).(connected_) eqn:E; simpl; eexists; (split; [reflexivity|]).
  - by rewrite sig_ws_set, ws_get_set_at.
  - rewrite app_nil_r. by destruct (ws_get w).
Qed.

Lemma KeepAlive_spec w :
  ∃ w', KeepAlive w = (Ret tt, w') ∧ sig_get w' = sig_get w ∧
    ∀ l, ws_get (WsStore := session l) w' = ws_get (WsStore := session l) w.
Proof.
  unfold KeepAlive, sig_rd. rewrite gets_bind. unfold ScheduleEvery, ScheduleEvery_next.
  destruct (clock_reads w) as (t & w1 & E & Hs & Hws).
  rewrite (ST_bind_Ret _ _ _ _ _ E). unfold ScheduleFromNow, upd_worker.
  rewrite bind_assoc, gets_bind, bind_assoc, modify_bind, bind_assoc, gets_bind.
  destruct (sched_get _); rewrite ?bind_assoc, ?modify_bind, ret_bind; eexists;
    (split; [reflexivity|]).
  - split; [by rewrite sig_sched_set, sig_wk_set|]. intros l. by rewrite ws_sched_set, ws_wk_set.
  - split; [by rewrite sig_wk_set|]. intros l. by rewrite ws_wk_set.
Qed.

Lemma SendMsg_spec msg l (w : W) :
  (sig_get w).(websocket_) = Some l →
  ∃ w', SendMsg msg w = (Ret tt, w') ∧ sig_get w' = sig_get w ∧
    ws_get (WsStore := session l) w' =
      (let ws := ws_get (WsStore := session l) w in
       set_posted (ws.(posted) ++
         if decide ((sig_get w).(state_) = kConnected ∧ ws.(connected_) = true)
         then [PSend msg] else []) ws).
Proof.
  intros Hl. unfold SendMsg, CurrentState, sig_rd. rewrite gets_bind.
  destruct (decide ((sig_get w).(state_) = kConnected)) as [E|E].
  - rewrite bool_decide_eq_true_2, (on_websocket_at _ l) by done.
    destruct (ws_send_spec l msg w) as (w' & Hw & Hs & Hws). exists w'. split_and!; [done..|].
    rewrite Hws. unfold accepts. destruct (ws_get w).(connected_) eqn:Ec;
      case_decide as Hd; try done; [by exfalso; apply Hd|by destruct Hd].
  - rewrite bool_decide_eq_false_2 by done. exists w. split_and!; [done..|].
    rewrite decide_False by tauto. rewrite app_nil_r. by destruct (ws_get w).
Qed.

End sending.

(** C36: SendMsg hands a message to the session exactly when the client and
    the session are connected, and otherwise drops it; nothing else changes.
    *)
Theorem sig_send_only_when_connected {J : JsonLib} {W T} {St : SigStore W T} {L : SigLaws W T}
    msg l (w : W) :
  (sig_get w).(websocket_) = Some l →
  ∃ w', SendMsg msg w = (Ret tt, w') ∧ sig_get w' = sig_get w ∧
    ws_get (WsStore := session l) w' =
      (let ws := ws_get (WsStore := session l) w in
       set_posted (ws.(posted) ++
         if decide ((sig_get w).(state_) = kConnected ∧ ws.(connected_) = true)
         then [PSend msg] else []) ws).
Proof. apply SendMsg_spec. Qed.

(** C28: On the socket.io connect message the client enters the connected
    state and posts exactly one packet, the token request with transaction id
    111 built from the token it was initialised with. *)
Theorem sig_token_handshake {J : JsonLib} {W T} {H : SigHost W T} {L : SigLaws W T}
    r pkt l (w : W) :
  (sig_get w).(websocket_) = Some l →
  (ws_get (WsStore := session l) w).(connected_) = true →
  (let t := (sig_get w).(token_) in
   token_Build (token_SetSinglePC false (token_SetSignature t.(Token.signature)
     (token_SetSecure t.(Token.secure) (token_SetHost t.(Token.host)
       (token_SetTokenId t.(Token.tokenId) token_new))))) = Ret pkt) →
  no_digit_head r → size ($"40" ++ r) ≤ npos →
  ∃ w', OnWebsocketMsg ($"40" ++ r) w = (Ret tt, w') ∧
    sig_get w' = set_state kConnected (sig_get w) ∧
    ws_get (WsStore := session l) w' =
      (let ws := ws_get (WsStore := session l) w in
       set_posted (ws.(posted) ++ [PSend ($"42111" ++ pkt)]) ws).
Proof.
  intros Hl Hc Hb Hr Hsz.
  rewrite (OnWebsocketMsg_known $"40" (λ _, UpdateState kConnected ;; KeepAlive ;; InitToken false)).
  2:{ unfold dispatch_table. do 2 right. left. }
  2-3: done.
  unfold UpdateState, sig_upd. rewrite modify_bind.
  set (w1 := sig_set (set_state kConnected (sig_get w)) w).
  destruct (KeepAlive_spec w1) as (w2 & Hk & Hs2 & Hw2).
  rewrite (ST_bind_Ret _ _ _ _ _ Hk). subst w1. rewrite sig_get_set in Hs2.
  unfold InitToken, sig_rd. rewrite gets_bind, Hs2. cbn [token_ set_state].
  rewrite (lift_bind _ _ _ pkt) by exact Hb.
  rewrite (on_websocket_at _ l) by (by rewrite Hs2).
  edestruct (ws_send_spec l) as (w3 & Hw & Hs3 & Hws3).
  exists w3. split; [exact Hw|]. rewrite Hs3, Hs2. split; [done|].
  rewrite Hws3, Hw2, ws_sig_set. unfold accepts. by rewrite Hc.
Qed.

(** A malformed event is dropped: no exception leaves [ProcessEvent]. *)
Lemma sig_event_errors_are_contained {J : JsonLib} {W T} {H : SigHost W T} msg (w : W) e :
  (ProcessEvent msg w).1 ≠ Throw e.
Proof.
  unfold ProcessEvent. destruct (try_catch _ _ w) as [o w'] eqn:E. simpl. intros ->.
  by eapply try_catch_no_throw in E.
Qed.
