(* ===== verification/Room.v ===== *)
(** * LicodeRoom (core/licode_room.h, .cc) and LicodeRoomObserver

    The room object inside the client's world: its signaling object, the
    sessions that one created, the worker its tasks run on, the scheduler behind
    the worker, and the stream-info objects, which are shared by the two maps,
    the queues, the posted tasks and the observer and therefore live in a heap.
    A [shared_ptr] is [option loc]; [None] is null.

    The closures posted to the worker are the constructors of [SendTask] (posted
    by the public methods) and [NoteTask] (posted by the handlers of server
    messages, which run on a session's thread). The observer is a parameter
    ([Observer]) with a state [X] of its own. *)

From stdpp Require Import base list strings gmap.
From Stdlib Require Import Ascii ZArith Lia.
From S2P Require Import Prelude CppString Json PktBuilder LicodeData Scheduler Worker.
From S2P Require Import WebsocketSession Signaling.
Import StreamInfo.

Local Open Scope Z_scope.

Abbreviation loc := nat.

Inductive RoomState := kDisconnected | kConnecting | kConnected.

#[global] Instance RoomState_eq_dec : EqDecision RoomState.
Proof. solve_decision. Defined.

(** [std::unordered_map<uint64_t, std::shared_ptr<LicodeStreamInfo>>] *)
Abbreviation StreamMap := (gmap Z (option loc)).

Record LicodeRoom := mkRoom {
  token_ : Token.LicodeToken;
  id_ : str;
  client_id_ : str;
  erizo_id_ : str;
  state_ : RoomState;
  p2p_ : bool;
  single_pc_ : bool;
  default_video_bw_ : Z;
  max_video_bw_ : Z;
  ice_server_list_ : list Ice.IceServer;
  local_stream_infos_ : StreamMap;
  remote_stream_infos_ : StreamMap;
  pending_subscribe_streams_ : list Z;
  pending_publish_local_streams_ : list loc
}.

Definition new_room (token : Token.LicodeToken) : LicodeRoom :=
  mkRoom token [] [] [] kDisconnected false false 0 0 [] ∅ ∅ [] [].

Definition set_id v r := mkRoom r.(token_) v r.(client_id_) r.(erizo_id_) r.(state_) r.(p2p_)
  r.(single_pc_) r.(default_video_bw_) r.(max_video_bw_) r.(ice_server_list_)
  r.(local_stream_infos_) r.(remote_stream_infos_) r.(pending_subscribe_streams_)
  r.(pending_publish_local_streams_).
Definition set_client_id v r := mkRoom r.(token_) r.(id_) v r.(erizo_id_) r.(state_) r.(p2p_)
  r.(single_pc_) r.(default_video_bw_) r.(max_video_bw_) r.(ice_server_list_)
  r.(local_stream_infos_) r.(remote_stream_infos_) r.(pending_subscribe_streams_)
  r.(pending_publish_local_streams_).
Definition set_erizo_id v r := mkRoom r.(token_) r.(id_) r.(client_id_) v r.(state_) r.(p2p_)
  r.(single_pc_) r.(default_video_bw_) r.(max_video_bw_) r.(ice_server_list_)
  r.(local_stream_infos_) r.(remote_stream_infos_) r.(pending_subscribe_streams_)
  r.(pending_publish_local_streams_).
Definition set_room_state v r := mkRoom r.(token_) r.(id_) r.(client_id_) r.(erizo_id_) v r.(p2p_)
  r.(single_pc_) r.(default_video_bw_) r.(max_video_bw_) r.(ice_server_list_)
  r.(local_stream_infos_) r.(remote_stream_infos_) r.(pending_subscribe_streams_)
  r.(pending_publish_local_streams_).
Definition set_p2p v r := mkRoom r.(token_) r.(id_) r.(client_id_) r.(erizo_id_) r.(state_) v
  r.(single_pc_) r.(default_video_bw_) r.(max_video_bw_) r.(ice_server_list_)
  r.(local_stream_infos_) r.(remote_stream_infos_) r.(pending_subscribe_streams_)
  r.(pending_publish_local_streams_).
Definition set_single_pc v r := mkRoom r.(token_) r.(id_) r.(client_id_) r.(erizo_id_) r.(state_)
  r.(p2p_) v r.(default_video_bw_) r.(max_video_bw_) r.(ice_server_list_)
  r.(local_stream_infos_) r.(remote_stream_infos_) r.(pending_subscribe_streams_)
  r.(pending_publish_local_streams_).
Definition set_bandwidth d m r := mkRoom r.(token_) r.(id_) r.(client_id_) r.(erizo_id_) r.(state_)
  r.(p2p_) r.(single_pc_) d m r.(ice_server_list_)
  r.(local_stream_infos_) r.(remote_stream_infos_) r.(pending_subscribe_streams_)
  r.(pending_publish_local_streams_).
Definition set_ice v r := mkRoom r.(token_) r.(id_) r.(client_id_) r.(erizo_id_) r.(state_)
  r.(p2p_) r.(single_pc_) r.(default_video_bw_) r.(max_video_bw_) v
  r.(local_stream_infos_) r.(remote_stream_infos_) r.(pending_subscribe_streams_)
  r.(pending_publish_local_streams_).
Definition set_local v r := mkRoom r.(token_) r.(id_) r.(client_id_) r.(erizo_id_) r.(state_)
  r.(p2p_) r.(single_pc_) r.(default_video_bw_) r.(max_video_bw_) r.(ice_server_list_)
  v r.(remote_stream_infos_) r.(pending_subscribe_streams_) r.(pending_publish_local_streams_).
Definition set_remote v r := mkRoom r.(token_) r.(id_) r.(client_id_) r.(erizo_id_) r.(state_)
  r.(p2p_) r.(single_pc_) r.(default_video_bw_) r.(max_video_bw_) r.(ice_server_list_)
  r.(local_stream_infos_) v r.(pending_subscribe_streams_) r.(pending_publish_local_streams_).
Definition set_pending_subscribe v r := mkRoom r.(token_) r.(id_) r.(client_id_) r.(erizo_id_)
  r.(state_) r.(p2p_) r.(single_pc_) r.(default_video_bw_) r.(max_video_bw_) r.(ice_server_list_)
  r.(local_stream_infos_) r.(remote_stream_infos_) v r.(pending_publish_local_streams_).
Definition set_pending_publish v r := mkRoom r.(token_) r.(id_) r.(client_id_) r.(erizo_id_)
  r.(state_) r.(p2p_) r.(single_pc_) r.(default_video_bw_) r.(max_video_bw_) r.(ice_server_list_)
  r.(local_stream_infos_) r.(remote_stream_infos_) r.(pending_subscribe_streams_) v.

(** ** Posted closures *)
Inductive SendTask :=
  | TPublish (pkt : str) (info : loc)
  | TUnPublish (pkt : str)
  | TSubscribe (streamId : Z)
  | TUnSubscribe (streamId : Z)
  | TSendAnswer (streamId : Z) (sdp : str)
  | TSendOffer (streamId : Z) (sdp : str)
  | TSendIce (streamId : Z) (sdpMid : str) (sdpMLineIndex : Z) (candidate : str).

Inductive NoteTask {J : JsonLib} :=
  | TJoined
  | TExisting (info : loc)
  | TAddStream (info : loc)
  | TRemoveStream (removeStreamId : Z)
  | TSubscribed (j : json)
  | TPublished (msg : str)
  | TErizoReady (connId : str)
  | TReceiveOffer (connId sdp : str).

Inductive RoomTask {J : JsonLib} :=
  | Send (t : SendTask)
  | Note (t : NoteTask).

(** ** The client's world *)
Record World {J : JsonLib} (X : Type) := mkWorld {
  w_signaling : Signaling;                       (* signaling_ *)
  w_sessions : gmap nat Ws;                      (* WebsocketSession objects *)
  w_worker : Worker RoomTask PingTask;           (* worker_ *)
  w_scheduler : option (Scheduler (nat * Timed RoomTask PingTask));
  w_clock : Z;
  w_heap : gmap loc LicodeStreamInfo;
  w_alive : bool;                                (* weak_from_this() can be locked *)
  w_room : LicodeRoom;
  w_observer : X
}.
Arguments mkWorld {J X}.
Arguments w_signaling {J X}.
Arguments w_sessions {J X}.
Arguments w_worker {J X}.
Arguments w_scheduler {J X}.
Arguments w_clock {J X}.
Arguments w_heap {J X}.
Arguments w_alive {J X}.
Arguments w_room {J X}.
Arguments w_observer {J X}.

Section world.
Context {J : JsonLib} {X : Type}.
Implicit Types w : World X.

Definition put_signaling v w : World X := mkWorld v w.(w_sessions) w.(w_worker) w.(w_scheduler)
  w.(w_clock) w.(w_heap) w.(w_alive) w.(w_room) w.(w_observer).
Definition put_sessions v w : World X := mkWorld w.(w_signaling) v w.(w_worker) w.(w_scheduler)
  w.(w_clock) w.(w_heap) w.(w_alive) w.(w_room) w.(w_observer).
Definition put_worker v w : World X := mkWorld w.(w_signaling) w.(w_sessions) v w.(w_scheduler)
  w.(w_clock) w.(w_heap) w.(w_alive) w.(w_room) w.(w_observer).
Definition put_scheduler v w : World X := mkWorld w.(w_signaling) w.(w_sessions) w.(w_worker) v
  w.(w_clock) w.(w_heap) w.(w_alive) w.(w_room) w.(w_observer).
Definition put_heap v w : World X := mkWorld w.(w_signaling) w.(w_sessions) w.(w_worker)
  w.(w_scheduler) w.(w_clock) v w.(w_alive) w.(w_room) w.(w_observer).
Definition put_room v w : World X := mkWorld w.(w_signaling) w.(w_sessions) w.(w_worker)
  w.(w_scheduler) w.(w_clock) w.(w_heap) w.(w_alive) v w.(w_observer).
Definition put_observer v w : World X := mkWorld w.(w_signaling) w.(w_sessions) w.(w_worker)
  w.(w_scheduler) w.(w_clock) w.(w_heap) w.(w_alive) w.(w_room) v.

(** The value read from an index that was never allocated; no index in use is. *)
Definition no_session : Ws :=
  mkWs [] [] [] (-1) [] false false [] [] false [] [] [] false false false.

#[global] Instance world_session (l : nat) : WsStore (World X) := {|
  ws_get w := default no_session (w.(w_sessions) !! l);
  ws_set s w := put_sessions (<[l := s]> w.(w_sessions)) w
|}.

#[global] Instance world_worker : WorkerStore (World X) RoomTask PingTask := {|
  wk_get := w_worker;
  wk_set := put_worker;
  sched_get := w_scheduler;
  sched_set s := put_scheduler (Some s);
  read_clock := gets w_clock
|}.

#[global] Instance world_sig : SigStore (World X) RoomTask := {|
  sig_get := w_signaling;
  sig_set := put_signaling;
  session := world_session;
  make_session s := λ w,
    let l := fresh (dom w.(w_sessions)) in
    (Ret l, put_sessions (<[l := s]> w.(w_sessions)) w);
  sig_worker := world_worker
|}.

(** ** Access *)
Definition rm {A} (f : LicodeRoom → A) : ST (World X) A := gets (λ w, f w.(w_room)).
Definition rm_upd (f : LicodeRoom → LicodeRoom) : ST (World X) unit :=
  modify (λ w, put_room (f w.(w_room)) w).

(** [std::make_shared<LicodeStreamInfo>(...)] *)
Definition make_info (i : LicodeStreamInfo) : ST (World X) loc := λ w,
  let l := fresh (dom w.(w_heap)) in
  (Ret l, put_heap (<[l := i]> w.(w_heap)) w).

(** [*p] through a pointer known not to be null. *)
Definition info_at (l : loc) : ST (World X) LicodeStreamInfo :=
  h ← gets w_heap;
  match h !! l with Some i => mret i | None => lift (Undef NullDeref) end.

Definition deref (p : option loc) : ST (World X) LicodeStreamInfo :=
  match p with Some l => info_at l | None => lift (Undef NullDeref) end.

Definition info_upd (p : option loc) (f : LicodeStreamInfo → LicodeStreamInfo)
    : ST (World X) unit :=
  i ← deref p;
  match p with
  | Some l => modify (λ w, put_heap (<[l := f i]> w.(w_heap)) w)
  | None => mret tt
  end.

(** [m[k]] of an unordered_map inserts a null pointer when [k] is missing. *)
Definition subscript (m : StreamMap) (k : Z) : StreamMap * option loc :=
  match m !! k with
  | Some p => (m, p)
  | None => (<[k := None]> m, None)
  end.

Definition remote_at (k : Z) : ST (World X) (option loc) :=
  m ← rm remote_stream_infos_;
  rm_upd (set_remote (subscript m k).1) ;;
  mret (subscript m k).2.

Definition local_at (k : Z) : ST (World X) (option loc) :=
  m ← rm local_stream_infos_;
  rm_upd (set_local (subscript m k).1) ;;
  mret (subscript m k).2.

End world.

(** ** The public methods and the closures they post *)
Section sending.
Context {J : JsonLib} {X : Type}.
Local Abbreviation M := (ST (World X)).

Definition Id : M str := rm id_.
Definition CurrentState : M RoomState := rm state_.
Definition Update (s : RoomState) : M unit := rm_upd (set_room_state s).
Definition IceServers : M (list Ice.IceServer) := rm ice_server_list_.
Definition P2p : M bool := rm p2p_.
Definition SinglePC : M bool := rm single_pc_.
Definition MaxVideoBW : M Z := rm max_video_bw_.
Definition DefaultVideoBW : M Z := rm default_video_bw_.
Definition RoomId : M str := rm id_.

Definition Join : M unit :=
  st ← CurrentState;
  if negb (bool_decide (st = kDisconnected)) then mret tt
  else
    Update kConnecting ;;
    token ← rm token_;
    Signaling.Init token ;;
    mret tt.

Definition Leave : M unit :=
  st ← CurrentState;
  if bool_decide (st = kDisconnected) then mret tt else Signaling.Dispose.

(** [builder.SetType(t).SetConnId(remote_stream_infos_[id]->ConnectionId())
    .SetErizoId(erizo_id_).SetSdp(sdp)], then the packet is sent. *)
Definition send_sdp (type : str) (streamId : Z) (sdp : str) : M unit :=
  p ← remote_at streamId;
  info ← deref p;
  erizo ← rm erizo_id_;
  pkt ← lift (offer_Build (offer_SetSdp sdp (offer_SetErizoId erizo
    (offer_SetConnId (ConnectionId info) (offer_SetType type offer_new)))));
  Signaling.SendMsg (EventHeader ++ pkt).

Definition run_publish (pkt : str) (info : loc) : M unit :=
  rm_upd (λ r, set_pending_publish (r.(pending_publish_local_streams_) ++ [info]) r) ;;
  Signaling.SendMsg (PublishStreamMsgHeader ++ pkt).

Definition run_subscribe (streamId : Z) : M unit :=
  pkt ← lift (subscribe_Build
    (subscribe_SetOfferFromErizo true (subscribe_SetStreamId streamId subscribe_new)));
  rm_upd (λ r, set_pending_subscribe (r.(pending_subscribe_streams_) ++ [streamId]) r) ;;
  Signaling.SendMsg (SubscribeStreamMsgHeader ++ pkt).

Definition run_unsubscribe (streamId : Z) : M unit :=
  pkt ← lift (unsubscribe_Build (unsubscribe_SetStreamId streamId unsubscribe_new));
  Signaling.SendMsg (EventHeader ++ pkt).

Definition run_ice (streamId : Z) (sdpMid : str) (sdpMLineIndex : Z) (candidate : str) : M unit :=
  p ← remote_at streamId;
  p ← match p with Some _ => mret p | None => local_at streamId end;
  erizo ← rm erizo_id_;
  info ← deref p;
  pkt ← lift (connection_Build (connection_SetCandidate_ candidate
    (connection_SetSdpMLineIndex sdpMLineIndex (connection_SetSdpMid sdpMid
      (connection_SetConnId (ConnectionId info) (connection_SetErizoId erizo connection_new))))));
  Signaling.SendMsg (EventHeader ++ pkt).

(** The bodies of the closures. *)
Definition run_send (t : SendTask) : M unit :=
  match t with
  | TPublish pkt info => run_publish pkt info
  | TUnPublish pkt => Signaling.SendMsg (EventHeader ++ pkt)
  | TSubscribe streamId => run_subscribe streamId
  | TUnSubscribe streamId => run_unsubscribe streamId
  | TSendAnswer streamId sdp => send_sdp $"answer" streamId sdp
  | TSendOffer streamId sdp => send_sdp $"offer" streamId sdp
  | TSendIce streamId sdpMid index candidate => run_ice streamId sdpMid index candidate
  end.

(** [LicodeRoom::SafeTask]: nothing happens once the room is gone. *)
Definition safe (m : M unit) : M unit :=
  alive ← gets w_alive; SafeTask alive m.

(** [worker_->PostTask(SafeTask(...))] *)
Definition post_send (on_worker : bool) (t : SendTask) : M unit :=
  PostTask on_worker (safe (run_send t)) (Send t).

Definition PublishStream (on_worker : bool) (info : option loc) : M unit :=
  i ← deref info;
  pkt ← lift (public_Build (public_SetState $"erizo" (public_SetLabel (Label i) public_new)));
  match info with
  | Some l => post_send on_worker (TPublish pkt l)
  | None => mret tt
  end.

Definition UnPublishStream (on_worker : bool) (streamId : Z) : M unit :=
  pkt ← lift (unsubscribe_Build (unsubscribe_SetStreamId streamId unsubscribe_new));
  post_send on_worker (TUnPublish pkt).

Definition SubscribeStream (on_worker : bool) (streamId : Z) : M unit :=
  post_send on_worker (TSubscribe streamId).
Definition UnSubscriberStream (on_worker : bool) (streamId : Z) : M unit :=
  post_send on_worker (TUnSubscribe streamId).
Definition SendAnswer (on_worker : bool) (streamId : Z) (sdp : str) : M unit :=
  post_send on_worker (TSendAnswer streamId sdp).
Definition SendOffer (on_worker : bool) (streamId : Z) (sdp : str) : M unit :=
  post_send on_worker (TSendOffer streamId sdp).
Definition SendIceCandidate (on_worker : bool) (streamId : Z) (sdpMid : str) (sdpMLineIndex : Z)
    (candidate : str) : M unit :=
  post_send on_worker (TSendIce streamId sdpMid sdpMLineIndex candidate).

End sending.

(** ** Server messages, on a session's thread *)
Section messages.
Context {J : JsonLib} {X : Type}.
Local Abbreviation M := (ST (World X)).

(** [worker_->PostTask(SafeTask(...))] from another thread than the worker's. *)
Definition post_note (t : NoteTask) : M unit := upd_worker (push (JTask (Note t))).

(** [std::make_shared<LicodeStreamInfo>(s["id"], s["video"], ..., s["attributes"].dump())]:
    the subscripts first, then the conversions to the constructor's types. *)
Definition info_of (id video audio data label scr attributes : json) : outcome LicodeStreamInfo :=
  attrs ← j_dump attributes;
  id ← get_uint64 id;
  video ← get_bool video;
  audio ← get_bool audio;
  data ← get_bool data;
  label ← get_string label;
  scr ← get_bool scr;
  Ret (StreamInfo.make id video audio data label scr attrs).

(** A stream of the join response: [const auto& stream]. *)
Definition info_of_const (s : json) : outcome LicodeStreamInfo :=
  id ← j_key_const s $"id"; video ← j_key_const s $"video"; audio ← j_key_const s $"audio";
  data ← j_key_const s $"data"; label ← j_key_const s $"label"; scr ← j_key_const s $"screen";
  attributes ← j_key_const s $"attributes";
  info_of id video audio data label scr attributes.

(** The stream of an onAddStream event: the parsed value is not const. *)
Definition info_of_event (s : json) : outcome LicodeStreamInfo :=
  '(id, s) ← j_key s $"id"; '(video, s) ← j_key s $"video"; '(audio, s) ← j_key s $"audio";
  '(data, s) ← j_key s $"data"; '(label, s) ← j_key s $"label"; '(scr, s) ← j_key s $"screen";
  '(attributes, s) ← j_key s $"attributes";
  info_of id video audio data label scr attributes.

Definition ice_of (ice : json) : outcome Ice.IceServer :=
  url ← j_value_string ice $"url" [];
  username ← j_value_string ice $"username" [];
  credential ← j_value_string ice $"credential" [];
  Ret (Ice.mkIce url username credential).

(** The loop over [streams]: each info is made before the next is read. *)
Fixpoint make_infos (streams : list json) : M (list loc) :=
  match streams with
  | [] => mret []
  | s :: ss =>
      i ← lift (info_of_const s);
      l ← make_info i;
      ls ← make_infos ss;
      mret (l :: ls)
  end.

Definition push_ice (ice : json) : M unit :=
  s ← lift (ice_of ice);
  rm_upd (λ r, set_ice (r.(ice_server_list_) ++ [s]) r).

(** [body["key"]] read into a member; [body] itself goes on changed. *)
Definition take_key {A} (body : json) (key : str) (conv : json → outcome A) : M (A * json) :=
  vb ← lift (j_key body key);
  a ← lift (conv vb.1);
  mret (a, vb.2).

(** The [success] branch up to [Update(kConnected)]: the members are assigned as
    the fields are read; the result is [existStreams]. *)
Definition join_read (body : json) : M (list loc) :=
  '(id, body) ← take_key body $"id" get_string;
  rm_upd (set_id id) ;;
  '(client, body) ← take_key body $"clientId" get_string;
  rm_upd (set_client_id client) ;;
  rm_upd (set_remote ∅) ;;
  '(streams, body) ← take_key body $"streams" Ret;
  existStreams ← make_infos (j_elems streams);
  body ← (if j_contains body $"p2p" then
            '(p2p, body) ← take_key body $"p2p" get_bool;
            rm_upd (set_p2p p2p) ;; mret body
          else mret body);
  '(dbw, body) ← take_key body $"defaultVideoBW" get_int;
  rm_upd (λ r, set_bandwidth dbw r.(max_video_bw_) r) ;;
  '(mbw, body) ← take_key body $"maxVideoBW" get_int;
  rm_upd (λ r, set_bandwidth r.(default_video_bw_) mbw r) ;;
  '(spc, body) ← take_key body $"singlePC" get_bool;
  rm_upd (set_single_pc spc) ;;
  '(iceServers, body) ← take_key body $"iceServers" Ret;
  rm_upd (set_ice []) ;;
  for_each push_ice (j_elems iceServers) ;;
  mret existStreams.

Definition join_success (body : json) : M unit :=
  existStreams ← join_read body;
  Update kConnected ;;
  post_note TJoined ;;
  for_each (λ l, post_note (TExisting l)) existStreams.

Definition OnJoinRoom (msg : str) : M unit :=
  try_catch
    (j ← lift (j_parse msg);
     '(status, j) ← lift (j_at j 0);
     if j_eq_string status $"success" then
       '(body, _) ← lift (j_at j 1);
       join_success body
     else
       Update kDisconnected ;;
       lift (j_at j 1) ;; mret tt)
    (λ _, Update kDisconnected).

Definition OnLeaveRoom : M unit := Update kDisconnected.

Definition OnAddStream (msg : str) : M unit :=
  try_catch
    (stream ← lift (j_parse msg);
     i ← lift (info_of_event stream);
     l ← make_info i;
     post_note (TAddStream l))
    (λ _, mret tt).

Definition OnRemoveStream (msg : str) : M unit :=
  try_catch
    (body ← lift (j_parse msg);
     '(id, _) ← lift (j_key body $"id");
     removeStreamId ← lift (get_uint64 id);
     post_note (TRemoveStream removeStreamId))
    (λ _, mret tt).

(** Not guarded: a malformed response throws out of the session's handler. *)
Definition OnSubscribeStream (msg : str) : M unit :=
  j ← lift (j_parse msg);
  post_note (TSubscribed j).

Definition OnPublishStream (msg : str) : M unit := post_note (TPublished msg).

Definition OnPeerConnectionConnectErizoReady (connId : str) : M unit :=
  post_note (TErizoReady connId).

Definition receiveOffer (connId sdp : str) : M unit := post_note (TReceiveOffer connId sdp).

Definition receiveAnswer (connId sdp : str) : M unit := mret tt.

Definition OnErizoConnectionEvent (msg : str) : M unit :=
  event ← lift (j_parse msg);
  '(connectionId, event) ← take_key event $"connectionId" get_string;
  '(info, event) ← take_key event $"info" get_int;
  '(evt, _) ← take_key event $"evt" Ret;
  if decide (info = 202) then
    '(type, evt) ← take_key evt $"type" Ret;
    if j_eq_string type $"offer" then
      '(sdp, _) ← take_key evt $"sdp" get_string; receiveOffer connectionId sdp
    else if j_eq_string type $"answer" then
      '(sdp, _) ← take_key evt $"sdp" get_string; receiveAnswer connectionId sdp
    else mret tt
  else if decide (info = 150) then mret tt
  else if decide (info = 104) then OnPeerConnectionConnectErizoReady connectionId
  else if decide (info = 500) then mret tt
  else mret tt.

Definition OnEvent (event msg : str) : M unit :=
  if decide (event = $"connection_message_erizo") then OnErizoConnectionEvent msg
  else if decide (event = $"onAddStream") then OnAddStream msg
  else if decide (event = $"onRemoveStream") then OnRemoveStream msg
  else mret tt.

(** The callbacks the constructor installs. *)
#[global] Instance room_sig_host : SigHost (World X) RoomTask := {|
  sig_store := world_sig;
  on_init_token := OnJoinRoom;
  on_disconnect := OnLeaveRoom;
  on_event := OnEvent;
  on_subscribe := OnSubscribeStream;
  on_publish := OnPublishStream
|}.

End messages.

(** ** LicodeRoomObserver (core/licode_room_observer.h) *)
Class Observer {J : JsonLib} (X : Type) := {
  obs_OnJoinRoom : str → ST (World X) unit;
  obs_OnLeaveRoom : str → ST (World X) unit;
  obs_OnAddRemoteStream : option loc → ST (World X) unit;
  obs_OnRemoveRemoteStream : option loc → ST (World X) unit;
  obs_OnSubscribeStreamAllocateConnId : option loc → ST (World X) unit;
  obs_OnPublishStreamAllocateConnId : option loc → ST (World X) unit;
  obs_OnReceiveOffer : option loc → str → ST (World X) unit;
  obs_OnStreamConnectReady : option loc → ST (World X) unit;
  obs_OnReceiveAnswer : option loc → str → ST (World X) unit
}.

(** The order in which a [for] loop visits an unordered_map. *)
Class MapOrder := {
  map_order : StreamMap → list (Z * option loc);
  map_order_perm m : map_order m ≡ₚ map_to_list m
}.

(** ** The closures posted by the message handlers, on the worker's thread *)
Section notes.
Context {J : JsonLib} {X : Type} {O : Observer X} {MO : MapOrder}.
Local Abbreviation M := (ST (World X)).

(** [for (const auto& info: m) if (info.second->ConnectionId() == connId) ... break;] *)
Fixpoint find_conn (connId : str) (l : list (Z * option loc)) : M (option loc) :=
  match l with
  | [] => mret None
  | (_, p) :: l' =>
      i ← deref p;
      if decide (ConnectionId i = connId) then mret p else find_conn connId l'
  end.

Definition run_existing (info : loc) : M unit :=
  i ← info_at info;
  rm_upd (λ r, let m := r.(remote_stream_infos_) in
    set_remote (match m !! StreamInfo.Id i with
                | Some _ => m                               (* emplace keeps the old *)
                | None => <[StreamInfo.Id i := Some info]> m
                end) r) ;;
  obs_OnAddRemoteStream (Some info).

Definition run_add (info : loc) : M unit :=
  i ← info_at info;
  localStreamInfo ← local_at (StreamInfo.Id i);
  match localStreamInfo with
  | Some _ =>
      li ← deref localStreamInfo;
      info_upd (Some info) (SetConnectionId (ConnectionId li)) ;;
      rm_upd (λ r, set_local (<[StreamInfo.Id i := Some info]> r.(local_stream_infos_)) r)
  | None =>
      rm_upd (λ r, set_remote (<[StreamInfo.Id i := Some info]> r.(remote_stream_infos_)) r) ;;
      obs_OnAddRemoteStream (Some info)
  end.

Definition run_remove (removeStreamId : Z) : M unit :=
  rm_upd (λ r, set_remote (delete removeStreamId r.(remote_stream_infos_)) r).

(** [if (erizo_id_.empty()) erizo_id_ = v; else if (erizo_id_ != v) LOG(...)] *)
Definition learn_erizo (v : json) : M unit :=
  erizo ← rm erizo_id_;
  if decide (erizo = []) then
    e ← lift (get_string v); rm_upd (set_erizo_id e)
  else mret tt.

(** The captured [json] is const. *)
Definition run_subscribed (j : json) : M unit :=
  pending ← rm pending_subscribe_streams_;
  match pending with
  | [] => lift (Undef EmptyFront)
  | streamId :: rest =>
      rm_upd (set_pending_subscribe rest) ;;
      erizo ← lift (j_at_const j 1);
      learn_erizo erizo ;;
      p ← remote_at streamId;
      v ← lift (j_at_const j 2);
      match p with
      | None => lift (Undef NullDeref)
      | Some _ =>
          conn ← lift (get_string v);
          info_upd p (SetConnectionId conn) ;;
          p' ← remote_at streamId;
          obs_OnSubscribeStreamAllocateConnId p'
      end
  end.

Definition run_published (msg : str) : M unit :=
  pending ← rm pending_publish_local_streams_;
  match pending with
  | [] => lift (Undef EmptyFront)
  | streamInfo :: rest =>
      rm_upd (set_pending_publish rest) ;;
      j ← lift (j_parse msg);
      '(erizo, j) ← lift (j_at j 1);
      learn_erizo erizo ;;
      '(id, j) ← lift (j_at j 0);
      streamId ← lift (get_uint64 id);
      info_upd (Some streamInfo) (SetId streamId) ;;
      '(v, j) ← lift (j_at j 2);
      conn ← lift (get_string v);
      info_upd (Some streamInfo) (SetConnectionId conn) ;;
      rm_upd (λ r, set_local (<[streamId := Some streamInfo]> r.(local_stream_infos_)) r)
  end.

Definition run_ready (connId : str) : M unit :=
  remote ← rm remote_stream_infos_;
  p ← find_conn connId (map_order remote);
  match p with
  | Some _ => info_upd p (SetConnected true) ;; obs_OnStreamConnectReady p
  | None =>
      local ← rm local_stream_infos_;
      q ← find_conn connId (map_order local);
      match q with
      | Some _ => info_upd q (SetConnected true) ;; obs_OnStreamConnectReady q
      | None => obs_OnStreamConnectReady None
      end
  end.

Definition run_offer (connId sdp : str) : M unit :=
  remote ← rm remote_stream_infos_;
  p ← find_conn connId (map_order remote);
  obs_OnReceiveOffer p sdp.

Definition run_note (t : NoteTask) : M unit :=
  match t with
  | TJoined => id ← rm id_; obs_OnJoinRoom id
  | TExisting info => run_existing info
  | TAddStream info => run_add info
  | TRemoveStream removeStreamId => run_remove removeStreamId
  | TSubscribed j => run_subscribed j
  | TPublished msg => run_published msg
  | TErizoReady connId => run_ready connId
  | TReceiveOffer connId sdp => run_offer connId sdp
  end.

Definition exec_room_task (t : RoomTask) : M unit :=
  match t with
  | Send t => safe (run_send t)
  | Note t => safe (run_note t)
  end.

(** The worker runs the room's closures and the signaling's pings. *)
#[global] Instance room_worker_host : WorkerHost (World X) RoomTask PingTask := {|
  wk_store := world_worker;
  exec := exec_room_task;
  exec_period p := match p with SendPing => SocketIoPing end
|}.

End notes.

(** ** Construction *)
(** [LicodeRoom(worker, token, observer)]: the observer is not null. *)
Definition construct {J : JsonLib} {X : Type} (worker : Worker RoomTask PingTask)
    (scheduler : option (Scheduler (nat * Timed RoomTask PingTask))) (clock : Z)
    (token : Token.LicodeToken) (x : X) : World X :=
  mkWorld (Signaling.set_callbacks true true true true true new_signaling) ∅ worker scheduler
    clock ∅ true (new_room token) x.
