(* ===== verification/RoomLaws.v ===== *)
(** * The room keeps the interfaces of the components below it

    The client's world satisfies the laws the signaling and worker theorems
    assume ([SigLaws], [WorkerLaws]); the room's callbacks keep the promise of
    [SigClient], and the signaling's callbacks that of [WsClient], so the
    theorems about those components hold for the composed client. *)

From stdpp Require Import base list strings gmap.
From Stdlib Require Import Ascii ZArith Lia.
From S2P Require Import Prelude CppString Json PktBuilder LicodeData Scheduler Worker.
From S2P Require Import WorkerProps WebsocketSession WebsocketProps Signaling.
From S2P Require Import SignalingProps Room.
Import StreamInfo.

Local Open Scope Z_scope.

#[global] Instance world_worker_laws {J : JsonLib} {X} : WorkerLaws (World X) RoomTask PingTask.
Proof. by split. Qed.

#[global] Instance world_sig_laws {J : JsonLib} {X} : SigLaws (World X) RoomTask.
Proof.
  split; try done.
  - intros l s w. simpl. by rewrite lookup_insert_eq.
  - intros s w. simpl. do 2 eexists. split_and!; [done..|]. simpl. by rewrite lookup_insert_eq.
  - intros w. do 2 eexists. simpl. split_and!; done.
Qed.

(** ** The room's handlers leave the components below alone *)
Section frame.
Context {J : JsonLib} {X : Type}.
Context (Q : Signaling → gmap nat Ws → Prop).
Local Abbreviation framed := (preserves (λ w : World X, Q w.(w_signaling) w.(w_sessions))).

Lemma framed_rm_upd f : framed (rm_upd f).
Proof. intros w Hw. done. Qed.
Lemma framed_rm {A} (f : LicodeRoom → A) : framed (rm f).
Proof. intros w Hw. done. Qed.
Lemma framed_make_info i : framed (make_info i).
Proof. intros w Hw. done. Qed.
Lemma framed_post t : framed (post_note t).
Proof. intros w Hw. done. Qed.
#[local] Hint Resolve framed_rm_upd framed_rm framed_make_info framed_post : sig.

Lemma framed_make_infos l : framed (make_infos l).
Proof. induction l as [|s l IH]; simpl; keep. Qed.
#[local] Hint Resolve framed_make_infos : sig.

Lemma framed_take_key {A} b k (conv : json → outcome A) : framed (take_key b k conv).
Proof. unfold take_key. keep. Qed.
#[local] Hint Resolve framed_take_key : sig.

Lemma framed_for_each {A} (f : A → ST (World X) unit) l :
  (∀ a, framed (f a)) → framed (for_each f l).
Proof. apply preserves_for_each. Qed.

Lemma framed_join_success body : framed (join_success body).
Proof.
  unfold join_success, join_read, Update.
  repeat first [ solve [auto with sig] | case_match | apply preserves_ret
    | apply framed_for_each; intros ? | apply preserves_bind; [|intros ?] ].
  all: unfold push_ice; keep.
Qed.
#[local] Hint Resolve framed_join_success : sig.

Lemma framed_OnJoinRoom msg : framed (OnJoinRoom msg).
Proof. unfold OnJoinRoom, Update. keep. Qed.

Lemma framed_OnEvent e msg : framed (OnEvent e msg).
Proof.
  unfold OnEvent, OnErizoConnectionEvent, OnAddStream, OnRemoveStream,
    OnPeerConnectionConnectErizoReady, receiveOffer, receiveAnswer. keep.
Qed.

Lemma framed_OnSubscribeStream msg : framed (OnSubscribeStream msg).
Proof. unfold OnSubscribeStream. keep. Qed.

Lemma framed_OnPublishStream msg : framed (OnPublishStream msg).
Proof. unfold OnPublishStream. keep. Qed.

Lemma framed_OnLeaveRoom : framed OnLeaveRoom.
Proof. unfold OnLeaveRoom, Update. keep. Qed.

End frame.

#[global] Instance room_sig_client {J : JsonLib} {X} : SigClient (World X) RoomTask.
Proof.
  split. intros P I. subst I. simpl. pose (Q := λ (s : Signaling) (_ : gmap nat Ws),
    P s.(Signaling.state_) s.(websocket_)).
  split_and!; [apply (framed_OnJoinRoom Q)|apply (framed_OnLeaveRoom Q)|apply (framed_OnEvent Q)
    |apply (framed_OnSubscribeStream Q)|apply (framed_OnPublishStream Q)].
Qed.

(** ** The signaling's callbacks use a session through its public methods *)
Section sessions.
Context {J : JsonLib} {X : Type} (close : outcome unit) (l : nat) (P : Ws → Prop).

(** [P] holds of the session at [l]. *)
Definition at_session (w : World X) : Prop := P (ws_get (WsStore := session l) w).

Context (Hpub : ∀ st, public_step st = true →
  preserves at_session (run_step (H := session_host close l) st)).

Lemma at_session_upd l' f : l' ≠ l → preserves at_session (upd (St := session l') f).
Proof. intros Hl w Hw. unfold at_session in *. simpl. by rewrite lookup_insert_ne. Qed.

Lemma at_session_SendMsg l' m :
  preserves at_session (WebsocketSession.SendMsg (St := session l') m).
Proof.
  destruct (decide (l' = l)) as [->|Hl]; [apply (Hpub (SSend m)); done|].
  unfold WebsocketSession.SendMsg, IsConnected, rd, post. keep. by apply at_session_upd.
Qed.

Lemma at_session_Disconnect l' : preserves at_session (WebsocketSession.Disconnect (St := session l')).
Proof.
  destruct (decide (l' = l)) as [->|Hl]; [apply (Hpub SDisconnect); done|].
  unfold WebsocketSession.Disconnect, post. keep; by apply at_session_upd.
Qed.
#[local] Hint Resolve at_session_SendMsg at_session_Disconnect : sig.

Lemma at_session_on_websocket {A} (m : WsStore (World X) → ST (World X) A) :
  (∀ l', preserves at_session (m (session l'))) → preserves at_session (on_websocket m).
Proof. intros Hm. unfold on_websocket, sig_rd. keep. Qed.

Lemma at_session_schedule p d : preserves at_session (ScheduleEvery p d).
Proof.
  unfold ScheduleEvery, ScheduleEvery_next, ScheduleFromNow. keep; intros w Hw; done.
Qed.

Lemma at_session_UpdateState s : preserves at_session (UpdateState s).
Proof. intros w Hw. done. Qed.
#[local] Hint Resolve at_session_schedule at_session_UpdateState : sig.

Lemma at_session_OnWebsocketMsg m : preserves at_session (OnWebsocketMsg m).
Proof.
  pose (Q := λ (_ : Signaling) (ss : gmap nat Ws), P (default no_session (ss !! l))).
  assert (∀ m, preserves at_session (on_init_token m)) by exact (framed_OnJoinRoom Q).
  assert (preserves at_session on_disconnect) by exact (framed_OnLeaveRoom Q).
  assert (∀ e m, preserves at_session (on_event e m)) by exact (framed_OnEvent Q).
  assert (∀ m, preserves at_session (on_subscribe m)) by exact (framed_OnSubscribeStream Q).
  assert (∀ m, preserves at_session (on_publish m)) by exact (framed_OnPublishStream Q).
  unfold OnWebsocketMsg, body_after, ProcessPong, ProcessInitTokenResponse, ProcessSubscribeStream,
    ProcessPublishStream, ProcessEvent, ProcessDisconnect, Dispose, InitToken, KeepAlive,
    Signaling.CurrentState, sig_rd.
  repeat case_decide; keep; auto;
    try (apply at_session_on_websocket; intros l'; unfold IsConnected, rd; keep).
Qed.

End sessions.

#[global] Instance session_client {J : JsonLib} {X} close l :
  WsClient (World X) (H := session_host (H := room_sig_host) close l).
Proof.
  split.
  - intros s w. simpl. by rewrite lookup_insert_eq.
  - intros P Hpub. split_and!; [intros w Hw; done| |intros r w Hw; done].
    intros m. by apply (at_session_OnWebsocketMsg close).
Qed.

(** ** Running the room's primitives *)
Section running.
Context {J : JsonLib} {X : Type}.
Implicit Types w : World X.

Lemma rm_bind {A B} (f : LicodeRoom → A) (k : A → ST (World X) B) w :
  (rm f ≫= k) w = k (f w.(w_room)) w.
Proof. done. Qed.

Lemma rm_upd_bind {B} f (k : unit → ST (World X) B) w :
  (rm_upd f ≫= k) w = k tt (put_room (f w.(w_room)) w).
Proof. done. Qed.

Lemma remote_at_bind {B} id (k : option loc → ST (World X) B) w :
  (remote_at id ≫= k) w = k (subscript w.(w_room).(remote_stream_infos_) id).2
    (put_room (set_remote (subscript w.(w_room).(remote_stream_infos_) id).1 w.(w_room)) w).
Proof. done. Qed.

Lemma local_at_bind {B} id (k : option loc → ST (World X) B) w :
  (local_at id ≫= k) w = k (subscript w.(w_room).(local_stream_infos_) id).2
    (put_room (set_local (subscript w.(w_room).(local_stream_infos_) id).1 w.(w_room)) w).
Proof. done. Qed.

Lemma info_at_bind {B} l i (k : LicodeStreamInfo → ST (World X) B) w :
  w.(w_heap) !! l = Some i → (info_at l ≫= k) w = k i w.
Proof. intros Hl. unfold info_at. by rewrite bind_assoc, gets_bind, Hl, ret_bind. Qed.

Lemma info_at_inv {B} l (k : LicodeStreamInfo → ST (World X) B) w b w' :
  (info_at l ≫= k) w = (Ret b, w') → ∃ i, w.(w_heap) !! l = Some i ∧ k i w = (Ret b, w').
Proof.
  unfold info_at. rewrite bind_assoc, gets_bind. destruct (w_heap w !! l) as [i|] eqn:E; [|done].
  rewrite ret_bind. eauto.
Qed.

Lemma subscript_Some (m : StreamMap) id p : m !! id = Some p → subscript m id = (m, p).
Proof. intros Hm. unfold subscript. by rewrite Hm. Qed.

End running.
