(* ===== verification/RoomProps.v ===== *)
(** * Correctness of LicodeRoom

    Joining is all or nothing; acknowledgements are matched to requests in
    order; pointers held by the room are valid; the set of remote streams
    follows its abstract specification; and the defects the model shows. *)

From stdpp Require Import base list strings gmap.
From Stdlib Require Import Ascii ZArith Lia.
From S2P Require Import Prelude CppString Json JsonModel PktBuilder LicodeData Scheduler.
From S2P Require Import Worker WorkerProps WebsocketSession WebsocketProps Signaling.
From S2P Require Import SignalingProps Room RoomLaws.
Import StreamInfo.

Local Open Scope Z_scope.

(** ** Joining *)
Section join.
Context {J : JsonLib} {X : Type}.
Implicit Types w : World X.

(** Reading the response assigns members of the room and makes infos; it posts
    nothing. *)
Section reading.
Context (k : Worker RoomTask PingTask).
Local Abbreviation quiet_worker := (preserves (λ w : World X, w.(w_worker) = k)).

Lemma qw_rm_upd f : quiet_worker (rm_upd f).
Proof. intros w Hw. done. Qed.
Lemma qw_make_infos l : quiet_worker (make_infos l).
Proof. induction l as [|s l IH]; simpl; keep. Qed.
Lemma qw_take_key {A} b key (conv : json → outcome A) : quiet_worker (take_key b key conv).
Proof. unfold take_key. keep. Qed.
#[local] Hint Resolve qw_rm_upd qw_make_infos qw_take_key : sig.

Lemma qw_push_ice ice : quiet_worker (push_ice ice).
Proof. unfold push_ice. keep. Qed.

Lemma qw_join_read body : quiet_worker (join_read body).
Proof.
  unfold join_read. keep. all: apply preserves_for_each; apply qw_push_ice.
Qed.
End reading.

(** After [remote_stream_infos_.clear()] the map stays empty. *)
Section clearing.
Local Abbreviation no_remote := (preserves (λ w : World X, w.(w_room).(remote_stream_infos_) = ∅)).

Lemma nr_make_infos l : no_remote (make_infos l).
Proof. induction l as [|s l IH]; simpl; keep. Qed.
Lemma nr_take_key {A} b key (conv : json → outcome A) : no_remote (take_key b key conv).
Proof. unfold take_key. keep. Qed.
Lemma nr_push_ice ice : no_remote (push_ice ice).
Proof. unfold push_ice. keep. Qed.
End clearing.

(** The tasks a successful join posts. *)
Definition join_tasks (ls : list loc) : list (Job RoomTask PingTask) :=
  (λ t, JTask (Note t)) <$> (TJoined :: (TExisting <$> ls)).

Definition push_all (js : list (Job RoomTask PingTask)) (k : Worker RoomTask PingTask)
    : Worker RoomTask PingTask :=
  mkWorker k.(guard_) k.(work_thread_) k.(running_) (k.(ioc_) ++ js) k.(refs).

Lemma post_all_notes (ts : list NoteTask) w :
  for_each post_note ts w
  = (Ret tt, put_worker (push_all ((λ t, JTask (Note t)) <$> ts) w.(w_worker)) w).
Proof.
  revert w. induction ts as [|t ts IH]; intros w; cbn [for_each].
  - unfold push_all. simpl. rewrite app_nil_r. by destruct w as [? ? [] ? ? ? ? ? ?].
  - change (for_each post_note ts (put_worker (push (JTask (Note t)) w.(w_worker)) w) =
      (Ret tt, put_worker (push_all ((λ t, JTask (Note t)) <$> (t :: ts)) w.(w_worker)) w)).
    rewrite IH. simpl.
    unfold push_all, push, put_worker. simpl. by rewrite <- app_assoc.
Qed.

Lemma for_each_map {S A B} (f : B → ST S unit) (g : A → B) l s :
  for_each (λ a, f (g a)) l s = for_each f (g <$> l) s.
Proof.
  revert s. induction l as [|a l IH]; intros s; simpl; [done|].
  unfold mbind, ST_bind. destruct (f (g a) s) as [[] s']; done.
Qed.

Lemma join_success_spec body ls w w1 :
  join_read body w = (Ret ls, w1) →
  join_success body w = (Ret tt,
    put_worker (push_all (join_tasks ls) w1.(w_worker))
      (put_room (set_room_state kConnected w1.(w_room)) w1)).
Proof.
  intros E. unfold join_success. rewrite (ST_bind_Ret _ _ _ _ _ E).
  unfold Update, rm_upd. rewrite modify_bind.
  etrans; [|exact (post_all_notes (TJoined :: (TExisting <$> ls))
    (put_room (set_room_state kConnected w1.(w_room)) w1))].
  apply (for_each_map post_note TExisting).
Qed.

Lemma join_read_clears body ls w w1 :
  join_read body w = (Ret ls, w1) → w1.(w_room).(remote_stream_infos_) = ∅.
Proof.
  intros E. unfold join_read in E.
  apply ST_bind_inv in E as ([id b1] & wa & _ & E).
  apply ST_bind_inv in E as (? & wb & _ & E).
  apply ST_bind_inv in E as ([cl b2] & wc & _ & E).
  apply ST_bind_inv in E as (? & wd & _ & E).
  apply ST_bind_inv in E as (? & w2 & Ec & E).
  assert (w2.(w_room).(remote_stream_infos_) = ∅) as H2 by (injection Ec as _ <-; done).
  match type of E with ?m w2 = _ => assert (preserves
    (λ w : World X, w.(w_room).(remote_stream_infos_) = ∅) m) as Hp end.
  { pose proof nr_make_infos. pose proof @nr_take_key.
    unfold rm_upd. keep. all: apply preserves_for_each; apply nr_push_ice. }
  specialize (Hp w2 H2). by rewrite E in Hp.
Qed.
End join.



(** ** A lost connection *)
(** When a read of the session fails, the signaling client becomes
    disconnected but the room stays connected: joining again does nothing and
    every later message is dropped. *)
Lemma room_is_not_told_of_a_lost_connection {J : JsonLib} {X} close l i reason (w : World X) :
  let ws := ws_get (WsStore := session l) w in
  ws.(pending) !! i = Some OpRead → ws.(do_disconnect_) = false →
  ws.(abnormal_disconnect_callback_) = true →
  w.(w_room).(state_) = kConnected →
  ∃ w', complete (H := session_host close l) i (Failed reason) w = (Ret tt, w') ∧
    w'.(w_signaling).(Signaling.state_) = kDisconnect ∧
    w'.(w_room).(state_) = kConnected ∧
    Join w' = (Ret tt, w') ∧
    ∀ msg, Signaling.SendMsg msg w' = (Ret tt, w').
Proof.
  intros ws Hp Hd Ha Hst. eexists. split.
  { by apply (complete_read_failed (H := session_host close l) i reason w). }
  simpl. split_and!; [done..| |].
  - unfold Join, CurrentState, rm. rewrite gets_bind. simpl. by rewrite Hst.
  - done.
Qed.

(** ** Unpublishing *)
(** Taking a stream down sends what ending a subscription sends. *)
Lemma room_unpublish_sends_unsubscribe {J : JsonLib} {X} streamId (w : World X) :
  w.(w_alive) = true →
  UnPublishStream true streamId w = UnSubscriberStream true streamId w.
Proof.
  intros Ha. unfold UnPublishStream, UnSubscriberStream, post_send, PostTask, safe, SafeTask.
  rewrite gets_bind, Ha. cbn [run_send]. unfold run_unsubscribe.
  destruct (unsubscribe_Build _) as [pkt|e|u]; [|done..].
  rewrite !(lift_bind _ _ _ pkt) by done. by rewrite gets_bind, Ha.
Qed.

(** ** Null pointers in the maps *)
Section nulls.
Context {J : JsonLib} {X : Type} {O : Observer X} {MO : MapOrder}.

(** Every entry of [m] is a pointer to an object whose connection id is another. *)
Definition no_match (connId : str) (h : gmap loc LicodeStreamInfo) (m : StreamMap) : Prop :=
  ∀ k p, m !! k = Some p → ∃ l i, p = Some l ∧ h !! l = Some i ∧ ConnectionId i ≠ connId.

Lemma find_conn_none connId l (w : World X) :
  Forall (λ e, ∃ lc i, e.2 = Some lc ∧ w.(w_heap) !! lc = Some i ∧ ConnectionId i ≠ connId) l →
  find_conn connId l w = (Ret None, w).
Proof.
  induction l as [|[k p] l IH]; intros Hl; [done|].
  apply Forall_cons in Hl as [(lc & i & Hp & Hi & Hne) Hl]. simpl in Hp. subst p.
  cbn [find_conn deref]. unfold info_at. rewrite bind_assoc, gets_bind, Hi, ret_bind.
  rewrite decide_False by done. by apply IH.
Qed.

Lemma find_conn_no_match connId m (w : World X) :
  no_match connId w.(w_heap) m → find_conn connId (map_order m) w = (Ret None, w).
Proof.
  intros Hm. apply find_conn_none. rewrite map_order_perm. apply Forall_forall.
  intros [k p] Hin. apply elem_of_map_to_list in Hin. simpl. eauto.
Qed.

Lemma find_conn_null connId k m (w : World X) :
  m = {[k := None]} → (find_conn connId (map_order m) w).1 = Undef NullDeref.
Proof.
  intros ->. assert (map_order {[k := None]} = [(k, None)]) as ->; [|done].
  apply Permutation_length_1_inv. rewrite map_order_perm. by rewrite map_to_list_singleton.
Qed.

End nulls.

(** Handling an announced stream inserts a null pointer under its id into
    the local streams, which the next readiness message that matches no remote
    stream dereferences. *)
Lemma room_remote_stream_leaves_null_local {J : JsonLib} {X} {O : Observer X} {MO : MapOrder}
    info i connId (w : World X) :
  w.(w_heap) !! info = Some i →
  w.(w_room).(local_stream_infos_) = ∅ →
  (∀ r, ∃ v', obs_OnAddRemoteStream (Some info) (put_room r w) = (Ret tt, v') ∧
     v'.(w_room).(local_stream_infos_) = r.(local_stream_infos_) ∧
     v'.(w_room).(remote_stream_infos_) = r.(remote_stream_infos_) ∧ v'.(w_heap) = w.(w_heap)) →
  no_match connId w.(w_heap) (<[StreamInfo.Id i := Some info]> w.(w_room).(remote_stream_infos_)) →
  ∃ w', run_note (TAddStream info) w = (Ret tt, w') ∧
    w'.(w_room).(local_stream_infos_) = {[StreamInfo.Id i := None]} ∧
    (run_note (TErizoReady connId) w').1 = Undef NullDeref.
Proof.
  intros Hi Hl Hobs Hno. cbn [run_note]. unfold run_add, info_at.
  rewrite bind_assoc, gets_bind, Hi, ret_bind. unfold local_at, rm. rewrite bind_assoc, gets_bind, Hl.
  unfold subscript. rewrite lookup_empty. cbn [fst snd]. unfold rm_upd.
  rewrite bind_assoc, modify_bind, ret_bind, modify_bind.
  edestruct Hobs as (w' & Hw & Hr & Hr' & Hh). exists w'. split; [exact Hw|].
  rewrite Hr. split; [done|]. unfold run_ready, rm. rewrite gets_bind, Hr'. cbn [w_room put_room].
  erewrite ST_bind_Ret; [|apply find_conn_no_match; rewrite Hh; exact Hno].
  cbn iota. rewrite gets_bind, Hr. cbn [w_room put_room].
  unfold mbind, ST_bind. destruct (find_conn _ _ w') as [o w2] eqn:E.
  assert (o = Undef NullDeref) as ->; [|done].
  change o with (o, w2).1. rewrite <- E. apply (find_conn_null connId (StreamInfo.Id i)). done.
Qed.

(** ** Acknowledgements *)
Section acks.
Context {J : JsonLib} {X : Type}.

(** An observer method that returns and leaves the room and its streams alone. *)
Definition quiet (m : option loc → ST (World X) unit) : Prop :=
  ∀ l v, is_Some (v.(w_heap) !! l) → ∃ v', m (Some l) v = (Ret tt, v') ∧
    v'.(w_room) = v.(w_room) ∧ v'.(w_heap) = v.(w_heap).

(** [[_, erizoId, connectionId]], as far as the handler reads it. *)
Definition ack_of (j : json) (conn : str) : Prop :=
  ∃ e es v, j_at_const j 1 = Ret e ∧ get_string e = Ret es ∧
    j_at_const j 2 = Ret v ∧ get_string v = Ret conn.

Lemma learn_erizo_spec e es (w : World X) :
  get_string e = Ret es →
  ∃ r, learn_erizo e w = (Ret tt, put_room r w) ∧
    r.(remote_stream_infos_) = w.(w_room).(remote_stream_infos_) ∧
    r.(pending_subscribe_streams_) = w.(w_room).(pending_subscribe_streams_).
Proof.
  intros He. unfold learn_erizo, rm. rewrite gets_bind. case_decide.
  - rewrite (lift_bind _ _ _ es) by done. by eexists.
  - exists w.(w_room). split; [|done]. by destruct w.
Qed.

Lemma remote_at_spec k p (w : World X) :
  w.(w_room).(remote_stream_infos_) !! k = Some p → remote_at k w = (Ret p, w).
Proof.
  intros Hk. unfold remote_at, rm, rm_upd. rewrite gets_bind, modify_bind. unfold subscript.
  rewrite Hk. by destruct w as [? ? ? ? ? ? ? [] ?].
Qed.

Context {O : Observer X} {MO : MapOrder}.
Context (Hobs : quiet obs_OnSubscribeStreamAllocateConnId).

Lemma run_subscribed_spec j conn streamId rest l i (w : World X) :
  w.(w_room).(pending_subscribe_streams_) = streamId :: rest →
  w.(w_room).(remote_stream_infos_) !! streamId = Some (Some l) →
  w.(w_heap) !! l = Some i → ack_of j conn →
  ∃ w', run_subscribed j w = (Ret tt, w') ∧
    w'.(w_heap) = <[l := SetConnectionId conn i]> w.(w_heap) ∧
    w'.(w_room).(pending_subscribe_streams_) = rest ∧
    w'.(w_room).(remote_stream_infos_) = w.(w_room).(remote_stream_infos_).
Proof.
  intros Hp Hr Hi (e & es & v & H1 & He & H2 & Hc). unfold run_subscribed, rm.
  rewrite gets_bind, Hp. unfold rm_upd at 1. rewrite modify_bind.
  rewrite (lift_bind _ _ _ e) by done.
  destruct (learn_erizo_spec e es (put_room (set_pending_subscribe rest w.(w_room)) w) He)
    as (r & Hl & Hrr & Hpp). rewrite (ST_bind_Ret _ _ _ _ _ Hl). simpl in Hrr, Hpp.
  erewrite ST_bind_Ret; [|apply (remote_at_spec streamId (Some l)); simpl; by rewrite Hrr].
  rewrite (lift_bind _ _ _ v), (lift_bind _ _ _ conn) by done.
  unfold info_upd, deref, info_at. rewrite bind_assoc, bind_assoc, gets_bind. simpl w_heap.
  rewrite Hi, ret_bind, modify_bind. simpl w_heap.
  erewrite ST_bind_Ret; [|apply (remote_at_spec streamId (Some l)); simpl; by rewrite Hrr].
  destruct (Hobs l (put_heap (<[l := SetConnectionId conn i]> w.(w_heap)) (put_room r
    (put_room (set_pending_subscribe rest w.(w_room)) w)))) as (w' & Hw & Hroom & Hheap).
  { simpl. by rewrite lookup_insert_eq. }
  exists w'. split; [exact Hw|]. rewrite Hroom, Hheap. done.
Qed.

(** The requests [reqs], oldest first, and the heap objects they wait for. *)
Lemma acks_in_order reqs acks rest (w : World X) :
  length reqs = length acks → NoDup reqs.*2 →
  w.(w_room).(pending_subscribe_streams_) = reqs.*1 ++ rest →
  Forall (λ q, w.(w_room).(remote_stream_infos_) !! q.1 = Some (Some q.2) ∧
               is_Some (w.(w_heap) !! q.2)) reqs →
  Forall (λ a, ack_of a.1 a.2) acks →
  ∃ w', for_each run_subscribed acks.*1 w = (Ret tt, w') ∧
    w'.(w_room).(pending_subscribe_streams_) = rest ∧
    (∀ l, l ∉ reqs.*2 → w'.(w_heap) !! l = w.(w_heap) !! l) ∧
    ∀ k q a, reqs !! k = Some q → acks !! k = Some a →
      ConnectionId <$> w'.(w_heap) !! q.2 = Some a.2.
Proof.
  revert acks w. induction reqs as [|[id l] reqs IH]; intros [|[j c] acks] w Hlen Hnd Hp Hq Ha;
    try done; csimpl in *.
  { exists w. split_and!; try done. }
  apply NoDup_cons in Hnd as [Hl Hnd]. apply Forall_cons in Hq as [[Hr [i Hi]] Hq].
  apply Forall_cons in Ha as [Ha Has].
  destruct (run_subscribed_spec j c id (reqs.*1 ++ rest) l i w) as (w1 & Hw1 & Hh1 & Hp1 & Hr1); [done..|].
  rewrite (ST_bind_Ret _ _ _ _ _ Hw1).
  destruct (IH acks w1) as (w' & Hw' & Hp' & Hsame & Hc); [lia|done|done| |done|].
  { eapply Forall_impl; [exact Hq|]. intros [id' l'] [Hr' Hh']. rewrite Hr1, Hh1. split; [done|].
    destruct (decide (l' = l)) as [->|]; [by rewrite lookup_insert_eq|by rewrite lookup_insert_ne]. }
  exists w'. split_and!; [done|done| |].
  - intros l' Hl'. rewrite not_elem_of_cons in Hl'. destruct Hl' as [Hne Hl'].
    rewrite Hsame, Hh1 by done. by rewrite lookup_insert_ne.
  - intros [|k] q a Hk Hk'; simpl in *; simplify_eq; [|by eapply Hc].
    simpl. rewrite Hsame, Hh1 by done. by rewrite lookup_insert_eq.
Qed.

End acks.

