(* ===== verification/RoomInv.v ===== *)
(** * Pointers and the set of remote streams

    The room's maps, queues and posted closures hold no dangling pointer, in
    every reachable state; and the remote streams follow the abstract
    specification [spec_remote]. *)

From stdpp Require Import base list strings gmap.
From Stdlib Require Import Ascii ZArith Lia.
From S2P Require Import Prelude CppString Json JsonModel PktBuilder LicodeData Scheduler.
From S2P Require Import Worker WorkerProps WebsocketSession WebsocketProps Signaling.
From S2P Require Import SignalingProps Room RoomLaws.
Import StreamInfo.

Local Open Scope Z_scope.

(** ** Valid pointers *)
Section valid.
Context {J : JsonLib} {X : Type}.
Implicit Types (h : gmap loc LicodeStreamInfo) (w : World X).

Definition valid h (p : option loc) : Prop :=
  match p with Some l => is_Some (h !! l) | None => True end.

Definition map_valid h (m : StreamMap) : Prop := map_Forall (λ _ p, valid h p) m.

Definition task_valid h (t : RoomTask) : Prop :=
  match t with
  | Send (TPublish _ l) | Note (TExisting l) | Note (TAddStream l) => is_Some (h !! l)
  | _ => True
  end.

Definition job_valid h (j : Job RoomTask PingTask) : Prop :=
  match j with
  | JTask t | JTimed _ (TOnce t) => task_valid h t
  | JTimed _ (TEvery _ _ _ _) => True
  end.

Definition room_valid h (r : LicodeRoom) : Prop :=
  map_valid h r.(local_stream_infos_) ∧ map_valid h r.(remote_stream_infos_) ∧
  Forall (λ l, is_Some (h !! l)) r.(pending_publish_local_streams_).

(** Nothing the room or its posted closures hold is dangling; [ls] are further
    pointers in use. *)
Definition wfx (ls : list loc) w : Prop :=
  room_valid w.(w_heap) w.(w_room) ∧ Forall (job_valid w.(w_heap)) w.(w_worker).(ioc_) ∧
  Forall (λ l, is_Some (w.(w_heap) !! l)) ls.

(** A heap that has at least the objects of another. *)
Definition heap_le h h' : Prop := ∀ l, is_Some (h !! l) → is_Some (h' !! l).

Lemma heap_le_insert h l i : heap_le h (<[l := i]> h).
Proof.
  intros l' Hl'. destruct (decide (l' = l)) as [->|]; [by rewrite lookup_insert_eq|].
  by rewrite lookup_insert_ne.
Qed.

Lemma valid_le h h' p : heap_le h h' → valid h p → valid h' p.
Proof. destruct p; simpl; auto. Qed.

Lemma job_valid_le h h' j : heap_le h h' → job_valid h j → job_valid h' j.
Proof. intros Hle. destruct j as [[[]|[]]|? [[[]|[]]|]]; simpl; auto. Qed.

Lemma room_valid_le h h' r : heap_le h h' → room_valid h r → room_valid h' r.
Proof.
  intros Hle (Hl & Hr & Hp). split_and!.
  - eapply map_Forall_impl; [exact Hl|]. intros. by eapply valid_le.
  - eapply map_Forall_impl; [exact Hr|]. intros. by eapply valid_le.
  - eapply Forall_impl; [exact Hp|]. auto.
Qed.

Lemma wfx_heap ls h w : heap_le w.(w_heap) h → wfx ls w → wfx ls (put_heap h w).
Proof.
  intros Hle (Hr & Hj & Hls). split_and!; simpl.
  - by eapply room_valid_le.
  - eapply Forall_impl; [exact Hj|]. intros. by eapply job_valid_le.
  - eapply Forall_impl; [exact Hls|]. auto.
Qed.

Lemma wfx_cons l ls w : wfx (l :: ls) w ↔ is_Some (w.(w_heap) !! l) ∧ wfx ls w.
Proof. unfold wfx. rewrite Forall_cons. tauto. Qed.

(** ** Primitives *)
Lemma wfx_rm_upd ls f :
  (∀ h r, Forall (λ l, is_Some (h !! l)) ls → room_valid h r → room_valid h (f r)) →
  preserves (wfx ls) (rm_upd f).
Proof. intros Hf w (Hr & Hj & Hls). split_and!; simpl; auto. Qed.

Lemma wfx_make_info {A} ls i (k : loc → ST (World X) A) :
  (∀ l, preserves (wfx (l :: ls)) (k l)) → preserves (wfx ls) (make_info i ≫= k).
Proof.
  intros Hk w Hw. unfold make_info, mbind, ST_bind. simpl.
  eapply wfx_cons, Hk, wfx_cons. split; [simpl; by rewrite lookup_insert_eq|].
  apply wfx_heap; [apply heap_le_insert|done].
Qed.

Lemma wfx_info_at {A} ls l (k : LicodeStreamInfo → ST (World X) A) :
  (∀ i, preserves (wfx (l :: ls)) (k i)) → preserves (wfx ls) (info_at l ≫= k).
Proof.
  intros Hk w Hw. unfold info_at. rewrite bind_assoc, gets_bind.
  destruct (w_heap w !! l) as [i|] eqn:E; [|done]. rewrite ret_bind.
  eapply wfx_cons, Hk, wfx_cons. by rewrite E.
Qed.

Lemma wfx_deref {A} ls p (k : LicodeStreamInfo → ST (World X) A) :
  (∀ i, preserves (wfx (option_list p ++ ls)) (k i)) → preserves (wfx ls) (deref p ≫= k).
Proof. destruct p as [l|]; simpl; intros Hk; [by apply wfx_info_at|]. intros w Hw. done. Qed.

Lemma wfx_info_upd ls p f : preserves (wfx ls) (info_upd p f).
Proof.
  unfold info_upd. apply wfx_deref. intros i. destruct p as [l|]; [|apply preserves_ret].
  intros w Hw. simpl. apply wfx_heap; [apply heap_le_insert|done].
Qed.

Lemma wfx_push ls j :
  (∀ h, Forall (λ l, is_Some (h !! l)) ls → job_valid h j) →
  preserves (wfx ls) (upd_worker (push j)).
Proof.
  intros Hj w (Hr & Hjs & Hls). split_and!; simpl; [done| |done]. apply Forall_app. split; [done|].
  apply Forall_singleton. auto.
Qed.

Lemma subscript_valid h m k :
  map_valid h m → map_valid h (subscript m k).1 ∧ valid h (subscript m k).2.
Proof.
  intros Hm. unfold subscript. destruct (m !! k) as [p|] eqn:E; simpl.
  - split; [done|]. by eapply Hm.
  - split; [|done]. by apply map_Forall_insert_2.
Qed.

Lemma wfx_subscript {A} ls (get : LicodeRoom → StreamMap) (set : StreamMap → LicodeRoom → LicodeRoom)
    (at_ : Z → ST (World X) (option loc)) id (k : option loc → ST (World X) A) :
  (∀ id w, at_ id w = (Ret (subscript (get w.(w_room)) id).2,
     put_room (set (subscript (get w.(w_room)) id).1 w.(w_room)) w)) →
  (∀ h r, room_valid h r → map_valid h (get r)) →
  (∀ h r m, room_valid h r → map_valid h m → room_valid h (set m r)) →
  (∀ p, preserves (wfx (option_list p ++ ls)) (k p)) → preserves (wfx ls) (at_ id ≫= k).
Proof.
  intros Hat Hget Hset Hk w (Hr & Hj & Hls). rewrite (ST_bind_Ret _ _ _ _ _ (Hat id w)).
  destruct (subscript_valid w.(w_heap) (get w.(w_room)) id (Hget _ _ Hr)) as [Hm Hp].
  set (p := (subscript _ _).2) in *. set (m := (subscript _ _).1) in *. clearbody p m.
  assert (wfx ls (put_room (set m w.(w_room)) w)) as Hw by (split_and!; simpl; auto).
  destruct p as [l|]; [|by apply Hk]. eapply wfx_cons, (Hk (Some l)), wfx_cons. done.
Qed.

Lemma wfx_remote_at {A} ls id (k : option loc → ST (World X) A) :
  (∀ p, preserves (wfx (option_list p ++ ls)) (k p)) → preserves (wfx ls) (remote_at id ≫= k).
Proof.
  apply (wfx_subscript ls remote_stream_infos_ set_remote remote_at); [done| |].
  - by intros h r (_ & ? & _).
  - intros h r m (? & _ & ?) ?. by split_and!.
Qed.

Lemma wfx_local_at {A} ls id (k : option loc → ST (World X) A) :
  (∀ p, preserves (wfx (option_list p ++ ls)) (k p)) → preserves (wfx ls) (local_at id ≫= k).
Proof.
  apply (wfx_subscript ls local_stream_infos_ set_local local_at); [done| |].
  - by intros h r (? & _ & _).
  - intros h r m (_ & ? & ?) ?. by split_and!.
Qed.

(** ** Calls to the signaling object do not touch the room *)
Section below.
Context (Q : gmap loc LicodeStreamInfo → LicodeRoom → list (Job RoomTask PingTask) → Prop).
Local Abbreviation above := (preserves (λ w : World X, Q w.(w_heap) w.(w_room) w.(w_worker).(ioc_))).

Lemma above_ws_upd l f : above (upd (St := session l) f).
Proof. intros w Hw. done. Qed.
Lemma above_sig_upd f : above (sig_upd f).
Proof. intros w Hw. done. Qed.
#[local] Hint Resolve above_ws_upd above_sig_upd : sig.

Lemma above_on_websocket {A} (m : WsStore (World X) → ST (World X) A) :
  (∀ l, above (m (session l))) → above (on_websocket m).
Proof. intros Hm. unfold on_websocket, sig_rd. keep. Qed.

Lemma above_ws_SendMsg m : above (on_websocket (λ s, WebsocketSession.SendMsg (St := s) m)).
Proof.
  apply above_on_websocket. intros l. unfold WebsocketSession.SendMsg, IsConnected, rd, post. keep.
Qed.
#[local] Hint Resolve above_ws_SendMsg : sig.

Lemma above_SendMsg m : above (Signaling.SendMsg m).
Proof. unfold Signaling.SendMsg, Signaling.CurrentState, sig_rd. keep. Qed.

Lemma above_Dispose : above Dispose.
Proof.
  unfold Dispose. keep; apply above_on_websocket; intros l;
    unfold IsConnected, WebsocketSession.Disconnect, rd, post; keep.
Qed.

Lemma above_Init token : above (Signaling.Init token).
Proof.
  unfold Signaling.Init, Signaling.CurrentState, UpdateState, sig_rd. keep.
  all: try (apply above_on_websocket; intros l;
    unfold SetOnReadyCallback, SetOnReceiveMsgCallback, SetOnAbnormalDisconnectCallback, Connect, rd, start;
    keep).
Qed.

Lemma above_InitToken b : above (InitToken b).
Proof. unfold InitToken, sig_rd. keep. Qed.

Lemma above_KeepAlive : above KeepAlive.
Proof.
  unfold KeepAlive, sig_rd, ScheduleEvery, ScheduleEvery_next, ScheduleFromNow. keep; intros w Hw; done.
Qed.

Lemma above_UpdateState s : above (UpdateState s).
Proof. apply above_sig_upd. Qed.

Lemma above_open m : above (ProcessSocketIOOpen m).
Proof. intros w Hw. done. Qed.

Lemma above_ping : above SocketIoPing.
Proof. unfold SocketIoPing, Signaling.CurrentState, sig_rd. keep. Qed.
End below.

Section calls.
Context (ls : list loc).
Local Abbreviation Q := (λ h r js, room_valid h r ∧ Forall (job_valid h) js ∧
  Forall (λ l, is_Some (h !! l)) ls).

Lemma wfx_SendMsg m : preserves (wfx ls) (Signaling.SendMsg m).
Proof. apply (above_SendMsg Q). Qed.
Lemma wfx_Dispose : preserves (wfx ls) Dispose.
Proof. apply (above_Dispose Q). Qed.
Lemma wfx_Init token : preserves (wfx ls) (Signaling.Init token).
Proof. apply (above_Init Q). Qed.
Lemma wfx_InitToken b : preserves (wfx ls) (InitToken b).
Proof. apply (above_InitToken Q). Qed.
Lemma wfx_KeepAlive : preserves (wfx ls) KeepAlive.
Proof. apply (above_KeepAlive Q). Qed.
Lemma wfx_UpdateState s : preserves (wfx ls) (UpdateState s).
Proof. apply (above_UpdateState Q). Qed.
Lemma wfx_open m : preserves (wfx ls) (ProcessSocketIOOpen m).
Proof. apply (above_open Q). Qed.
Lemma wfx_ping : preserves (wfx ls) SocketIoPing.
Proof. apply (above_ping Q). Qed.
Lemma wfx_rm {A} (f : LicodeRoom → A) : preserves (wfx ls) (rm f).
Proof. intros w Hw. done. Qed.
Lemma wfx_Update s : preserves (wfx ls) (Update s).
Proof. by apply wfx_rm_upd. Qed.
End calls.

End valid.

#[export] Hint Resolve wfx_SendMsg wfx_Dispose wfx_Init wfx_InitToken wfx_KeepAlive
  wfx_UpdateState wfx_open wfx_ping wfx_rm wfx_Update wfx_info_upd : sig.

(** One layer of a room method: read a pointer, then go on with it in use. *)
Ltac keep_room :=
  repeat first
    [ solve [auto with sig] | case_match
    | apply wfx_remote_at; intros ? | apply wfx_local_at; intros ?
    | apply wfx_deref; intros ? | apply wfx_info_at; intros ? | apply wfx_make_info; intros ?
    | apply preserves_ret | apply preserves_lift | apply preserves_get | apply preserves_gets
    | apply preserves_for_each; intros ?
    | apply preserves_bind; [|intros ?] | apply preserves_try; [|intros ?]
    | apply wfx_rm_upd; intros ? ? ? ? | apply wfx_push; intros ? ? ].

Lemma room_valid_local h r m : room_valid h r → map_valid h m → room_valid h (set_local m r).
Proof. intros (_ & ? & ?) ?. by split_and!. Qed.

Lemma room_valid_remote h r m : room_valid h r → map_valid h m → room_valid h (set_remote m r).
Proof. intros (? & _ & ?) ?. by split_and!. Qed.

Lemma room_valid_publish h r l :
  room_valid h r → Forall (λ l, is_Some (h !! l)) l → room_valid h (set_pending_publish l r).
Proof. intros (? & ? & _) ?. by split_and!. Qed.

Lemma map_valid_insert h m k l : map_valid h m → is_Some (h !! l) → map_valid h (<[k := Some l]> m).
Proof. intros ? ?. by apply map_Forall_insert_2. Qed.

Lemma map_valid_delete h m k : map_valid h m → map_valid h (delete k m).
Proof. apply map_Forall_delete. Qed.

Lemma map_valid_empty h : map_valid h ∅.
Proof. apply map_Forall_empty. Qed.

Lemma room_valid_maps h r :
  room_valid h r → map_valid h r.(local_stream_infos_) ∧ map_valid h r.(remote_stream_infos_) ∧
  Forall (λ l, is_Some (h !! l)) r.(pending_publish_local_streams_).
Proof. done. Qed.

(** What is left of a method after [keep_room]: the maps it stores. *)
Ltac room_ok :=
  repeat match goal with
  | H : Forall _ (_ :: _) |- _ => apply Forall_cons in H as [? H]
  | H : room_valid _ _ |- _ =>
      let H1 := fresh in let H2 := fresh in let H3 := fresh in
      pose proof (room_valid_maps _ _ H) as (H1 & H2 & H3); revert H
  end; intros;
  lazymatch goal with
  | |- room_valid _ (set_local _ _) => apply room_valid_local
  | |- room_valid _ (set_remote _ _) => apply room_valid_remote
  | |- room_valid _ (set_pending_publish _ _) => apply room_valid_publish
  | _ => idtac
  end;
  auto using map_valid_insert, map_valid_delete, map_valid_empty.

(** ** The closures and the handlers *)
Section closures.
Context {J : JsonLib} {X : Type}.

Lemma wfx_run_send ls t :
  preserves (wfx (match t with TPublish _ l => l :: ls | _ => ls end)) (run_send (X := X) t).
Proof.
  destruct t; simpl; unfold run_publish, run_subscribe, run_unsubscribe, send_sdp, run_ice;
    keep_room.
  room_ok. apply Forall_app. split; [done|by apply Forall_singleton].
Qed.

Lemma wfx_safe ls m : preserves (wfx ls) m → preserves (wfx ls) (safe (X := X) m).
Proof. intros Hm. unfold safe, SafeTask. keep_room. Qed.

Lemma wfx_post_send ls on_worker t :
  preserves (wfx (match t with TPublish _ l => l :: ls | _ => ls end)) (post_send (X := X) on_worker t).
Proof.
  unfold post_send, PostTask. destruct on_worker; [apply wfx_safe, wfx_run_send|].
  apply wfx_push. intros h Hls. destruct t; simpl; try done. by apply Forall_cons in Hls as [? _].
Qed.

Lemma wfx_post_note ls t :
  (∀ h, Forall (λ l, is_Some (h !! l)) ls → task_valid h (Note t)) →
  preserves (wfx ls) (post_note (X := X) t).
Proof. intros Ht. by apply wfx_push. Qed.

Lemma wfx_post_note_plain ls t :
  match t with TExisting _ | TAddStream _ => False | _ => True end →
  preserves (wfx ls) (post_note (X := X) t).
Proof. intros Ht. apply wfx_post_note. intros h _. by destruct t. Qed.

Lemma wfx_take_key {A} ls b key (conv : json → outcome A) : preserves (wfx ls) (take_key (X := X) b key conv).
Proof. unfold take_key. keep_room. Qed.

Lemma wfx_push_ice ls ice : preserves (wfx ls) (push_ice (X := X) ice).
Proof. unfold push_ice. keep_room. Qed.
#[local] Hint Resolve wfx_take_key wfx_push_ice : sig.

(** A computation that yields pointers: they are in use besides [ls] when it
    returns; until then those in [new] are. *)
Definition delivers (ls new : list loc) (m : ST (World X) (list loc)) : Prop :=
  ∀ w, wfx (new ++ ls) w →
    match m w with (Ret l, w') => wfx (l ++ ls) w' | (_, w') => wfx ls w' end.

Lemma wfx_app_r l ls (w : World X) : wfx (l ++ ls) w → wfx ls w.
Proof. intros (? & ? & Hls). split_and!; [done..|]. by apply Forall_app in Hls as [_ ?]. Qed.

Lemma delivers_ret ls l : delivers ls l (mret l).
Proof. intros w Hw. done. Qed.

Lemma delivers_bind {A} ls new (m : ST (World X) A) k :
  preserves (wfx (new ++ ls)) m → (∀ a, delivers ls new (k a)) → delivers ls new (m ≫= k).
Proof.
  intros Hm Hk w Hw. specialize (Hm w Hw). unfold mbind, ST_bind.
  destruct (m w) as [[a|e|u] w']; [by apply Hk|by eapply wfx_app_r..].
Qed.

(** The infos made from the join response. *)
Lemma delivers_make_infos ls streams : delivers ls [] (make_infos streams).
Proof.
  revert ls. induction streams as [|s ss IH]; intros ls w Hw; [done|]. cbn [make_infos].
  destruct (info_of_const s) as [i|e|u]; [|done..]. rewrite (lift_bind _ _ _ i) by done.
  unfold make_info, mbind at 1, ST_bind at 1. set (l := fresh _). simpl.
  set (w1 := put_heap (<[l := i]> w.(w_heap)) w).
  assert (wfx (l :: ls) w1) as Hw1.
  { apply wfx_cons. split; [simpl; by rewrite lookup_insert_eq|]. apply wfx_heap; [apply heap_le_insert|done]. }
  specialize (IH (l :: ls) w1 Hw1). unfold mbind, ST_bind.
  destruct (make_infos ss w1) as [[ls'|e|u] w2]; simpl; [|by eapply wfx_cons..].
  destruct IH as (? & ? & Hls). split_and!; [done..|]. simpl. by rewrite Permutation_middle.
Qed.

Lemma delivers_make_infos_bind ls streams k :
  (∀ l, delivers ls l (k l)) → delivers ls [] (make_infos streams ≫= k).
Proof.
  intros Hk w Hw. pose proof (delivers_make_infos ls streams w Hw) as Hm.
  unfold mbind, ST_bind. destruct (make_infos streams w) as [[l|e|u] w']; [|done..]. by apply Hk.
Qed.

Lemma delivers_join_read ls body : delivers ls [] (join_read body).
Proof.
  unfold join_read.
  repeat first [ apply delivers_make_infos_bind; intros ? | apply delivers_ret
    | apply delivers_bind; [solve [keep_room; room_ok]|intros ?] | case_match ].
Qed.

Lemma wfx_join_success ls body : preserves (wfx ls) (join_success (X := X) body).
Proof.
  intros w Hw. pose proof (delivers_join_read ls body w Hw) as Hr.
  unfold join_success, mbind at 1, ST_bind at 1.
  destruct (join_read body w) as [[l|e|u] w']; [|done..]. eapply wfx_app_r.
  assert (preserves (wfx (l ++ ls)) (Update (X := X) kConnected ;; post_note TJoined ;;
    for_each (λ l, post_note (TExisting l)) l)) as Hp; [|by apply Hp].
  apply preserves_bind; [auto with sig|intros _].
  apply preserves_bind; [by apply wfx_post_note_plain|intros _].
  apply preserves_for_each_elem. intros x Hx. apply wfx_post_note. intros h Hh. simpl.
  rewrite Forall_forall in Hh. apply Hh, elem_of_app. by left.
Qed.
#[local] Hint Resolve wfx_join_success : sig.

Lemma wfx_OnJoinRoom ls msg : preserves (wfx ls) (OnJoinRoom (X := X) msg).
Proof. unfold OnJoinRoom. keep_room. Qed.

Lemma wfx_OnLeaveRoom ls : preserves (wfx ls) (OnLeaveRoom (X := X)).
Proof. unfold OnLeaveRoom. keep_room. Qed.

Lemma wfx_OnEvent ls e msg : preserves (wfx ls) (OnEvent (X := X) e msg).
Proof.
  pose proof (wfx_post_note_plain ls). unfold OnEvent, OnErizoConnectionEvent, OnAddStream,
    OnRemoveStream, OnPeerConnectionConnectErizoReady, receiveOffer, receiveAnswer. keep_room.
  by match goal with H : Forall _ (_ :: _) |- _ => apply Forall_cons in H as [? _] end.
Qed.

Lemma wfx_OnSubscribeStream ls msg : preserves (wfx ls) (OnSubscribeStream (X := X) msg).
Proof. pose proof (wfx_post_note_plain ls). unfold OnSubscribeStream. keep_room. Qed.

Lemma wfx_OnPublishStream ls msg : preserves (wfx ls) (OnPublishStream (X := X) msg).
Proof. by apply wfx_post_note_plain. Qed.
#[local] Hint Resolve wfx_OnJoinRoom wfx_OnLeaveRoom wfx_OnEvent wfx_OnSubscribeStream
  wfx_OnPublishStream : sig.

Lemma wfx_OnWebsocketMsg ls msg : preserves (wfx ls) (OnWebsocketMsg (H := room_sig_host (X := X)) msg).
Proof.
  unfold OnWebsocketMsg, body_after, ProcessPong, ProcessInitTokenResponse, ProcessSubscribeStream,
    ProcessPublishStream, ProcessEvent, ProcessDisconnect, Signaling.CurrentState, sig_rd.
  simpl. keep_room.
Qed.

End closures.

#[export] Hint Resolve wfx_OnWebsocketMsg : sig.

Abbreviation wf := (wfx []).

(** ** Every operation *)
(** What the observer promises: its methods keep the room's pointers valid. *)
Class ObserverKeeps {J : JsonLib} (X : Type) {O : Observer X} := {
  keeps_OnJoinRoom ls id : preserves (wfx ls) (obs_OnJoinRoom id);
  keeps_OnAddRemoteStream ls p : preserves (wfx ls) (obs_OnAddRemoteStream p);
  keeps_OnSubscribe ls p : preserves (wfx ls) (obs_OnSubscribeStreamAllocateConnId p);
  keeps_OnReceiveOffer ls p sdp : preserves (wfx ls) (obs_OnReceiveOffer p sdp);
  keeps_OnStreamConnectReady ls p : preserves (wfx ls) (obs_OnStreamConnectReady p)
}.

#[export] Hint Resolve keeps_OnJoinRoom keeps_OnAddRemoteStream keeps_OnSubscribe
  keeps_OnReceiveOffer keeps_OnStreamConnectReady : sig.

(** What happens to a room: its owner's calls, from a thread of the worker or
    not; a message or an error from its session; the worker's next function. *)
Inductive room_op :=
  | OJoin | OLeave
  | OPublish (on_worker : bool) (info : option loc)
  | OUnPublish (on_worker : bool) (streamId : Z)
  | OSubscribe (on_worker : bool) (streamId : Z)
  | OUnSubscribe (on_worker : bool) (streamId : Z)
  | OAnswer (on_worker : bool) (streamId : Z) (sdp : str)
  | OOffer (on_worker : bool) (streamId : Z) (sdp : str)
  | OIce (on_worker : bool) (streamId : Z) (mid : str) (index : Z) (candidate : str)
  | OMessage (msg : str)
  | OLost (reason : str)
  | OWork.

Section operations.
Context {J : JsonLib} {X : Type} {O : Observer X} {MO : MapOrder}.

Definition run_room_op (op : room_op) : ST (World X) unit :=
  match op with
  | OJoin => Join
  | OLeave => Leave
  | OPublish b p => PublishStream b p
  | OUnPublish b id => UnPublishStream b id
  | OSubscribe b id => SubscribeStream b id
  | OUnSubscribe b id => UnSubscriberStream b id
  | OAnswer b id sdp => SendAnswer b id sdp
  | OOffer b id sdp => SendOffer b id sdp
  | OIce b id mid index candidate => SendIceCandidate b id mid index candidate
  | OMessage msg => OnWebsocketMsg msg
  | OLost reason => OnWebsocketDisconnect reason
  | OWork => run_next
  end.

Context {K : ObserverKeeps X}.

Lemma wfx_find_conn ls connId l : preserves (wfx ls) (find_conn (X := X) connId l).
Proof.
  revert ls. induction l as [|[k p] l IH]; intros ls; cbn [find_conn]; [apply preserves_ret|].
  apply wfx_deref. intros i. case_decide; [apply preserves_ret|apply IH].
Qed.
#[local] Hint Resolve wfx_find_conn : sig.

Lemma wfx_learn_erizo ls v : preserves (wfx ls) (learn_erizo (X := X) v).
Proof. unfold learn_erizo. keep_room. Qed.
#[local] Hint Resolve wfx_learn_erizo : sig.

Lemma wfx_run_existing ls l : preserves (wfx (l :: ls)) (run_existing (X := X) l).
Proof.
  unfold run_existing. keep_room. room_ok.
Qed.

Lemma wfx_run_add ls l : preserves (wfx (l :: ls)) (run_add (X := X) l).
Proof.
  unfold run_add. keep_room; simpl in *; room_ok.
Qed.

Lemma wfx_run_subscribed ls j : preserves (wfx ls) (run_subscribed (X := X) j).
Proof. unfold run_subscribed. keep_room. Qed.

Lemma wfx_run_published ls msg : preserves (wfx ls) (run_published (X := X) msg).
Proof.
  unfold run_published. intros w Hw. unfold rm at 1. rewrite gets_bind.
  destruct (pending_publish_local_streams_ (w_room w)) as [|l rest] eqn:E; [done|].
  assert (Forall (λ l, is_Some (w.(w_heap) !! l)) (l :: rest)) as Hl.
  { destruct Hw as ((_ & _ & Hp) & _). by rewrite E in Hp. }
  eapply (wfx_app_r (l :: rest)).
  assert (wfx ((l :: rest) ++ ls) w) as Hw'.
  { destruct Hw as (? & ? & ?). split_and!; [done..|]. by apply Forall_app. }
  revert w Hw' E Hl Hw. 
  match goal with |- ∀ w, _ → _ → _ → _ → wfx ?l (?m w).2 =>
    assert (preserves (wfx l) m) as Hp; [|intros; by apply Hp] end.
  keep_room; room_ok; match goal with H : Forall _ (_ ++ _) |- _ =>
    apply Forall_app in H as [[? ?]%Forall_cons ?] end; auto using map_valid_insert.
Qed.

Lemma wfx_run_note ls t :
  preserves (wfx (match t with TExisting l | TAddStream l => l :: ls | _ => ls end))
    (run_note (X := X) t).
Proof.
  destruct t; cbn [run_note].
  - keep_room.
  - apply wfx_run_existing.
  - apply wfx_run_add.
  - unfold run_remove. keep_room. room_ok.
  - apply wfx_run_subscribed.
  - apply wfx_run_published.
  - unfold run_ready. keep_room.
  - unfold run_offer. keep_room.
Qed.

Lemma wf_exec t (w : World X) : task_valid w.(w_heap) t → wf w → wf (exec_room_task t w).2.
Proof.
  intros Ht Hw. assert (∀ l, is_Some (w.(w_heap) !! l) → wfx [l] w) as Hl.
  { intros l ?. by apply wfx_cons. }
  destruct t as [t|t]; simpl.
  - pose proof (wfx_safe _ _ (wfx_run_send (X := X) [] t)) as Hp.
    destruct t; try (by apply Hp). eapply wfx_cons, Hp, Hl. done.
  - pose proof (wfx_safe _ _ (wfx_run_note [] t)) as Hp.
    destruct t; try (by apply Hp); (eapply wfx_cons, Hp, Hl; done).
Qed.

Lemma wf_run_next (w : World X) : wf w → wf (run_next w).2.
Proof.
  intros Hw. unfold run_next. rewrite gets_bind. change (wk_get w) with w.(w_worker).
  destruct (pop (w_worker w)) as [[j k]|] eqn:E; [|done]. rewrite modify_bind.
  assert (Forall (job_valid w.(w_heap)) (j :: k.(ioc_))) as [Hj Hk]%Forall_cons.
  { destruct Hw as (_ & Hjs & _). unfold pop in E. destruct (work_thread_ _), (ioc_ _); try done.
    by injection E as <- <-. }
  assert (wf (put_worker k w)) as Hw' by (by destruct Hw as (? & _ & ?)).
  destruct j as [t|ref [t|p start period nd]]; simpl in Hj.
  - by apply wf_exec.
  - unfold run_job. rewrite gets_bind. case_match; [done|]. unfold try_catch. cbn [run_timed].
    pose proof (wf_exec t (put_worker k w) Hj Hw') as He.
    change (exec t) with (exec_room_task t). by destruct (exec_room_task t _) as [[] ?].
  - assert (preserves wf (run_job (W := World X) (JTimed ref (TEvery p start period nd)))) as Hp;
      [|by apply Hp].
    unfold run_job, run_timed. apply preserves_bind; [apply preserves_gets|intros b].
    case_match; [apply preserves_ret|]. apply preserves_try; [|intros; apply preserves_ret].
    apply preserves_try; [|intros; apply preserves_ret].
    apply preserves_bind; [destruct p; apply wfx_ping|intros again].
    case_match; [|apply preserves_ret]. apply preserves_bind; [apply preserves_gets|intros now].
    unfold ScheduleEvery_next, ScheduleFromNow. keep_room; intros v Hv; done.
Qed.

Lemma wf_op op (w : World X) : wf w → wf (run_room_op op w).2.
Proof.
  revert w. change (preserves wf (run_room_op op)).
  destruct op; cbn [run_room_op].
  - unfold Join, CurrentState. keep_room.
  - unfold Leave, CurrentState. keep_room.
  - unfold PublishStream. destruct info as [l|]; keep_room.
    exact (wfx_post_send [] on_worker (TPublish _ l)).
  - unfold UnPublishStream. keep_room. exact (wfx_post_send [] on_worker (TUnPublish _)).
  - exact (wfx_post_send [] on_worker (TSubscribe streamId)).
  - exact (wfx_post_send [] on_worker (TUnSubscribe streamId)).
  - exact (wfx_post_send [] on_worker (TSendAnswer streamId sdp)).
  - exact (wfx_post_send [] on_worker (TSendOffer streamId sdp)).
  - exact (wfx_post_send [] on_worker (TSendIce streamId mid index candidate)).
  - apply wfx_OnWebsocketMsg.
  - apply wfx_UpdateState.
  - intros w. apply wf_run_next.
Qed.

Definition run_room_ops (ops : list room_op) (w : World X) : World X :=
  foldl (λ w op, (run_room_op op w).2) w ops.

End operations.


(** ** The remote streams

    The abstract state is the streams of the other participants, by id. *)
Section remote.
Context {J : JsonLib} {X : Type} {O : Observer X} {MO : MapOrder}.

Definition view (m : StreamMap) : gmap Z loc := omap (λ p, p) m.
Definition null_free (m : StreamMap) : Prop := map_Forall (λ _ p, is_Some p) m.

(** What a notification does to the abstract state: [id_of] is the id of a
    stream object, [mine] whether the stream is one the room has published. *)
Definition spec_note (id_of : loc → option Z) (mine : Z → bool) (t : NoteTask) (s : gmap Z loc)
    : gmap Z loc :=
  match t with
  | TExisting l =>
      match id_of l with
      | Some id => match s !! id with Some _ => s | None => <[id := l]> s end
      | None => s
      end
  | TAddStream l =>
      match id_of l with
      | Some id => if mine id then s else <[id := l]> s
      | None => s
      end
  | TRemoveStream id => delete id s
  | _ => s
  end.

(** The observer does not touch the room's remote streams. *)
Class ObserverRemote := {
  remote_OnJoinRoom m id : preserves (λ w : World X, w.(w_room).(remote_stream_infos_) = m) (obs_OnJoinRoom id);
  remote_OnAddRemoteStream m p : preserves (λ w : World X, w.(w_room).(remote_stream_infos_) = m) (obs_OnAddRemoteStream p);
  remote_OnSubscribe m p : preserves (λ w : World X, w.(w_room).(remote_stream_infos_) = m) (obs_OnSubscribeStreamAllocateConnId p);
  remote_OnReceiveOffer m p sdp : preserves (λ w : World X, w.(w_room).(remote_stream_infos_) = m) (obs_OnReceiveOffer p sdp);
  remote_OnStreamConnectReady m p : preserves (λ w : World X, w.(w_room).(remote_stream_infos_) = m) (obs_OnStreamConnectReady p)
}.
Context {R : ObserverRemote}.

Definition remote (w : World X) : StreamMap := w.(w_room).(remote_stream_infos_).
Local Abbreviation same m := (preserves (λ w : World X, w.(w_room).(remote_stream_infos_) = m)).

Lemma same_rm_upd m f :
  (∀ r, (f r).(remote_stream_infos_) = r.(remote_stream_infos_)) → same m (rm_upd f).
Proof. intros Hf w Hw. simpl. by rewrite Hf. Qed.

Lemma same_info_at m l : same m (info_at l).
Proof. unfold info_at. keep. Qed.
Lemma same_deref m p : same m (deref p).
Proof. destruct p; [apply same_info_at|apply preserves_lift]. Qed.
Lemma same_info_upd m p f : same m (info_upd p f).
Proof.
  unfold info_upd. apply preserves_bind; [apply same_deref|intros i]. destruct p; [|apply preserves_ret].
  intros w Hw. done.
Qed.
Lemma same_local_at m k : same m (local_at k).
Proof. unfold local_at. keep. Qed.
Lemma same_find_conn m c l : same m (find_conn c l).
Proof.
  induction l as [|[k p] l IH]; cbn [find_conn]; [apply preserves_ret|].
  apply preserves_bind; [apply same_deref|intros i]. by case_decide; [apply preserves_ret|].
Qed.
Lemma same_learn m v : same m (learn_erizo v).
Proof. unfold learn_erizo. keep. Qed.
Lemma same_rm {A} m (f : LicodeRoom → A) : same m (rm f).
Proof. intros w Hw. done. Qed.
#[local] Hint Resolve same_info_at same_deref same_info_upd same_local_at same_find_conn same_learn
  same_rm remote_OnJoinRoom remote_OnAddRemoteStream remote_OnSubscribe remote_OnReceiveOffer
  remote_OnStreamConnectReady : sig.

Lemma same_ready m c : same m (run_note (TErizoReady c)).
Proof. cbn [run_note]. unfold run_ready. keep. Qed.
Lemma same_offer m c sdp : same m (run_note (TReceiveOffer c sdp)).
Proof. cbn [run_note]. unfold run_offer. keep. Qed.
Lemma same_joined m : same m (run_note TJoined).
Proof. cbn [run_note]. keep. Qed.
Lemma same_published m msg : same m (run_note (TPublished msg)).
Proof. cbn [run_note]. unfold run_published. keep. Qed.

(** Keeping the map means keeping the abstract state. *)
Lemma same_spec (m : ST (World X) unit) w :
  (∀ k, same k m) → remote (m w).2 = remote w.
Proof. intros Hm. by apply Hm. Qed.

Lemma view_insert m id l : view (<[id := Some l]> m) = <[id := l]> (view m).
Proof. unfold view. by rewrite omap_insert_Some with (y := l). Qed.

Lemma view_delete m id : view (delete id m) = delete id (view m).
Proof. unfold view. by rewrite omap_delete. Qed.

Lemma view_lookup m id : view m !! id = mjoin (m !! id).
Proof. unfold view. by rewrite lookup_omap. Qed.

Lemma null_free_lookup m id : null_free m → m !! id = None ↔ view m !! id = None.
Proof.
  intros Hn. rewrite view_lookup. destruct (m !! id) as [p|] eqn:E; [|done].
  destruct (Hn _ _ E) as [l ->]. done.
Qed.

Definition id_in (w : World X) (l : loc) : option Z := StreamInfo.Id <$> w.(w_heap) !! l.
Definition mine_in (w : World X) (id : Z) : bool :=
  match w.(w_room).(local_stream_infos_) !! id with Some (Some _) => true | _ => false end.

Definition refines (t : NoteTask) (w w' : World X) : Prop :=
  view (remote w') = spec_note (id_in w) (mine_in w) t (view (remote w)) ∧ null_free (remote w').

Lemma refines_same t w w' :
  null_free (remote w) → remote w' = remote w →
  spec_note (id_in w) (mine_in w) t (view (remote w)) = view (remote w) → refines t w w'.
Proof. intros Hn Hr Hs. unfold refines. by rewrite Hs, Hr. Qed.

Lemma existing_refines l w w' :
  null_free (remote w) → run_existing l w = (Ret tt, w') → refines (TExisting l) w w'.
Proof.
  intros Hn E. unfold run_existing in E. apply info_at_inv in E as (i & Hl & E).
  rewrite rm_upd_bind in E.
  match type of E with obs_OnAddRemoteStream _ ?v = _ =>
    pose proof (remote_OnAddRemoteStream (remote v) (Some l) v eq_refl) as Hr end.
  rewrite E in Hr. change (remote w' = match remote w !! StreamInfo.Id i with
    | Some _ => remote w | None => <[StreamInfo.Id i := Some l]> (remote w) end) in Hr.
  unfold refines, spec_note, id_in. rewrite Hl, Hr. simpl.
  destruct (remote w !! StreamInfo.Id i) as [p|] eqn:Ep.
  - destruct (Hn _ _ Ep) as [l' ->]. rewrite view_lookup, Ep. done.
  - rewrite (proj1 (null_free_lookup _ _ Hn) Ep), view_insert. split; [done|].
    by apply map_Forall_insert_2.
Qed.

(** The branch of onAddStream for a stream of somebody else. *)
Lemma add_remote_refines l i r (w w' : World X) :
  r.(remote_stream_infos_) = remote w → null_free (remote w) →
  (rm_upd (λ r, set_remote (<[StreamInfo.Id i := Some l]> r.(remote_stream_infos_)) r) ;;
   obs_OnAddRemoteStream (Some l)) (put_room r w) = (Ret tt, w') →
  view (remote w') = <[StreamInfo.Id i := l]> (view (remote w)) ∧ null_free (remote w').
Proof.
  intros Hr Hn E. rewrite rm_upd_bind in E.
  match type of E with obs_OnAddRemoteStream _ ?v = _ =>
    pose proof (remote_OnAddRemoteStream (remote v) (Some l) v eq_refl) as Hs end.
  rewrite E in Hs. change (remote w' = <[StreamInfo.Id i := Some l]> r.(remote_stream_infos_)) in Hs.
  rewrite Hs, Hr, view_insert. split; [done|]. by apply map_Forall_insert_2.
Qed.

Lemma add_refines l w w' :
  null_free (remote w) → run_add l w = (Ret tt, w') → refines (TAddStream l) w w'.
Proof.
  intros Hn E. unfold run_add in E. apply info_at_inv in E as (i & Hl & E).
  rewrite local_at_bind in E.
  unfold refines, spec_note, id_in, mine_in. rewrite Hl. simpl.
  unfold subscript in E. destruct (local_stream_infos_ (w_room w) !! StreamInfo.Id i) as [[q|]|] eqn:Eq;
    cbn [fst snd] in E; [|by eapply add_remote_refines in E..].
  match type of E with ?m ?v = _ => assert (remote (m v).2 = remote v) as Hr end.
  { apply same_spec. intros k. apply preserves_bind; [auto with sig|intros li].
    apply preserves_bind; [auto with sig|intros _]. by apply same_rm_upd. }
  rewrite E in Hr. change (remote w' = remote w) in Hr. by rewrite Hr.
Qed.

(** A response that was processed found its stream. *)
Lemma subscribed_same j w w' :
  run_subscribed j w = (Ret tt, w') → remote w' = remote w.
Proof.
  intros E. unfold run_subscribed in E. rewrite rm_bind in E.
  destruct (pending_subscribe_streams_ _) as [|id rest]; [done|]. rewrite rm_upd_bind in E.
  set (w1 := put_room _ w) in E. change (remote w) with (remote w1). clearbody w1.
  apply ST_bind_inv in E as (e & w2 & E2 & E). injection E2 as _ <-.
  apply ST_bind_inv in E as (? & w3 & E3 & E).
  assert (remote w3 = remote w1) as <-.
  { pose proof (same_learn (remote w1) e w1 eq_refl) as Hs. by rewrite E3 in Hs. }
  rewrite remote_at_bind in E. apply ST_bind_inv in E as (v & w5 & E5 & E). injection E5 as _ <-.
  unfold subscript in E. fold (remote w3) in E.
  destruct (remote w3 !! id) as [[l|]|] eqn:Hid; cbn [fst snd] in E; [|done..].
  apply ST_bind_inv in E as (conn & w6 & E6 & E). injection E6 as _ <-.
  set (w4 := put_room _ w3) in E. assert (remote w4 = remote w3) as H4 by done. clearbody w4.
  rewrite <- H4 in Hid |- *.
  apply ST_bind_inv in E as (? & w7 & E7 & E).
  assert (remote w7 = remote w4) as H7.
  { pose proof (same_info_upd (remote w4) (Some l) (SetConnectionId conn) w4 eq_refl) as Hs.
    by rewrite E7 in Hs. }
  rewrite remote_at_bind, (subscript_Some _ _ (Some l)) in E by (by rewrite <- H7 in Hid).
  cbn [fst snd] in E.
  match type of E with obs_OnSubscribeStreamAllocateConnId _ ?v = _ =>
    pose proof (remote_OnSubscribe (remote v) (Some l) v eq_refl) as Hs end.
  rewrite E in Hs. by rewrite <- H7.
Qed.

End remote.

(** C1: Seen from outside, the room's remote streams are a plain map from
    stream id to stream object: every notification the worker runs to the end
    (existing streams, add, remove, acknowledgements, readiness, offers)
    changes that map exactly as the abstract room does (announced streams that
    are not the client's own are recorded, a removed one leaves, everything
    else changes nothing), and no null entry appears. *)
Theorem room_refines_remote_streams {J : JsonLib} {X} {O : Observer X} {MO : MapOrder}
    {R : ObserverRemote} t (w w' : World X) :
  null_free (remote w) → run_note t w = (Ret tt, w') →
  view (remote w') = spec_note (id_in w) (mine_in w) t (view (remote w)) ∧ null_free (remote w').
Proof.
  intros Hn E. assert (∀ m, (∀ k, preserves (λ w : World X, w.(w_room).(remote_stream_infos_) = k) m) →
    m w = (Ret tt, w') → remote w' = remote w) as Hsame.
  { intros m Hm Em. rewrite <- (same_spec m w Hm). by rewrite Em. }
  destruct t; cbn [run_note] in E; try (by apply existing_refines); try (by apply add_refines).
  - apply refines_same; [done| |done]. eapply Hsame; [apply same_joined|done].
  - injection E as <-. unfold refines, remote. simpl. rewrite view_delete. split; [done|].
    by apply map_Forall_delete.
  - apply refines_same; [done| |done]. by eapply subscribed_same.
  - apply refines_same; [done| |done]. eapply Hsame; [apply (λ k, same_published k msg)|done].
  - apply refines_same; [done| |done]. eapply Hsame; [apply (λ k, same_ready k connId)|done].
  - apply refines_same; [done| |done]. eapply Hsame; [apply (λ k, same_offer k connId sdp)|done].
Qed.

(** A local candidate for a stream the room does not know inserts a null
    pointer into the remote streams, and the next offer dereferences it. *)
Lemma room_local_candidate_leaves_null_remote {J : JsonLib} {X} {O : Observer X} {MO : MapOrder}
    id mid index candidate connId sdp (w : World X) :
  remote w = ∅ →
  let w' := (run_send (TSendIce id mid index candidate) w).2 in
  remote w' = {[id := None]} ∧
  (run_note (TReceiveOffer connId sdp) w').1 = Undef NullDeref.
Proof.
  intros Hr w'. assert (remote w' = {[id := None]}) as Hw'.
  { subst w'. cbn [run_send]. unfold run_ice. rewrite remote_at_bind. fold (remote w). rewrite Hr.
    unfold subscript. rewrite lookup_empty. cbn [fst snd].
    set (w1 := put_room _ w). assert (remote w1 = {[id := None]}) as H1 by done. clearbody w1.
    match goal with |- remote (?m w1).2 = _ =>
      assert (preserves (λ w : World X, w.(w_room).(remote_stream_infos_) = {[id := None]}) m) as Hp end.
    { pose proof (same_local_at (X := X)). pose proof (same_deref (X := X)).
      pose proof (above_SendMsg (X := X) (λ _ r _, r.(remote_stream_infos_) = {[id := None]})).
      pose proof (@same_rm J X). keep. }
    by apply Hp. }
  split; [done|]. clearbody w'. cbn [run_note]. unfold run_offer. rewrite rm_bind.
  fold (remote w'). rewrite Hw'.
  assert (map_order {[id := None]} = [(id, None)]) as ->; [|done].
  apply Permutation_length_1_inv. rewrite map_order_perm. by rewrite map_to_list_singleton.
Qed.
