(* ===== verification/Client.v ===== *)
(** * main.cpp and core/video_render.{h,cc}: the example client

    [TestBasicExampleRoom] observes a room and its peer connections: it is an
    instance of both observer interfaces, and its state is the [X] of the
    room's world. The process-wide [WebrtcWrapper] and libwebrtc's own state
    are part of it. *)

From stdpp Require Import base list strings gmap.
From Stdlib Require Import Ascii ZArith Lia.
From S2P Require Import Prelude CppString StdContainers HttpRequest HttpSession Json.
From S2P Require Import NuveApi RtcData Webrtc WebsocketSession Scheduler Worker ThreadPool.
From S2P Require Import LicodeData Signaling SignalingProps Room RoomLaws RoomProps.
From S2P Require Import RoomInv.

Local Open Scope Z_scope.

(** ** The process: the wrapper's instance and the library *)
Record Process (L : Type) := mkProcess { p_wrapper : Wrapper.WebrtcWrapper; p_lib : L }.
Arguments mkProcess {L}.
Arguments p_wrapper {L}.
Arguments p_lib {L}.

Section process.
Context {L : Type} {R : RtcLib L}.

(** A call of the library from a process. *)
Definition in_lib {A} (m : ST L A) : ST (Process L) A := λ p,
  let '(o, l) := m p.(p_lib) in (o, mkProcess p.(p_wrapper) l).

#[global] Instance process_lib : RtcLib (Process L) := {|
  rtc_log_timestamps b := in_lib (rtc_log_timestamps b);
  rtc_log_to_stderr b := in_lib (rtc_log_to_stderr b);
  rtc_log_threads b := in_lib (rtc_log_threads b);
  rtc_log_to_debug s := in_lib (rtc_log_to_debug s);
  rtc_thread_create := in_lib rtc_thread_create;
  rtc_thread_start t := in_lib (rtc_thread_start t);
  rtc_create_factory t := in_lib (rtc_create_factory t);
  rtc_create_pc f c := in_lib (rtc_create_pc f c);
  rtc_set_remote pc d := in_lib (rtc_set_remote pc d);
  rtc_set_local pc d := in_lib (rtc_set_local pc d);
  rtc_create_answer pc o := in_lib (rtc_create_answer pc o);
  rtc_add_sink t := in_lib (rtc_add_sink t);
  rtc_parse_sdp := rtc_parse_sdp
|}.

#[global] Instance process_store : Wrapper.WrapperStore (Process L) := {|
  Wrapper.wrap_get := p_wrapper;
  Wrapper.wrap_put i p := mkProcess i p.(p_lib)
|}.

End process.

Module Client.

(** [room_] is the room of the world. *)
Record TestBasicExampleRoom (L : Type) := mkClient {
  peer_connections_ : gmap Z (option Connection.WebrtcConnection);
  process : Process L
}.
Arguments mkClient {L}.
Arguments peer_connections_ {L}.
Arguments process {L}.

Section client.
Context {J : JsonLib} {L : Type} {R : RtcLib L}.
Local Abbreviation M := (ST (World (TestBasicExampleRoom L))).

(** Running on the client's own state. *)
Definition put_client (c : TestBasicExampleRoom L) (w : World (TestBasicExampleRoom L))
    : World (TestBasicExampleRoom L) :=
  mkWorld w.(w_signaling) w.(w_sessions) w.(w_worker) w.(w_scheduler) w.(w_clock) w.(w_heap)
    w.(w_alive) w.(w_room) c.

Definition on_client {A} (m : ST (TestBasicExampleRoom L) A) : M A := λ w,
  let '(o, c) := m w.(w_observer) in (o, put_client c w).

Definition in_process {A} (m : ST (Process L) A) : M A := on_client (λ c,
  let '(o, p) := m c.(process) in (o, mkClient c.(peer_connections_) p)).

(** [peer_connections_[k]]: a missing key gets a null pointer. *)
Definition peer_at (k : Z) : M (option Connection.WebrtcConnection) := on_client (λ c,
  match c.(peer_connections_) !! k with
  | Some p => (Ret p, c)
  | None => (Ret None, mkClient (<[k := None]> c.(peer_connections_)) c.(process))
  end).

Definition set_peer (k : Z) (p : Connection.WebrtcConnection) : M unit :=
  on_client (modify (λ c, mkClient (<[k := Some p]> c.(peer_connections_)) c.(process))).

Definition deref_peer (p : option Connection.WebrtcConnection) : M Connection.WebrtcConnection :=
  match p with Some c => mret c | None => lift (Undef NullDeref) end.

Definition server_of (ice : Ice.IceServer) : Rtc.IceServer :=
  Rtc.mkServer ice.(Ice.url) [] ice.(Ice.username) ice.(Ice.credential)
    Rtc.kTlsCertPolicySecure [] [] [].

Definition config_of (ices : list Ice.IceServer) : Rtc.RTCConfiguration :=
  Rtc.config_with (server_of <$> ices) Rtc.kNoHost (Some true) Rtc.kPlanB.

Definition CreatePeerConnection (streamId : Z) : M unit :=
  p ← peer_at streamId;
  match p with
  | Some _ => mret tt
  | None =>
      ices ← Room.IceServers;
      c ← in_process (Connection.new_connection streamId true (config_of ices));
      set_peer streamId c
  end.

Definition receive_options : Rtc.RTCOfferAnswerOptions :=
  Rtc.options_of 1 1 true false true.

Definition Join : M unit := Room.Join.
Definition Leave : M unit := Room.Leave.

(** LicodeRoomObserver, on the worker's thread. *)
Definition OnJoinRoom (roomId : str) : M unit := mret tt.
Definition OnLeaveRoom (roomId : str) : M unit := mret tt.

Definition OnAddRemoteStream (info : option loc) : M unit :=
  i ← deref info;
  CreatePeerConnection (StreamInfo.Id i) ;;
  i ← deref info;
  Room.SubscribeStream true (StreamInfo.Id i).

Definition OnRemoveRemoteStream (info : option loc) : M unit := mret tt.

Definition OnSubscribeStreamAllocateConnId (info : option loc) : M unit :=
  deref info ;; mret tt.

Definition OnStreamConnectReady (info : option loc) : M unit := mret tt.

Definition OnPublishStreamAllocateConnId (info : option loc) : M unit :=
  i ← deref info;
  CreatePeerConnection (StreamInfo.Id i) ;;
  p ← peer_at (StreamInfo.Id i);
  c ← deref_peer p;
  in_process (Connection.CreateOffer c receive_options).

Definition OnReceiveOffer (info : option loc) (sdp : str) : M unit :=
  match Wrapper.CreateSessionDescription (L := R) Rtc.kOffer sdp with
  | None => mret tt
  | Some desc =>
      i ← deref info;
      p ← peer_at (StreamInfo.Id i);
      c ← deref_peer p;
      in_process (Connection.SetRemoteDescription c desc) ;;
      i ← deref info;
      p ← peer_at (StreamInfo.Id i);
      c ← deref_peer p;
      in_process (Connection.CreateAnswer c receive_options)
  end.

Definition OnReceiveAnswer (info : option loc) (sdp : str) : M unit := mret tt.

#[global] Instance client_observer : Observer (TestBasicExampleRoom L) := {|
  obs_OnJoinRoom := OnJoinRoom;
  obs_OnLeaveRoom := OnLeaveRoom;
  obs_OnAddRemoteStream := OnAddRemoteStream;
  obs_OnRemoveRemoteStream := OnRemoveRemoteStream;
  obs_OnSubscribeStreamAllocateConnId := OnSubscribeStreamAllocateConnId;
  obs_OnPublishStreamAllocateConnId := OnPublishStreamAllocateConnId;
  obs_OnReceiveOffer := OnReceiveOffer;
  obs_OnStreamConnectReady := OnStreamConnectReady;
  obs_OnReceiveAnswer := OnReceiveAnswer
|}.

(** WebrtcPeerConnectionObserver, on libwebrtc's signaling thread. *)
Definition OnSdpCreateSuccess (peer : Connection.WebrtcConnection) (type : Rtc.SdpType) (sdp : str)
    : M unit :=
  match Wrapper.CreateSessionDescription (L := R) type sdp with
  | None => mret tt
  | Some desc =>
      in_process (Connection.SetLocalDescription peer desc) ;;
      Room.SendAnswer false (Connection.Id peer) sdp
  end.

Definition OnIceCandidate (peer : Connection.WebrtcConnection) (candidate : Rtc.IceCandidate) : M unit :=
  let candidateAttribute := $"a=" ++ candidate.(Rtc.cand_text) in
  Room.SendIceCandidate false (Connection.Id peer) candidate.(Rtc.sdp_mid)
    candidate.(Rtc.sdp_mline_index) candidateAttribute.

Definition OnPeerConnect (peer : Connection.WebrtcConnection) : M unit := mret tt.
Definition OnPeerDisconnect (peer : Connection.WebrtcConnection) : M unit := mret tt.

Definition OnAddRemoteVideoTrack (peer : Connection.WebrtcConnection) (video : Rtc.Track) : M unit :=
  in_process (rtc_add_sink video).

(** A [VideoRender] only logs the frames it is given. *)
Definition VideoRender_OnFrame (width height : Z) : M unit := mret tt.

#[global] Instance client_pc_observer : Connection.PcObserver (World (TestBasicExampleRoom L)) := {|
  Connection.obs_OnSdpCreateSuccess := OnSdpCreateSuccess;
  Connection.obs_OnSdpCreateFailure _ _ := mret tt;
  Connection.obs_OnIceCandidate := OnIceCandidate;
  Connection.obs_OnPeerConnect := OnPeerConnect;
  Connection.obs_OnPeerDisconnect := OnPeerDisconnect;
  Connection.obs_OnAddRemoteVideoTrack := OnAddRemoteVideoTrack;
  Connection.obs_OnRemoveRemoteVideoTrack _ _ := mret tt;
  Connection.obs_OnAddRemoteAudioTrack _ _ := mret tt;
  Connection.obs_OnRemoveRemoteAudioTrack _ _ := mret tt;
  Connection.obs_OnDataChannel _ _ := mret tt
|}.

End client.

(** ** main *)
Section main.
Context {B : Beast} {C : Crypto} {N : Net} {J : JsonLib}.

(** The loop over the rooms: the last one of that name. *)
Definition example_room (rooms : list RoomInfo.LicodeRoomInfo) : str :=
  foldl (λ id room, if decide (RoomInfo.Name room = $"basicExampleRoom") then RoomInfo.Id room else id)
    [] rooms.

Definition nuve : Nuve.LicodeNuveApi :=
  Nuve.new_api $"5f9047504d2d972192a1dfc0" $"3550" $"192.168.1.5" 3000.

(** Up to the token: [inl code] is a return from main. *)
Definition main_token : outcome (Z + Token.LicodeToken) :=
  rooms ← Nuve.SyncListRoom nuve;
  match rooms with
  | None => Ret (inl (-1))
  | Some listRooms =>
      let exampleRoomId := example_room listRooms in
      if decide (exampleRoomId = []) then Ret (inl (-1))
      else
        token ← Nuve.SyncCreateToken nuve exampleRoomId $"shajia" $"presenter";
        match token with
        | None => Ret (inl (-1))
        | Some licodeToken => Ret (inr licodeToken)
        end
  end.

(** The whole of main: the process it leaves behind, and either the code it
    returned or the world in which it waits. The clock is the pool's. *)
Definition main {L : Type} {R : RtcLib L} (clock : Z) (p0 : Process L)
    : outcome (Z + World (TestBasicExampleRoom L)) :=
  let '(o, p) := (Wrapper.Init ;; Wrapper.SetWebrtcLogLevel Wrapper.kWarning) p0 in
  _ ← o;
  let pool := ThreadPool.Start (new_pool 1 clock) in
  token ← main_token;
  match token with
  | inl code => Ret (inl code)
  | inr licodeToken =>
      i ← GetLessUsedWorker pool;
      match pool.(workers_) !! i with
      | None => Undef OutOfBounds
      | Some k =>
          let w := construct k.(pw_worker) pool.(scheduler_) clock licodeToken (mkClient ∅ p) in
          let '(o, w) := Join w in
          _ ← o;
          Ret (inr w)
      end
  end.

End main.

End Client.
