(* ===== verification/ClientProps.v ===== *)
(** * Correctness of the example client

    The client keeps what the room asks of an observer, so that the room's
    theorems hold of the whole program; what it does with remote streams and
    offers; and how libwebrtc's state changes reach it. *)

From stdpp Require Import base list strings gmap.
From Stdlib Require Import Ascii ZArith Lia.
From S2P Require Import Prelude CppString StdContainers HttpRequest HttpSession Json.
From S2P Require Import JsonModel PktBuilder PktProps NuveApi RtcData Webrtc WebsocketSession.
From S2P Require Import WebsocketProps Scheduler Worker ThreadPool LicodeData Signaling.
From S2P Require Import SignalingProps Room RoomLaws RoomProps RoomInv Client.

Local Open Scope Z_scope.
Import Client.

(** ** The client is an observer the room can rely on *)
Section keeps.
Context {J : JsonLib} {L : Type} {R : RtcLib L}.
Local Abbreviation X := (TestBasicExampleRoom L).

Lemma preserves_on_client {A} (P : World X → Prop) (m : ST X A) :
  (∀ c w, P w → P (put_client c w)) → preserves P (on_client m).
Proof. intros HP w Hw. unfold on_client. destruct (m (w_observer w)). simpl. by apply HP. Qed.

Lemma wfx_on_client {A} ls (m : ST X A) : preserves (wfx ls) (on_client m).
Proof. by apply preserves_on_client. Qed.

Lemma wfx_CreatePeerConnection ls k : preserves (wfx ls) (CreatePeerConnection k).
Proof.
  unfold CreatePeerConnection, peer_at, in_process, set_peer, Room.IceServers.
  pose proof (@wfx_on_client). keep_room.
Qed.

Lemma wfx_SubscribeStream ls on_worker k :
  preserves (wfx ls) (Room.SubscribeStream (X := X) on_worker k).
Proof. apply (wfx_post_send _ on_worker (TSubscribe k)). Qed.

#[global] Instance client_keeps : ObserverKeeps X.
Proof.
  pose proof wfx_CreatePeerConnection. pose proof (@wfx_on_client). pose proof wfx_SubscribeStream.
  constructor; intros; simpl;
    unfold OnJoinRoom, OnAddRemoteStream, OnSubscribeStreamAllocateConnId, OnReceiveOffer,
      OnStreamConnectReady, peer_at, in_process, deref_peer; keep_room.
Qed.

(** No method of the client touches the room's remote streams. *)
Local Abbreviation same m := (preserves (λ w : World X, w.(w_room).(remote_stream_infos_) = m)).

Lemma same_on_client {A} m (k : ST X A) : same m (on_client k).
Proof. by apply preserves_on_client. Qed.

Lemma same_CreatePeerConnection m k : same m (CreatePeerConnection k).
Proof.
  unfold CreatePeerConnection, peer_at, in_process, set_peer, Room.IceServers.
  pose proof (@same_on_client). pose proof (@same_rm J X). keep.
Qed.

Lemma same_SubscribeStream m on_worker k : same m (Room.SubscribeStream on_worker k).
Proof.
  pose proof (above_SendMsg (X := X) (λ _ r _, r.(remote_stream_infos_) = m)).
  unfold Room.SubscribeStream, post_send, PostTask. destruct on_worker; [|by intros w Hw].
  unfold safe, SafeTask. cbn [run_send]. unfold run_subscribe. keep.
Qed.

#[global] Instance client_remote : ObserverRemote (X := X).
Proof.
  pose proof same_CreatePeerConnection. pose proof (@same_on_client).
  pose proof (same_deref (X := X)). pose proof same_SubscribeStream.
  constructor; intros; simpl;
    unfold OnJoinRoom, OnAddRemoteStream, OnSubscribeStreamAllocateConnId, OnReceiveOffer,
      OnStreamConnectReady, peer_at, in_process, deref_peer; keep.
Qed.

End keeps.

(** ** Remote streams *)

(** Documented: the factory and the connection are made. *)
Class RtcReady (L : Type) {R : RtcLib L} := {
  factory_made t l : ∃ f l', rtc_create_factory t l = (Ret (Some f), l');
  pc_made f config l : ∃ pc l', rtc_create_pc f config l = (Ret (Some pc), l')
}.

Section streams.
Context {J : JsonLib} {L : Type} {R : RtcLib L} {RR : RtcReady L}.
Local Abbreviation X := (TestBasicExampleRoom L).

Definition peers (w : World X) := w.(w_observer).(peer_connections_).
Definition initialised_process (w : World X) : bool :=
  w.(w_observer).(process).(p_wrapper).(Wrapper.init_).

Lemma new_connection_spec id b config (p : Process L) :
  p.(p_wrapper).(Wrapper.init_) = true →
  ∃ pc p', Connection.new_connection id b config p =
    (Ret (Connection.mkConn id b config (Some pc)), p') ∧ p'.(p_wrapper) = p.(p_wrapper).
Proof.
  intros Hi. unfold Connection.new_connection, Wrapper.CreatePCFactory, Wrapper.SignalingThread.
  rewrite bind_assoc, gets_bind. simpl. rewrite Hi, bind_assoc, gets_bind.
  destruct (factory_made p.(p_wrapper).(Wrapper.signaling_thread_) p.(p_lib)) as (f & l1 & Ef).
  erewrite ST_bind_Ret; [|simpl; unfold in_lib; by rewrite Ef].
  simpl. rewrite ret_bind.
  destruct (pc_made f config l1) as (pc & l2 & Ep).
  erewrite ST_bind_Ret; [|simpl; unfold in_lib; simpl; by rewrite Ep].
  do 2 eexists. by split.
Qed.

Lemma CreatePeerConnection_spec k w :
  initialised_process w = true →
  ∃ pc x, CreatePeerConnection k w = (Ret tt, put_client x w) ∧
    x.(peer_connections_) =
      match peers w !! k with
      | Some (Some _) => peers w
      | _ => <[k := Some (Connection.mkConn k true
                (config_of w.(w_room).(ice_server_list_)) (Some pc))]> (peers w)
      end.
Proof.
  intros Hi. unfold CreatePeerConnection.
  assert (∃ p1, peer_at k w = (Ret (match peers w !! k with Some (Some c) => Some c | _ => None end),
      put_client p1 w) ∧ p1.(process) = w.(w_observer).(process) ∧
      (match peers w !! k with Some (Some _) => p1.(peer_connections_) = peers w
       | _ => <[k := None]> p1.(peer_connections_) = <[k := None]> (peers w) end)) as (p1 & E & Hp & Hc).
  { unfold peer_at, on_client, peers. destruct (peer_connections_ (w_observer w) !! k) as [[c|]|] eqn:Ek;
      eexists; split_and!; try reflexivity. simpl. by rewrite insert_insert_eq. }
  rewrite (ST_bind_Ret _ _ _ _ _ E). destruct (peers w !! k) as [[c|]|].
  1: { exists 0%nat, p1. done. }
  all: unfold Room.IceServers; rewrite rm_bind; cbn [w_room put_client w_observer];
    destruct (new_connection_spec k true (config_of (ice_server_list_ (w_room w))) (process p1))
      as (pc & p' & En & _); [by rewrite Hp|];
    erewrite ST_bind_Ret; [|unfold in_process, on_client; cbn [w_observer put_client]; rewrite En; reflexivity];
    exists pc; eexists; (split; [reflexivity|]); simpl;
    rewrite <- (insert_insert_eq _ k _ None), Hc; apply insert_insert_eq.
Qed.

(** The socket's view of the world: what has been handed to session [s]. *)
Definition socket (s : nat) (w : World X) : Ws := ws_get (WsStore := world_session s) w.

Definition online (s : nat) (w : World X) : Prop :=
  w.(w_signaling).(Signaling.state_) = Signaling.kConnected ∧ w.(w_signaling).(websocket_) = Some s ∧
  (socket s w).(WebsocketSession.connected_) = true.

Lemma SendMsg_online s msg w :
  online s w →
  Signaling.SendMsg msg w = (Ret tt, put_sessions
    (<[s := set_posted ((socket s w).(posted) ++ [PSend msg]) (socket s w)]> w.(w_sessions)) w).
Proof.
  intros (Hs & Hl & Hc). unfold Signaling.SendMsg, Signaling.CurrentState, sig_rd. rewrite gets_bind.
  rewrite bool_decide_eq_true_2 by done. rewrite (on_websocket_at _ s) by done.
  unfold WebsocketSession.SendMsg, IsConnected, rd. rewrite gets_bind.
  change (ws_get w) with (socket s w). rewrite Hc. done.
Qed.

Definition subscribe_packet (id : Z) : SubscribeStreamPktBuilder :=
  subscribe_SetOfferFromErizo true (subscribe_SetStreamId id subscribe_new).

Lemma run_subscribe_online s id text w :
  online s w → subscribe_Build (subscribe_packet id) = Ret text →
  ∃ w', run_subscribe id w = (Ret tt, w') ∧
    w'.(w_observer) = w.(w_observer) ∧ w'.(w_heap) = w.(w_heap) ∧
    w'.(w_room) = set_pending_subscribe (w.(w_room).(pending_subscribe_streams_) ++ [id]) w.(w_room) ∧
    (socket s w').(posted) = (socket s w).(posted) ++ [PSend (SubscribeStreamMsgHeader ++ text)].
Proof.
  intros Ho Hb. unfold run_subscribe. rewrite (lift_bind _ _ _ text) by exact Hb.
  rewrite rm_upd_bind, (SendMsg_online s) by exact Ho. eexists. split; [reflexivity|].
  split_and!; [done..|]. unfold socket. simpl. by rewrite lookup_insert_eq.
Qed.

Lemma OnAddRemoteStream_online s l i text w :
  online s w → initialised_process w = true → w.(w_alive) = true →
  w.(w_heap) !! l = Some i → subscribe_Build (subscribe_packet (StreamInfo.Id i)) = Ret text →
  ∃ w' c, OnAddRemoteStream (Some l) w = (Ret tt, w') ∧
    peers w' !! StreamInfo.Id i = Some (Some c) ∧
    (peers w !! StreamInfo.Id i = Some (Some c) ∨ Connection.Id c = StreamInfo.Id i) ∧
    w'.(w_room) = set_pending_subscribe
      (w.(w_room).(pending_subscribe_streams_) ++ [StreamInfo.Id i]) w.(w_room) ∧
    w'.(w_heap) = w.(w_heap) ∧
    (socket s w').(posted) = (socket s w).(posted) ++ [PSend (SubscribeStreamMsgHeader ++ text)].
Proof.
  intros Ho Hi Ha Hl Hb. unfold OnAddRemoteStream. cbn [deref].
  rewrite (info_at_bind l i) by done.
  destruct (CreatePeerConnection_spec (StreamInfo.Id i) w Hi) as (pc & x & Ec & Hx).
  rewrite (ST_bind_Ret _ _ _ _ _ Ec), (info_at_bind l i) by done.
  unfold Room.SubscribeStream, post_send, PostTask, safe. rewrite gets_bind. simpl w_alive. rewrite Ha.
  destruct (run_subscribe_online s (StreamInfo.Id i) text (put_client x w)) as (w' & Es & Hob & Hh & Hr & Hp);
    [exact Ho|done|].
  exists w'. assert (peers w' = x.(peer_connections_)) as Hpw by (unfold peers; by rewrite Hob).
  rewrite Hpw, Hx. destruct (peers w !! StreamInfo.Id i) as [[c|]|] eqn:Ep.
  - exists c. rewrite Ep. split_and!; [exact Es|done|by left|done|done|exact Hp].
  - eexists. rewrite lookup_insert_eq. split_and!; [exact Es|done|by right|done|done|exact Hp].
  - eexists. rewrite lookup_insert_eq. split_and!; [exact Es|done|by right|done|done|exact Hp].
Qed.

End streams.

(** The task for a stream announced by the server, run by an online client. *)
Lemma run_add_online {J : JsonLib} {JL : JsonLaws J} {L} {R : RtcLib L}
    {RR : RtcReady L} {MO : MapOrder} s l i (w : World (TestBasicExampleRoom L)) :
  let id := StreamInfo.Id i in
  online s w → initialised_process w = true → w.(w_alive) = true →
  w.(w_heap) !! l = Some i → in_u64 id = true →
  (w.(w_room).(local_stream_infos_) !! id = None) →
  ∃ w' c text j, run_note (TAddStream l) w = (Ret tt, w') ∧
    w'.(w_room).(remote_stream_infos_) !! id = Some (Some l) ∧
    peers w' !! id = Some (Some c) ∧
    w'.(w_room).(pending_subscribe_streams_) = w.(w_room).(pending_subscribe_streams_) ++ [id] ∧
    (socket s w').(posted) = (socket s w).(posted) ++ [PSend (SubscribeStreamMsgHeader ++ text)] ∧
    j_parse text = Ret j ∧ Forall (reads j) (PktProps.wire (PSubscribe (subscribe_packet id))).
Proof.
  intros id Ho Hi Ha Hl Hu Hn.
  destruct (subscribe_on_wire (subscribe_packet id)) as (text & j & Hb & Hj & Hr).
  { split_and!; [done| |].
    - simpl. by rewrite Hu.
    - apply Forall_singleton. lit_utf8. }
  unfold run_note, run_add. rewrite (info_at_bind l i), local_at_bind by done.
  assert (subscript (local_stream_infos_ (w_room w)) id = (<[id := None]> (local_stream_infos_ (w_room w)), None))
    as Es by (unfold subscript; by rewrite Hn).
  fold id. rewrite Es. cbn [fst snd]. rewrite rm_upd_bind.
  match goal with |- context [obs_OnAddRemoteStream _ ?v] => set (w1 := v) end.
  destruct (OnAddRemoteStream_online s l i text w1) as (w' & c & E & Hp & _ & Hroom & _ & Hs); [done..|].
  exists w', c, text, j. split_and!; [exact E| |done| |exact Hs|done|done].
  - rewrite Hroom. simpl. by rewrite lookup_insert_eq.
  - by rewrite Hroom.
Qed.

(** ** From the frame to the packet *)
Section frame.
Context {J : JsonLib} {L : Type} {R : RtcLib L} {MO : MapOrder}.
Local Abbreviation X := (TestBasicExampleRoom L).

(** What the text of a socket.io event decodes to: an announced stream. *)
Definition announces (text : str) (i : StreamInfo.LicodeStreamInfo) : Prop :=
  ∃ event body stream, j_parse text = Ret event ∧ event_args event = Ret ($"onAddStream", body) ∧
    j_parse body = Ret stream ∧ info_of_event stream = Ret i.

(** The world once the stream is on the heap and its task is queued. *)
Definition announced (l : loc) (i : StreamInfo.LicodeStreamInfo) (w : World X) : World X :=
  put_worker (push (JTask (Note (TAddStream l))) w.(w_worker)) (put_heap (<[l := i]> w.(w_heap)) w).

Lemma ProcessEvent_announces text i (w : World X) :
  announces text i → w.(w_signaling).(event_callback_) = true →
  ∃ l, ProcessEvent text w = (Ret tt, announced l i w).
Proof.
  intros (event & body & stream & Hp & Hargs & Hb & Hi) Hcb. exists (fresh (dom w.(w_heap))).
  assert (OnEvent $"onAddStream" body w = (Ret tt, announced (fresh (dom w.(w_heap))) i w)) as E.
  { change (OnEvent $"onAddStream" body w) with (OnAddStream body w).
    unfold OnAddStream, try_catch. by rewrite (lift_bind _ _ _ stream Hb), (lift_bind _ _ _ i Hi). }
  unfold ProcessEvent, try_catch, sig_rd. rewrite (lift_bind _ _ _ event Hp), gets_bind.
  change (sig_get w) with w.(w_signaling). rewrite Hcb, (lift_bind _ _ _ _ Hargs).
  cbn [on_event room_sig_host fst snd]. by rewrite E.
Qed.

(** The worker, idle, runs the one task it is given. *)
Lemma run_next_posted t (k : Worker RoomTask PingTask) (w : World X) :
  w.(w_worker) = push (JTask t) k → k.(work_thread_) = Serving → k.(ioc_) = [] →
  run_next w = exec t (put_worker k w).
Proof.
  intros Hw Ht Hq. unfold run_next. rewrite gets_bind. change (wk_get w) with w.(w_worker).
  rewrite Hw. destruct k as [g th r q rs]. simpl in *. subst th q. done.
Qed.

(** A frame that announces a stream: the session hands it over, the stream is
    on the heap, its task queued, and the session reads on. *)
Lemma frame_announces close s n text i (w : World X) :
  announces text i → no_digit_head text → size ($"42" ++ text) ≤ npos →
  w.(w_signaling).(event_callback_) = true →
  (socket s w).(pending) !! n = Some OpRead → (socket s w).(buffer_) = [] →
  (socket s w).(receive_msg_callback_) = true →
  ∃ l v, complete (H := session_host close s) n (Data ($"42" ++ text)) w =
      (Ret tt, put_sessions (<[s := v]> w.(w_sessions)) (announced l i w)) ∧
    v = set_pending (delete n (socket s w).(pending) ++ [OpRead]) (set_buffer [] (socket s w)).
Proof.
  intros Ha Hd Hsz He Hn Hb Hr.
  set (w0 := put_sessions (<[s := set_buffer ([] ++ $"42" ++ text)
    (set_pending (delete n (socket s w).(pending)) (socket s w))]>
    (<[s := set_pending (delete n (socket s w).(pending)) (socket s w)]> w.(w_sessions))) w).
  destruct (ProcessEvent_announces text i w0 Ha He) as (l & E).
  exists l. eexists. split; [|reflexivity].
  erewrite (complete_read_done (H := session_host close s) n ($"42" ++ text) w (announced l i w0)).
  - f_equal. unfold announced, put_sessions, put_worker, put_heap. simpl. f_equal.
    by rewrite !lookup_insert_eq, !insert_insert_eq.
  - exact Hn.
  - exact Hr.
  - change (OnWebsocketMsg ((socket s w).(buffer_) ++ $"42" ++ text)
      (put_sessions (<[s := set_buffer ((socket s w).(buffer_) ++ $"42" ++ text)
         (set_pending (delete n (socket s w).(pending)) (socket s w))]>
         (<[s := set_pending (delete n (socket s w).(pending)) (socket s w)]> w.(w_sessions))) w)
      = (Ret tt, announced l i w0)).
    rewrite Hb. rewrite <- E. apply (OnWebsocketMsg_known $"42" ProcessEvent text); [|done|done].
    by repeat first [left | right].
Qed.

End frame.

(** C7: From the frame on the socket to the packet on its queue: when an
    online client's session reads a socket.io event that decodes to an
    announced stream that is not the client's own, the session reads on, and
    once the idle worker has run the task the room posted, the room holds the
    stream, the client has a peer connection for it, the stream has joined the
    pending subscriptions and the session has been handed exactly one packet
    more, a subscribe request whose text parses back to a message naming this
    stream. *)
Theorem client_subscribes_to_announced_stream {J : JsonLib} {JL : JsonLaws J} {L} {R : RtcLib L}
    {RR : RtcReady L} {MO : MapOrder} close s n text i (w : World (TestBasicExampleRoom L)) :
  let id := StreamInfo.Id i in
  online s w → initialised_process w = true → w.(w_alive) = true →
  w.(w_worker).(work_thread_) = Serving → w.(w_worker).(ioc_) = [] →
  (socket s w).(pending) !! n = Some OpRead → (socket s w).(buffer_) = [] →
  (socket s w).(receive_msg_callback_) = true → w.(w_signaling).(event_callback_) = true →
  announces text i → no_digit_head text → size ($"42" ++ text) ≤ npos → in_u64 id = true →
  w.(w_room).(local_stream_infos_) !! id = None →
  ∃ l w1 w2 c out j,
    complete (H := session_host close s) n (Data ($"42" ++ text)) w = (Ret tt, w1) ∧
    run_next w1 = (Ret tt, w2) ∧
    (socket s w1).(pending) = delete n (socket s w).(pending) ++ [OpRead] ∧
    w2.(w_room).(remote_stream_infos_) !! id = Some (Some l) ∧ w1.(w_heap) !! l = Some i ∧
    peers w2 !! id = Some (Some c) ∧
    w2.(w_room).(pending_subscribe_streams_) = w.(w_room).(pending_subscribe_streams_) ++ [id] ∧
    (socket s w2).(posted) = (socket s w).(posted) ++ [PSend (SubscribeStreamMsgHeader ++ out)] ∧
    j_parse out = Ret j ∧ Forall (reads j) (PktProps.wire (PSubscribe (subscribe_packet id))).
Proof.
  intros id (Hs & Hl & Hc) Hi Ha Ht Hq Hn Hb Hr He Han Hd Hsz Hu Hloc.
  destruct (frame_announces close s n text i w Han Hd Hsz He Hn Hb Hr) as (l & v & Hcomp & Hv).
  set (w1 := put_sessions (<[s := v]> w.(w_sessions)) (announced l i w)) in *.
  assert (socket s w1 = v) as Hs1 by (unfold socket, w1; simpl; by rewrite lookup_insert_eq).
  assert (w1.(w_heap) !! l = Some i) as Hh by (unfold w1; simpl; by rewrite lookup_insert_eq).
  pose proof (run_next_posted (Note (TAddStream l)) w.(w_worker) w1 eq_refl Ht Hq) as Hrun.
  destruct (run_add_online s l i (put_worker w.(w_worker) w1))
    as (w2 & c & out & j & E & Hrem & Hpeer & Hpend & Hpost & Hj & Hreads);
    [split_and!; [done|done|]|done..|].
  { change (connected_ (socket s w1) = true). by rewrite Hs1, Hv. }
  exists l, w1, w2, c, out, j. change (socket s (put_worker (w_worker w) w1)) with (socket s w1) in Hpost.
  rewrite Hs1, Hv in *. split_and!; try done.
  rewrite Hrun. cbn [exec room_worker_host exec_room_task]. unfold safe. rewrite gets_bind.
  change (w_alive (put_worker (w_worker w) w1)) with (w_alive w). rewrite Ha. exact E.
Qed.

(** The state changes of a peer connection reach the observer wrongly: a
    lost connection is reported as a new one, no state is ever reported as a
    disconnection, and asking for an offer asks the library for an answer. *)
Lemma webrtc_disconnect_is_reported_as_connect {W} {L : RtcLib W} {O : Connection.PcObserver W}
    id config pc options (w : W) :
  let c := Connection.mkConn id true config (Some pc) in
  Connection.OnConnectionChange c Rtc.kDisconnected w = Connection.obs_OnPeerConnect c w ∧
  (∀ s, Connection.OnConnectionChange c s = Connection.obs_OnPeerConnect c ∨
        Connection.OnConnectionChange c s = mret tt) ∧
  Connection.CreateOffer c options w = rtc_create_answer pc options w.
Proof. intros c. split_and!; [done| |done]. intros []; [by right|by right|by left|by left|by right..]. Qed.

(** An offer for a connection id that belongs to no stream makes the
    client dereference a null pointer: the room passes a null stream on, and
    the client asks it for its id once the offer has parsed. *)
Lemma client_offer_for_unknown_connection {J : JsonLib} {L} {R : RtcLib L} {MO : MapOrder}
    connId sdp desc (w : World (TestBasicExampleRoom L)) :
  rtc_parse_sdp Rtc.kOffer sdp = Some desc →
  no_match connId w.(w_heap) w.(w_room).(remote_stream_infos_) →
  (run_note (TReceiveOffer connId sdp) w).1 = Undef NullDeref.
Proof.
  intros Hp Hn. cbn [run_note]. unfold run_offer. rewrite rm_bind.
  rewrite (ST_bind_Ret _ _ _ _ _ (find_conn_no_match _ _ _ Hn)).
  simpl. unfold OnReceiveOffer, Wrapper.CreateSessionDescription. by rewrite Hp.
Qed.
