(* ===== verification/Scenarios.v ===== *)
(** * Scenarios

    A concrete world: the example client in a room, with a model of JSON, a
    library that hands out numbered objects and a session that is open. The
    general theorems about the signaling, the room and the client are applied
    to it. *)

From stdpp Require Import base list strings gmap.
From Stdlib Require Import Ascii ZArith Lia.
From S2P Require Import Prelude CppString StdContainers Json JsonModel PktBuilder PktProps RtcData Webrtc.
From S2P Require Import WebsocketSession WebsocketProps Scheduler Worker LicodeData Signaling.
From S2P Require Import SignalingProps Room RoomLaws RoomProps RoomInv Client ClientProps.

Local Open Scope Z_scope.
Import Client.

(** ** The environment *)

(** A library whose objects are numbered in the order they are made. *)
#[global] Instance counting_rtc : RtcLib nat := {|
  rtc_log_timestamps _ := mret tt;
  rtc_log_to_stderr _ := mret tt;
  rtc_log_threads _ := mret tt;
  rtc_log_to_debug _ := mret tt;
  rtc_thread_create n := (Ret n, S n);
  rtc_thread_start _ := mret tt;
  rtc_create_factory _ n := (Ret (Some n), S n);
  rtc_create_pc _ _ n := (Ret (Some n), S n);
  rtc_set_remote _ _ := mret tt;
  rtc_set_local _ _ := mret tt;
  rtc_create_answer _ _ := mret tt;
  rtc_add_sink _ := mret tt;
  rtc_parse_sdp t s := if decide (s = []) then None else Some (Rtc.mkDesc t s)
|}.

#[global] Instance counting_ready : RtcReady nat.
Proof. split; intros; simpl; eauto. Qed.

(** The order [map_to_list] happens to give. *)
#[global] Instance list_order : MapOrder := {| map_order := map_to_list; map_order_perm _ := reflexivity _ |}.

Abbreviation Client0 := (TestBasicExampleRoom nat).

Definition sample_token : Token.LicodeToken :=
  Token.mkToken $"42" $"chat.example:8080" false $"signature".

Definition sample_client : Client0 := mkClient ∅ (mkProcess (Wrapper.mkWrapper true (Some 0%nat)) 1%nat).

(** The room before Join. *)
Definition before : World Client0 := construct Worker.new_worker None 0 sample_token sample_client.

(** An open session, its reader waiting. *)
Definition open_session : Ws :=
  mkWs [] [] [] 8080 [] false true [] [OpRead] true [] [] [] true true true.

Definition camera : StreamInfo.LicodeStreamInfo := StreamInfo.make 7 true true false [] false [].

(** In the room, the session open, one stream announced at location 3. *)
Definition joined (r : LicodeRoom) : World Client0 :=
  mkWorld (mkSig Signaling.kConnected sample_token [] [] 25000 60000 (Some 0%nat) true true true true true)
    {[0%nat := open_session]} Worker.new_worker None 0 {[3%nat := camera]} true r sample_client.

Definition in_room : LicodeRoom := set_room_state kConnected (new_room sample_token).
Definition room_with_stream : LicodeRoom :=
  set_pending_subscribe [7] (set_remote {[7 := Some 3%nat]} in_room).

Lemma sample_pkt : ∃ pkt, token_Build (token_SetSinglePC false (token_SetSignature $"signature"
  (token_SetSecure false (token_SetHost $"chat.example:8080" (token_SetTokenId $"42" token_new))))) = Ret pkt.
Proof. eexists. vm_compute. reflexivity. Qed.

(** ** Signaling *)
Lemma sig_dispatch_witness : ∃ r, $"3probe" = leading_digits $"3probe" ++ r ∧
  OnWebsocketMsg (H := room_sig_host) $"3probe" before =
    match list_find (λ e, e.1 = leading_digits $"3probe") (dispatch_table (H := room_sig_host)) with
    | Some (_, (_, act)) => act r before
    | None => (Ret tt, before)
    end.
Proof. apply (sig_dispatch (H := room_sig_host) $"3probe" before). by vm_compute. Defined.

Lemma sample_session :
  ∃ ws, WebsocketSession.new_session (signaling_url sample_token.(Token.host)) = Ret ws.
Proof. eexists. vm_compute. reflexivity. Qed.

Lemma sig_refines_state_machine_witness :
  (sig_get (run_event (H := room_sig_host) (EInit sample_token) before).2).(Signaling.state_) =
  sig_spec (EInit sample_token) (sig_get before).(Signaling.state_).
Proof.
  exact (proj1 (sig_refines_state_machine (H := room_sig_host) (EInit sample_token) before
    (λ _, sample_session))).
Defined.

Lemma sig_init_connects_witness : ∃ l w',
  Signaling.Init sample_token before = (Ret true, w') ∧
  w'.(w_signaling).(websocket_) = Some l.
Proof.
  destruct (sig_init_connects sample_token $"chat.example" 8080 before) as (l & w' & H & _ & Hl & _);
    [done|by vm_compute|apply (bool_decide_unpack _); by vm_compute
    |apply (bool_decide_unpack _); by vm_compute|lia|done|by vm_compute|].
  by exists l, w'.
Defined.

Lemma sig_send_only_when_connected_witness : ∃ w',
  Signaling.SendMsg $"2" (joined in_room) = (Ret tt, w') ∧
  sig_get w' = sig_get (joined in_room) ∧
  ws_get (WsStore := session 0) w' =
    (let ws := ws_get (WsStore := session 0) (joined in_room) in
     set_posted (ws.(posted) ++
       if decide ((sig_get (joined in_room)).(Signaling.state_) = Signaling.kConnected ∧
                  ws.(WebsocketSession.connected_) = true)
       then [PSend $"2"] else []) ws).
Proof. apply (sig_send_only_when_connected $"2" 0%nat (joined in_room)). done. Defined.

Lemma sig_token_handshake_witness : ∃ pkt w',
  OnWebsocketMsg (H := room_sig_host) ($"40" ++ []) (joined in_room) = (Ret tt, w') ∧
  sig_get w' = Signaling.set_state Signaling.kConnected (sig_get (joined in_room)) ∧
  ws_get (WsStore := session 0) w' =
    (let ws := ws_get (WsStore := session 0) (joined in_room) in
     set_posted (ws.(posted) ++ [PSend ($"42111" ++ pkt)]) ws).
Proof.
  destruct sample_pkt as [pkt Hp]. exists pkt.
  apply (sig_token_handshake (H := room_sig_host) [] pkt 0%nat (joined in_room));
    [done|done|exact Hp|done|by vm_compute].
Defined.

(** ** Room *)
Lemma room_is_not_told_of_a_lost_connection_witness : ∃ w',
  complete (H := session_host (H := room_sig_host) (Ret tt) 0) 0 (Failed $"reset") (joined in_room) = (Ret tt, w') ∧
  w'.(w_signaling).(Signaling.state_) = kDisconnect ∧ w'.(w_room).(state_) = kConnected ∧
  Room.Join w' = (Ret tt, w') ∧ ∀ msg, Signaling.SendMsg msg w' = (Ret tt, w').
Proof. by apply (room_is_not_told_of_a_lost_connection (Ret tt) 0 0 $"reset" (joined in_room)). Defined.

Lemma room_unpublish_sends_unsubscribe_witness :
  UnPublishStream true 7 (joined in_room) = UnSubscriberStream true 7 (joined in_room).
Proof. by apply (room_unpublish_sends_unsubscribe 7 (joined in_room)). Defined.

Lemma online_joined r : online 0 (joined r).
Proof. done. Qed.

Lemma camera_packet : ∃ text, subscribe_Build (subscribe_packet 7) = Ret text.
Proof. eexists. vm_compute. reflexivity. Qed.

Lemma room_remote_stream_leaves_null_local_witness : ∃ w',
  run_note (TAddStream 3%nat) (joined in_room) = (Ret tt, w') ∧
  w'.(w_room).(local_stream_infos_) = {[7 := None]} ∧
  (run_note (TErizoReady $"other") w').1 = Undef NullDeref.
Proof.
  apply (room_remote_stream_leaves_null_local 3%nat camera $"other" (joined in_room)).
  - done.
  - done.
  - intros r. destruct camera_packet as [text Ht].
    destruct (OnAddRemoteStream_online 0 3%nat camera text (joined r))
      as (w' & c & E & _ & _ & Hr & Hh & _); [done..|].
    exists w'. by rewrite Hr, Hh.
  - intros k p. cbn [joined w_room in_room set_room_state new_room remote_stream_infos_].
    rewrite lookup_insert_Some, lookup_empty. intros [[<- <-]|[_ ?]]; [|done].
    by exists 3%nat, camera.
Defined.

Definition ack : @json model_json := JArr [JNum 7; JStr $"erizo1"; JStr $"conn1"].


Definition sample_ops : list room_op := [OJoin; OMessage $"0{}"; OIce false 7 [] 0 []; OWork; OLeave].


Lemma room_refines_remote_streams_witness :
  let w := joined room_with_stream in
  ∃ w', run_note (TRemoveStream 7) w = (Ret tt, w') ∧
    view (remote w') = spec_note (id_in w) (mine_in w) (TRemoveStream 7) (view (remote w)).
Proof.
  intros w. eexists. split; [reflexivity|].
  apply (room_refines_remote_streams (TRemoveStream 7) w); [|reflexivity].
  apply (bool_decide_unpack _). by vm_compute.
Defined.

Lemma room_local_candidate_leaves_null_remote_witness :
  let w' := (run_send (TSendIce 7 [] 0 []) (joined in_room)).2 in
  remote w' = {[7 := None]} ∧ (run_note (TReceiveOffer $"c" $"sdp") w').1 = Undef NullDeref.
Proof. by apply (room_local_candidate_leaves_null_remote 7 [] 0 [] $"c" $"sdp" (joined in_room)). Defined.

(** ** Client *)
(** The event of the server that announces the camera, as text. *)
Definition camera_json : jv :=
  JObj [($"attributes", JObj []); ($"audio", JBool true); ($"data", JBool false); ($"id", JNum 7);
        ($"label", JStr $"cam"); ($"screen", JBool false); ($"video", JBool true)].
Definition announcement : str := print (JArr [JStr $"onAddStream"; camera_json]).

Definition announced_camera : StreamInfo.LicodeStreamInfo :=
  StreamInfo.make 7 true true false $"cam" false (print (JObj [])).

Lemma camera_announced : announces announcement announced_camera.
Proof.
  exists (JArr [JStr $"onAddStream"; camera_json]), (print camera_json), camera_json.
  split_and!; by vm_compute.
Qed.

(** In the room, the worker's thread running. *)
Definition serving : World Client0 := put_worker (Worker.Start Worker.new_worker) (joined in_room).

Lemma client_subscribes_to_announced_stream_witness : ∃ l w1 w2 c out j,
  complete (H := session_host (H := room_sig_host) (Ret tt) 0) 0 (Data ($"42" ++ announcement)) serving = (Ret tt, w1) ∧
  run_next w1 = (Ret tt, w2) ∧
  (socket 0 w1).(pending) = delete 0%nat (socket 0 serving).(pending) ++ [OpRead] ∧
  w2.(w_room).(remote_stream_infos_) !! 7 = Some (Some l) ∧ w1.(w_heap) !! l = Some announced_camera ∧
  peers w2 !! 7 = Some (Some c) ∧
  w2.(w_room).(pending_subscribe_streams_) = serving.(w_room).(pending_subscribe_streams_) ++ [7] ∧
  (socket 0 w2).(posted) = (socket 0 serving).(posted) ++ [PSend (SubscribeStreamMsgHeader ++ out)] ∧
  j_parse out = Ret j ∧ Forall (reads j) (PktProps.wire (PSubscribe (subscribe_packet 7))).
Proof.
  apply (client_subscribes_to_announced_stream (JL := model_laws) (Ret tt) 0 0 announcement
    announced_camera serving); first [exact camera_announced | done].
Defined.

Lemma client_offer_for_unknown_connection_witness :
  (run_note (TReceiveOffer $"nobody" $"sdp") (joined in_room)).1 = Undef NullDeref.
Proof.
  apply (client_offer_for_unknown_connection $"nobody" $"sdp" (Rtc.mkDesc Rtc.kOffer $"sdp") (joined in_room));
    [done|]. intros k p. cbn [joined w_room in_room set_room_state new_room remote_stream_infos_].
  by rewrite lookup_empty.
Defined.
